(** * PTLsim: a shallow embedding of the out-of-order core and of the
    configuration parser

    Sources embedded here:
    - [src/tags/import/ptlsim/config.cpp]  : the option table and [parse_options];
    - [src/tags/import/ptlsim/ooocore.cpp] : physical registers and their
      reference counts, the rename gate, [issuestore], [annul], [issue],
      [transfer], [commit] and the top-level driver loop.

    Machine integers are [Z] with the wrap-around written out ([W64], [W16s]).
    The arrays of the simulator (ROB, LSQ, register file, rename tables) are lists
    read with [!!] and written with [<[ i := x ]>] or [alter].  Counters of the
    statistics tree are one finite map from the counter's name to its value.

    The first part of the file holds the definitions, the second the theorems. *)

From stdpp Require Import base list strings gmap.
From Stdlib Require Import ZArith Lia Ascii.
Open Scope Z_scope.

(* ===================================================================== *)
(** * Part I: definitions                                                  *)
(* ===================================================================== *)

(** ** Machine words *)

Definition W64 (z : Z) : Z := z mod 2 ^ 64.

(** [W16s]: a value stored into a signed 16 bit field. *)
Definition W16s (z : Z) : Z := (z + 2 ^ 15) mod 2 ^ 16 - 2 ^ 15.

(** C's [!x] on an integer. *)
Definition lnot (z : Z) : Z := if decide (z = 0) then 1 else 0.

(** [lowbits(x, n)]: the low [n] bits of [x]. *)
Definition lowbits (x n : Z) : Z := Z.land x (Z.ones n).

(** [floor(x, a)] for a power of two [a]: [x] rounded down to a multiple of [a]. *)
Definition floor (x a : Z) : Z := Z.land x (Z.lnot (a - 1)).

(** [bit(x, n)] *)
Definition bit (x n : Z) : bool := Z.testbit x n.

(* --------------------------------------------------------------------- *)
(** ** config.cpp *)
(* --------------------------------------------------------------------- *)

Module Config.

Inductive option_type :=
| OPTION_TYPE_NONE | OPTION_TYPE_W64 | OPTION_TYPE_FLOAT | OPTION_TYPE_STRING
| OPTION_TYPE_TRAILER | OPTION_TYPE_BOOL | OPTION_TYPE_SECTION.

(** The [W64] globals an option may point at (config.cpp lines 37-62). *)
Inductive w64_var :=
| nobanner | loglevel | include_dyn_linker | start_at_rip | start_at_rip_repeat
| stop_at_iteration | insns_in_last_basic_block | stop_at_rip | stop_at_user_insns
| force_seq_at_iteration | all_sequential | start_log_at_iteration
| start_short_log_at_iteration | user_profile_only | trigger_mode
| exit_after_fullsim | perfect_cache | snapshot_cycles | flush_interval
| use_out_of_order_core | use_out_of_order_core_dummy.

(** The [char*] globals. *)
Inductive str_var := log_filename | stats_filename | dumpcode_filename.

#[global] Instance w64_var_eq_dec : EqDecision w64_var.
Proof. solve_decision. Defined.
#[global] Instance str_var_eq_dec : EqDecision str_var.
Proof. solve_decision. Defined.

(** [void* variable] of an option: the address of one of the globals. *)
Inductive var_ref := W64Ref (v : w64_var) | StrRef (v : str_var).

Record CommandLineOptions := {
  opt : option string;          (* char* option; null for a section header *)
  type : option_type;
  ishex : bool;
  description : string;
  variable : option var_ref     (* void* variable; null for a section header *)
}.

(** The values of the globals: the store [parse_options] writes through the
    [variable] pointers. *)
Record Globals := {
  w64 : w64_var -> Z;
  chars : str_var -> option string   (* None is the null pointer *)
}.

Definition set_w64 (v : w64_var) (x : Z) (g : Globals) : Globals :=
  {| w64 := fun v' => if decide (v' = v) then x else w64 g v'; chars := chars g |}.

Definition set_chars (v : str_var) (x : option string) (g : Globals) : Globals :=
  {| w64 := w64 g; chars := fun v' => if decide (v' = v) then x else chars g v' |}.

Definition mkopt (o : string) (t : option_type) (d : string) (v : var_ref) : CommandLineOptions :=
  {| opt := Some o; type := t; ishex := false; description := d; variable := Some v |}.

Definition mksection (d : string) : CommandLineOptions :=
  {| opt := None; type := OPTION_TYPE_SECTION; ishex := false; description := d; variable := None |}.

(** [CommandLineOptions options[]], config.cpp lines 69-105. *)
Definition options : list CommandLineOptions := [
  mksection "Logging Control";
  mkopt "quiet" OPTION_TYPE_BOOL "Do not print PTLsim system information banner" (W64Ref nobanner);
  mkopt "logfile" OPTION_TYPE_STRING "Log filename (use /dev/fd/1 for stdout, /dev/fd/2 for stderr)" (StrRef log_filename);
  mkopt "loglevel" OPTION_TYPE_W64 "Log level" (W64Ref loglevel);
  mkopt "startlog" OPTION_TYPE_W64 "Start logging after iteration <startlog>" (W64Ref start_log_at_iteration);
  mkopt "shortlog" OPTION_TYPE_W64 "Start summary logging after iteration <shortlog>" (W64Ref start_short_log_at_iteration);
  mksection "Statistics Database";
  mkopt "stats" OPTION_TYPE_STRING "Statistics data store hierarchy root" (StrRef stats_filename);
  mkopt "snapshot" OPTION_TYPE_W64 "Take statistical snapshot and reset every <snapshot> cycles" (W64Ref snapshot_cycles);
  mksection "Trace Start Point";
  mkopt "startrip" OPTION_TYPE_W64 "Start at rip <startrip>" (W64Ref start_at_rip);
  mkopt "startrepeat" OPTION_TYPE_W64 "Start only after passing <startrip> at least <startrepeat> times" (W64Ref start_at_rip_repeat);
  mkopt "excludeld" OPTION_TYPE_BOOL "Exclude dynamic linker execution" (W64Ref include_dyn_linker);
  mkopt "trigger" OPTION_TYPE_BOOL "Trigger mode: wait for user process to do simcall before entering PTL mode" (W64Ref trigger_mode);
  mksection "Trace Stop Point";
  mkopt "stop" OPTION_TYPE_W64 "Stop after <stop> iterations" (W64Ref stop_at_iteration);
  mkopt "stoprip" OPTION_TYPE_W64 "Stop before rip <stoprip> is translated for the first time" (W64Ref stop_at_rip);
  mkopt "bbinsns" OPTION_TYPE_W64 "In final basic block, only translate <bbinsns> user instructions" (W64Ref insns_in_last_basic_block);
  mkopt "stopinsns" OPTION_TYPE_W64 "Stop after executing <stopinsns> user instructions" (W64Ref stop_at_user_insns);
  mkopt "flushevery" OPTION_TYPE_W64 "Flush the pipeline every N committed instructions" (W64Ref flush_interval);
  mksection "Sequential and Native Control";
  mkopt "profonly" OPTION_TYPE_BOOL "Profile user code in native mode only; don't simulate anything" (W64Ref user_profile_only);
  mkopt "forceseq" OPTION_TYPE_W64 "Force trace at or after iteration <forceseq> to run sequential version" (W64Ref force_seq_at_iteration);
  mkopt "allseq" OPTION_TYPE_BOOL "Completely disable out of order execution mode" (W64Ref all_sequential);
  mkopt "exitend" OPTION_TYPE_BOOL "Kill the thread after full simulation completes rather than going native" (W64Ref exit_after_fullsim);
  mksection "Debugging";
  mkopt "dumpcode" OPTION_TYPE_STRING "Save page of user code at final rip to file <dumpcode>" (StrRef dumpcode_filename);
  mkopt "perfect-cache" OPTION_TYPE_BOOL "Perfect cache hit rate" (W64Ref perfect_cache);
  mkopt "ooo" OPTION_TYPE_BOOL "Use out of order core instead of PT2x core" (W64Ref use_out_of_order_core_dummy)
].

(** What [parse_options] prints on [cerr] while it reads the arguments. *)
Inductive warning :=
| MissingValue (o : string)
| NoArgument (o : string)
| InvalidValue (p o : string)
| InvalidOption (next : option string).

Section Parse.

(** [MAX_CYCLE] comes from a header that is not among the sources. *)
Variable MAX_CYCLE : Z.

(** libc's [strtoll(p, &endp, 0)]: the value read and the text left at [endp]. *)
Variable strtoll : string -> Z * string.

(** The initial values of the globals (config.cpp lines 37-62); a global with
    no initializer starts at zero. *)
Definition initial_globals : Globals := {|
  w64 := fun v =>
    match v with
    | nobanner => 0 | loglevel => 0 | include_dyn_linker => 1
    | start_at_rip => 0 | start_at_rip_repeat => 1
    | stop_at_iteration => MAX_CYCLE | insns_in_last_basic_block => 65536
    | stop_at_rip => 0 | stop_at_user_insns => MAX_CYCLE
    | force_seq_at_iteration => MAX_CYCLE | all_sequential => 0
    | start_log_at_iteration => MAX_CYCLE
    | start_short_log_at_iteration => MAX_CYCLE
    | user_profile_only => 0 | trigger_mode => 0 | exit_after_fullsim => 0
    | perfect_cache => 0 | snapshot_cycles => MAX_CYCLE
    | flush_interval => MAX_CYCLE | use_out_of_order_core => 1
    | use_out_of_order_core_dummy => 0
    end;
  chars := fun _ => None
|}.

(** The first entry of the table that is not a section header and whose name
    is [o]: the inner [for] loop of [parse_options]. *)
Fixpoint find_option (o : string) (table : list CommandLineOptions) : option CommandLineOptions :=
  match table with
  | [] => None
  | e :: table' =>
      match type e with
      | OPTION_TYPE_SECTION => find_option o table'
      | _ => if bool_decide (opt e = Some o) then Some e else find_option o table'
      end
  end.

(** The suffix of a numeric argument: [(multiplier, text without the suffix)].
    Only looked at when the text is longer than one character. *)
Definition split_suffix (p : string) : Z * string :=
  let n := String.length p in
  if decide (1 < n)%nat then
    let body := String.substring 0 (n - 1) p in
    match String.get (n - 1) p with
    | Some "k"%char | Some "K"%char => (1000, body)
    | Some "m"%char | Some "M"%char => (1000000, body)
    | Some "g"%char | Some "G"%char => (1000000000, body)
    | Some "t"%char | Some "T"%char => (1000000000000, body)
    | _ => (1, p)
    end
  else (1, p).

(** What one matched option does: the new globals, the warnings, and whether
    the argument after the option ([argv[i]]) was consumed ([i++]).
    [next] is [argv[i]], or [None] when [i == argc+1]. *)
Definition apply_option (e : CommandLineOptions) (oname : string) (next : option string)
    (g : Globals) : Globals * list warning * bool :=
  match type e, next with
  | OPTION_TYPE_NONE, _ => (g, [], false)
  | OPTION_TYPE_BOOL, _ =>
      match variable e with
      | Some (W64Ref v) => (set_w64 v (lnot (w64 g v)) g, [], false)
      | _ => (g, [], false)
      end
  | _, None => (g, [MissingValue oname], false)
  | OPTION_TYPE_W64, Some p =>
      if decide (String.length p = 0%nat) then (g, [NoArgument oname], false)
      else
        let '(multiplier, p') := split_suffix p in
        let '(v, endp) := strtoll p' in
        let w := if decide (endp = "") then [] else [InvalidValue p' oname] in
        let v := W64 (W64 v * multiplier) in
        match variable e with
        | Some (W64Ref x) => (set_w64 x v g, w, true)
        | _ => (g, w, true)
        end
  | OPTION_TYPE_FLOAT, Some _ => (g, [], true)   (* no option of the table is a float *)
  | OPTION_TYPE_STRING, Some p =>
      match variable e with
      | Some (StrRef x) => (set_chars x (Some p) g, [], true)
      | _ => (g, [], true)
      end
  | _, Some _ => (g, [], false)                  (* default: assert(false), compiled out *)
  end.

(** The [while (i <= argc)] loop over [argv[i..argc]]. *)
Fixpoint parse_loop (argv : list string) (g : Globals) : Globals * list warning :=
  match argv with
  | [] => (g, [])
  | a :: rest =>
      match a with
      | String "-"%char (String c o') =>
          let o := String c o' in
          match find_option o options with
          | Some e =>
              let '(g', w, consumed) := apply_option e a (head rest) g in
              match consumed, rest with
              | true, _ :: rest' => let '(g'', w') := parse_loop rest' g' in (g'', w ++ w')
              | _, _ => let '(g'', w') := parse_loop rest g' in (g'', w ++ w')
              end
          | None =>
              (* argv[i++] in the warning skips the argument after the option *)
              match rest with
              | _ :: rest' => let '(g'', w') := parse_loop rest' g in (g'', InvalidOption (head rest) :: w')
              | [] => (g, [InvalidOption None])
              end
          end
      | _ => (g, [])     (* trailing arguments: goto done *)
      end
  end.

(** [parse_options(argc, argv, ...)]: [argv] holds [argv[1..argc]]. The banner
    and the list of active parameters written afterwards change no global. *)
Definition parse_options (argv : list string) (g : Globals) : Globals * list warning :=
  parse_loop argv g.

(** The options of type [OPTION_TYPE_BOOL] with the global each one points at. *)
Definition bool_options : list (string * w64_var) :=
  omap (fun e =>
    match type e, opt e, variable e with
    | OPTION_TYPE_BOOL, Some o, Some (W64Ref v) => Some (o, v)
    | _, _, _ => None
    end) options.

End Parse.

End Config.

(* --------------------------------------------------------------------- *)
(** ** ooocore.cpp: configuration of the modelled machine *)
(* --------------------------------------------------------------------- *)

(** The constants and tables that ooocore.cpp takes from headers which are not
    among the sources ([ooohwdef.h], [ptlsim.h], [globals.h]). They are parameters
    of the model; nothing below depends on their values. *)
Class HwDef := {
  ROB_SIZE : nat;
  LDQ_SIZE : nat;
  STQ_SIZE : nat;
  PHYS_REG_FILE_SIZE : nat;
  PHYS_REG_NULL : nat;
  PHYS_REG_ARCH_BASE : nat;
  ARCHREG_COUNT : nat;
  MAX_CLUSTERS : nat;
  MAX_FORWARDING_LATENCY : Z;
  FRONTEND_WIDTH : nat;
  FRONTEND_STAGES : Z;
  COMMIT_WIDTH : nat;
  FU_COUNT : Z;
  VIRT_ADDR_BITS : Z;
  (* architectural register numbers *)
  REG_rip : nat; REG_flags : nat; REG_zf : nat; REG_cf : nat; REG_of : nat;
  REG_imm : nat; REG_mem : nat; REG_zero : nat; REG_sr1 : nat;
  (* flag bits of a physical register; setflags bits of a uop *)
  FLAG_INV : Z; FLAG_WAIT : Z;
  SETFLAG_ZF : Z; SETFLAG_CF : Z; SETFLAG_OF : Z;
  setflags_to_x86_flags : Z -> Z;
  (* exception codes *)
  EXCEPTION_Propagate : Z;
  EXCEPTION_UnalignedAccess : Z;
  EXCEPTION_PageFaultOnRead : Z;
  EXCEPTION_PageFaultOnWrite : Z;
  EXCEPTION_PageFaultOnExec : Z;
  EXCEPTION_LoadStoreAliasing : Z;
  EXCEPTION_SkipBlock : Z;
  (* align types of loads and stores ([uop.cond]) *)
  LDST_ALIGN_NORMAL : Z; LDST_ALIGN_LO : Z; LDST_ALIGN_HI : Z;
  (* the opcode table [opinfo] and the clusters *)
  isload : Z -> bool;
  isstore : Z -> bool;
  isbranch : Z -> bool;
  isbarrier : Z -> bool;          (* isclass(opcode, OPCLASS_BARRIER) *)
  OP_chk : Z;
  opclassof : Z -> Z;
  opinfo_fu : Z -> Z;             (* opinfo[opcode].fu *)
  opinfo_latency : Z -> Z;        (* opinfo[opcode].latency *)
  clusters_fu_mask : Z -> Z;      (* clusters[cluster].fu_mask *)
  BRANCH_HINT_COND : Z; BRANCH_HINT_INDIRECT : Z;
  BRANCH_HINT_CALL : Z; BRANCH_HINT_RET : Z
}.

(** [LSQ_SIZE] (line 683). *)
Definition LSQ_SIZE `{HwDef} : nat := (LDQ_SIZE + STQ_SIZE)%nat.

(** [MAX_OPERANDS] and the operand positions (lines 44-48). *)
Definition MAX_OPERANDS : nat := 4.
Definition RA : nat := 0.
Definition RB : nat := 1.
Definition RC : nat := 2.
Definition RS : nat := 3.

(** [archdest_can_rename] (lines 1405-1421); [archdest_can_commit] is the same
    table (line 1423). Its length is [TRANSREG_COUNT]. *)
Definition archdest_can_rename : list Z := [
  (* Integer registers *)
  1; 1; 1; 1; 1; 1; 1; 1;
  1; 1; 1; 1; 1; 1; 1; 1;
  (* SSE registers, low 64 bits *)
  1; 1; 1; 1; 1; 1; 1; 1;
  1; 1; 1; 1; 1; 1; 1; 1;
  (* SSE registers, high 64 bits *)
  1; 1; 1; 1; 1; 1; 1; 1;
  1; 1; 1; 1; 1; 1; 1; 1;
  (* x87 FP / MMX / special *)
  1; 1; 1; 1; 1; 1; 1; 1;
  1; 1; 1; 1; 1; 1; 1; 0;
  (* The following are ONLY used during the translation and renaming process: *)
  1; 1; 1; 1; 1; 1; 1; 1;
  1; 1; 1; 0; 1; 0; 0; 0
].

Definition archdest_can_commit : list Z := archdest_can_rename.

Definition TRANSREG_COUNT : nat := Eval cbv in length archdest_can_rename.

(** [(ISSUE_COMPLETED, ISSUE_NEEDS_REPLAY, ISSUE_MISSPECULATED)] (lines 2199-2203). *)
Definition ISSUE_COMPLETED : Z := 1.
Definition ISSUE_NEEDS_REPLAY : Z := 0.
Definition ISSUE_MISSPECULATED : Z := -1.

(** The results of commit (lines 3519-3525). *)
Definition COMMIT_RESULT_NONE : Z := 0.
Definition COMMIT_RESULT_OK : Z := 1.
Definition COMMIT_RESULT_EXCEPTION : Z := 2.
Definition COMMIT_RESULT_BARRIER : Z := 3.
Definition COMMIT_RESULT_STOP : Z := 4.

(** ** State lists *)

(** The ROB state lists (lines 476-493). An entry is linked into at most one of
    them and records which in [current_state_list]; the model keeps that field,
    and a loop over a list visits the entries that name it. The order within a
    list plays no part in the loops embedded here: each of them touches only the
    entry it visits. *)
Inductive rob_list :=
| rob_free_list
| rob_frontend_list
| rob_ready_to_dispatch_list
| rob_dispatched_list (cluster : Z)
| rob_ready_to_issue_list (cluster : Z)
| rob_ready_to_store_list (cluster : Z)
| rob_ready_to_load_list (cluster : Z)
| rob_issued_list (cluster : Z)
| rob_completed_list (cluster : Z)
| rob_ready_to_writeback_list (cluster : Z)
| rob_cache_miss_list
| rob_ready_to_commit_queue.

(** The physical register state lists (lines 762-778). *)
Inductive physreg_list :=
| physreg_free_list
| physreg_used_list
| physreg_ready_list
| physreg_written_list
| physreg_arch_list
| physreg_pendingfree_list.

#[global] Instance rob_list_eq_dec : EqDecision rob_list.
Proof. solve_decision. Defined.
#[global] Instance physreg_list_eq_dec : EqDecision physreg_list.
Proof. solve_decision. Defined.

(** ** Circular queues *)

(** Modelled from the spec: [Queue<T, SIZE>] and its iteration macros come from
    [globals.h], which is not among the sources. The spec (section 3) has the ROB
    and the LSQ as fixed-capacity circular queues in program order from [head]
    (oldest) to [tail]; section 4.8 has [tail - 1] as the youngest entry. *)
Record Queue (T : Type) := {
  q_data : list T;
  q_head : nat;
  q_tail : nat;
  q_count : nat
}.
Arguments q_data {T} _.
Arguments q_head {T} _.
Arguments q_tail {T} _.
Arguments q_count {T} _.
Arguments Build_Queue {T} _ _ _ _.

Definition set_q_data {T} (x : list T) (q : Queue T) : Queue T :=
  Build_Queue x (q_head q) (q_tail q) (q_count q).

(** [add_index_modulo(index, increment, bufsize)] for an index inside the buffer
    and an increment of +1 or -1. *)
Definition add_index_modulo (index : nat) (increment : Z) (bufsize : nat) : nat :=
  Z.to_nat ((Z.of_nat index + increment) mod Z.of_nat bufsize).

(** [for (i = start; i != stop; i = add_index_modulo(i, step, size))]: the
    indices visited. With [start] and [stop] inside the buffer the loop ends
    within [size] steps, which is the fuel every use below gives it. *)
Fixpoint indices_until (size stop : nat) (step : Z) (fuel i : nat) : list nat :=
  match fuel with
  | O => []
  | S fuel' =>
      if decide (i = stop) then []
      else i :: indices_until size stop step fuel' (add_index_modulo i step size)
  end.

Section QueueOps.
Context {T : Type}.
Variable SIZE : nat.

(** [foreach_forward(Q, i)]: from [head] up to [tail]. *)
Definition foreach_forward (Q : Queue T) : list nat :=
  indices_until SIZE (q_tail Q) 1 SIZE (q_head Q).

(** [foreach_forward_from(Q, E, i)]: from the entry [E] up to [tail]. *)
Definition foreach_forward_from (Q : Queue T) (e : nat) : list nat :=
  indices_until SIZE (q_tail Q) 1 SIZE e.

(** [foreach_forward_after(Q, E, i)]: from the entry after [E] up to [tail]. *)
Definition foreach_forward_after (Q : Queue T) (e : nat) : list nat :=
  indices_until SIZE (q_tail Q) 1 SIZE (add_index_modulo e 1 SIZE).

(** [foreach_backward_before(Q, E, i)]: from the entry before [E] down to [head]. *)
Definition foreach_backward_before (Q : Queue T) (e : nat) : list nat :=
  indices_until SIZE (add_index_modulo (q_head Q) (-1) SIZE) (-1) SIZE
    (add_index_modulo e (-1) SIZE).

(** [remaining()], [empty()]. One slot stays unused, so that [head = tail] only
    when the queue is empty and the loops above see every entry. *)
Definition q_remaining (Q : Queue T) : nat := (SIZE - q_count Q - 1)%nat.
Definition q_empty (Q : Queue T) : bool := bool_decide (q_count Q = 0%nat).

(** [alloc()]: the entry at [tail] is validated and [tail] moves on; the caller
    has checked [remaining()]. The index of the new entry is the old [tail]. *)
Definition q_alloc (validate : T -> T) (Q : Queue T) : Queue T :=
  Build_Queue (alter validate (q_tail Q) (q_data Q)) (q_head Q)
    (add_index_modulo (q_tail Q) 1 SIZE) (S (q_count Q)).

(** [commit(entry)]: the oldest entry leaves at [head]. *)
Definition q_commit (prepfree : T -> T) (e : nat) (Q : Queue T) : Queue T :=
  Build_Queue (alter prepfree e (q_data Q)) (add_index_modulo (q_head Q) 1 SIZE)
    (q_tail Q) (pred (q_count Q)).

(** [annul(entry)]: the youngest entry leaves at [tail]. *)
Definition q_annul (prepfree : T -> T) (e : nat) (Q : Queue T) : Queue T :=
  Build_Queue (alter prepfree e (q_data Q)) (q_head Q)
    (add_index_modulo (q_tail Q) (-1) SIZE) (pred (q_count Q)).

(** [reset()]: empty, every entry back to [init()]. *)
Definition q_reset (init : T -> T) (Q : Queue T) : Queue T :=
  Build_Queue (init <$> q_data Q) 0%nat 0%nat 0%nat.

End QueueOps.

(** ** Entries *)

(** The uop of a ROB entry: the fields of [TransOp] and [FetchBufferEntry] that the
    embedded functions read ([TransOp] itself is declared in a header that is not
    among the sources). *)
Record FetchBufferEntry := {
  uop_opcode : Z;
  uop_som : bool;
  uop_eom : bool;
  uop_bytes : Z;
  uop_rd : nat;
  uop_ra : nat;
  uop_rb : nat;
  uop_rc : nat;
  uop_rbimm : Z;
  uop_rcimm : Z;
  uop_size : Z;   (* sizeshift of a load or store *)
  uop_cond : Z;   (* condition code; the align type of a load or store *)
  uop_internal : bool;
  uop_setflags : Z;
  uop_nouserflags : bool;
  uop_riptaken : Z;
  uop_ripseq : Z;
  uop_rip : Z;
  uop_uuid : Z;
  uop_bptype : Z   (* predinfo.bptype *)
}.


(** [struct ReorderBufferEntry] (ooocore.cpp lines 521-639). [indexref] fields hold
    the index of the entry they point at. *)
Record ReorderBufferEntry := {
  rob_current_state_list : option rob_list;   (* NULL after init() *)
  rob_uop : FetchBufferEntry;
  rob_cycles_left : Z;
  rob_forward_cycle : Z;
  rob_cluster : Z;
  rob_fu : Z;
  rob_lfrqslot : Z;
  rob_entry_valid : bool;
  rob_load_store_second_phase : bool;
  rob_iqslot : Z;
  rob_physreg : nat;
  rob_operands : list nat;   (* operands[MAX_OPERANDS] *)
  rob_lsq : nat
}.

Definition set_rob_current_state_list (x : option rob_list) (r : ReorderBufferEntry) : ReorderBufferEntry :=
  Build_ReorderBufferEntry x (rob_uop r) (rob_cycles_left r) (rob_forward_cycle r) (rob_cluster r) (rob_fu r) (rob_lfrqslot r) (rob_entry_valid r) (rob_load_store_second_phase r) (rob_iqslot r) (rob_physreg r) (rob_operands r) (rob_lsq r).
Definition set_rob_uop (x : FetchBufferEntry) (r : ReorderBufferEntry) : ReorderBufferEntry :=
  Build_ReorderBufferEntry (rob_current_state_list r) x (rob_cycles_left r) (rob_forward_cycle r) (rob_cluster r) (rob_fu r) (rob_lfrqslot r) (rob_entry_valid r) (rob_load_store_second_phase r) (rob_iqslot r) (rob_physreg r) (rob_operands r) (rob_lsq r).
Definition set_rob_cycles_left (x : Z) (r : ReorderBufferEntry) : ReorderBufferEntry :=
  Build_ReorderBufferEntry (rob_current_state_list r) (rob_uop r) x (rob_forward_cycle r) (rob_cluster r) (rob_fu r) (rob_lfrqslot r) (rob_entry_valid r) (rob_load_store_second_phase r) (rob_iqslot r) (rob_physreg r) (rob_operands r) (rob_lsq r).
Definition set_rob_forward_cycle (x : Z) (r : ReorderBufferEntry) : ReorderBufferEntry :=
  Build_ReorderBufferEntry (rob_current_state_list r) (rob_uop r) (rob_cycles_left r) x (rob_cluster r) (rob_fu r) (rob_lfrqslot r) (rob_entry_valid r) (rob_load_store_second_phase r) (rob_iqslot r) (rob_physreg r) (rob_operands r) (rob_lsq r).
Definition set_rob_cluster (x : Z) (r : ReorderBufferEntry) : ReorderBufferEntry :=
  Build_ReorderBufferEntry (rob_current_state_list r) (rob_uop r) (rob_cycles_left r) (rob_forward_cycle r) x (rob_fu r) (rob_lfrqslot r) (rob_entry_valid r) (rob_load_store_second_phase r) (rob_iqslot r) (rob_physreg r) (rob_operands r) (rob_lsq r).
Definition set_rob_fu (x : Z) (r : ReorderBufferEntry) : ReorderBufferEntry :=
  Build_ReorderBufferEntry (rob_current_state_list r) (rob_uop r) (rob_cycles_left r) (rob_forward_cycle r) (rob_cluster r) x (rob_lfrqslot r) (rob_entry_valid r) (rob_load_store_second_phase r) (rob_iqslot r) (rob_physreg r) (rob_operands r) (rob_lsq r).
Definition set_rob_lfrqslot (x : Z) (r : ReorderBufferEntry) : ReorderBufferEntry :=
  Build_ReorderBufferEntry (rob_current_state_list r) (rob_uop r) (rob_cycles_left r) (rob_forward_cycle r) (rob_cluster r) (rob_fu r) x (rob_entry_valid r) (rob_load_store_second_phase r) (rob_iqslot r) (rob_physreg r) (rob_operands r) (rob_lsq r).
Definition set_rob_entry_valid (x : bool) (r : ReorderBufferEntry) : ReorderBufferEntry :=
  Build_ReorderBufferEntry (rob_current_state_list r) (rob_uop r) (rob_cycles_left r) (rob_forward_cycle r) (rob_cluster r) (rob_fu r) (rob_lfrqslot r) x (rob_load_store_second_phase r) (rob_iqslot r) (rob_physreg r) (rob_operands r) (rob_lsq r).
Definition set_rob_load_store_second_phase (x : bool) (r : ReorderBufferEntry) : ReorderBufferEntry :=
  Build_ReorderBufferEntry (rob_current_state_list r) (rob_uop r) (rob_cycles_left r) (rob_forward_cycle r) (rob_cluster r) (rob_fu r) (rob_lfrqslot r) (rob_entry_valid r) x (rob_iqslot r) (rob_physreg r) (rob_operands r) (rob_lsq r).
Definition set_rob_iqslot (x : Z) (r : ReorderBufferEntry) : ReorderBufferEntry :=
  Build_ReorderBufferEntry (rob_current_state_list r) (rob_uop r) (rob_cycles_left r) (rob_forward_cycle r) (rob_cluster r) (rob_fu r) (rob_lfrqslot r) (rob_entry_valid r) (rob_load_store_second_phase r) x (rob_physreg r) (rob_operands r) (rob_lsq r).
Definition set_rob_physreg (x : nat) (r : ReorderBufferEntry) : ReorderBufferEntry :=
  Build_ReorderBufferEntry (rob_current_state_list r) (rob_uop r) (rob_cycles_left r) (rob_forward_cycle r) (rob_cluster r) (rob_fu r) (rob_lfrqslot r) (rob_entry_valid r) (rob_load_store_second_phase r) (rob_iqslot r) x (rob_operands r) (rob_lsq r).
Definition set_rob_operands (x : list nat) (r : ReorderBufferEntry) : ReorderBufferEntry :=
  Build_ReorderBufferEntry (rob_current_state_list r) (rob_uop r) (rob_cycles_left r) (rob_forward_cycle r) (rob_cluster r) (rob_fu r) (rob_lfrqslot r) (rob_entry_valid r) (rob_load_store_second_phase r) (rob_iqslot r) (rob_physreg r) x (rob_lsq r).
Definition set_rob_lsq (x : nat) (r : ReorderBufferEntry) : ReorderBufferEntry :=
  Build_ReorderBufferEntry (rob_current_state_list r) (rob_uop r) (rob_cycles_left r) (rob_forward_cycle r) (rob_cluster r) (rob_fu r) (rob_lfrqslot r) (rob_entry_valid r) (rob_load_store_second_phase r) (rob_iqslot r) (rob_physreg r) (rob_operands r) x.

(** [struct LoadStoreQueueEntry: public SFR] (lines 685-728); the SFR fields are
    the ones [operator =] copies. *)
Record LoadStoreQueueEntry := {
  lsq_data : Z;
  lsq_addrvalid : bool;
  lsq_datavalid : bool;
  lsq_invalid : bool;
  lsq_physaddr : Z;
  lsq_bytemask : Z;
  lsq_rob : option nat;   (* ReorderBufferEntry* rob *)
  lsq_mbtag : Z;
  lsq_store : bool;
  lsq_entry_valid : bool
}.

Definition set_lsq_data (x : Z) (l : LoadStoreQueueEntry) : LoadStoreQueueEntry :=
  Build_LoadStoreQueueEntry x (lsq_addrvalid l) (lsq_datavalid l) (lsq_invalid l) (lsq_physaddr l) (lsq_bytemask l) (lsq_rob l) (lsq_mbtag l) (lsq_store l) (lsq_entry_valid l).
Definition set_lsq_addrvalid (x : bool) (l : LoadStoreQueueEntry) : LoadStoreQueueEntry :=
  Build_LoadStoreQueueEntry (lsq_data l) x (lsq_datavalid l) (lsq_invalid l) (lsq_physaddr l) (lsq_bytemask l) (lsq_rob l) (lsq_mbtag l) (lsq_store l) (lsq_entry_valid l).
Definition set_lsq_datavalid (x : bool) (l : LoadStoreQueueEntry) : LoadStoreQueueEntry :=
  Build_LoadStoreQueueEntry (lsq_data l) (lsq_addrvalid l) x (lsq_invalid l) (lsq_physaddr l) (lsq_bytemask l) (lsq_rob l) (lsq_mbtag l) (lsq_store l) (lsq_entry_valid l).
Definition set_lsq_invalid (x : bool) (l : LoadStoreQueueEntry) : LoadStoreQueueEntry :=
  Build_LoadStoreQueueEntry (lsq_data l) (lsq_addrvalid l) (lsq_datavalid l) x (lsq_physaddr l) (lsq_bytemask l) (lsq_rob l) (lsq_mbtag l) (lsq_store l) (lsq_entry_valid l).
Definition set_lsq_physaddr (x : Z) (l : LoadStoreQueueEntry) : LoadStoreQueueEntry :=
  Build_LoadStoreQueueEntry (lsq_data l) (lsq_addrvalid l) (lsq_datavalid l) (lsq_invalid l) x (lsq_bytemask l) (lsq_rob l) (lsq_mbtag l) (lsq_store l) (lsq_entry_valid l).
Definition set_lsq_bytemask (x : Z) (l : LoadStoreQueueEntry) : LoadStoreQueueEntry :=
  Build_LoadStoreQueueEntry (lsq_data l) (lsq_addrvalid l) (lsq_datavalid l) (lsq_invalid l) (lsq_physaddr l) x (lsq_rob l) (lsq_mbtag l) (lsq_store l) (lsq_entry_valid l).
Definition set_lsq_rob (x : option nat) (l : LoadStoreQueueEntry) : LoadStoreQueueEntry :=
  Build_LoadStoreQueueEntry (lsq_data l) (lsq_addrvalid l) (lsq_datavalid l) (lsq_invalid l) (lsq_physaddr l) (lsq_bytemask l) x (lsq_mbtag l) (lsq_store l) (lsq_entry_valid l).
Definition set_lsq_mbtag (x : Z) (l : LoadStoreQueueEntry) : LoadStoreQueueEntry :=
  Build_LoadStoreQueueEntry (lsq_data l) (lsq_addrvalid l) (lsq_datavalid l) (lsq_invalid l) (lsq_physaddr l) (lsq_bytemask l) (lsq_rob l) x (lsq_store l) (lsq_entry_valid l).
Definition set_lsq_store (x : bool) (l : LoadStoreQueueEntry) : LoadStoreQueueEntry :=
  Build_LoadStoreQueueEntry (lsq_data l) (lsq_addrvalid l) (lsq_datavalid l) (lsq_invalid l) (lsq_physaddr l) (lsq_bytemask l) (lsq_rob l) (lsq_mbtag l) x (lsq_entry_valid l).
Definition set_lsq_entry_valid (x : bool) (l : LoadStoreQueueEntry) : LoadStoreQueueEntry :=
  Build_LoadStoreQueueEntry (lsq_data l) (lsq_addrvalid l) (lsq_datavalid l) (lsq_invalid l) (lsq_physaddr l) (lsq_bytemask l) (lsq_rob l) (lsq_mbtag l) (lsq_store l) x.

(** [struct PhysicalRegister] (lines 837-899). *)
Record PhysicalRegister := {
  physreg_current_state_list : option physreg_list;
  physreg_data : Z;
  physreg_flags : Z;
  physreg_rob : nat;
  physreg_archreg : nat;
  physreg_all_consumers_sourced_from_bypass : bool;
  physreg_refcount : Z   (* W16s *)
}.

Definition set_physreg_current_state_list (x : option physreg_list) (p : PhysicalRegister) : PhysicalRegister :=
  Build_PhysicalRegister x (physreg_data p) (physreg_flags p) (physreg_rob p) (physreg_archreg p) (physreg_all_consumers_sourced_from_bypass p) (physreg_refcount p).
Definition set_physreg_data (x : Z) (p : PhysicalRegister) : PhysicalRegister :=
  Build_PhysicalRegister (physreg_current_state_list p) x (physreg_flags p) (physreg_rob p) (physreg_archreg p) (physreg_all_consumers_sourced_from_bypass p) (physreg_refcount p).
Definition set_physreg_flags (x : Z) (p : PhysicalRegister) : PhysicalRegister :=
  Build_PhysicalRegister (physreg_current_state_list p) (physreg_data p) x (physreg_rob p) (physreg_archreg p) (physreg_all_consumers_sourced_from_bypass p) (physreg_refcount p).
Definition set_physreg_rob (x : nat) (p : PhysicalRegister) : PhysicalRegister :=
  Build_PhysicalRegister (physreg_current_state_list p) (physreg_data p) (physreg_flags p) x (physreg_archreg p) (physreg_all_consumers_sourced_from_bypass p) (physreg_refcount p).
Definition set_physreg_archreg (x : nat) (p : PhysicalRegister) : PhysicalRegister :=
  Build_PhysicalRegister (physreg_current_state_list p) (physreg_data p) (physreg_flags p) (physreg_rob p) x (physreg_all_consumers_sourced_from_bypass p) (physreg_refcount p).
Definition set_physreg_all_consumers_sourced_from_bypass (x : bool) (p : PhysicalRegister) : PhysicalRegister :=
  Build_PhysicalRegister (physreg_current_state_list p) (physreg_data p) (physreg_flags p) (physreg_rob p) (physreg_archreg p) x (physreg_refcount p).
Definition set_physreg_refcount (x : Z) (p : PhysicalRegister) : PhysicalRegister :=
  Build_PhysicalRegister (physreg_current_state_list p) (physreg_data p) (physreg_flags p) (physreg_rob p) (physreg_archreg p) (physreg_all_consumers_sourced_from_bypass p) x.

#[global] Instance FetchBufferEntry_inhabited : Inhabited FetchBufferEntry :=
  populate (Build_FetchBufferEntry 0 false false 0 0%nat 0%nat 0%nat 0%nat 0 0 0 0 false 0 false 0 0 0 0 0).
#[global] Instance ReorderBufferEntry_inhabited : Inhabited ReorderBufferEntry :=
  populate (Build_ReorderBufferEntry None inhabitant 0 0 0 0 (-1) false false 0 0%nat [] 0%nat).
#[global] Instance LoadStoreQueueEntry_inhabited : Inhabited LoadStoreQueueEntry :=
  populate (Build_LoadStoreQueueEntry 0 false false false 0 0 None (-1) false false).
#[global] Instance PhysicalRegister_inhabited : Inhabited PhysicalRegister :=
  populate (Build_PhysicalRegister None 0 0 0%nat 0%nat false 0).

(** ** The core *)

(** The globals of ooocore.cpp (and [sim_cycle], [iterations] and
    [total_user_insns_committed] of config.cpp) that the embedded functions read or
    write. The issue queues, the branch predictor's tables, the caches and the log
    text are behind interfaces whose code is not among the sources; of the cache
    only the stores committed to it are kept ([memory]), of the log only the
    deadlock warning ([cerr]). *)
Record Core := {
  ROB : Queue ReorderBufferEntry;
  LSQ : Queue LoadStoreQueueEntry;
  physregs : list PhysicalRegister;
  specrrt : list nat;
  commitrrt : list nat;
  loads_in_flight : Z;
  stores_in_flight : Z;
  lsap : list Z;   (* LoadStoreAliasPredictor *)
  fetchrip : Z;
  stall_frontend : bool;
  waiting_for_icache_fill : bool;
  fetchq : list FetchBufferEntry;   (* the fetch queue, oldest first *)
  current_basic_block : option Z;   (* the rip of the block being fetched; None is null *)
  current_basic_block_transop_index : Z;
  bbcache : gset Z;   (* the rips that have a block in the basic block cache *)
  unaligned_ldst_rips : gset Z;
  fu_avail : Z;
  ctx_commitarf : list Z;   (* ctx.commitarf *)
  ctx_exception : Z;   (* ctx.exception *)
  chk_recovery_rip : Z;
  bytes_in_current_insn_to_commit : Z;
  memory : list LoadStoreQueueEntry;   (* the stores handed to commitstore_unlocked, latest first *)
  stats : gmap (string * Z) Z;   (* the statistics counters, by name and histogram slot *)
  sim_cycle : Z;
  last_commit_at_cycle : Z;
  iterations : Z;
  total_user_insns_committed : Z;
  total_uops_committed : Z;
  stop_at_iteration : Z;   (* set from the configuration *)
  stop_at_user_insns : Z;   (* set from the configuration *)
  cerr : list Z   (* the cycles-without-commit figure of each deadlock warning printed *)
}.

Definition set_ROB (x : Queue ReorderBufferEntry) (c : Core) : Core :=
  Build_Core x (LSQ c) (physregs c) (specrrt c) (commitrrt c) (loads_in_flight c) (stores_in_flight c) (lsap c) (fetchrip c) (stall_frontend c) (waiting_for_icache_fill c) (fetchq c) (current_basic_block c) (current_basic_block_transop_index c) (bbcache c) (unaligned_ldst_rips c) (fu_avail c) (ctx_commitarf c) (ctx_exception c) (chk_recovery_rip c) (bytes_in_current_insn_to_commit c) (memory c) (stats c) (sim_cycle c) (last_commit_at_cycle c) (iterations c) (total_user_insns_committed c) (total_uops_committed c) (stop_at_iteration c) (stop_at_user_insns c) (cerr c).
Definition set_LSQ (x : Queue LoadStoreQueueEntry) (c : Core) : Core :=
  Build_Core (ROB c) x (physregs c) (specrrt c) (commitrrt c) (loads_in_flight c) (stores_in_flight c) (lsap c) (fetchrip c) (stall_frontend c) (waiting_for_icache_fill c) (fetchq c) (current_basic_block c) (current_basic_block_transop_index c) (bbcache c) (unaligned_ldst_rips c) (fu_avail c) (ctx_commitarf c) (ctx_exception c) (chk_recovery_rip c) (bytes_in_current_insn_to_commit c) (memory c) (stats c) (sim_cycle c) (last_commit_at_cycle c) (iterations c) (total_user_insns_committed c) (total_uops_committed c) (stop_at_iteration c) (stop_at_user_insns c) (cerr c).
Definition set_physregs (x : list PhysicalRegister) (c : Core) : Core :=
  Build_Core (ROB c) (LSQ c) x (specrrt c) (commitrrt c) (loads_in_flight c) (stores_in_flight c) (lsap c) (fetchrip c) (stall_frontend c) (waiting_for_icache_fill c) (fetchq c) (current_basic_block c) (current_basic_block_transop_index c) (bbcache c) (unaligned_ldst_rips c) (fu_avail c) (ctx_commitarf c) (ctx_exception c) (chk_recovery_rip c) (bytes_in_current_insn_to_commit c) (memory c) (stats c) (sim_cycle c) (last_commit_at_cycle c) (iterations c) (total_user_insns_committed c) (total_uops_committed c) (stop_at_iteration c) (stop_at_user_insns c) (cerr c).
Definition set_specrrt (x : list nat) (c : Core) : Core :=
  Build_Core (ROB c) (LSQ c) (physregs c) x (commitrrt c) (loads_in_flight c) (stores_in_flight c) (lsap c) (fetchrip c) (stall_frontend c) (waiting_for_icache_fill c) (fetchq c) (current_basic_block c) (current_basic_block_transop_index c) (bbcache c) (unaligned_ldst_rips c) (fu_avail c) (ctx_commitarf c) (ctx_exception c) (chk_recovery_rip c) (bytes_in_current_insn_to_commit c) (memory c) (stats c) (sim_cycle c) (last_commit_at_cycle c) (iterations c) (total_user_insns_committed c) (total_uops_committed c) (stop_at_iteration c) (stop_at_user_insns c) (cerr c).
Definition set_commitrrt (x : list nat) (c : Core) : Core :=
  Build_Core (ROB c) (LSQ c) (physregs c) (specrrt c) x (loads_in_flight c) (stores_in_flight c) (lsap c) (fetchrip c) (stall_frontend c) (waiting_for_icache_fill c) (fetchq c) (current_basic_block c) (current_basic_block_transop_index c) (bbcache c) (unaligned_ldst_rips c) (fu_avail c) (ctx_commitarf c) (ctx_exception c) (chk_recovery_rip c) (bytes_in_current_insn_to_commit c) (memory c) (stats c) (sim_cycle c) (last_commit_at_cycle c) (iterations c) (total_user_insns_committed c) (total_uops_committed c) (stop_at_iteration c) (stop_at_user_insns c) (cerr c).
Definition set_loads_in_flight (x : Z) (c : Core) : Core :=
  Build_Core (ROB c) (LSQ c) (physregs c) (specrrt c) (commitrrt c) x (stores_in_flight c) (lsap c) (fetchrip c) (stall_frontend c) (waiting_for_icache_fill c) (fetchq c) (current_basic_block c) (current_basic_block_transop_index c) (bbcache c) (unaligned_ldst_rips c) (fu_avail c) (ctx_commitarf c) (ctx_exception c) (chk_recovery_rip c) (bytes_in_current_insn_to_commit c) (memory c) (stats c) (sim_cycle c) (last_commit_at_cycle c) (iterations c) (total_user_insns_committed c) (total_uops_committed c) (stop_at_iteration c) (stop_at_user_insns c) (cerr c).
Definition set_stores_in_flight (x : Z) (c : Core) : Core :=
  Build_Core (ROB c) (LSQ c) (physregs c) (specrrt c) (commitrrt c) (loads_in_flight c) x (lsap c) (fetchrip c) (stall_frontend c) (waiting_for_icache_fill c) (fetchq c) (current_basic_block c) (current_basic_block_transop_index c) (bbcache c) (unaligned_ldst_rips c) (fu_avail c) (ctx_commitarf c) (ctx_exception c) (chk_recovery_rip c) (bytes_in_current_insn_to_commit c) (memory c) (stats c) (sim_cycle c) (last_commit_at_cycle c) (iterations c) (total_user_insns_committed c) (total_uops_committed c) (stop_at_iteration c) (stop_at_user_insns c) (cerr c).
Definition set_lsap (x : list Z) (c : Core) : Core :=
  Build_Core (ROB c) (LSQ c) (physregs c) (specrrt c) (commitrrt c) (loads_in_flight c) (stores_in_flight c) x (fetchrip c) (stall_frontend c) (waiting_for_icache_fill c) (fetchq c) (current_basic_block c) (current_basic_block_transop_index c) (bbcache c) (unaligned_ldst_rips c) (fu_avail c) (ctx_commitarf c) (ctx_exception c) (chk_recovery_rip c) (bytes_in_current_insn_to_commit c) (memory c) (stats c) (sim_cycle c) (last_commit_at_cycle c) (iterations c) (total_user_insns_committed c) (total_uops_committed c) (stop_at_iteration c) (stop_at_user_insns c) (cerr c).
Definition set_fetchrip (x : Z) (c : Core) : Core :=
  Build_Core (ROB c) (LSQ c) (physregs c) (specrrt c) (commitrrt c) (loads_in_flight c) (stores_in_flight c) (lsap c) x (stall_frontend c) (waiting_for_icache_fill c) (fetchq c) (current_basic_block c) (current_basic_block_transop_index c) (bbcache c) (unaligned_ldst_rips c) (fu_avail c) (ctx_commitarf c) (ctx_exception c) (chk_recovery_rip c) (bytes_in_current_insn_to_commit c) (memory c) (stats c) (sim_cycle c) (last_commit_at_cycle c) (iterations c) (total_user_insns_committed c) (total_uops_committed c) (stop_at_iteration c) (stop_at_user_insns c) (cerr c).
Definition set_stall_frontend (x : bool) (c : Core) : Core :=
  Build_Core (ROB c) (LSQ c) (physregs c) (specrrt c) (commitrrt c) (loads_in_flight c) (stores_in_flight c) (lsap c) (fetchrip c) x (waiting_for_icache_fill c) (fetchq c) (current_basic_block c) (current_basic_block_transop_index c) (bbcache c) (unaligned_ldst_rips c) (fu_avail c) (ctx_commitarf c) (ctx_exception c) (chk_recovery_rip c) (bytes_in_current_insn_to_commit c) (memory c) (stats c) (sim_cycle c) (last_commit_at_cycle c) (iterations c) (total_user_insns_committed c) (total_uops_committed c) (stop_at_iteration c) (stop_at_user_insns c) (cerr c).
Definition set_waiting_for_icache_fill (x : bool) (c : Core) : Core :=
  Build_Core (ROB c) (LSQ c) (physregs c) (specrrt c) (commitrrt c) (loads_in_flight c) (stores_in_flight c) (lsap c) (fetchrip c) (stall_frontend c) x (fetchq c) (current_basic_block c) (current_basic_block_transop_index c) (bbcache c) (unaligned_ldst_rips c) (fu_avail c) (ctx_commitarf c) (ctx_exception c) (chk_recovery_rip c) (bytes_in_current_insn_to_commit c) (memory c) (stats c) (sim_cycle c) (last_commit_at_cycle c) (iterations c) (total_user_insns_committed c) (total_uops_committed c) (stop_at_iteration c) (stop_at_user_insns c) (cerr c).
Definition set_fetchq (x : list FetchBufferEntry) (c : Core) : Core :=
  Build_Core (ROB c) (LSQ c) (physregs c) (specrrt c) (commitrrt c) (loads_in_flight c) (stores_in_flight c) (lsap c) (fetchrip c) (stall_frontend c) (waiting_for_icache_fill c) x (current_basic_block c) (current_basic_block_transop_index c) (bbcache c) (unaligned_ldst_rips c) (fu_avail c) (ctx_commitarf c) (ctx_exception c) (chk_recovery_rip c) (bytes_in_current_insn_to_commit c) (memory c) (stats c) (sim_cycle c) (last_commit_at_cycle c) (iterations c) (total_user_insns_committed c) (total_uops_committed c) (stop_at_iteration c) (stop_at_user_insns c) (cerr c).
Definition set_current_basic_block (x : option Z) (c : Core) : Core :=
  Build_Core (ROB c) (LSQ c) (physregs c) (specrrt c) (commitrrt c) (loads_in_flight c) (stores_in_flight c) (lsap c) (fetchrip c) (stall_frontend c) (waiting_for_icache_fill c) (fetchq c) x (current_basic_block_transop_index c) (bbcache c) (unaligned_ldst_rips c) (fu_avail c) (ctx_commitarf c) (ctx_exception c) (chk_recovery_rip c) (bytes_in_current_insn_to_commit c) (memory c) (stats c) (sim_cycle c) (last_commit_at_cycle c) (iterations c) (total_user_insns_committed c) (total_uops_committed c) (stop_at_iteration c) (stop_at_user_insns c) (cerr c).
Definition set_current_basic_block_transop_index (x : Z) (c : Core) : Core :=
  Build_Core (ROB c) (LSQ c) (physregs c) (specrrt c) (commitrrt c) (loads_in_flight c) (stores_in_flight c) (lsap c) (fetchrip c) (stall_frontend c) (waiting_for_icache_fill c) (fetchq c) (current_basic_block c) x (bbcache c) (unaligned_ldst_rips c) (fu_avail c) (ctx_commitarf c) (ctx_exception c) (chk_recovery_rip c) (bytes_in_current_insn_to_commit c) (memory c) (stats c) (sim_cycle c) (last_commit_at_cycle c) (iterations c) (total_user_insns_committed c) (total_uops_committed c) (stop_at_iteration c) (stop_at_user_insns c) (cerr c).
Definition set_bbcache (x : gset Z) (c : Core) : Core :=
  Build_Core (ROB c) (LSQ c) (physregs c) (specrrt c) (commitrrt c) (loads_in_flight c) (stores_in_flight c) (lsap c) (fetchrip c) (stall_frontend c) (waiting_for_icache_fill c) (fetchq c) (current_basic_block c) (current_basic_block_transop_index c) x (unaligned_ldst_rips c) (fu_avail c) (ctx_commitarf c) (ctx_exception c) (chk_recovery_rip c) (bytes_in_current_insn_to_commit c) (memory c) (stats c) (sim_cycle c) (last_commit_at_cycle c) (iterations c) (total_user_insns_committed c) (total_uops_committed c) (stop_at_iteration c) (stop_at_user_insns c) (cerr c).
Definition set_unaligned_ldst_rips (x : gset Z) (c : Core) : Core :=
  Build_Core (ROB c) (LSQ c) (physregs c) (specrrt c) (commitrrt c) (loads_in_flight c) (stores_in_flight c) (lsap c) (fetchrip c) (stall_frontend c) (waiting_for_icache_fill c) (fetchq c) (current_basic_block c) (current_basic_block_transop_index c) (bbcache c) x (fu_avail c) (ctx_commitarf c) (ctx_exception c) (chk_recovery_rip c) (bytes_in_current_insn_to_commit c) (memory c) (stats c) (sim_cycle c) (last_commit_at_cycle c) (iterations c) (total_user_insns_committed c) (total_uops_committed c) (stop_at_iteration c) (stop_at_user_insns c) (cerr c).
Definition set_fu_avail (x : Z) (c : Core) : Core :=
  Build_Core (ROB c) (LSQ c) (physregs c) (specrrt c) (commitrrt c) (loads_in_flight c) (stores_in_flight c) (lsap c) (fetchrip c) (stall_frontend c) (waiting_for_icache_fill c) (fetchq c) (current_basic_block c) (current_basic_block_transop_index c) (bbcache c) (unaligned_ldst_rips c) x (ctx_commitarf c) (ctx_exception c) (chk_recovery_rip c) (bytes_in_current_insn_to_commit c) (memory c) (stats c) (sim_cycle c) (last_commit_at_cycle c) (iterations c) (total_user_insns_committed c) (total_uops_committed c) (stop_at_iteration c) (stop_at_user_insns c) (cerr c).
Definition set_ctx_commitarf (x : list Z) (c : Core) : Core :=
  Build_Core (ROB c) (LSQ c) (physregs c) (specrrt c) (commitrrt c) (loads_in_flight c) (stores_in_flight c) (lsap c) (fetchrip c) (stall_frontend c) (waiting_for_icache_fill c) (fetchq c) (current_basic_block c) (current_basic_block_transop_index c) (bbcache c) (unaligned_ldst_rips c) (fu_avail c) x (ctx_exception c) (chk_recovery_rip c) (bytes_in_current_insn_to_commit c) (memory c) (stats c) (sim_cycle c) (last_commit_at_cycle c) (iterations c) (total_user_insns_committed c) (total_uops_committed c) (stop_at_iteration c) (stop_at_user_insns c) (cerr c).
Definition set_ctx_exception (x : Z) (c : Core) : Core :=
  Build_Core (ROB c) (LSQ c) (physregs c) (specrrt c) (commitrrt c) (loads_in_flight c) (stores_in_flight c) (lsap c) (fetchrip c) (stall_frontend c) (waiting_for_icache_fill c) (fetchq c) (current_basic_block c) (current_basic_block_transop_index c) (bbcache c) (unaligned_ldst_rips c) (fu_avail c) (ctx_commitarf c) x (chk_recovery_rip c) (bytes_in_current_insn_to_commit c) (memory c) (stats c) (sim_cycle c) (last_commit_at_cycle c) (iterations c) (total_user_insns_committed c) (total_uops_committed c) (stop_at_iteration c) (stop_at_user_insns c) (cerr c).
Definition set_chk_recovery_rip (x : Z) (c : Core) : Core :=
  Build_Core (ROB c) (LSQ c) (physregs c) (specrrt c) (commitrrt c) (loads_in_flight c) (stores_in_flight c) (lsap c) (fetchrip c) (stall_frontend c) (waiting_for_icache_fill c) (fetchq c) (current_basic_block c) (current_basic_block_transop_index c) (bbcache c) (unaligned_ldst_rips c) (fu_avail c) (ctx_commitarf c) (ctx_exception c) x (bytes_in_current_insn_to_commit c) (memory c) (stats c) (sim_cycle c) (last_commit_at_cycle c) (iterations c) (total_user_insns_committed c) (total_uops_committed c) (stop_at_iteration c) (stop_at_user_insns c) (cerr c).
Definition set_bytes_in_current_insn_to_commit (x : Z) (c : Core) : Core :=
  Build_Core (ROB c) (LSQ c) (physregs c) (specrrt c) (commitrrt c) (loads_in_flight c) (stores_in_flight c) (lsap c) (fetchrip c) (stall_frontend c) (waiting_for_icache_fill c) (fetchq c) (current_basic_block c) (current_basic_block_transop_index c) (bbcache c) (unaligned_ldst_rips c) (fu_avail c) (ctx_commitarf c) (ctx_exception c) (chk_recovery_rip c) x (memory c) (stats c) (sim_cycle c) (last_commit_at_cycle c) (iterations c) (total_user_insns_committed c) (total_uops_committed c) (stop_at_iteration c) (stop_at_user_insns c) (cerr c).
Definition set_memory (x : list LoadStoreQueueEntry) (c : Core) : Core :=
  Build_Core (ROB c) (LSQ c) (physregs c) (specrrt c) (commitrrt c) (loads_in_flight c) (stores_in_flight c) (lsap c) (fetchrip c) (stall_frontend c) (waiting_for_icache_fill c) (fetchq c) (current_basic_block c) (current_basic_block_transop_index c) (bbcache c) (unaligned_ldst_rips c) (fu_avail c) (ctx_commitarf c) (ctx_exception c) (chk_recovery_rip c) (bytes_in_current_insn_to_commit c) x (stats c) (sim_cycle c) (last_commit_at_cycle c) (iterations c) (total_user_insns_committed c) (total_uops_committed c) (stop_at_iteration c) (stop_at_user_insns c) (cerr c).
Definition set_stats (x : gmap (string * Z) Z) (c : Core) : Core :=
  Build_Core (ROB c) (LSQ c) (physregs c) (specrrt c) (commitrrt c) (loads_in_flight c) (stores_in_flight c) (lsap c) (fetchrip c) (stall_frontend c) (waiting_for_icache_fill c) (fetchq c) (current_basic_block c) (current_basic_block_transop_index c) (bbcache c) (unaligned_ldst_rips c) (fu_avail c) (ctx_commitarf c) (ctx_exception c) (chk_recovery_rip c) (bytes_in_current_insn_to_commit c) (memory c) x (sim_cycle c) (last_commit_at_cycle c) (iterations c) (total_user_insns_committed c) (total_uops_committed c) (stop_at_iteration c) (stop_at_user_insns c) (cerr c).
Definition set_sim_cycle (x : Z) (c : Core) : Core :=
  Build_Core (ROB c) (LSQ c) (physregs c) (specrrt c) (commitrrt c) (loads_in_flight c) (stores_in_flight c) (lsap c) (fetchrip c) (stall_frontend c) (waiting_for_icache_fill c) (fetchq c) (current_basic_block c) (current_basic_block_transop_index c) (bbcache c) (unaligned_ldst_rips c) (fu_avail c) (ctx_commitarf c) (ctx_exception c) (chk_recovery_rip c) (bytes_in_current_insn_to_commit c) (memory c) (stats c) x (last_commit_at_cycle c) (iterations c) (total_user_insns_committed c) (total_uops_committed c) (stop_at_iteration c) (stop_at_user_insns c) (cerr c).
Definition set_last_commit_at_cycle (x : Z) (c : Core) : Core :=
  Build_Core (ROB c) (LSQ c) (physregs c) (specrrt c) (commitrrt c) (loads_in_flight c) (stores_in_flight c) (lsap c) (fetchrip c) (stall_frontend c) (waiting_for_icache_fill c) (fetchq c) (current_basic_block c) (current_basic_block_transop_index c) (bbcache c) (unaligned_ldst_rips c) (fu_avail c) (ctx_commitarf c) (ctx_exception c) (chk_recovery_rip c) (bytes_in_current_insn_to_commit c) (memory c) (stats c) (sim_cycle c) x (iterations c) (total_user_insns_committed c) (total_uops_committed c) (stop_at_iteration c) (stop_at_user_insns c) (cerr c).
Definition set_iterations (x : Z) (c : Core) : Core :=
  Build_Core (ROB c) (LSQ c) (physregs c) (specrrt c) (commitrrt c) (loads_in_flight c) (stores_in_flight c) (lsap c) (fetchrip c) (stall_frontend c) (waiting_for_icache_fill c) (fetchq c) (current_basic_block c) (current_basic_block_transop_index c) (bbcache c) (unaligned_ldst_rips c) (fu_avail c) (ctx_commitarf c) (ctx_exception c) (chk_recovery_rip c) (bytes_in_current_insn_to_commit c) (memory c) (stats c) (sim_cycle c) (last_commit_at_cycle c) x (total_user_insns_committed c) (total_uops_committed c) (stop_at_iteration c) (stop_at_user_insns c) (cerr c).
Definition set_total_user_insns_committed (x : Z) (c : Core) : Core :=
  Build_Core (ROB c) (LSQ c) (physregs c) (specrrt c) (commitrrt c) (loads_in_flight c) (stores_in_flight c) (lsap c) (fetchrip c) (stall_frontend c) (waiting_for_icache_fill c) (fetchq c) (current_basic_block c) (current_basic_block_transop_index c) (bbcache c) (unaligned_ldst_rips c) (fu_avail c) (ctx_commitarf c) (ctx_exception c) (chk_recovery_rip c) (bytes_in_current_insn_to_commit c) (memory c) (stats c) (sim_cycle c) (last_commit_at_cycle c) (iterations c) x (total_uops_committed c) (stop_at_iteration c) (stop_at_user_insns c) (cerr c).
Definition set_total_uops_committed (x : Z) (c : Core) : Core :=
  Build_Core (ROB c) (LSQ c) (physregs c) (specrrt c) (commitrrt c) (loads_in_flight c) (stores_in_flight c) (lsap c) (fetchrip c) (stall_frontend c) (waiting_for_icache_fill c) (fetchq c) (current_basic_block c) (current_basic_block_transop_index c) (bbcache c) (unaligned_ldst_rips c) (fu_avail c) (ctx_commitarf c) (ctx_exception c) (chk_recovery_rip c) (bytes_in_current_insn_to_commit c) (memory c) (stats c) (sim_cycle c) (last_commit_at_cycle c) (iterations c) (total_user_insns_committed c) x (stop_at_iteration c) (stop_at_user_insns c) (cerr c).
Definition set_stop_at_iteration (x : Z) (c : Core) : Core :=
  Build_Core (ROB c) (LSQ c) (physregs c) (specrrt c) (commitrrt c) (loads_in_flight c) (stores_in_flight c) (lsap c) (fetchrip c) (stall_frontend c) (waiting_for_icache_fill c) (fetchq c) (current_basic_block c) (current_basic_block_transop_index c) (bbcache c) (unaligned_ldst_rips c) (fu_avail c) (ctx_commitarf c) (ctx_exception c) (chk_recovery_rip c) (bytes_in_current_insn_to_commit c) (memory c) (stats c) (sim_cycle c) (last_commit_at_cycle c) (iterations c) (total_user_insns_committed c) (total_uops_committed c) x (stop_at_user_insns c) (cerr c).
Definition set_stop_at_user_insns (x : Z) (c : Core) : Core :=
  Build_Core (ROB c) (LSQ c) (physregs c) (specrrt c) (commitrrt c) (loads_in_flight c) (stores_in_flight c) (lsap c) (fetchrip c) (stall_frontend c) (waiting_for_icache_fill c) (fetchq c) (current_basic_block c) (current_basic_block_transop_index c) (bbcache c) (unaligned_ldst_rips c) (fu_avail c) (ctx_commitarf c) (ctx_exception c) (chk_recovery_rip c) (bytes_in_current_insn_to_commit c) (memory c) (stats c) (sim_cycle c) (last_commit_at_cycle c) (iterations c) (total_user_insns_committed c) (total_uops_committed c) (stop_at_iteration c) x (cerr c).
Definition set_cerr (x : list Z) (c : Core) : Core :=
  Build_Core (ROB c) (LSQ c) (physregs c) (specrrt c) (commitrrt c) (loads_in_flight c) (stores_in_flight c) (lsap c) (fetchrip c) (stall_frontend c) (waiting_for_icache_fill c) (fetchq c) (current_basic_block c) (current_basic_block_transop_index c) (bbcache c) (unaligned_ldst_rips c) (fu_avail c) (ctx_commitarf c) (ctx_exception c) (chk_recovery_rip c) (bytes_in_current_insn_to_commit c) (memory c) (stats c) (sim_cycle c) (last_commit_at_cycle c) (iterations c) (total_user_insns_committed c) (total_uops_committed c) (stop_at_iteration c) (stop_at_user_insns c) x.

(** ** Reading and writing the arrays *)

Section Access.
Context `{HwDef}.

(** [ROB[i]], [LSQ[i]] and [physregs[i]]; the source does not check the index,
    the model reads a zeroed entry outside the array and writes nothing there. *)
Definition ROB_at (c : Core) (i : nat) : ReorderBufferEntry := q_data (ROB c) !!! i.
Definition LSQ_at (c : Core) (i : nat) : LoadStoreQueueEntry := q_data (LSQ c) !!! i.
Definition physreg_at (c : Core) (i : nat) : PhysicalRegister := physregs c !!! i.

Definition alter_ROB (f : ReorderBufferEntry -> ReorderBufferEntry) (i : nat) (c : Core) : Core :=
  set_ROB (set_q_data (alter f i (q_data (ROB c))) (ROB c)) c.
Definition alter_LSQ (f : LoadStoreQueueEntry -> LoadStoreQueueEntry) (i : nat) (c : Core) : Core :=
  set_LSQ (set_q_data (alter f i (q_data (LSQ c))) (LSQ c)) c.
Definition alter_physreg (f : PhysicalRegister -> PhysicalRegister) (i : nat) (c : Core) : Core :=
  set_physregs (alter f i (physregs c)) c.

(** [counter[slot] += n] and [counter += n] on the statistics counters. *)
Definition stat_at (counter : string) (slot : Z) (c : Core) : Z :=
  default 0 (stats c !! (counter, slot)).
Definition stat (counter : string) (c : Core) : Z := stat_at counter 0 c.

Definition bump_at (counter : string) (slot : Z) (n : Z) (c : Core) : Core :=
  set_stats (<[(counter, slot) := W64 (stat_at counter slot c + n)]> (stats c)) c.
Definition bump (counter : string) (n : Z) (c : Core) : Core := bump_at counter 0 n c.

(** A C truth value used as a number. *)
Definition b2z (b : bool) : Z := if b then 1 else 0.

(** [for_each_cluster(i)] *)
Definition for_each_cluster (f : Z -> Core -> Core) (c : Core) : Core :=
  foldl (fun c i => f (Z.of_nat i) c) c (seq 0 MAX_CLUSTERS).

End Access.

(** ** Physical registers (lines 837-972) *)

Module PhysicalRegister.
Section Methods.
Context `{HwDef}.

(** A method takes the index of the register it is called on ([index()]). *)
Definition nonnull (self : nat) : bool := bool_decide (self <> PHYS_REG_NULL).

Definition changestate (newqueue : physreg_list) (self : nat) (c : Core) : Core :=
  alter_physreg (set_physreg_current_state_list (Some newqueue)) self c.

Definition addref (self : nat) (c : Core) : Core :=
  if nonnull self
  then alter_physreg (fun r => set_physreg_refcount (W16s (physreg_refcount r + 1)) r) self c
  else c.

Definition unref (self : nat) (c : Core) : Core :=
  if nonnull self
  then alter_physreg (fun r => set_physreg_refcount (W16s (physreg_refcount r - 1)) r) self c
  else c.

(** [addspecref], [unspecref], [addcommitref], [uncommitref] and the variants
    that take a ROB all call [addref()] or [unref()] (lines 857-862). *)
Definition addspecref (self : nat) (archreg : nat) : Core -> Core := addref self.
Definition unspecref (self : nat) (archreg : nat) : Core -> Core := unref self.
Definition addcommitref (self : nat) (archreg : nat) : Core -> Core := addref self.
Definition uncommitref (self : nat) (archreg : nat) : Core -> Core := unref self.

Definition referenced (r : PhysicalRegister) : bool := bool_decide (physreg_refcount r > 0).
Definition allocated (r : PhysicalRegister) : bool :=
  bool_decide (physreg_current_state_list r <> Some physreg_free_list).

Definition commit : nat -> Core -> Core := changestate physreg_arch_list.
Definition complete : nat -> Core -> Core := changestate physreg_ready_list.
Definition writeback : nat -> Core -> Core := changestate physreg_written_list.

Definition free (self : nat) (c : Core) : Core :=
  alter_physreg (fun r =>
    set_physreg_all_consumers_sourced_from_bypass true
      (set_physreg_refcount 0 (set_physreg_rob 0%nat r))) self
    (changestate physreg_free_list self c).

Definition reset (self : nat) (c : Core) : Core :=
  free self (alter_physreg (set_physreg_current_state_list None) self c).

Definition valid (r : PhysicalRegister) : bool := bool_decide (Z.land (physreg_flags r) FLAG_INV = 0).
Definition ready (r : PhysicalRegister) : bool := bool_decide (Z.land (physreg_flags r) FLAG_WAIT = 0).

End Methods.
End PhysicalRegister.

Section RegisterFile.
Context `{HwDef}.

(** [PhysicalRegisterFile::reset()] (lines 926-947). *)
Definition PhysicalRegisterFile_reset (c : Core) : Core :=
  let c := foldl (fun c i => PhysicalRegister.reset i c) c (seq 0 PHYS_REG_FILE_SIZE) in
  let c := foldl (fun c i => PhysicalRegister.commit i c) c
             (seq PHYS_REG_ARCH_BASE (PHYS_REG_FILE_SIZE - PHYS_REG_ARCH_BASE)) in
  let c := PhysicalRegister.changestate physreg_arch_list PHYS_REG_NULL c in
  alter_physreg (set_physreg_data 0) PHYS_REG_NULL c.

(** [physregs.remaining()]: the free list is not empty. *)
Definition physregs_remaining (c : Core) : bool :=
  bool_decide (Exists (fun r => physreg_current_state_list r = Some physreg_free_list) (physregs c)).

(** [RegisterRenameTable::reset()] (lines 994-1018). *)
Definition RegisterRenameTable_reset : list nat :=
  let rrt := (fun i => if decide (i < ARCHREG_COUNT)%nat then (PHYS_REG_ARCH_BASE + i)%nat
                       else PHYS_REG_NULL) <$> seq 0 TRANSREG_COUNT in
  let rrt := <[REG_zf := (PHYS_REG_ARCH_BASE + REG_flags)%nat]> rrt in
  let rrt := <[REG_cf := (PHYS_REG_ARCH_BASE + REG_flags)%nat]> rrt in
  let rrt := <[REG_of := (PHYS_REG_ARCH_BASE + REG_flags)%nat]> rrt in
  let rrt := <[REG_imm := PHYS_REG_NULL]> rrt in
  let rrt := <[REG_mem := PHYS_REG_NULL]> rrt in
  <[REG_zero := PHYS_REG_NULL]> rrt.

(** [specrrt[i]], [commitrrt[i]]. *)
Definition specrrt_at (c : Core) (i : nat) : nat := specrrt c !!! i.
Definition commitrrt_at (c : Core) (i : nat) : nat := commitrrt c !!! i.

(** [check_refcounts()] (lines 4283-4324): true when it found an error, which is
    when it goes on to [assert(false)]. *)
Definition expected_refcounts (c : Core) : list Z :=
  let refcounts := replicate PHYS_REG_FILE_SIZE 0 in
  let refcounts :=
    foldl (fun refcounts i =>
      foldl (fun refcounts j => alter Z.succ (rob_operands (ROB_at c i) !!! j) refcounts)
        refcounts (seq 0 MAX_OPERANDS))
      refcounts (foreach_forward ROB_SIZE (ROB c)) in
  let refcounts :=
    foldl (fun refcounts i =>
      alter Z.succ (specrrt_at c i) (alter Z.succ (commitrrt_at c i) refcounts))
      refcounts (seq 0 TRANSREG_COUNT) in
  <[PHYS_REG_NULL := 0]> refcounts.

Definition check_refcounts (c : Core) : bool :=
  let refcounts := expected_refcounts c in
  bool_decide (Exists (fun i => physreg_refcount (physreg_at c i) <> refcounts !!! i)
                 (seq 0 PHYS_REG_FILE_SIZE)).

(** The number of references to the register [r]: the operand slots of the ROB
    entries in flight, the slots of the speculative and of the committed rename
    table. *)
Definition count_refs (r : nat) (l : list nat) : Z :=
  Z.of_nat (length (filter (fun x => x = r) l)).

Definition reference_sum (c : Core) (r : nat) : Z :=
  count_refs r (foreach_forward ROB_SIZE (ROB c) ≫=
                 (fun i => (fun j => rob_operands (ROB_at c i) !!! j) <$> seq 0 MAX_OPERANDS))
  + count_refs r (specrrt_at c <$> seq 0 TRANSREG_COUNT)
  + count_refs r (commitrrt_at c <$> seq 0 TRANSREG_COUNT).

(** Any sequence of [addref] ([true]) and [unref] ([false]) calls, on any
    registers. *)
Definition apply_refs (calls : list (bool * nat)) (c : Core) : Core :=
  foldl (fun c (call : bool * nat) =>
           if call.1 then PhysicalRegister.addref call.2 c
           else PhysicalRegister.unref call.2 c) c calls.

End RegisterFile.

(** ** Entries of the ROB and of the LSQ: reset and state changes *)

Module ReorderBufferEntry.
Section Methods.
Context `{HwDef}.

(** [reset()] (lines 558-572). *)
Definition reset (r : ReorderBufferEntry) : ReorderBufferEntry :=
  set_rob_load_store_second_phase false
    (set_rob_lsq 0%nat
      (set_rob_lfrqslot (-1)
        (set_rob_physreg 0%nat
          (set_rob_cycles_left 0
            (set_rob_entry_valid false r))))).

(** [init()] (lines 544-552); the reset of the issue queues is outside the model. *)
Definition init (r : ReorderBufferEntry) : ReorderBufferEntry :=
  reset (set_rob_current_state_list None (set_rob_entry_valid false r)).

Definition validate (r : ReorderBufferEntry) : ReorderBufferEntry :=
  set_rob_entry_valid true r.

(** [changestate(newqueue)] (lines 578-583). *)
Definition changestate (newqueue : rob_list) (self : nat) (c : Core) : Core :=
  alter_ROB (set_rob_current_state_list (Some newqueue)) self c.

Definition ready_to_commit (r : ReorderBufferEntry) : bool :=
  bool_decide (rob_current_state_list r = Some rob_ready_to_commit_queue).

(** [has_exception()] (lines 901-903). *)
Definition has_exception (self : nat) (c : Core) : bool :=
  bool_decide (Z.land (physreg_flags (physreg_at c (rob_physreg (ROB_at c self)))) FLAG_INV <> 0).

(** [operand_ready(operand)] (lines 974-976). *)
Definition operand_ready (self : nat) (operand : nat) (c : Core) : bool :=
  bool_decide (Z.land (physreg_flags (physreg_at c (rob_operands (ROB_at c self) !!! operand)))
                 FLAG_WAIT = 0).

(** [get_ready_to_issue_list()] (lines 606-611). *)
Definition get_ready_to_issue_list (r : ReorderBufferEntry) : rob_list :=
  if isload (uop_opcode (rob_uop r)) then rob_ready_to_load_list (rob_cluster r)
  else if isstore (uop_opcode (rob_uop r)) then rob_ready_to_store_list (rob_cluster r)
  else rob_ready_to_issue_list (rob_cluster r).

End Methods.
End ReorderBufferEntry.

Module LoadStoreQueueEntry.

(** [reset()] (lines 695-707). *)
Definition reset (l : LoadStoreQueueEntry) : LoadStoreQueueEntry :=
  Build_LoadStoreQueueEntry 0 false false false 0 0 None (-1) (lsq_store l) false.

Definition validate (l : LoadStoreQueueEntry) : LoadStoreQueueEntry :=
  set_lsq_entry_valid true l.

End LoadStoreQueueEntry.

Section QueuesOfTheCore.
Context `{HwDef}.

(** [ROB.annul(rob)], [ROB.commit(rob)], with
    [Queue<ReorderBufferEntry, ROB_SIZE>::prepfree] (lines 679-681). *)
Definition ROB_annul (rob : nat) (c : Core) : Core :=
  set_ROB (q_annul ROB_SIZE ReorderBufferEntry.reset rob (ROB c)) c.
Definition ROB_commit (rob : nat) (c : Core) : Core :=
  set_ROB (q_commit ROB_SIZE ReorderBufferEntry.reset rob (ROB c)) c.

(** [Queue<LoadStoreQueueEntry, LSQ_SIZE>::prepfree] (lines 743-747). *)
Definition LSQ_prepfree_counters (lsq : nat) (c : Core) : Core :=
  let store := lsq_store (LSQ_at c lsq) in
  set_stores_in_flight (stores_in_flight c - b2z store)
    (set_loads_in_flight (loads_in_flight c - b2z (negb store)) c).

Definition LSQ_annul (lsq : nat) (c : Core) : Core :=
  let c := LSQ_prepfree_counters lsq c in
  set_LSQ (q_annul LSQ_SIZE LoadStoreQueueEntry.reset lsq (LSQ c)) c.
Definition LSQ_commit (lsq : nat) (c : Core) : Core :=
  let c := LSQ_prepfree_counters lsq c in
  set_LSQ (q_commit LSQ_SIZE LoadStoreQueueEntry.reset lsq (LSQ c)) c.

(** ** The fetch unit *)

(** [reset_fetch_unit(realrip)] (lines 1109-1117). *)
Definition reset_fetch_unit (realrip : Z) (c : Core) : Core :=
  set_current_basic_block_transop_index 0
    (set_current_basic_block None
      (set_fetchq []
        (set_waiting_for_icache_fill false
          (set_stall_frontend false
            (set_fetchrip realrip c))))).

(** [flush_pipeline(realrip)] (lines 1122-1140); [dcache_complete()] belongs to
    the cache model. *)
Definition flush_pipeline (realrip : Z) (c : Core) : Core :=
  let c := reset_fetch_unit realrip c in
  let c := set_ROB (q_reset ReorderBufferEntry.init (ROB c)) c in
  let c := foldl (fun c i => ReorderBufferEntry.changestate rob_free_list i c) c (seq 0 ROB_SIZE) in
  let c := set_LSQ (q_reset LoadStoreQueueEntry.reset (LSQ c)) c in
  let c := set_loads_in_flight 0 c in
  let c := set_stores_in_flight 0 c in
  let c := PhysicalRegisterFile_reset c in
  let c := set_specrrt RegisterRenameTable_reset c in
  let c := set_commitrrt RegisterRenameTable_reset c in
  let c := foldl (fun c i => PhysicalRegister.addspecref (specrrt_at c i) i c) c (seq 0 TRANSREG_COUNT) in
  foldl (fun c i => PhysicalRegister.addcommitref (commitrrt_at c i) i c) c (seq 0 TRANSREG_COUNT).

(** ** Rename (lines 1450-1648) *)

(** The structural hazards checked for the uop at the head of the fetch queue,
    in the order of lines 1456-1495: [Some c'] when renaming stops for this
    cycle (the loop breaks, [c'] has the counter of the cause), [None] when the
    uop goes on to be renamed. *)
Definition rename_hazard (c : Core) : option Core :=
  match fetchq c with
  | [] => Some (bump "frontend_status_fetchq_empty" 1 c)
  | fetchbuf :: _ =>
      if decide (q_remaining ROB_SIZE (ROB c) = 0%nat)
      then Some (bump "frontend_status_rob_full" 1 c)
      else if negb (physregs_remaining c)
      then Some (bump "frontend_status_physregs_full" 1 c)
      else
        let ld := isload (uop_opcode fetchbuf) in
        let st := isstore (uop_opcode fetchbuf) in
        if ld && bool_decide (loads_in_flight c >= Z.of_nat LDQ_SIZE)
        then Some (bump "frontend_status_ldq_full" 1 c)
        else if st && bool_decide (stores_in_flight c >= Z.of_nat LDQ_SIZE)
        then Some (bump "frontend_status_stq_full" 1 c)
        else if (ld || st) && bool_decide (q_remaining LSQ_SIZE (LSQ c) = 0%nat)
        then Some c
        else None
  end.

(** The loop of [rename()]; [rename_uop] stands for lines 1497-1640, the
    allocation of the ROB entry, the physical register and the LSQ entry and the
    update of the speculative rename table, which [RenameStage.rename_uop]
    embeds. The result carries [prepcount]. *)
Fixpoint rename_loop (rename_uop : Core -> Core) (width : nat) (prepcount : Z) (c : Core) : Core * Z :=
  match width with
  | O => (c, prepcount)
  | S width' =>
      match rename_hazard c with
      | Some c' => (c', prepcount)
      | None => rename_loop rename_uop width' (prepcount + 1) (rename_uop c)
      end
  end.

Definition rename (rename_uop : Core -> Core) (c : Core) : Core :=
  let '(c, prepcount) := rename_loop rename_uop FRONTEND_WIDTH 0 c in
  bump_at "frontend_width_histogram" prepcount 1 c.

End QueuesOfTheCore.

(** ** Annulment (lines 2861-3046) *)

Section Annul.
Context `{HwDef}.

Definition archdest_can_commit_at (archreg : nat) : bool :=
  bool_decide (default 0 (archdest_can_commit !! archreg) <> 0).

(** [rrt[archreg]->unspecref(archreg); rrt[archreg] = physreg;
    rrt[archreg]->addspecref(archreg)] on the speculative rename table. *)
Definition specrrt_rename (archreg physreg : nat) (c : Core) : Core :=
  let c := PhysicalRegister.unspecref (specrrt_at c archreg) archreg c in
  let c := set_specrrt (<[archreg := physreg]> (specrrt c)) c in
  PhysicalRegister.addspecref (specrrt_at c archreg) archreg c.

(** [ReorderBufferEntry::pseudocommit()] (lines 3557-3603). *)
Definition ReorderBufferEntry_pseudocommit (self : nat) (c : Core) : Core * Z :=
  let uop := rob_uop (ROB_at c self) in
  let physreg := rob_physreg (ROB_at c self) in
  let c := if archdest_can_commit_at (uop_rd uop) then specrrt_rename (uop_rd uop) physreg c else c in
  let c :=
    if uop_nouserflags uop then c
    else
      let c := if decide (Z.land (uop_setflags uop) SETFLAG_ZF <> 0)
               then specrrt_rename REG_zf physreg c else c in
      let c := if decide (Z.land (uop_setflags uop) SETFLAG_CF <> 0)
               then specrrt_rename REG_cf physreg c else c in
      if decide (Z.land (uop_setflags uop) SETFLAG_OF <> 0)
      then specrrt_rename REG_of physreg c else c in
  (c, if isbarrier (uop_opcode uop) then COMMIT_RESULT_BARRIER else COMMIT_RESULT_OK).

(** [while (!p(ROB[idx])) idx = add_index_modulo(idx, step, ROB_SIZE)]: the index
    the loop stops at. After [ROB_SIZE] steps every entry has been looked at, so
    running out of fuel is the loop that never ends. *)
Fixpoint scan_for (p : ReorderBufferEntry -> bool) (step : Z) (fuel : nat) (c : Core)
    (idx : nat) : option nat :=
  match fuel with
  | O => None
  | S fuel' =>
      if p (ROB_at c idx) then Some idx
      else scan_for p step fuel' c (add_index_modulo idx step ROB_SIZE)
  end.

(** [idx = endidx; for (;;) { ...; if (idx == startidx) break;
    idx = add_index_modulo(idx, -1, ROB_SIZE); }]: the indices visited. *)
Fixpoint walk_down (fuel : nat) (idx startidx : nat) : list nat :=
  match fuel with
  | O => []
  | S fuel' =>
      idx :: (if decide (idx = startidx) then []
              else walk_down fuel' (add_index_modulo idx (-1) ROB_SIZE) startidx)
  end.

(** The body of pass 3 for one annulled ROB (lines 2982-3035). Cancelling the
    load fill request and the return address stack entry belong to the cache and
    to the branch predictor. *)
Definition annul_rob (idx : nat) (c : Core) : Core :=
  let annulrob := ROB_at c idx in
  let c := foldl (fun c j => PhysicalRegister.unref (rob_operands annulrob !!! j) c) c
             (seq 0 MAX_OPERANDS) in
  let c := PhysicalRegister.free (rob_physreg annulrob) c in
  let c := if isload (uop_opcode (rob_uop annulrob)) || isstore (uop_opcode (rob_uop annulrob))
           then LSQ_annul (rob_lsq annulrob) c else c in
  let c := ROB_annul idx c in
  ReorderBufferEntry.changestate rob_free_list idx c.

(** [ReorderBufferEntry::annul(keep_misspec_uop)]; [None] when one of the two
    searches for the macro-op boundaries does not end. *)
Definition ReorderBufferEntry_annul (keep_misspec_uop : bool) (self : nat) (c : Core)
    : option (Core * Z) :=
  (* Pass 0: determine macro-op boundaries around uop *)
  somidx ← scan_for (fun r => uop_som (rob_uop r)) (-1) ROB_SIZE c self;
  eomidx ← scan_for (fun r => uop_eom (rob_uop r)) 1 ROB_SIZE c self;
  (* Find uop to start annulment at *)
  let startidx := if keep_misspec_uop then add_index_modulo eomidx 1 ROB_SIZE else somidx in
  if decide (startidx = q_tail (ROB c))
  then Some (c, uop_rip (rob_uop (ROB_at c self)))
  else
    (* Find uop to stop annulment at (later in program order) *)
    let endidx := add_index_modulo (q_tail (ROB c)) (-1) ROB_SIZE in
    (* Pass 1: invalidate issue queue slot for the annulled ROB *)
    let c := foldl (fun c idx => alter_ROB (set_rob_iqslot (-1)) idx c) c
               (walk_down ROB_SIZE endidx startidx) in
    (* Pass 2: reconstruct the SpecRRT *)
    let c := foldl (fun c i => PhysicalRegister.unspecref (specrrt_at c i) i c) c
               (seq 0 TRANSREG_COUNT) in
    let c := set_specrrt (commitrrt c) c in
    let c := foldl (fun c i => PhysicalRegister.addspecref (specrrt_at c i) i c) c
               (seq 0 TRANSREG_COUNT) in
    let c := foldl (fun c idx => (ReorderBufferEntry_pseudocommit idx c).1) c
               (indices_until ROB_SIZE startidx 1 ROB_SIZE (q_head (ROB c))) in
    (* Pass 3: reinitialize and free speculative ROBs *)
    let c := foldl (fun c idx => annul_rob idx c) c (walk_down ROB_SIZE endidx startidx) in
    Some (c, if keep_misspec_uop then uop_riptaken (rob_uop (ROB_at c startidx))
             else uop_rip (rob_uop (ROB_at c startidx))).

(** What pass 3 leaves of an annulled ROB entry: [ROB.annul] resets it and
    [changestate] links it into the free list. *)
Definition annulled (r : ReorderBufferEntry) : ReorderBufferEntry :=
  set_rob_current_state_list (Some rob_free_list) (ReorderBufferEntry.reset r).

(** The distance from the slot [from] up to the slot [x], going round the ROB
    in program order. *)
Definition ring_offset (from x : nat) : Z :=
  (Z.of_nat x - Z.of_nat from) mod Z.of_nat ROB_SIZE.

Definition annul_after : nat -> Core -> option (Core * Z) := ReorderBufferEntry_annul true.
Definition annul_after_and_including : nat -> Core -> option (Core * Z) :=
  ReorderBufferEntry_annul false.

End Annul.

(** ** What the core calls outside ooocore.cpp *)

Record IssueInput := {
  in_ra : Z; in_rb : Z; in_rc : Z;
  in_raflags : Z; in_rbflags : Z; in_rcflags : Z
}.

(** The collaborators of the core whose code is not among the sources: the
    address space, the semantic callback of a uop, and the MSR that truncates
    pointers.  [issueload] is in ooocore.cpp, but no statement below is about
    loads being issued, so [issue] takes it as given. *)
Class Externals := {
  virt_addr_mask : Z;
  asp_fastcheck_write : Z -> bool;   (* asp.fastcheck(addr, asp.writemap) *)
  asp_check_exec : Z -> bool;        (* asp.check(ptr, PROT_EXEC) *)
  call_exec_func : FetchBufferEntry -> IssueInput -> Z * Z;   (* (rddata, rdflags) *)
  issueload : nat -> Z -> Z -> Z -> Core -> option (Core * Z)
}.

(** ** Stores (lines 2183-2518) *)

Section IssueStore.
Context `{HwDef} `{Externals}.

(** [check_access_alignment] (lines 2183-2197), for a store ([top] is
    [asp.writemap]). *)
Definition check_access_alignment (addr : Z) (annul : bool) (sizeshift : Z) (internal : bool)
    (exception : Z) : Z :=
  if decide (lowbits addr sizeshift <> 0) then EXCEPTION_UnalignedAccess
  else if annul || internal then 0
  else if asp_fastcheck_write addr then 0 else exception.

(** Modelled from the spec: [LoadStoreAliasPredictor] is a
    [FullyAssociativeTags<W64, 16>], declared in a header that is not among the
    sources. The spec has it as a small fully-associative table of load RIPs;
    [select] makes its tag the most recent entry, dropping the oldest when the
    16 ways are taken. *)
Definition lsap_select (tag : Z) (tags : list Z) : list Z :=
  take 16 (tag :: filter (fun t => t <> tag) tags).

(** Modelled from the spec: [expand_8bit_to_64bit_lut] and [mux64] come from a
    header that is not among the sources. Section 4.5 has the store merge its
    data, under its bytemask, with the bytes forwarded from the earlier store. *)
Definition expand_8bit_to_64bit (bytemask : Z) : Z :=
  foldr (fun i acc => if Z.testbit bytemask (Z.of_nat i)
                      then Z.lor acc (Z.shiftl 255 (8 * Z.of_nat i)) else acc) 0 (seq 0 8).
Definition mux64 (sel v0 v1 : Z) : Z :=
  Z.lor (Z.land v0 (Z.land (Z.lnot sel) (Z.ones 64))) (Z.land v1 sel).

(** [ReorderBufferEntry::replay()] (lines 2135-2179): back to the dispatched
    state, or to the ready list when no operand is still being produced. The
    issue queue slot is outside the model. *)
Definition ReorderBufferEntry_replay (self : nat) (c : Core) : Core :=
  let rob := ROB_at c self in
  let operands_still_needed :=
    filter (fun operand =>
      physreg_current_state_list (physreg_at c (rob_operands rob !!! operand))
      = Some physreg_used_list) (seq 0 MAX_OPERANDS) in
  match operands_still_needed with
  | [] => ReorderBufferEntry.changestate (ReorderBufferEntry.get_ready_to_issue_list rob) self c
  | _ => ReorderBufferEntry.changestate (rob_dispatched_list (rob_cluster rob)) self c
  end.

(** The address an issuing store resolves (lines 2261-2282):
    [(origaddr, addr, annul)]. *)
Definition store_address (uop : FetchBufferEntry) (ra rb : Z) : Z * Z * bool :=
  let sizeshift := uop_size uop in
  let aligntype := uop_cond uop in
  let raddr := W64 (ra + rb) in
  let raddr := Z.land raddr virt_addr_mask in
  let origaddr := raddr in
  let '(raddr, annul) :=
    if decide (aligntype = LDST_ALIGN_NORMAL) then (raddr, false)
    else if decide (aligntype = LDST_ALIGN_LO) then (floor raddr 8, false)
    else if decide (aligntype = LDST_ALIGN_HI) then
      (* Is the high load ever even used? If not, don't check for exceptions *)
      let raddr := floor raddr 8 in
      let annul := bool_decide (floor (W64 (origaddr + (Z.shiftl 1 sizeshift - 1))) 8 = raddr) in
      (W64 (raddr + 8), annul)
    else (raddr, false) in
  (origaddr, lowbits raddr VIRT_ADDR_BITS, annul).

(** The exception, if any, that the store's address raises (line 2318). *)
Definition store_exception (uop : FetchBufferEntry) (ra rb : Z) : Z :=
  let '(_, addr, annul) := store_address uop ra rb in
  check_access_alignment addr annul (uop_size uop) (uop_internal uop) EXCEPTION_PageFaultOnWrite.

(** The search of the store queue for the most recent prior store to the same
    block, or with an unresolved address (lines 2375-2383). *)
Definition find_sfra (state : nat) (c : Core) : option nat :=
  head (filter (fun i =>
          let stbuf := LSQ_at c i in
          lsq_store stbuf = true
          /\ (lsq_addrvalid stbuf = false
              \/ lsq_physaddr stbuf = lsq_physaddr (LSQ_at c state)))
        (foreach_backward_before LSQ_SIZE (LSQ c) state)).

(** The check of all later loads (lines 2444-2450): the first load after the
    store with a valid address in the store's block. *)
Definition find_aliased_load (state : nat) (c : Core) : option nat :=
  head (filter (fun i =>
          let ldbuf := LSQ_at c i in
          lsq_store ldbuf = false /\ lsq_addrvalid ldbuf = true
          /\ lsq_physaddr ldbuf = lsq_physaddr (LSQ_at c state))
        (foreach_forward_after LSQ_SIZE (LSQ c) state)).

(** [ldbuf.rob->uop.rip] *)
Definition lsq_rob_rip (ldbuf : nat) (c : Core) : Z :=
  uop_rip (rob_uop (ROB_at c (default 0%nat (lsq_rob (LSQ_at c ldbuf))))).

(** The state of the LSQ entry once the address is resolved (lines 2283-2295). *)
Definition store_resolve_address (self : nat) (addr : Z) (c : Core) : Core :=
  let uop := rob_uop (ROB_at c self) in
  let state := rob_lsq (ROB_at c self) in
  let aligntype := uop_cond uop in
  let c := alter_LSQ (fun s =>
             set_lsq_addrvalid true
               (set_lsq_datavalid false
                 (set_lsq_invalid false
                   (set_lsq_physaddr (Z.shiftr addr 3) s)))) state c in
  let c := bump "store_type_aligned"
             (b2z (negb (uop_internal uop) && bool_decide (aligntype = LDST_ALIGN_NORMAL))) c in
  let c := bump "store_type_unaligned"
             (b2z (negb (uop_internal uop) && bool_decide (aligntype <> LDST_ALIGN_NORMAL))) c in
  let c := bump "store_type_internal" (b2z (uop_internal uop)) c in
  bump_at "store_size" (uop_size uop) 1 c.

(** [state.invalid = 1; state.data = exception; state.datavalid = 1] *)
Definition store_mark_invalid (state : nat) (exception : Z) (c : Core) : Core :=
  alter_LSQ (fun s => set_lsq_datavalid true (set_lsq_data exception (set_lsq_invalid true s)))
    state c.

(** The replay of a store that is not ready (lines 2405-2434). *)
Definition store_replay (self : nat) (sfra : option nat) (rcready : bool) (c : Core) : Core :=
  let c := PhysicalRegister.unref (rob_operands (ROB_at c self) !!! RS) c in
  let rs := match sfra with
            | Some s => rob_physreg (ROB_at c (default 0%nat (lsq_rob (LSQ_at c s))))
            | None => PHYS_REG_NULL
            end in
  let c := alter_ROB (fun r => set_rob_operands (<[RS := rs]> (rob_operands r)) r) self c in
  let c := PhysicalRegister.addref (rob_operands (ROB_at c self) !!! RS) c in
  let c := ReorderBufferEntry_replay self c in
  let c := alter_ROB (set_rob_load_store_second_phase true) self c in
  let sfr := bool_decide (is_Some sfra) in
  let av := match sfra with Some s => lsq_addrvalid (LSQ_at c s) | None => false end in
  let dv := match sfra with Some s => lsq_datavalid (LSQ_at c s) | None => false end in
  let c := bump "store_issue_replay_sfr_addr_and_data_and_data_to_store_not_ready"
             (b2z (negb rcready && (sfr && (negb av && negb dv)))) c in
  let c := bump "store_issue_replay_sfr_addr_and_data_to_store_not_ready"
             (b2z (negb rcready && (sfr && negb av))) c in
  let c := bump "store_issue_replay_sfr_data_and_data_to_store_not_ready"
             (b2z (negb rcready && (sfr && av && negb dv))) c in
  let c := bump "store_issue_replay_sfr_addr_and_data_not_ready"
             (b2z (rcready && (sfr && (negb av && negb dv)))) c in
  let c := bump "store_issue_replay_sfr_addr_not_ready"
             (b2z (rcready && (sfr && (negb av && dv)))) c in
  bump "store_issue_replay_sfr_data_not_ready" (b2z (rcready && (sfr && (av && negb dv)))) c.

(** The merge of the data once every operand is valid (lines 2487-2517). For a
    high half at an aligned address line 2495 shifts the 64 bit [rc] by 64
    bits, which C leaves undefined; the model takes what the shift instruction
    of the x86-64 host does: the count is used modulo 64, so that [rc] stays as
    it is. *)
Definition store_merge (self : nat) (sfra : option nat) (origaddr rc : Z) (c : Core) : Core :=
  let uop := rob_uop (ROB_at c self) in
  let state := rob_lsq (ROB_at c self) in
  let sizeshift := uop_size uop in
  let full := Z.shiftl 1 (Z.shiftl 1 sizeshift) - 1 in
  let '(bytemask, rc) :=
    if decide (uop_cond uop = LDST_ALIGN_NORMAL \/ uop_cond uop = LDST_ALIGN_LO)
    then (Z.land (Z.shiftl full (lowbits origaddr 3)) 255,
          W64 (Z.shiftl rc (8 * lowbits origaddr 3)))
    else if decide (uop_cond uop = LDST_ALIGN_HI)
    then (Z.land (Z.shiftr full (8 - lowbits origaddr 3)) 255,
          Z.shiftr rc ((8 * (8 - lowbits origaddr 3)) mod 64))
    else (0, rc) in
  let c := alter_LSQ (fun s =>
    set_lsq_datavalid true
      (set_lsq_bytemask
         (match sfra with
          | Some f => Z.lor (lsq_bytemask (LSQ_at c f)) bytemask
          | None => bytemask
          end)
         (set_lsq_data
            (match sfra with
             | Some f => mux64 (expand_8bit_to_64bit bytemask) (lsq_data (LSQ_at c f)) rc
             | None => rc
             end)
            (set_lsq_invalid false s)))) state c in
  let c := bump "store_forward_from_zero" (b2z (bool_decide (sfra = None))) c in
  let c := bump "store_forward_from_sfr" (b2z (bool_decide (sfra <> None))) c in
  let c := alter_ROB (set_rob_load_store_second_phase true) self c in
  bump "store_issue_complete" 1 c.

(** The store's address raised [exception] (lines 2320-2363). *)
Definition store_raise (self : nat) (exception : Z) (c : Core) : option (Core * Z) :=
  let uop := rob_uop (ROB_at c self) in
  let state := rob_lsq (ROB_at c self) in
  let c := store_mark_invalid state exception c in
  if decide (exception = EXCEPTION_UnalignedAccess) then
    let c := set_bbcache (bbcache c ∖ {[uop_rip uop]}) c in
    let c := bump "bbcache_removes" 1 c in
    let c := set_unaligned_ldst_rips ({[uop_rip uop]} ∪ unaligned_ldst_rips c) c in
    '(c, recoveryrip) ← annul_after_and_including self c;
    let c := reset_fetch_unit recoveryrip c in
    Some (bump "store_issue_unaligned" 1 c, ISSUE_MISSPECULATED)
  else Some (bump "store_issue_exception" 1 c, ISSUE_COMPLETED).

(** [ready] (line 2385). *)
Definition store_ready (sfra : option nat) (rcready : bool) (c : Core) : bool :=
  match sfra with
  | None => true
  | Some s => lsq_addrvalid (LSQ_at c s) && lsq_datavalid (LSQ_at c s)
  end && rcready.

(** A later load has read the block this store writes (lines 2450-2480). *)
Definition store_aliased (self : nat) (ldbuf : nat) (c : Core) : option (Core * Z) :=
  let uop := rob_uop (ROB_at c self) in
  let state := rob_lsq (ROB_at c self) in
  let c := store_mark_invalid state EXCEPTION_LoadStoreAliasing c in
  (* Add the rip to the load to the load/store alias predictor *)
  let c := set_lsap (lsap_select (lsq_rob_rip ldbuf c) (lsap c)) c in
  (* Annul everything after and including the store *)
  '(c, recoveryrip) ← annul_after_and_including self c;
  let c := reset_fetch_unit (uop_rip uop) c in
  Some (bump "store_issue_ordering" 1 c, ISSUE_MISSPECULATED).

(** The store once its address is resolved and has raised no exception (lines
    2365-2517). *)
Definition store_resolved (self : nat) (origaddr rc : Z) (rcready : bool) (c : Core)
    : option (Core * Z) :=
  let state := rob_lsq (ROB_at c self) in
  let sfra := find_sfra state c in
  if negb (store_ready sfra rcready c)
  then Some (store_replay self sfra rcready c, ISSUE_NEEDS_REPLAY)
  else
    match find_aliased_load state c with
    | Some ldbuf => store_aliased self ldbuf c
    | None => Some (store_merge self sfra origaddr rc c, ISSUE_COMPLETED)
    end.

(** [ReorderBufferEntry::issuestore(state, ra, rb, rc, rcready)] (lines
    2251-2518), [state] being the ROB's own LSQ entry as [issue] passes it. The
    result is [None] when the annulment it calls does not end. *)
Definition ReorderBufferEntry_issuestore (self : nat) (ra rb rc : Z) (rcready : bool) (c : Core)
    : option (Core * Z) :=
  let uop := rob_uop (ROB_at c self) in
  let '(origaddr, addr, annul) := store_address uop ra rb in
  let c := store_resolve_address self addr c in
  let exception := store_exception uop ra rb in
  if decide (exception <> 0) then store_raise self exception c
  else store_resolved self origaddr rc rcready c.

End IssueStore.

(** ** Issue (lines 3049-3288) *)

Section Issue.
Context `{HwDef} `{Externals}.

(** [lsbindex(v)]: the position of the lowest set bit. *)
Definition lsbindex (v : Z) : Z := Z.log2 (Z.land v (- v)).

(** [physreg.current_state_list->issue_source_counter++] and the bypass flag of
    a source operand that is not the null register (lines 3135-3148). *)
Definition physreg_list_id (l : option physreg_list) : Z :=
  match l with
  | Some physreg_free_list => 0 | Some physreg_used_list => 1
  | Some physreg_ready_list => 2 | Some physreg_written_list => 3
  | Some physreg_arch_list => 4 | Some physreg_pendingfree_list => 5
  | None => -1
  end.

Definition issue_source (r : nat) (c : Core) : Core :=
  let state := physreg_current_state_list (physreg_at c r) in
  let c := bump_at "issue_source_counter" (physreg_list_id state) 1 c in
  alter_physreg (fun p =>
    set_physreg_all_consumers_sourced_from_bypass
      (physreg_all_consumers_sourced_from_bypass p
       && bool_decide (state = Some physreg_ready_list)) p) r c.

(** The counters of a resolved branch (lines 3240-3279). *)
Definition count_branch (what : string) (bptype : Z) (c : Core) : Core :=
  let cond := bit bptype (Z.log2 BRANCH_HINT_COND) in
  let indir := bit bptype (Z.log2 BRANCH_HINT_INDIRECT) in
  let ret := bit bptype (Z.log2 BRANCH_HINT_RET) in
  let c := bump ("branchpred_cond_" +:+ what) (b2z cond) c in
  let c := bump ("branchpred_indir_" +:+ what) (b2z (indir && negb ret)) c in
  let c := bump ("branchpred_return_" +:+ what) (b2z ret) c in
  bump ("branchpred_total_" +:+ what) 1 c.

(** The second half of [issue()], from the write of the result into the
    destination register (lines 3194-3287). *)
Definition issue_result (self : nat) (rddata rdflags : Z) (c : Core) : option (Core * Z) :=
  let uop := rob_uop (ROB_at c self) in
  let physreg := rob_physreg (ROB_at c self) in
  let br := isbranch (uop_opcode uop) in
  let c := alter_physreg (fun p => set_physreg_data rddata (set_physreg_flags rdflags p)) physreg c in
  let valid := PhysicalRegister.valid (physreg_at c physreg) in
  let c :=
    if valid then c
    else
      (* If the uop caused an exception, force it directly to the commit state *)
      let c := alter_ROB (set_rob_cycles_left 0) self c in
      let c := ReorderBufferEntry.changestate rob_ready_to_commit_queue self c in
      set_stall_frontend true c in
  let mispredicted := bool_decide (physreg_data (physreg_at c physreg) <> uop_riptaken uop) in
  (* release() *)
  let c := alter_ROB (set_rob_iqslot (-1)) self c in
  if valid then
    if br then
      if mispredicted then
        let c := count_branch "mispred" (uop_bptype uop) c in
        let realrip := physreg_data (physreg_at c physreg) in
        (* Early misprediction handling. Annul everything after the branch and
           restart fetching in the correct direction *)
        '(c, _) ← annul_after self c;
        let c := reset_fetch_unit realrip c in
        Some (bump "issue_result_branch_mispredict" 1 c, -1)
      else
        let c := count_branch "correct" (uop_bptype uop) c in
        Some (bump "issue_result_complete" 1 c, 1)
    else Some (bump "issue_result_complete" 1 c, 1)
  else Some (bump "issue_result_exception" 1 c, 1).

(** [IssueInput input]: the operands of the uop, an immediate in place of
    [rb] or [rc] where the uop has one (lines 3118-3125). *)
Definition issue_input (rob : ReorderBufferEntry) (c : Core) : IssueInput :=
  let uop := rob_uop rob in
  let ra := rob_operands rob !!! RA in
  let rb := rob_operands rob !!! RB in
  let rc := rob_operands rob !!! RC in
  let rbimm := bool_decide (uop_rb uop = REG_imm) in
  let rcimm := bool_decide (uop_rc uop = REG_imm) in
  {|
    in_ra := physreg_data (physreg_at c ra);
    in_rb := if rbimm then uop_rbimm uop else physreg_data (physreg_at c rb);
    in_rc := if rcimm then uop_rcimm uop else physreg_data (physreg_at c rc);
    in_raflags := physreg_flags (physreg_at c ra);
    in_rbflags := if rbimm then 0 else physreg_flags (physreg_at c rb);
    in_rcflags := if rcimm then 0 else physreg_flags (physreg_at c rc)
  |}.

(** The operands carry no invalid data (line 3151). *)
Definition operands_valid (input : IssueInput) : bool :=
  bool_decide (Z.land (Z.lor (Z.lor (in_raflags input) (in_rbflags input)) (in_rcflags input))
                 FLAG_INV = 0).

(** The result of a branch is valid: the semantic callback set no invalid flag,
    and the target passes the check for executable memory of line 3177, which
    a barrier is exempt from. *)
Definition branch_result_valid (uop : FetchBufferEntry) (rddata rdflags : Z) : bool :=
  bool_decide (Z.land rdflags FLAG_INV = 0)
  && (isbarrier (uop_opcode uop) || asp_check_exec rddata).

(** [ReorderBufferEntry::issue()]. *)
Definition ReorderBufferEntry_issue (self : nat) (c : Core) : option (Core * Z) :=
  let rob := ROB_at c self in
  let uop := rob_uop rob in
  let executable_on_fu :=
    Z.land (Z.land (opinfo_fu (uop_opcode uop)) (clusters_fu_mask (rob_cluster rob))) (fu_avail c) in
  (* Are any FUs available in this cycle? *)
  if decide (executable_on_fu = 0)
  then Some (bump "issue_result_no_fu" 1 c, ISSUE_NEEDS_REPLAY)
  else
    let c := bump "issue_total_uops" 1 c in
    let fu := lsbindex executable_on_fu in
    let c := set_fu_avail (Z.clearbit (fu_avail c) fu) c in
    let c := alter_ROB (fun r => set_rob_cycles_left (W16s (opinfo_latency (uop_opcode uop)))
                                   (set_rob_fu fu r)) self c in
    let c := ReorderBufferEntry.changestate (rob_issued_list (rob_cluster rob)) self c in
    let ra := rob_operands rob !!! RA in
    let rb := rob_operands rob !!! RB in
    let rc := rob_operands rob !!! RC in
    let input := issue_input rob c in
    let ld := isload (uop_opcode uop) in
    let st := isstore (uop_opcode uop) in
    let br := isbranch (uop_opcode uop) in
    let c := if PhysicalRegister.nonnull ra then issue_source ra c else c in
    let c := if bool_decide (uop_rbimm uop = 0) && PhysicalRegister.nonnull rb
             then issue_source rb c else c in
    let c := if bool_decide (uop_rcimm uop = 0) && PhysicalRegister.nonnull rc
             then issue_source rc c else c in
    if decide (Z.land (Z.lor (Z.lor (in_raflags input) (in_rbflags input)) (in_rcflags input))
                 FLAG_INV <> 0)
    then
      (* Invalid data propagated through operands: mark output as invalid and
         don't even execute the uop at all. *)
      issue_result self EXCEPTION_Propagate FLAG_INV c
    else
      let c := bump_at "issue_opclass_histogram" (opclassof (uop_opcode uop)) 1 c in
      if ld || st then
        '(c, completed) ←
          (if ld then issueload self (in_ra input) (in_rb input) (in_rc input) c
           else ReorderBufferEntry_issuestore self (in_ra input) (in_rb input) (in_rc input)
                  (ReorderBufferEntry.operand_ready self RC c) c);
        if decide (completed = ISSUE_MISSPECULATED)
        then Some (bump "issue_result_misspeculation" 1 c, -1)
        else
          let lsq := LSQ_at c (rob_lsq rob) in
          let rddata := lsq_data lsq in
          let rdflags := Z.lor (Z.shiftl (b2z (lsq_invalid lsq)) (Z.log2 FLAG_INV))
                               (Z.shiftl (b2z (negb (lsq_datavalid lsq))) (Z.log2 FLAG_WAIT)) in
          if decide (completed = ISSUE_NEEDS_REPLAY)
          then Some (bump "issue_result_replay" 1 c, 0)
          else issue_result self rddata rdflags c
      else if br then
        let '(rddata, rdflags) := call_exec_func uop input in
        if negb (isbarrier (uop_opcode uop)) && negb (asp_check_exec rddata)
        then (* bogus branch *)
          issue_result self EXCEPTION_PageFaultOnExec (Z.lor rdflags FLAG_INV) c
        else issue_result self rddata rdflags c
      else
        let '(rddata, rdflags) := call_exec_func uop input in
        issue_result self rddata rdflags c.

(** What an annulment or a reset of the fetch unit would write: where fetch
    goes on, the fetch queue and the current basic block, the extent of the ROB
    and which of its slots hold a uop, the LSQ and the speculative rename
    table. *)
Definition redirect_state (c : Core)
    : Z * list FetchBufferEntry * option Z * Z * nat * nat * list bool * Queue LoadStoreQueueEntry * list nat :=
  (fetchrip c, fetchq c, current_basic_block c, current_basic_block_transop_index c,
   q_tail (ROB c), q_count (ROB c), rob_entry_valid <$> q_data (ROB c), LSQ c, specrrt c).

(** What the statements about [issue()] follow through it: the state a
    redirection would write, the two counters of resolved branches, the size of
    the register file, and the uop and destination register of the ROB entry
    [self]. *)
Definition branch_view (self : nat) (c : Core) :=
  (redirect_state c, stat "branchpred_total_correct" c, stat "branchpred_total_mispred" c,
   length (physregs c), rob_uop (ROB_at c self), rob_physreg (ROB_at c self)).

(** The values and flags of the registers, which the operands are read from. *)
Definition operand_view (c : Core) : list (Z * Z) :=
  (fun p => (physreg_data p, physreg_flags p)) <$> physregs c.

Definition issue_view (self : nat) (c : Core) := (branch_view self c, operand_view c).

End Issue.

(** ** Complete and transfer (lines 3329-3421), load wakeup (lines 2834-2848) *)

Section Backend.
Context `{HwDef}.

(** The ROB entries linked into the state list [l]. *)
Definition rob_state_list (l : rob_list) (c : Core) : list nat :=
  filter (fun i => rob_current_state_list (ROB_at c i) = Some l) (seq 0 ROB_SIZE).

(** The physical registers linked into the state list [l]. *)
Definition physreg_state_list (l : physreg_list) (c : Core) : list nat :=
  filter (fun i => physreg_current_state_list (physreg_at c i) = Some l) (seq 0 PHYS_REG_FILE_SIZE).

(** [ReorderBufferEntry::loadwakeup()]. *)
Definition ReorderBufferEntry_loadwakeup (self : nat) (c : Core) : Core :=
  let rob := ROB_at c self in
  let c := alter_physreg (fun p => set_physreg_flags (Z.land (physreg_flags p) (Z.lnot FLAG_WAIT)) p)
             (rob_physreg rob) c in
  let c := PhysicalRegister.complete (rob_physreg rob) c in
  let c := alter_LSQ (set_lsq_datavalid true) (rob_lsq rob) c in
  let c := ReorderBufferEntry.changestate (rob_completed_list (rob_cluster rob)) self c in
  alter_ROB (fun r => set_rob_fu 0 (set_rob_forward_cycle 0 (set_rob_lfrqslot (-1)
                        (set_rob_cycles_left 0 r)))) self c.

(** The body of the loop of [complete(cluster)] for one issued ROB. *)
Definition complete_rob (cluster : Z) (rob : nat) (c : Core) : Core :=
  let c := alter_ROB (fun r => set_rob_cycles_left (W16s (rob_cycles_left r - 1)) r) rob c in
  if decide (rob_cycles_left (ROB_at c rob) <= 0) then
    let c := ReorderBufferEntry.changestate (rob_completed_list cluster) rob c in
    let c := PhysicalRegister.complete (rob_physreg (ROB_at c rob)) c in
    alter_ROB (fun r => set_rob_fu 0 (set_rob_forward_cycle 0 r)) rob c
  else c.

Definition complete (cluster : Z) (c : Core) : Core :=
  foldl (fun c rob => complete_rob cluster rob c) c (rob_state_list (rob_issued_list cluster) c).

(** The body of the loop of [transfer(cluster)] for one completed ROB;
    [forward()] broadcasts the tag to the issue queues, which are outside the
    model. *)
Definition transfer_rob (rob : nat) (c : Core) : Core :=
  let c := alter_ROB (fun r => set_rob_forward_cycle (W16s (rob_forward_cycle r + 1)) r) rob c in
  if decide (rob_forward_cycle (ROB_at c rob) > MAX_FORWARDING_LATENCY) then
    let c := alter_ROB (set_rob_forward_cycle MAX_FORWARDING_LATENCY) rob c in
    ReorderBufferEntry.changestate (rob_ready_to_writeback_list (rob_cluster (ROB_at c rob))) rob c
  else c.

Definition transfer (cluster : Z) (c : Core) : Core :=
  foldl (fun c rob => transfer_rob rob c) c (rob_state_list (rob_completed_list cluster) c).

(** [check_rob()]'s first loop (lines 648-652): true when every assertion on
    [forward_cycle] holds. *)
Definition check_rob_forward_cycle (c : Core) : bool :=
  bool_decide (Forall (fun i =>
      rob_entry_valid (ROB_at c i) = true ->
      0 <= rob_forward_cycle (ROB_at c i) <= (MAX_FORWARDING_LATENCY + 1) - 1)
    (seq 0 ROB_SIZE)).

(** The range of [forward_cycle] that [check_rob()] and [forward()] assert, for
    every slot of the ROB. *)
Definition forward_cycle_in_range (c : Core) : Prop :=
  Forall (fun r => 0 <= rob_forward_cycle r <= MAX_FORWARDING_LATENCY) (q_data (ROB c)).

(** What [transfer] is to do to the entry of a completed ROB: one more
    forwarding cycle, or, past the last one, on to writeback. *)
Definition transferred (r : ReorderBufferEntry) : ReorderBufferEntry :=
  if decide (rob_forward_cycle r + 1 > MAX_FORWARDING_LATENCY)
  then set_rob_current_state_list (Some (rob_ready_to_writeback_list (rob_cluster r)))
         (set_rob_forward_cycle MAX_FORWARDING_LATENCY r)
  else set_rob_forward_cycle (rob_forward_cycle r + 1) r.

(** ** Commit (lines 3511-3886) *)

(** What the scan of the macro-op found (the loop of lines 3630-3645). *)
Inductive macro_op_scan :=
| scan_all_ready
| scan_not_ready
| scan_exception (data : Z).

Fixpoint scan_macro_op (c : Core) (range : list nat) : macro_op_scan :=
  match range with
  | [] => scan_all_ready
  | j :: range' =>
      let subrob := ROB_at c j in
      if negb (ReorderBufferEntry.ready_to_commit subrob) then scan_not_ready
      else if ReorderBufferEntry.has_exception j c
      then scan_exception (physreg_data (physreg_at c (rob_physreg subrob)))
      else if uop_eom (rob_uop subrob) then scan_all_ready
      else scan_macro_op c range'
  end.

(** The uops the scan can reach: [range] through its first EOM uop, or all of
    it when it holds none. *)
Fixpoint through_eom (c : Core) (range : list nat) : list nat :=
  match range with
  | [] => []
  | j :: range' =>
      if uop_eom (rob_uop (ROB_at c j)) then [j] else j :: through_eom c range'
  end.

(** [rrt[archreg]->uncommitref(archreg); rrt[archreg] = physreg;
    rrt[archreg]->addcommitref(archreg)] on the committed rename table. *)
Definition commitrrt_rename (archreg physreg : nat) (c : Core) : Core :=
  let c := PhysicalRegister.uncommitref (commitrrt_at c archreg) archreg c in
  let c := set_commitrrt (<[archreg := physreg]> (commitrrt c)) c in
  PhysicalRegister.addcommitref (commitrrt_at c archreg) archreg c.

(** [ctx.commitarf[reg]] *)
Definition commitarf_at (c : Core) (reg : nat) : Z := default 0 (ctx_commitarf c !! reg).

(** The macro-op at the head has an exception (lines 3665-3682). *)
Definition commit_exception (self : nat) (c : Core) : Core * Z :=
  let uop := rob_uop (ROB_at c self) in
  let c :=
    if bool_decide (uop_opcode uop = OP_chk) && bool_decide (ctx_exception c = EXCEPTION_SkipBlock)
    then
      let c := set_chk_recovery_rip
                 (W64 (commitarf_at c REG_rip + bytes_in_current_insn_to_commit c)) c in
      bump "commit_result_exception_skipblock" 1 c
    else bump "commit_result_exception" 1 c in
  let c := set_total_uops_committed (W64 (total_uops_committed c + 1)) c in
  let c := set_total_user_insns_committed (W64 (total_user_insns_committed c + 1)) c in
  (c, COMMIT_RESULT_EXCEPTION).

(** The uop at the head commits (lines 3684-3832). The update of the branch
    predictor is outside the model. *)
Definition commit_uop (self : nat) (c : Core) : Core * Z :=
  let rob := ROB_at c self in
  let uop := rob_uop rob in
  let physreg := rob_physreg rob in
  let oldphysreg := commitrrt_at c (uop_rd uop) in
  let ld := isload (uop_opcode uop) in
  let st := isstore (uop_opcode uop) in
  let c := if archdest_can_commit_at (uop_rd uop) then commitrrt_rename (uop_rd uop) physreg c else c in
  let c :=
    if uop_eom uop then
      if decide (uop_rd uop = REG_rip)
      then set_ctx_commitarf (<[REG_rip := physreg_data (physreg_at c physreg)]> (ctx_commitarf c)) c
      else set_ctx_commitarf
             (<[REG_rip := W64 (commitarf_at c REG_rip + bytes_in_current_insn_to_commit c)]>
                (ctx_commitarf c)) c
    else c in
  let c :=
    if uop_nouserflags uop then c
    else
      let flagmask := setflags_to_x86_flags (uop_setflags uop) in
      let c := set_ctx_commitarf
                 (<[REG_flags := Z.lor (Z.land (commitarf_at c REG_flags) (Z.land (Z.lnot flagmask) (Z.ones 64)))
                                    (Z.land (physreg_flags (physreg_at c physreg)) flagmask)]>
                    (ctx_commitarf c)) c in
      let c := bump "commit_flags_set" (b2z (bool_decide (uop_setflags uop <> 0))) c in
      let c := bump "commit_flags_unset" (b2z (bool_decide (uop_setflags uop = 0))) c in
      let c := if decide (Z.land (uop_setflags uop) SETFLAG_ZF <> 0)
               then commitrrt_rename REG_zf physreg c else c in
      let c := if decide (Z.land (uop_setflags uop) SETFLAG_CF <> 0)
               then commitrrt_rename REG_cf physreg c else c in
      if decide (Z.land (uop_setflags uop) SETFLAG_OF <> 0)
      then commitrrt_rename REG_of physreg c else c in
  (* the store goes to the cache: commitstore_unlocked *)
  let c := if st then set_memory (LSQ_at c (rob_lsq rob) :: memory c) c else c in
  (* Free physical registers, load/store queue entries, etc. *)
  let c := if ld || st then LSQ_commit (rob_lsq rob) c else c in
  let c :=
    if PhysicalRegister.nonnull oldphysreg then
      if PhysicalRegister.referenced (physreg_at c oldphysreg)
      then bump "commit_freereg_pending" 1
             (PhysicalRegister.changestate physreg_pendingfree_list oldphysreg c)
      else bump "commit_freereg_free" 1 (PhysicalRegister.free oldphysreg c)
    else c in
  let c := PhysicalRegister.changestate physreg_arch_list physreg c in
  (* Unlock operand physregs *)
  let c := foldl (fun c i => PhysicalRegister.unref (rob_operands rob !!! i) c) c (seq 0 MAX_OPERANDS) in
  let c := if isbranch (uop_opcode uop) then bump "branchpred_updates" 1 c else c in
  let c := if uop_eom uop
           then set_total_user_insns_committed (W64 (total_user_insns_committed c + 1)) c else c in
  let c := set_total_uops_committed (W64 (total_uops_committed c + 1)) c in
  let c := ReorderBufferEntry.changestate rob_free_list self c in
  let c := ROB_commit self c in
  if isbarrier (uop_opcode uop)
  then (bump "commit_result_barrier" 1 c, COMMIT_RESULT_BARRIER)
  else (bump "commit_result_ok" 1 c, COMMIT_RESULT_OK).

(** [ReorderBufferEntry::commit()]. *)
Definition ReorderBufferEntry_commit (self : nat) (c : Core) : Core * Z :=
  let uop := rob_uop (ROB_at c self) in
  let c := if uop_som uop then set_bytes_in_current_insn_to_commit (uop_bytes uop) c else c in
  match scan_macro_op c (foreach_forward_from ROB_SIZE (ROB c) self) with
  | scan_not_ready => (bump "commit_result_none" 1 c, COMMIT_RESULT_NONE)
  | scan_all_ready =>
      let c := bump_at "commit_opclass_histogram" (opclassof (uop_opcode uop)) 1 c in
      commit_uop self c
  | scan_exception data =>
      let c := set_ctx_exception data c in
      let c := bump_at "commit_opclass_histogram" (opclassof (uop_opcode uop)) 1 c in
      commit_exception self c
  end.

(** The sweep of the pendingfree list at the top of [commit()] (lines 3845-3854). *)
Definition free_unreferenced (c : Core) : Core :=
  foldl (fun c physreg =>
           if PhysicalRegister.referenced (physreg_at c physreg) then c
           else bump "commit_freereg_recycled" 1 (PhysicalRegister.free physreg c))
    c (physreg_state_list physreg_pendingfree_list c).

(** The loop of [commit()] over the ROB in program order (lines 3864-3880):
    [(core, rc, commitcount)]. *)
Fixpoint commit_loop (range : list nat) (commitcount : nat) (rc : Z) (c : Core) : Core * Z * nat :=
  match range with
  | [] => (c, rc, commitcount)
  | i :: range' =>
      if decide (COMMIT_WIDTH <= commitcount)%nat then (c, rc, commitcount)
      else
        let '(c, rc) := ReorderBufferEntry_commit i c in
        if decide (rc = COMMIT_RESULT_OK) then
          let commitcount := S commitcount in
          let c := set_last_commit_at_cycle (sim_cycle c) c in
          if decide (total_user_insns_committed c >= stop_at_user_insns c)
          then (c, COMMIT_RESULT_STOP, commitcount)
          else commit_loop range' commitcount rc c
        else (c, rc, commitcount)
  end.

(** [commit()]. *)
Definition commit (c : Core) : Core * Z :=
  let c := free_unreferenced c in
  let '(c, rc, commitcount) :=
    commit_loop (foreach_forward ROB_SIZE (ROB c)) 0 COMMIT_RESULT_OK c in
  (bump_at "commit_width_histogram" (Z.of_nat commitcount) 1 c, rc).

End Backend.

(** ** The top-level loop (lines 4326-4409) *)

(** The stages of a cycle that are not embedded: the cache clock, writeback,
    the selection of ready uops from an issue queue ([issue(cluster)], which
    calls [ReorderBufferEntry::issue]), dispatch, the frontend delay, the
    renaming of one uop, fetch, and the two handlers the loop calls after a
    barrier or an exception ([false] when the loop is to be left). *)
Class Stages := {
  dcache_clock : Core -> Core;
  writeback : Z -> Core -> Core;
  issue : Z -> Core -> Core;
  dispatch : Core -> Core;
  frontend : Core -> Core;
  rename_uop : Core -> Core;
  fetch : Core -> Core;
  handle_barrier : Core -> Core * bool;
  handle_exception : Core -> Core * bool
}.

Section Toplevel.
Context `{HwDef} `{Stages}.

(** [external_to_core_state()] (lines 1142-1149). *)
Definition external_to_core_state (c : Core) : Core :=
  let c := foldl (fun c i =>
             alter_physreg (fun p => set_physreg_flags 0 (set_physreg_data (commitarf_at c i) p))
               (commitrrt_at c i) c) c (seq 0 ARCHREG_COUNT) in
  alter_physreg (fun p =>
      set_physreg_flags (commitarf_at c REG_flags mod 2 ^ 16)
        (set_physreg_data (commitarf_at c REG_flags mod 2 ^ 16) p))
    (PHYS_REG_ARCH_BASE + REG_flags)%nat c.

(** One pass through the stages, in reverse pipeline order (lines 4363-4398):
    the core and whether the loop goes on. *)
Definition toplevel_cycle (c : Core) : Core * bool :=
  (* All FUs are available at top of cycle *)
  let c := set_fu_avail (Z.ones FU_COUNT) c in
  let c := dcache_clock c in
  let '(c, commitrc) := commit c in
  let c := for_each_cluster writeback c in
  let c := for_each_cluster transfer c in
  let c := for_each_cluster (fun i c => complete i (issue i c)) c in
  let c := dispatch c in
  let c := if stall_frontend c then c else fetch (rename rename_uop (frontend c)) in
  let '(c, goes_on) :=
    if decide (commitrc = COMMIT_RESULT_BARRIER) then handle_barrier c
    else if decide (commitrc = COMMIT_RESULT_EXCEPTION) then handle_exception c
    else if decide (commitrc = COMMIT_RESULT_STOP) then (c, false)
    else (c, true) in
  if goes_on
  then (set_sim_cycle (W64 (sim_cycle c + 1)) (set_iterations (W64 (iterations c + 1)) c), true)
  else (c, false).

(** [sim_cycle - last_commit_at_cycle], in [W64]. *)
Definition cycles_since_commit (c : Core) : Z := W64 (sim_cycle c - last_commit_at_cycle c).

(** The warning of lines 4355-4356 on [cerr], with the figure it names. *)
Definition report_deadlock (c : Core) : Core :=
  set_cerr (cycles_since_commit c :: cerr c) c.

(** The body of the [while] loop (lines 4348-4398): the check for a deadlock,
    then the cycle. The warning goes to the log and to [cerr]; the model keeps
    the figure it names. *)
Definition toplevel_iteration (c : Core) : Core * bool :=
  if decide (cycles_since_commit c > 1024)
  then (report_deadlock c, false)
  else toplevel_cycle c.

(** The condition of the [while] loop (line 4347). *)
Definition toplevel_condition (c : Core) : bool :=
  bool_decide (iterations c < stop_at_iteration c)
  && bool_decide (total_user_insns_committed c < stop_at_user_insns c).

(** At most [n] iterations of the [while] loop: the core, and whether the loop
    is still running after them. *)
Fixpoint toplevel_loop (n : nat) (c : Core) : Core * bool :=
  match n with
  | O => (c, true)
  | S n' =>
      if toplevel_condition c then
        let '(c, goes_on) := toplevel_iteration c in
        if goes_on then toplevel_loop n' c else (c, false)
      else (c, false)
  end.

(** [out_of_order_core_toplevel_loop()], for at most [n] iterations. *)
Definition out_of_order_core_toplevel_loop (n : nat) (c : Core) : Core * bool :=
  let c := flush_pipeline (commitarf_at c REG_rip) c in
  let c := external_to_core_state c in
  toplevel_loop n c.

(** What the deadlock check reads and writes, apart from
    [last_commit_at_cycle]: the cycle counter and [cerr]. *)
Definition clock (c : Core) : Z * list Z := (sim_cycle c, cerr c).

(** The stages outside the model leave the cycle counter and [cerr] alone. *)
Definition stages_keep_clock : Prop :=
  forall c,
    clock (dcache_clock c) = clock c
    /\ (forall i, clock (writeback i c) = clock c)
    /\ (forall i, clock (issue i c) = clock c)
    /\ clock (dispatch c) = clock c
    /\ clock (frontend c) = clock c
    /\ clock (rename_uop c) = clock c
    /\ clock (fetch c) = clock c
    /\ clock (handle_barrier c).1 = clock c
    /\ clock (handle_exception c).1 = clock c.

End Toplevel.

(** ** The core before the simulation starts *)

Section InitialCore.
Context `{HwDef}.

(** The globals as the program starts: static storage is zeroed, the counters
    have the initial values of config.cpp lines 31-35 and ooocore.cpp lines
    740-741 and 3835, and the two limits are the configured ones. *)
Definition initial_core (stop_at_iteration stop_at_user_insns : Z) : Core := {|
  ROB := Build_Queue
           (replicate ROB_SIZE (Build_ReorderBufferEntry None inhabitant 0 0 0 0 0 false false 0 0%nat
                                  (replicate MAX_OPERANDS 0%nat) 0%nat)) 0%nat 0%nat 0%nat;
  LSQ := Build_Queue
           (replicate LSQ_SIZE (Build_LoadStoreQueueEntry 0 false false false 0 0 None 0 false false))
           0%nat 0%nat 0%nat;
  physregs := replicate PHYS_REG_FILE_SIZE (Build_PhysicalRegister None 0 0 0%nat 0%nat false 0);
  specrrt := RegisterRenameTable_reset;
  commitrrt := RegisterRenameTable_reset;
  loads_in_flight := 0;
  stores_in_flight := 0;
  lsap := [];
  fetchrip := 0;
  stall_frontend := false;
  waiting_for_icache_fill := false;
  fetchq := [];
  current_basic_block := None;
  current_basic_block_transop_index := 0;
  bbcache := ∅;
  unaligned_ldst_rips := ∅;
  fu_avail := Z.ones FU_COUNT;
  ctx_commitarf := replicate ARCHREG_COUNT 0;
  ctx_exception := 0;
  chk_recovery_rip := 0;
  bytes_in_current_insn_to_commit := 0;
  memory := [];
  stats := ∅;
  sim_cycle := 0;
  last_commit_at_cycle := 0;
  iterations := 0;
  total_user_insns_committed := 0;
  total_uops_committed := 0;
  stop_at_iteration := stop_at_iteration;
  stop_at_user_insns := stop_at_user_insns;
  cerr := []
|}.

End InitialCore.

(** ** An example machine *)

(** A small configuration to run the definitions on. The sizes are chosen for
    reading the examples by hand; [LDQ_SIZE] and [STQ_SIZE] differ so that the
    two can be told apart. *)
Definition example_hw : HwDef := {|
  ROB_SIZE := 8;
  LDQ_SIZE := 4;
  STQ_SIZE := 2;
  PHYS_REG_FILE_SIZE := 96;
  PHYS_REG_NULL := 0;
  PHYS_REG_ARCH_BASE := 32;
  ARCHREG_COUNT := 64;
  MAX_CLUSTERS := 2;
  MAX_FORWARDING_LATENCY := 2;
  FRONTEND_WIDTH := 4;
  FRONTEND_STAGES := 3;
  COMMIT_WIDTH := 4;
  FU_COUNT := 4;
  VIRT_ADDR_BITS := 48;
  REG_rip := 56; REG_flags := 57; REG_zf := 72; REG_cf := 73; REG_of := 74;
  REG_imm := 75; REG_mem := 76; REG_zero := 63; REG_sr1 := 58;
  FLAG_INV := 8; FLAG_WAIT := 16;
  SETFLAG_ZF := 1; SETFLAG_CF := 2; SETFLAG_OF := 4;
  setflags_to_x86_flags := fun _ => 0;
  EXCEPTION_Propagate := 1;
  EXCEPTION_UnalignedAccess := 2;
  EXCEPTION_PageFaultOnRead := 3;
  EXCEPTION_PageFaultOnWrite := 4;
  EXCEPTION_PageFaultOnExec := 5;
  EXCEPTION_LoadStoreAliasing := 6;
  EXCEPTION_SkipBlock := 7;
  LDST_ALIGN_NORMAL := 0; LDST_ALIGN_LO := 1; LDST_ALIGN_HI := 2;
  (* opcodes of the example: 0 an ALU op, 1 a load, 2 a store, 3 a branch,
     4 a barrier *)
  isload := fun op => bool_decide (op = 1);
  isstore := fun op => bool_decide (op = 2);
  isbranch := fun op => bool_decide (op = 3);
  isbarrier := fun op => bool_decide (op = 4);
  OP_chk := 5;
  opclassof := fun op => op;
  opinfo_fu := fun _ => 15;
  opinfo_latency := fun _ => 1;
  clusters_fu_mask := fun _ => 15;
  BRANCH_HINT_COND := 1; BRANCH_HINT_INDIRECT := 2;
  BRANCH_HINT_CALL := 4; BRANCH_HINT_RET := 8
|}.

Section Examples.
#[local] Existing Instance example_hw.

(** A uop of the example machine: a whole macro-op of [bytes] bytes at [rip]. *)
Definition example_uop (opcode rip riptaken : Z) (som eom : bool) : FetchBufferEntry := {|
  uop_opcode := opcode; uop_som := som; uop_eom := eom; uop_bytes := 4;
  uop_rd := 77%nat; uop_ra := 63%nat; uop_rb := 63%nat; uop_rc := 63%nat;
  uop_rbimm := 0; uop_rcimm := 0; uop_size := 3; uop_cond := 0;
  uop_internal := false; uop_setflags := 0; uop_nouserflags := true;
  uop_riptaken := riptaken; uop_ripseq := rip + 4; uop_rip := rip; uop_uuid := 0;
  uop_bptype := 0
|}.

(** The example machine after [flush_pipeline(0)], with no limit on the run. *)
Definition example_core : Core :=
  flush_pipeline 0 (initial_core (2 ^ 63) (2 ^ 63)).

(** A ROB entry in flight in the list [l], with destination register [physreg]
    and its operands on the null register. *)
Definition example_rob (uop : FetchBufferEntry) (l : rob_list) (physreg lsq : nat)
    : ReorderBufferEntry := {|
  rob_current_state_list := Some l; rob_uop := uop; rob_cycles_left := 0;
  rob_forward_cycle := 0; rob_cluster := 0; rob_fu := 0; rob_lfrqslot := -1;
  rob_entry_valid := true; rob_load_store_second_phase := false; rob_iqslot := 0;
  rob_physreg := physreg; rob_operands := [0; 0; 0; 0]%nat; rob_lsq := lsq
|}.

(** [c] with the ROB holding [robs] from slot 0 on, oldest first. *)
Definition with_robs (robs : list ReorderBufferEntry) (c : Core) : Core :=
  set_ROB (Build_Queue (robs ++ drop (length robs) (q_data (ROB c))) 0%nat
             (length robs) (length robs)) c.

(** [c] with the LSQ holding [lsqs] from slot 0 on, oldest first. *)
Definition with_lsqs (lsqs : list LoadStoreQueueEntry) (c : Core) : Core :=
  set_LSQ (Build_Queue (lsqs ++ drop (length lsqs) (q_data (LSQ c))) 0%nat
             (length lsqs) (length lsqs)) c.

(** The first uop of a macro-op of two: an ALU uop that writes rcx (register
    1), with SOM set and EOM clear. *)
Definition first_uop_of_two : FetchBufferEntry := {|
  uop_opcode := 0; uop_som := true; uop_eom := false; uop_bytes := 4;
  uop_rd := 1%nat; uop_ra := 63%nat; uop_rb := 63%nat; uop_rc := 63%nat;
  uop_rbimm := 0; uop_rcimm := 0; uop_size := 3; uop_cond := 0;
  uop_internal := false; uop_setflags := 0; uop_nouserflags := true;
  uop_riptaken := 4100; uop_ripseq := 4100; uop_rip := 4096; uop_uuid := 0;
  uop_bptype := 0
|}.

(** A branch at 4096, predicted to go to 8192, alone in the ROB and ready to
    issue in cluster 0, with destination register 40. *)
Definition branch_core : Core :=
  with_robs [example_rob (example_uop 3 4096 8192 true true) (rob_ready_to_issue_list 0) 40 0]
    example_core.

(** The same branch followed by the first uop of the predicted path, at 8192
    with destination register 41. *)
Definition branch_and_next_core : Core :=
  with_robs [example_rob (example_uop 3 4096 8192 true true) (rob_issued_list 0) 40 0;
             example_rob (example_uop 0 8192 8196 true true) (rob_ready_to_issue_list 0) 41 0]
    example_core.

(** Stages that leave the core alone: what the stages that are not embedded do
    when nothing is in flight and the frontend has nothing to fetch. *)
Definition idle_stages : Stages := {|
  dcache_clock := fun c => c;
  writeback := fun _ c => c;
  issue := fun _ c => c;
  dispatch := fun c => c;
  frontend := fun c => c;
  rename_uop := fun c => c;
  fetch := fun c => c;
  handle_barrier := fun c => (c, true);
  handle_exception := fun c => (c, true)
|}.

(** An address space with no page mapped, pointers of 64 bits, and a semantic
    callback that gives the taken target of the uop. *)
Definition unmapped_externals : Externals := {|
  virt_addr_mask := Z.ones 64;
  asp_fastcheck_write := fun _ => false;
  asp_check_exec := fun _ => false;
  call_exec_func := fun uop _ => (uop_riptaken uop, 0);
  issueload := fun _ _ _ _ c => Some (c, ISSUE_COMPLETED)
|}.

(** The same with every page mapped. *)
Definition mapped_externals : Externals := {|
  virt_addr_mask := Z.ones 64;
  asp_fastcheck_write := fun _ => true;
  asp_check_exec := fun _ => true;
  call_exec_func := fun uop _ => (uop_riptaken uop, 0);
  issueload := fun _ _ _ _ c => Some (c, ISSUE_COMPLETED)
|}.

(** A store of the example machine: the high half ([LDST_ALIGN_HI]) of an
    access of [2^size] bytes. *)
Definition high_store_uop (size : Z) : FetchBufferEntry := {|
  uop_opcode := 2; uop_som := true; uop_eom := true; uop_bytes := 4;
  uop_rd := 76%nat; uop_ra := 63%nat; uop_rb := 63%nat; uop_rc := 63%nat;
  uop_rbimm := 0; uop_rcimm := 0; uop_size := size; uop_cond := 2;
  uop_internal := false; uop_setflags := 0; uop_nouserflags := true;
  uop_riptaken := 0; uop_ripseq := 4100; uop_rip := 4096; uop_uuid := 0;
  uop_bptype := 0
|}.

Definition example_lsq (store : bool) (rob : nat) : LoadStoreQueueEntry := {|
  lsq_data := 0; lsq_addrvalid := false; lsq_datavalid := false; lsq_invalid := false;
  lsq_physaddr := 0; lsq_bytemask := 0; lsq_rob := Some rob; lsq_mbtag := -1;
  lsq_store := store; lsq_entry_valid := true
|}.

(** The example machine with that store, of 8 bytes, alone in flight. *)
Definition high_half_store_core : Core :=
  with_lsqs [example_lsq true 0]
    (with_robs [example_rob (high_store_uop 3) (rob_issued_list 0) 1 0] example_core).

(** A store at 4096 in ROB slot 0, being issued, and behind it a load at 4100
    in slot 1 that has completed: its LSQ entry has a valid address in block
    512, the block of address 4096. *)
Definition aliasing_core : Core :=
  with_lsqs [example_lsq true 0;
             set_lsq_physaddr 512 (set_lsq_addrvalid true (example_lsq false 1))]
    (with_robs [example_rob (example_uop 2 4096 0 true true) (rob_issued_list 0) 42 0;
                example_rob (example_uop 1 4100 0 true true) (rob_completed_list 0) 43 1]
       example_core).

End Examples.

(* --------------------------------------------------------------------- *)
(** ** Further definitions: the rest of the option parser, the state round
    trip, the frontend delay, and the views used to state what a stage leaves
    alone *)
(* --------------------------------------------------------------------- *)

Module ConfigMore.
Import Config.

(** The entry of the table an argument names: the text after the dash of an
    argument of two characters or more that starts with one. *)
Definition option_of_arg (a : string) : option CommandLineOptions :=
  match a with
  | String "-"%char (String c o') => find_option (String c o') options
  | _ => None
  end.

(** The suffix letters that [parse_options] takes off a numeric argument, with
    their multipliers (the switch of lines 208-217). *)
Definition suffix_table : list (ascii * Z) :=
  [("k"%char, 10 ^ 3); ("K"%char, 10 ^ 3); ("m"%char, 10 ^ 6); ("M"%char, 10 ^ 6);
   ("g"%char, 10 ^ 9); ("G"%char, 10 ^ 9); ("t"%char, 10 ^ 12); ("T"%char, 10 ^ 12)].

End ConfigMore.

Section ExternalState.
Context `{HwDef}.

(** [core_to_external_state()] (lines 1151-1171): the architectural registers
    are read back through the committed rename table; [rip] and the flags keep
    the values the context had. *)
Definition core_to_external_state (c : Core) : Core :=
  let rip := commitarf_at c REG_rip in
  let flags := commitarf_at c REG_flags in
  let c := foldl (fun c i =>
             set_ctx_commitarf
               (<[i := physreg_data (physreg_at c (commitrrt_at c i))]> (ctx_commitarf c)) c)
             c (seq 0 ARCHREG_COUNT) in
  let c := set_ctx_commitarf (<[REG_rip := rip]> (ctx_commitarf c)) c in
  set_ctx_commitarf (<[REG_flags := flags]> (ctx_commitarf c)) c.

End ExternalState.

Section Untouched.
Context `{HwDef}.

(** What committing a uop does not write: the speculative rename table, the
    alias predictor, the fetch unit, the basic block cache, the functional
    units, the cycle counters, the limits of the run and [cerr]. *)
Definition outside_commit (c : Core) :=
  (specrrt c, lsap c, fetchrip c, stall_frontend c, waiting_for_icache_fill c, fetchq c,
   current_basic_block c, current_basic_block_transop_index c, bbcache c,
   unaligned_ldst_rips c, fu_avail c, sim_cycle c, last_commit_at_cycle c, iterations c,
   stop_at_iteration c, stop_at_user_insns c, cerr c).

End Untouched.

Section OutsideStoreMark.

(** What resolving the address of a store and marking its LSQ entry do not
    write. *)
Definition outside_store_mark (c : Core) :=
  (ROB c, physregs c, specrrt c, commitrrt c, fetchrip c, fetchq c, bbcache c,
   unaligned_ldst_rips c, lsap c, memory c).

End OutsideStoreMark.

Section PropagateView.
Context `{HwDef} `{Externals}.

(** What [issue()] leaves alone up to the point where the uop would execute,
    beyond [issue_view]: the count of executed uops of the class [k], the count
    of uops issued with an exception, memory and the size of the ROB. *)
Definition propagate_view (self : nat) (k : Z) (c : Core) :=
  (issue_view self c, stat_at "issue_opclass_histogram" k c, stat "issue_result_exception" c,
   memory c, length (q_data (ROB c))).

End PropagateView.

(** ** The frontend delay (lines 1652-1671) *)

Module FrontendStage.
Section Frontend.
Context `{HwDef}.

(** The body of the loop of [frontend()] for one ROB of the frontend list. *)
Definition frontend_rob (rob : nat) (c : Core) : Core :=
  let c :=
    if decide (rob_cycles_left (ROB_at c rob) <= 0) then
      let c := alter_ROB (set_rob_cycles_left (-1)) rob c in
      ReorderBufferEntry.changestate rob_ready_to_dispatch_list rob c
    else c in
  alter_ROB (fun r => set_rob_cycles_left (W16s (rob_cycles_left r - 1)) r) rob c.

(** [frontend()]. *)
Definition frontend (c : Core) : Core :=
  foldl (fun c rob => frontend_rob rob c) c (rob_state_list rob_frontend_list c).

End Frontend.
End FrontendStage.

(** ** The renaming of one uop (lines 1497-1640) *)

Module RenameStage.
Section Rename.
Context `{HwDef}.

(** [archdest_is_visible] (lines 1387-1403). *)
Definition archdest_is_visible : list Z := [
  (* Integer registers *)
  1; 1; 1; 1; 1; 1; 1; 1;
  1; 1; 1; 1; 1; 1; 1; 1;
  (* SSE registers, low 64 bits *)
  1; 1; 1; 1; 1; 1; 1; 1;
  1; 1; 1; 1; 1; 1; 1; 1;
  (* SSE registers, high 64 bits *)
  1; 1; 1; 1; 1; 1; 1; 1;
  1; 1; 1; 1; 1; 1; 1; 1;
  (* x87 FP / MMX / special *)
  1; 1; 1; 1; 0; 0; 0; 0;
  0; 0; 0; 1; 0; 0; 0; 0;
  (* The following are ONLY used during the translation and renaming process: *)
  0; 0; 0; 0; 0; 0; 0; 0;
  0; 0; 0; 0; 0; 0; 0; 0
].

Definition archdest_can_rename_at (archreg : nat) : bool :=
  bool_decide (default 0 (archdest_can_rename !! archreg) <> 0).
Definition archdest_is_visible_at (archreg : nat) : bool :=
  bool_decide (default 0 (archdest_is_visible !! archreg) <> 0).

(** [PhysicalRegisterFile::alloc()] (lines 952-960): the register and the core,
    or [None] for the null pointer of an empty free list. Which register
    [dequeue()] takes off the free list depends on the order of the list, which
    the model does not keep: it takes the register of lowest index, which is
    the head of the list as [PhysicalRegisterFile::reset()] builds it. *)
Definition physregs_alloc (c : Core) : option (nat * Core) :=
  match physreg_state_list physreg_free_list c with
  | [] => None
  | physreg :: _ =>
      let c := alter_physreg (set_physreg_current_state_list None) physreg c in
      let c := PhysicalRegister.changestate physreg_used_list physreg c in
      let c := alter_physreg (set_physreg_flags FLAG_WAIT) physreg c in
      Some (physreg, c)
  end.

(** The body of the loop of [rename()] after the checks of [rename_hazard]
    (lines 1497-1640), which leave a uop at the head of the fetch queue and a
    register on the free list; without them the core is left as it is. The RAS
    of the branch predictor is outside the model. *)
Definition rename_uop (c : Core) : Core :=
  match fetchq c with
  | [] => c
  | transop :: fetchq' =>
      let ld := isload (uop_opcode transop) in
      let st := isstore (uop_opcode transop) in
      let br := isbranch (uop_opcode transop) in
      let c := bump "frontend_status_complete" 1 c in
      (* fetchq.dequeue(), ROB.alloc(), physregs.alloc() *)
      let c := set_fetchq fetchq' c in
      let rob := q_tail (ROB c) in
      let c := set_ROB (q_alloc ROB_SIZE ReorderBufferEntry.validate (ROB c)) c in
      match physregs_alloc c with
      | None => c
      | Some (physreg, c) =>
          (* For debugging purposes: *)
          let c := alter_physreg (set_physreg_flags FLAG_WAIT) physreg c in
          let c := alter_physreg (set_physreg_data 16045690984833335023) physreg c in
          let lsq := q_tail (LSQ c) in
          let c := if ld || st
                   then set_LSQ (q_alloc LSQ_SIZE LoadStoreQueueEntry.validate (LSQ c)) c
                   else c in
          let c := alter_ROB ReorderBufferEntry.reset rob c in
          let c := alter_ROB (fun r =>
                     set_rob_cycles_left (W16s FRONTEND_STAGES)
                       (set_rob_entry_valid true
                          (set_rob_uop transop (set_rob_physreg physreg r)))) rob c in
          let c :=
            if ld || st then
              let c := alter_ROB (set_rob_lsq lsq) rob c in
              alter_LSQ (fun l =>
                set_lsq_invalid false
                  (set_lsq_addrvalid false
                     (set_lsq_datavalid false
                        (set_lsq_store st (set_lsq_rob (Some rob) l))))) lsq c
            else c in
          let c := bump "frontend_alloc_reg" (b2z (negb (ld || st || br))) c in
          let c := bump "frontend_alloc_ldreg" (b2z ld) c in
          let c := bump "frontend_alloc_sfr" (b2z st) c in
          let c := bump "frontend_alloc_br" (b2z br) c in
          let c := alter_physreg (fun p =>
                     set_physreg_archreg (uop_rd transop) (set_physreg_rob rob p)) physreg c in
          (* Rename operands: *)
          let c := alter_ROB (fun r =>
                     set_rob_operands
                       (<[RS := PHYS_REG_NULL]>
                          (<[RC := specrrt_at c (uop_rc transop)]>
                             (<[RB := specrrt_at c (uop_rb transop)]>
                                (<[RA := specrrt_at c (uop_ra transop)]> (rob_operands r)))))
                       r) rob c in
          let c := foldl (fun c i => PhysicalRegister.addref (rob_operands (ROB_at c rob) !!! i) c)
                     c (seq 0 MAX_OPERANDS) in
          let renamed_reg :=
            archdest_can_rename_at (uop_rd transop) && archdest_is_visible_at (uop_rd transop) in
          let c := if archdest_can_rename_at (uop_rd transop)
                   then specrrt_rename (uop_rd transop) physreg c else c in
          let renamed_flags :=
            negb (uop_nouserflags transop) && bool_decide (uop_setflags transop <> 0) in
          let c :=
            if uop_nouserflags transop then c
            else
              let c := if decide (Z.land (uop_setflags transop) SETFLAG_ZF <> 0)
                       then specrrt_rename REG_zf physreg c else c in
              let c := if decide (Z.land (uop_setflags transop) SETFLAG_CF <> 0)
                       then specrrt_rename REG_cf physreg c else c in
              if decide (Z.land (uop_setflags transop) SETFLAG_OF <> 0)
              then specrrt_rename REG_of physreg c else c in
          let c := bump "frontend_renamed_none" (b2z (negb renamed_reg && negb renamed_flags)) c in
          let c := bump "frontend_renamed_reg" (b2z (renamed_reg && negb renamed_flags)) c in
          let c := bump "frontend_renamed_flags" (b2z (negb renamed_reg && renamed_flags)) c in
          let c := bump "frontend_renamed_reg_and_flags" (b2z (renamed_reg && renamed_flags)) c in
          ReorderBufferEntry.changestate rob_frontend_list rob c
      end
  end.

End Rename.
End RenameStage.

(** ** The stages and [forward_cycle] *)

Section StagesAndForwardCycle.
Context `{HwDef} `{Stages}.

(** The forwarding cycles of the slots of the ROB. *)
Definition forward_cycles (c : Core) : list Z := rob_forward_cycle <$> q_data (ROB c).

(** From [c] to [c'], [forward_cycle] is written by [loadwakeup()] only, for
    some ROBs or none: the fields are as after these calls. *)
Definition wakes_loads (c c' : Core) : Prop :=
  exists robs : list nat,
    forward_cycles c'
    = forward_cycles (foldl (fun c rob => ReorderBufferEntry_loadwakeup rob c) c robs).

(** The stages of [Stages] and [forward_cycle]. In the source the field is
    written in three places only (lines 2846, 3362 and 3411-3413): [complete]
    and [transfer], which are stages of the model, and [loadwakeup()], which
    [load_filled_callback] (lines 2850-2859) calls when the data cache, which
    is outside the sources, has filled a miss. So a stage outside the model
    writes the field by calls of [loadwakeup()] if at all, and [frontend] and
    the body of the loop of [rename()] are the embedded ones. *)
Definition stages_leave_forward_cycle : Prop :=
  (forall c, wakes_loads c (dcache_clock c))
  /\ (forall i c, wakes_loads c (writeback i c))
  /\ (forall i c, wakes_loads c (issue i c))
  /\ (forall c, wakes_loads c (dispatch c))
  /\ (forall c, frontend c = FrontendStage.frontend c)
  /\ (forall c, rename_uop c = RenameStage.rename_uop c)
  /\ (forall c, wakes_loads c (fetch c))
  /\ (forall c, wakes_loads c (handle_barrier c).1)
  /\ (forall c, wakes_loads c (handle_exception c).1).

End StagesAndForwardCycle.

(** ** What [rename] is to count *)

(** The counters of loads and stores in flight that [rename()] tests (lines
    1480 and 1486). *)
Definition in_flight_counters (c : Core) : Z * Z := (loads_in_flight c, stores_in_flight c).

(** The stores in flight: the valid entries of the LSQ that are stores. *)
Definition stores_in_LSQ (c : Core) : nat :=
  length (filter (fun l => lsq_entry_valid l && lsq_store l = true) (q_data (LSQ c))).

Section MoreExamples.
#[local] Existing Instance example_hw.

(** A macro-op of one uop at the head of the ROB, ready to commit, whose
    result in register 40 carries the exception 3. *)
Definition excepting_core : Core :=
  alter_physreg (fun p => set_physreg_flags FLAG_INV (set_physreg_data 3 p)) 40
    (with_robs [example_rob (example_uop 0 4096 4100 true true) rob_ready_to_commit_queue 40 0]
       example_core).



(** An ALU uop ready to issue in cluster 0, with destination register 41,
    whose first operand, register 40, carries an exception. *)
Definition propagating_core : Core :=
  alter_physreg (fun p => set_physreg_flags FLAG_INV (set_physreg_data 3 p)) 40
    (with_robs [set_rob_operands [40; 0; 0; 0]%nat
                  (example_rob (example_uop 0 4096 4100 true true)
                     (rob_ready_to_issue_list 0) 41 0)]
       example_core).

End MoreExamples.

Section StageExamples.
#[local] Existing Instance example_hw.

(** A uop that has just been renamed: on the frontend list with three stages
    to go. *)
Definition frontend_core : Core :=
  with_robs [set_rob_cycles_left 3
               (example_rob (example_uop 0 4096 4100 true true) rob_frontend_list 40 0)]
    example_core.

(** A uop issued in cluster 0 with two cycles of latency left. *)
Definition issued_core : Core :=
  with_robs [set_rob_cycles_left 2
               (example_rob (example_uop 0 4096 4100 true true) (rob_issued_list 0) 40 0)]
    example_core.

(** The example machine with 77 in the architectural register 5 of the
    context. *)
Definition loaded_context_core : Core :=
  set_ctx_commitarf (<[5%nat := 77]> (ctx_commitarf example_core)) example_core.

(** Two registers wait on the pendingfree list: 8 with no reference left and
    9 with one. *)
Definition pendingfree_core : Core :=
  alter_physreg (set_physreg_current_state_list (Some physreg_pendingfree_list)) 8
    (alter_physreg (fun p => set_physreg_refcount 1
                       (set_physreg_current_state_list (Some physreg_pendingfree_list) p)) 9
       example_core).

(** The second uop of that macro-op: a store, with EOM set. *)
Definition second_uop_of_two : FetchBufferEntry := {|
  uop_opcode := 2; uop_som := false; uop_eom := true; uop_bytes := 4;
  uop_rd := 76%nat; uop_ra := 63%nat; uop_rb := 63%nat; uop_rc := 63%nat;
  uop_rbimm := 0; uop_rcimm := 0; uop_size := 3; uop_cond := 0;
  uop_internal := false; uop_setflags := 0; uop_nouserflags := true;
  uop_riptaken := 4100; uop_ripseq := 4100; uop_rip := 4096; uop_uuid := 1;
  uop_bptype := 0
|}.

(** The machine after [flush_pipeline(4096)] and the fetch of that macro-op. *)
Definition fetched_macro_op_core : Core :=
  set_fetchrip 4100
    (set_fetchq [first_uop_of_two; second_uop_of_two]
       (flush_pipeline 4096 (initial_core (2 ^ 63) (2 ^ 63)))).

(** What [dispatch()] (lines 2047-2100) does with the ROBs on the
    ready_to_dispatch list when no operand has to be waited for and the
    cluster chosen is the one the ROB has: each goes to its ready_to_issue
    list (line 2084). The choice of the cluster and the issue queues are
    outside the model. *)
Definition dispatch_ready (c : Core) : Core :=
  foldl (fun c rob =>
           ReorderBufferEntry.changestate
             (ReorderBufferEntry.get_ready_to_issue_list (ROB_at c rob)) rob c)
    c (rob_state_list rob_ready_to_dispatch_list c).

(** The macro-op renamed, through the frontend stages (four calls of
    [frontend()] take [cycles_left] from [FRONTEND_STAGES = 3] to the
    ready_to_dispatch list) and dispatched: both uops are ready to issue in
    cluster 0, with destination registers 1 and 2 and the store's LSQ entry. *)
Definition macro_op_of_two_core : Core :=
  let c := rename RenameStage.rename_uop fetched_macro_op_core in
  let c := FrontendStage.frontend
             (FrontendStage.frontend (FrontendStage.frontend (FrontendStage.frontend c))) in
  dispatch_ready c.

(** A store of 8 bytes through [REG_mem], a macro-op of 4 bytes at [rip]. *)
Definition store_uop_at (rip uuid : Z) : FetchBufferEntry := {|
  uop_opcode := 2; uop_som := true; uop_eom := true; uop_bytes := 4;
  uop_rd := 76%nat; uop_ra := 63%nat; uop_rb := 63%nat; uop_rc := 63%nat;
  uop_rbimm := 0; uop_rcimm := 0; uop_size := 3; uop_cond := 0;
  uop_internal := false; uop_setflags := 0; uop_nouserflags := true;
  uop_riptaken := rip + 4; uop_ripseq := rip + 4; uop_rip := rip; uop_uuid := uuid;
  uop_bptype := 0
|}.

(** The example machine after [flush_pipeline(0)] and the fetch of three
    stores from address 0: nothing is in flight, and the store queue is to
    take [STQ_SIZE = 2] stores. *)
Definition three_stores_core : Core :=
  set_fetchrip 12
    (set_fetchq [store_uop_at 0 0; store_uop_at 4 1; store_uop_at 8 2] example_core).

(** Stages with the embedded [frontend] and renaming and a data cache that
    fills every miss on its next clock; the others leave the core alone. *)
Definition filling_stages : Stages := {|
  dcache_clock := fun c =>
    foldl (fun c rob => ReorderBufferEntry_loadwakeup rob c) c
      (rob_state_list rob_cache_miss_list c);
  writeback := fun _ c => c;
  issue := fun _ c => c;
  dispatch := fun c => c;
  frontend := FrontendStage.frontend;
  rename_uop := RenameStage.rename_uop;
  fetch := fun c => c;
  handle_barrier := fun c => (c, true);
  handle_exception := fun c => (c, true)
|}.

(** A core with an ALU uop on the completed list of cluster 0 in its last
    forwarding cycle, behind it a load that waits for a miss, and a store
    fetched. *)
Definition missed_load_core : Core :=
  set_fetchrip 12
    (set_fetchq [store_uop_at 8 2]
       (PhysicalRegister.changestate physreg_used_list 2
          (PhysicalRegister.changestate physreg_used_list 1
             (with_lsqs [example_lsq false 1]
                (with_robs [set_rob_forward_cycle MAX_FORWARDING_LATENCY
                              (example_rob (example_uop 0 0 4 true true)
                                 (rob_completed_list 0) 1 0);
                            example_rob (example_uop 1 4 8 true true)
                              rob_cache_miss_list 2 0] example_core))))).

End StageExamples.

(* ===================================================================== *)
(** * Part II: theorems                                                    *)
(* ===================================================================== *)

(** One step of a chain of [let]s: name the bound term. *)
Ltac let_step x' :=
  lazymatch goal with
  | |- context C [let x := ?a in @?b x] =>
      pose (x' := a);
      let g := context C [b x'] in
      change g; cbv beta
  end.

(** Walk a chain of [let]s, carrying [P] along the cores it binds. *)
Ltac let_chain P prim :=
  repeat
    (let x := fresh "c" in
     let_step x;
     lazymatch type of x with
     | Core =>
         let Hx := fresh "H" in
         assert (Hx : P x) by (cbv beta; subst x; prim);
         cbv beta in Hx; clearbody x
     | _ => idtac
     end).

(* --------------------------------------------------------------------- *)
(** ** The configuration parser *)
(* --------------------------------------------------------------------- *)

Section ConfigTheorems.

Import Config.

Variable MAX_CYCLE : Z.
Variable strtoll : string -> Z * string.

Lemma lnot_lnot_bool (z : Z) : z = 0 \/ z = 1 -> lnot (lnot z) = z.
Proof. intros [-> | ->]; reflexivity. Qed.

Example bool_options_list :
  bool_options = [("quiet", nobanner); ("excludeld", include_dyn_linker);
    ("trigger", trigger_mode); ("profonly", user_profile_only);
    ("allseq", all_sequential); ("exitend", exit_after_fullsim);
    ("perfect-cache", perfect_cache); ("ooo", use_out_of_order_core_dummy)].
Proof. reflexivity. Qed.

(** C10. Parsing a boolean option does not store true: for every option of
    type BOOL in the table, one occurrence of the flag replaces the value [x]
    of its variable by [!x] and leaves every other global alone.  So
    [-excludeld], whose variable [include_dyn_linker] starts at 1, gives 0
    when given once, and 1 again when given twice. *)
Theorem bool_option_inverts :
  Forall (fun '(o, v) => forall g : Globals,
      let g' := (parse_options strtoll ["-" +:+ o] g).1 in
      w64 g' v = lnot (w64 g v)
      /\ (forall v', v' <> v -> w64 g' v' = w64 g v')
      /\ (forall s, chars g' s = chars g s)) bool_options
  /\ w64 (initial_globals MAX_CYCLE) include_dyn_linker = 1
  /\ w64 (parse_options strtoll ["-excludeld"] (initial_globals MAX_CYCLE)).1 include_dyn_linker = 0
  /\ w64 (parse_options strtoll ["-excludeld"; "-excludeld"] (initial_globals MAX_CYCLE)).1
       include_dyn_linker = 1.
Proof.
  split; [| repeat split].
  rewrite bool_options_list.
  repeat apply List.Forall_cons; try apply List.Forall_nil;
    intros g; cbn; (split; [reflexivity |]); (split; [| reflexivity]);
    intros v' Hv'; destruct v'; try reflexivity; congruence.
Qed.

End ConfigTheorems.
(* --------------------------------------------------------------------- *)
(** ** Reference counts of physical registers *)
(* --------------------------------------------------------------------- *)

Section RefcountTheorems.
Context `{HwDef}.

Lemma count_refs_nil r : count_refs r [] = 0.
Proof. reflexivity. Qed.

Lemma count_refs_cons r x l :
  count_refs r (x :: l) = (if decide (x = r) then 1 else 0) + count_refs r l.
Proof.
  unfold count_refs. rewrite filter_cons.
  destruct (decide (x = r)); cbn [length]; lia.
Qed.

Lemma count_refs_app r l1 l2 : count_refs r (l1 ++ l2) = count_refs r l1 + count_refs r l2.
Proof. unfold count_refs. rewrite filter_app, length_app. lia. Qed.

(** Incrementing the slots named by [idxs] adds to slot [i] the number of times
    [i] is named. *)
Lemma foldl_alter_succ (idxs : list nat) (rc : list Z) (i : nat) :
  (i < length rc)%nat ->
  foldl (fun rc k => alter Z.succ k rc) rc idxs !!! i = rc !!! i + count_refs i idxs.
Proof.
  revert rc. induction idxs as [| k idxs IH]; intros rc Hi; cbn [foldl].
  - rewrite count_refs_nil. lia.
  - rewrite IH by (rewrite length_alter; exact Hi).
    rewrite count_refs_cons.
    destruct (decide (k = i)) as [-> | Hne].
    + rewrite !list_lookup_total_alt, list_lookup_alter.
      destruct (lookup_lt_is_Some_2 rc i Hi) as [x ->]. rewrite decide_True by done. cbn. lia.
    + rewrite !list_lookup_total_alt, list_lookup_alter_ne by exact Hne. lia.
Qed.

Lemma foldl_length_alter (idxs : list nat) (rc : list Z) :
  length (foldl (fun rc k => alter Z.succ k rc) rc idxs) = length rc.
Proof.
  revert rc. induction idxs as [| k idxs IH]; intros rc; cbn [foldl]; [done |].
  rewrite IH. apply length_alter.
Qed.

Lemma foldl_pointwise {A B} (f g : A -> B -> A) (l : list B) (a : A) :
  (forall a b, f a b = g a b) -> foldl f a l = foldl g a l.
Proof.
  intros Hfg. revert a. induction l as [| b l IH]; intros a; cbn; [done |].
  by rewrite Hfg, IH.
Qed.

Lemma foldl_bind_alter {A} (f : A -> list nat) (l : list A) (rc : list Z) :
  foldl (fun rc a => foldl (fun rc k => alter Z.succ k rc) rc (f a)) rc l
  = foldl (fun rc k => alter Z.succ k rc) rc (l ≫= f).
Proof.
  revert rc. induction l as [| a l IH]; intros rc; cbn; [done |].
  rewrite IH, foldl_app. done.
Qed.

Lemma count_refs_pairs r (f g : nat -> nat) (l : list nat) :
  count_refs r (l ≫= fun i => [f i; g i]) = count_refs r (f <$> l) + count_refs r (g <$> l).
Proof.
  induction l as [| a l IH]; cbn; [done |].
  rewrite !count_refs_cons, IH. lia.
Qed.

(** What [check_refcounts] compares each register's counter with. *)
Lemma expected_refcounts_lookup (c : Core) (i : nat) :
  (i < PHYS_REG_FILE_SIZE)%nat ->
  expected_refcounts c !!! i = if decide (i = PHYS_REG_NULL) then 0 else reference_sum c i.
Proof.
  intros Hi. unfold expected_refcounts.
  set (ops := fun i : nat => (fun j : nat => rob_operands (ROB_at c i) !!! j) <$> seq 0 MAX_OPERANDS).
  set (pairs := fun i : nat => [commitrrt_at c i; specrrt_at c i]).
  assert (Hrob : forall (rc : list Z) (l : list nat),
    foldl (fun refcounts i => foldl (fun refcounts j =>
        alter Z.succ (rob_operands (ROB_at c i) !!! j) refcounts) refcounts (seq 0 MAX_OPERANDS)) rc l
    = foldl (fun rc k => alter Z.succ k rc) rc (l ≫= ops)).
  { intros rc l. rewrite <- foldl_bind_alter. apply foldl_pointwise.
    intros rc' a. unfold ops. rewrite foldl_fmap. done. }
  assert (Hrrt : forall (rc : list Z) (l : list nat),
    foldl (fun refcounts i => alter Z.succ (specrrt_at c i) (alter Z.succ (commitrrt_at c i) refcounts)) rc l
    = foldl (fun rc k => alter Z.succ k rc) rc (l ≫= pairs)).
  { intros rc l. rewrite <- foldl_bind_alter. done. }
  rewrite Hrob, Hrrt.
  destruct (decide (i = PHYS_REG_NULL)) as [-> | Hne].
  - rewrite list_lookup_total_insert_eq; [done |].
    rewrite !foldl_length_alter, length_replicate. exact Hi.
  - rewrite list_lookup_total_insert_ne by congruence.
    rewrite !foldl_alter_succ;
      rewrite ?foldl_length_alter, ?length_replicate; try exact Hi.
    rewrite lookup_total_replicate_2 by exact Hi.
    unfold reference_sum, pairs. rewrite count_refs_pairs. fold ops. lia.
Qed.

Lemma addref_null (c : Core) : PhysicalRegister.addref PHYS_REG_NULL c = c.
Proof.
  unfold PhysicalRegister.addref, PhysicalRegister.nonnull.
  rewrite bool_decide_eq_false_2; [done | intros Hne; by apply Hne].
Qed.

Lemma unref_null (c : Core) : PhysicalRegister.unref PHYS_REG_NULL c = c.
Proof.
  unfold PhysicalRegister.unref, PhysicalRegister.nonnull.
  rewrite bool_decide_eq_false_2; [done | intros Hne; by apply Hne].
Qed.

Lemma addref_other (r i : nat) (c : Core) :
  r <> i -> physreg_at (PhysicalRegister.addref r c) i = physreg_at c i.
Proof.
  intros Hne. unfold PhysicalRegister.addref. destruct (PhysicalRegister.nonnull r); [| done].
  unfold physreg_at, alter_physreg. destruct c; cbn.
  by rewrite !list_lookup_total_alt, list_lookup_alter_ne.
Qed.

Lemma unref_other (r i : nat) (c : Core) :
  r <> i -> physreg_at (PhysicalRegister.unref r c) i = physreg_at c i.
Proof.
  intros Hne. unfold PhysicalRegister.unref. destruct (PhysicalRegister.nonnull r); [| done].
  unfold physreg_at, alter_physreg. destruct c; cbn.
  by rewrite !list_lookup_total_alt, list_lookup_alter_ne.
Qed.

Lemma apply_refs_null (calls : list (bool * nat)) (c : Core) :
  physreg_at (apply_refs calls c) PHYS_REG_NULL = physreg_at c PHYS_REG_NULL.
Proof.
  revert c. induction calls as [| [add r] calls IH]; intros c; [done |].
  unfold apply_refs in *. cbn [foldl fst snd]. rewrite IH.
  destruct (decide (r = PHYS_REG_NULL)) as [-> | Hne].
  - destruct add; by rewrite ?addref_null, ?unref_null.
  - destruct add; by rewrite ?addref_other, ?unref_other.
Qed.

(** C9. The null physical register is not reference counted: [addref] and
    [unref] on the register with index [PHYS_REG_NULL] change nothing; whatever
    sequence of [addref] and [unref] calls is made (one per reference taken or
    dropped by a rename table slot or an operand slot), the null register is as
    it was, so a counter of 0 stays 0; and [check_refcounts] reports no error
    exactly when the null register's counter is 0 and every other register's
    counter is the number of references to it. *)
Theorem null_register_not_refcounted (c : Core) :
  PhysicalRegister.addref PHYS_REG_NULL c = c
  /\ PhysicalRegister.unref PHYS_REG_NULL c = c
  /\ (forall calls,
        physreg_refcount (physreg_at (apply_refs calls c) PHYS_REG_NULL)
        = physreg_refcount (physreg_at c PHYS_REG_NULL))
  /\ (check_refcounts c = false <->
      forall i, (i < PHYS_REG_FILE_SIZE)%nat ->
        physreg_refcount (physreg_at c i)
        = if decide (i = PHYS_REG_NULL) then 0 else reference_sum c i).
Proof.
  split; [apply addref_null |]. split; [apply unref_null |].
  split; [intros calls; by rewrite apply_refs_null |].
  unfold check_refcounts. rewrite bool_decide_eq_false, Exists_exists. split.
  - intros Hno i Hi. rewrite <- expected_refcounts_lookup by exact Hi.
    destruct (decide (physreg_refcount (physreg_at c i) = expected_refcounts c !!! i)) as [| Hne];
      [done |].
    exfalso. apply Hno. exists i. split; [| exact Hne].
    apply elem_of_seq. lia.
  - intros Hall (i & Hi & Hne). apply elem_of_seq in Hi.
    apply Hne. rewrite expected_refcounts_lookup by lia. apply Hall. lia.
Qed.

End RefcountTheorems.
(* --------------------------------------------------------------------- *)
(** ** The rename gate *)
(* --------------------------------------------------------------------- *)

Section RenameTheorems.
Context `{HwDef}.

(** With room in the ROB, the register file and the LSQ, a load at the head of
    the fetch queue stops renaming exactly when [loads_in_flight] has reached
    [LDQ_SIZE]. *)
Lemma rename_load_gate (c : Core) (fetchbuf : FetchBufferEntry) (rest : list FetchBufferEntry) :
  fetchq c = fetchbuf :: rest ->
  q_remaining ROB_SIZE (ROB c) <> 0%nat ->
  physregs_remaining c = true ->
  q_remaining LSQ_SIZE (LSQ c) <> 0%nat ->
  isload (uop_opcode fetchbuf) = true ->
  rename_hazard c
  = if decide (loads_in_flight c >= Z.of_nat LDQ_SIZE)
    then Some (bump "frontend_status_ldq_full" 1 c)
    else if isstore (uop_opcode fetchbuf) && bool_decide (stores_in_flight c >= Z.of_nat LDQ_SIZE)
    then Some (bump "frontend_status_stq_full" 1 c)
    else None.
Proof.
  intros Hq Hrob Hpr Hlsq Hld. unfold rename_hazard. rewrite Hq.
  destruct (decide (q_remaining ROB_SIZE (ROB c) = 0%nat)); [done |].
  rewrite Hpr, Hld. cbn.
  destruct (decide (loads_in_flight c >= Z.of_nat LDQ_SIZE)).
  - by rewrite bool_decide_eq_true_2.
  - rewrite (bool_decide_eq_false_2 (loads_in_flight c >= _)) by done.
    destruct (isstore _ && _); [done |].
    by rewrite (bool_decide_eq_false_2 (q_remaining LSQ_SIZE (LSQ c) = 0%nat)).
Qed.

(** With room in the ROB, the register file and the LSQ, a store at the head of
    the fetch queue stops renaming exactly when [stores_in_flight] has reached
    [LDQ_SIZE]: the capacity of the store queue plays no part. *)
Lemma rename_store_gate (c : Core) (fetchbuf : FetchBufferEntry) (rest : list FetchBufferEntry) :
  fetchq c = fetchbuf :: rest ->
  q_remaining ROB_SIZE (ROB c) <> 0%nat ->
  physregs_remaining c = true ->
  q_remaining LSQ_SIZE (LSQ c) <> 0%nat ->
  isload (uop_opcode fetchbuf) = false ->
  isstore (uop_opcode fetchbuf) = true ->
  rename_hazard c
  = if decide (stores_in_flight c >= Z.of_nat LDQ_SIZE)
    then Some (bump "frontend_status_stq_full" 1 c)
    else None.
Proof.
  intros Hq Hrob Hpr Hlsq Hld Hst. unfold rename_hazard. rewrite Hq.
  destruct (decide (q_remaining ROB_SIZE (ROB c) = 0%nat)); [done |].
  rewrite Hpr, Hld, Hst. cbn.
  destruct (decide (stores_in_flight c >= Z.of_nat LDQ_SIZE)).
  - by rewrite bool_decide_eq_true_2.
  - rewrite (bool_decide_eq_false_2 (stores_in_flight c >= _)) by done.
    by rewrite (bool_decide_eq_false_2 (q_remaining LSQ_SIZE (LSQ c) = 0%nat)).
Qed.

End RenameTheorems.

Section RenameCounters.
Context `{HwDef}.

Lemma in_flight_addref r c :
  in_flight_counters (PhysicalRegister.addref r c) = in_flight_counters c.
Proof. unfold PhysicalRegister.addref. by destruct (PhysicalRegister.nonnull r). Qed.

Lemma in_flight_unref r c :
  in_flight_counters (PhysicalRegister.unref r c) = in_flight_counters c.
Proof. unfold PhysicalRegister.unref. by destruct (PhysicalRegister.nonnull r). Qed.

Lemma in_flight_specrrt_rename a p c :
  in_flight_counters (specrrt_rename a p c) = in_flight_counters c.
Proof.
  unfold specrrt_rename, PhysicalRegister.addspecref, PhysicalRegister.unspecref.
  cbv zeta. rewrite in_flight_addref.
  transitivity (in_flight_counters (PhysicalRegister.unref (specrrt_at c a) c)); [reflexivity |].
  apply in_flight_unref.
Qed.

Lemma in_flight_foldl {A} (f : Core -> A -> Core) (l : list A) (c : Core) :
  (forall c a, in_flight_counters (f c a) = in_flight_counters c) ->
  in_flight_counters (foldl f c l) = in_flight_counters c.
Proof.
  intros Hf. revert c. induction l as [| a l IH]; intros c; cbn; [done |].
  by rewrite IH, Hf.
Qed.

End RenameCounters.

(** The counters are kept by a step built from setters of other fields and the
    operations above. *)
Ltac in_flight_prim :=
  cbv beta zeta;
  repeat first
    [ assumption
    | reflexivity
    | rewrite in_flight_addref
    | rewrite in_flight_specrrt_rename
    | rewrite in_flight_foldl; [| intros]
    | match goal with
      | |- in_flight_counters (if ?b then _ else _) = _ => destruct b
      | H : in_flight_counters ?x = in_flight_counters ?c
        |- in_flight_counters _ = in_flight_counters ?c =>
          transitivity (in_flight_counters x); [reflexivity | exact H]
      end ].

Section RenameNeverCounts.
Context `{HwDef}.

Lemma in_flight_physregs_alloc (c c' : Core) (physreg : nat) :
  RenameStage.physregs_alloc c = Some (physreg, c') ->
  in_flight_counters c' = in_flight_counters c.
Proof.
  unfold RenameStage.physregs_alloc.
  destruct (physreg_state_list physreg_free_list c); [done |].
  intros [= _ <-]. reflexivity.
Qed.

(** The body of the loop of [rename()] counts no load and no store. *)
Lemma in_flight_rename_uop (c : Core) :
  in_flight_counters (RenameStage.rename_uop c) = in_flight_counters c.
Proof.
  cbv beta delta [RenameStage.rename_uop].
  destruct (fetchq c) as [| transop fetchq']; [reflexivity |].
  let_step ld. let_step st. let_step br. clearbody ld st br.
  let_step c1. let_step c2. let_step rob. clearbody rob. let_step c3.
  assert (H3 : in_flight_counters c3 = in_flight_counters c) by reflexivity.
  clearbody c3. clear c1 c2.
  destruct (RenameStage.physregs_alloc c3) as [[physreg c4] |] eqn:Ha; [| exact H3].
  apply in_flight_physregs_alloc in Ha. rewrite H3 in Ha.
  let_chain (fun x => in_flight_counters x = in_flight_counters c) in_flight_prim.
  in_flight_prim.
Qed.

Lemma in_flight_rename_hazard (c c' : Core) :
  rename_hazard c = Some c' -> in_flight_counters c' = in_flight_counters c.
Proof.
  unfold rename_hazard. intros Hh.
  repeat case_match; simplify_eq; reflexivity.
Qed.

(** [rename()] counts no load and no store. *)
Lemma in_flight_rename (c : Core) :
  in_flight_counters (rename RenameStage.rename_uop c) = in_flight_counters c.
Proof.
  unfold rename.
  assert (Hl : forall w p c,
             in_flight_counters (rename_loop RenameStage.rename_uop w p c).1
             = in_flight_counters c).
  { clear c. induction w as [| w IH]; intros p c; cbn [rename_loop]; [done |].
    destruct (rename_hazard c) as [c' |] eqn:Hh.
    - cbn [fst]. by apply in_flight_rename_hazard.
    - by rewrite IH, in_flight_rename_uop. }
  specialize (Hl FRONTEND_WIDTH 0 c).
  destruct (rename_loop _ _ _ _) as [c' p]. cbn [fst] in Hl.
  rewrite <- Hl. reflexivity.
Qed.

End RenameNeverCounts.

Section RenameExample.
#[local] Existing Instance example_hw.

(** C3. Renaming does not stop at [STQ_SIZE] stores in flight, and the counters
    of loads and stores in flight count nothing. On every machine [rename()]
    and the body of its loop leave [loads_in_flight] and [stores_in_flight] as
    they are, whatever is renamed. On the example
    machine ([STQ_SIZE = 2], [LDQ_SIZE = 4], [FRONTEND_WIDTH = 4]) after
    [flush_pipeline] and the fetch of three stores: both counters are 0; after
    two of the stores are renamed, [STQ_SIZE] stores are in flight in the LSQ
    and [rename_hazard] finds no hazard for the third; one call of [rename()]
    renames all three, which leaves the fetch queue empty, three stores in the
    ROB on the frontend list and in the LSQ, more than [STQ_SIZE], both
    counters still 0 and no cycle counted as [frontend_status_stq_full]. *)
Theorem rename_admits_stores_beyond_STQ_SIZE :
  let c2 := RenameStage.rename_uop (RenameStage.rename_uop three_stores_core) in
  let c' := rename RenameStage.rename_uop three_stores_core in
  (forall (hw : HwDef) (c : Core),
     in_flight_counters (RenameStage.rename_uop (H := hw) c) = in_flight_counters c
     /\ in_flight_counters (rename (H := hw) (RenameStage.rename_uop (H := hw)) c)
        = in_flight_counters c)
  /\ (STQ_SIZE = 2%nat /\ LDQ_SIZE = 4%nat)
  /\ in_flight_counters three_stores_core = (0, 0)
  /\ stores_in_LSQ three_stores_core = 0%nat
  /\ (stores_in_LSQ c2 = STQ_SIZE /\ in_flight_counters c2 = (0, 0)
      /\ (fun u => isstore (uop_opcode u)) <$> fetchq c2 = [true]
      /\ rename_hazard c2 = None)
  /\ fetchq c' = []
  /\ q_count (ROB c') = 3%nat
  /\ ((fun rob => (rob_current_state_list (ROB_at c' rob),
                   isstore (uop_opcode (rob_uop (ROB_at c' rob))),
                   rob_lsq (ROB_at c' rob))) <$> [0; 1; 2]%nat
      = [(Some rob_frontend_list, true, 0%nat); (Some rob_frontend_list, true, 1%nat);
         (Some rob_frontend_list, true, 2%nat)])
  /\ stores_in_LSQ c' = 3%nat
  /\ in_flight_counters c' = (0, 0)
  /\ stat "frontend_status_stq_full" c' = 0.
Proof.
  cbv zeta. split.
  { intros hw c. split; [apply in_flight_rename_uop | apply in_flight_rename]. }
  vm_compute. repeat split; reflexivity.
Qed.

End RenameExample.
(* --------------------------------------------------------------------- *)
(** ** The address of a store *)
(* --------------------------------------------------------------------- *)

Section StoreAddressTheorems.
Context `{HwDef} `{Externals}.

Lemma floor_8 (x : Z) : floor x 8 = 8 * (x / 8).
Proof.
  unfold floor. change (8 - 1) with (Z.ones 3).
  rewrite <- Z.ldiff_land, Z.ldiff_ones_r by lia.
  rewrite Z.shiftr_div_pow2, Z.shiftl_mul_pow2 by lia.
  change (2 ^ 3) with 8. lia.
Qed.

Lemma W64_small (x : Z) : 0 <= x < 2 ^ 64 -> W64 x = x.
Proof. intros Hx. unfold W64. apply Z.mod_small. exact Hx. Qed.

Lemma W64_range (x : Z) : 0 <= W64 x < 2 ^ 64.
Proof. unfold W64. apply Z.mod_pos_bound. lia. Qed.

Lemma land_W64_range (x m : Z) : 0 <= Z.land (W64 x) m < 2 ^ 64.
Proof.
  unfold W64. rewrite <- Z.land_ones by lia.
  rewrite <- Z.land_assoc, (Z.land_comm (Z.ones 64) m), Z.land_assoc, Z.land_ones by lia.
  apply Z.mod_pos_bound. lia.
Qed.

(** A multiple of 8 has no bit among the low [n <= 3]. *)
Lemma lowbits_multiple_of_8 (y n v : Z) :
  0 <= n <= 3 -> lowbits (lowbits (8 * y) v) n = 0.
Proof.
  intros Hn. unfold lowbits. apply Z.bits_inj'. intros k Hk.
  rewrite Z.bits_0, !Z.land_spec.
  destruct (decide (k < n)) as [Hlt | Hge].
  - replace (Z.testbit (8 * y) k) with false; [done |].
    symmetry. change 8 with (2 ^ 3). rewrite Z.mul_comm.
    apply Z.mul_pow2_bits_low. lia.
  - rewrite (Z.ones_spec_high n k) by lia. by rewrite andb_false_r.
Qed.

(** C6. A store that is the high half of a split access (align type
    [LDST_ALIGN_HI]) and whose original access, the [2^size] bytes from
    [origaddr], lies within one 8 byte block raises no exception, whatever the
    address space maps: the check of the page is skipped, and [issuestore]
    goes on as for a store whose address is resolved without a fault. *)
Theorem high_half_store_no_page_fault (self : nat) (ra rb rc : Z) (rcready : bool) (c : Core) :
  let uop := rob_uop (ROB_at c self) in
  let origaddr := Z.land (W64 (ra + rb)) virt_addr_mask in
  uop_cond uop = LDST_ALIGN_HI ->
  LDST_ALIGN_HI <> LDST_ALIGN_NORMAL ->
  LDST_ALIGN_HI <> LDST_ALIGN_LO ->
  0 <= uop_size uop <= 3 ->
  (origaddr + 2 ^ uop_size uop - 1) / 8 = origaddr / 8 ->
  store_exception uop ra rb = 0
  /\ ReorderBufferEntry_issuestore self ra rb rc rcready c
     = store_resolved self origaddr rc rcready
         (store_resolve_address self (store_address uop ra rb).1.2 c).
Proof.
  intros uop origaddr Hhi Hn Hl Hsize Hblock.
  assert (Hex : store_exception uop ra rb = 0).
  { unfold store_exception, store_address. fold origaddr. rewrite Hhi.
    rewrite decide_False by exact Hn. rewrite decide_False by exact Hl.
    rewrite decide_True by done.
    pose proof (land_W64_range (ra + rb) virt_addr_mask) as Hrange. fold origaddr in Hrange.
    assert (Hpow : 1 <= 2 ^ uop_size uop <= 8).
    { split; [pose proof (Z.pow_pos_nonneg 2 (uop_size uop) ltac:(lia) ltac:(lia)); lia |].
      change 8 with (2 ^ 3). apply Z.pow_le_mono_r; lia. }
    assert (Hq : 0 <= origaddr / 8 < 2 ^ 61).
    { split; [apply Z.div_pos; lia |]. apply Z.div_lt_upper_bound; lia. }
    assert (Hend : 0 <= origaddr + (Z.shiftl 1 (uop_size uop) - 1) < 2 ^ 64).
    { rewrite Z.shiftl_1_l.
      pose proof (Z.mul_div_le (origaddr + 2 ^ uop_size uop - 1) 8 ltac:(lia)).
      pose proof (Z.mod_pos_bound (origaddr + 2 ^ uop_size uop - 1) 8 ltac:(lia)).
      pose proof (Z.div_mod (origaddr + 2 ^ uop_size uop - 1) 8 ltac:(lia)).
      rewrite Hblock in *. lia. }
    rewrite (W64_small _ Hend), !floor_8, Z.shiftl_1_l.
    replace (origaddr + (2 ^ uop_size uop - 1)) with (origaddr + 2 ^ uop_size uop - 1) by lia.
    rewrite Hblock, bool_decide_eq_true_2 by done.
    unfold check_access_alignment.
    replace (W64 (8 * (origaddr / 8) + 8)) with (8 * (W64 (8 * (origaddr / 8) + 8) / 8)).
    2:{ unfold W64. symmetry.
        pose proof (Z.div_mod ((8 * (origaddr / 8) + 8) mod 2 ^ 64) 8 ltac:(lia)) as Hdm.
        assert (Hz : ((8 * (origaddr / 8) + 8) mod 2 ^ 64) mod 8 = 0).
        { rewrite Z.mod_mod_divide by (exists (2 ^ 61); reflexivity).
          replace (8 * (origaddr / 8) + 8) with ((origaddr / 8 + 1) * 8) by lia.
          apply Z.mod_mul. lia. }
        lia. }
    rewrite lowbits_multiple_of_8 by exact Hsize.
    rewrite decide_False by (intros Hne; by apply Hne). reflexivity. }
  split; [exact Hex |].
  unfold ReorderBufferEntry_issuestore. fold uop.
  destruct (store_address uop ra rb) as [[origaddr' addr] annul] eqn:Haddr.
  rewrite Hex. rewrite decide_False by (intros Hne; by apply Hne).
  cbn [fst snd].
  replace origaddr' with origaddr; [reflexivity |].
  unfold store_address in Haddr. fold origaddr in Haddr.
  destruct (decide (uop_cond uop = LDST_ALIGN_NORMAL)); [by inversion Haddr |].
  destruct (decide (uop_cond uop = LDST_ALIGN_LO)); [by inversion Haddr |].
  destruct (decide (uop_cond uop = LDST_ALIGN_HI)); by inversion Haddr.
Qed.

End StoreAddressTheorems.

Section StoreAddressExample.
#[local] Existing Instance example_hw.
#[local] Existing Instance unmapped_externals.

(** The witness: on the example machine, with no page mapped, the high half of
    an 8 byte store to 4088..4095, the last block of a page. *)
Lemma high_half_store_no_page_fault_witness :
  store_exception (rob_uop (ROB_at high_half_store_core 0)) 4088 0 = 0
  /\ ReorderBufferEntry_issuestore 0 4088 0 7 true high_half_store_core
     = store_resolved 0 (Z.land (W64 (4088 + 0)) virt_addr_mask) 7 true
         (store_resolve_address 0
            (store_address (rob_uop (ROB_at high_half_store_core 0)) 4088 0).1.2
            high_half_store_core).
Proof.
  apply (high_half_store_no_page_fault 0 4088 0 7 true high_half_store_core).
  - reflexivity.
  - vm_compute. discriminate.
  - vm_compute. discriminate.
  - vm_compute. split; discriminate.
  - reflexivity.
Defined.

End StoreAddressExample.

(* --------------------------------------------------------------------- *)
(** ** The forwarding cycle of a completed ROB *)
(* --------------------------------------------------------------------- *)

Section TransferTheorems.
Context `{HwDef}.

Lemma ROB_at_alter_ROB (f : ReorderBufferEntry -> ReorderBufferEntry) (i j : nat) (c : Core) :
  ROB_at (alter_ROB f i c) j
  = if decide (i = j /\ (j < length (q_data (ROB c)))%nat) then f (ROB_at c j) else ROB_at c j.
Proof.
  unfold ROB_at, alter_ROB. cbn.
  rewrite !list_lookup_total_alt, list_lookup_alter.
  destruct (decide (i = j)) as [-> | Hne].
  - destruct (q_data (ROB c) !! j) as [r |] eqn:Hr.
    + apply lookup_lt_Some in Hr as Hlt. rewrite decide_True by done. reflexivity.
    + apply lookup_ge_None in Hr. rewrite decide_False by lia. reflexivity.
  - rewrite decide_False by tauto. reflexivity.
Qed.

Lemma length_alter_ROB (f : ReorderBufferEntry -> ReorderBufferEntry) (i : nat) (c : Core) :
  length (q_data (ROB (alter_ROB f i c))) = length (q_data (ROB c)).
Proof. unfold alter_ROB. cbn. apply length_alter. Qed.

Lemma forward_cycle_in_range_alter (f : ReorderBufferEntry -> ReorderBufferEntry) (i : nat) (c : Core) :
  (forall r, 0 <= rob_forward_cycle r <= MAX_FORWARDING_LATENCY ->
             0 <= rob_forward_cycle (f r) <= MAX_FORWARDING_LATENCY) ->
  forward_cycle_in_range c -> forward_cycle_in_range (alter_ROB f i c).
Proof.
  intros Hf Hc. unfold forward_cycle_in_range, alter_ROB in *. cbn.
  apply Forall_alter; [exact Hc |]. intros r _. revert r.
  rewrite Forall_forall in Hc. intros r. apply Hf.
Qed.

Lemma W16s_small (x : Z) : - 2 ^ 15 <= x < 2 ^ 15 -> W16s x = x.
Proof. intros Hx. unfold W16s. rewrite Z.mod_small by lia. lia. Qed.

Lemma forward_cycle_in_range_lookup (c : Core) (i : nat) :
  0 <= MAX_FORWARDING_LATENCY ->
  forward_cycle_in_range c -> 0 <= rob_forward_cycle (ROB_at c i) <= MAX_FORWARDING_LATENCY.
Proof.
  intros Hmax Hc. unfold ROB_at. rewrite list_lookup_total_alt.
  destruct (q_data (ROB c) !! i) as [r |] eqn:Hr; cbn.
  - unfold forward_cycle_in_range in Hc. rewrite Forall_lookup in Hc. by apply (Hc i).
  - lia.
Qed.

Lemma forward_cycle_in_range_same_ROB (c c' : Core) :
  ROB c' = ROB c -> forward_cycle_in_range c -> forward_cycle_in_range c'.
Proof. unfold forward_cycle_in_range. by intros ->. Qed.

Lemma ROB_at_transfer_rob (i j : nat) (c : Core) :
  0 <= MAX_FORWARDING_LATENCY < 2 ^ 15 - 1 ->
  forward_cycle_in_range c ->
  ROB_at (transfer_rob i c) j
  = if decide (i = j /\ (j < length (q_data (ROB c)))%nat) then transferred (ROB_at c j)
    else ROB_at c j.
Proof.
  intros Hmax Hc. unfold transfer_rob.
  pose proof (forward_cycle_in_range_lookup c i ltac:(lia) Hc) as Hi.
  rewrite ROB_at_alter_ROB.
  destruct (decide (i = i /\ (i < length (q_data (ROB c)))%nat)) as [[_ Hlt] | Hge].
  - cbn. rewrite W16s_small by lia.
    destruct (decide (rob_forward_cycle (ROB_at c i) + 1 > MAX_FORWARDING_LATENCY)) as [Hgt | Hle].
    + unfold ReorderBufferEntry.changestate. rewrite !ROB_at_alter_ROB, !length_alter_ROB.
      destruct (decide (i = j)) as [<- | Hne].
      * rewrite !decide_True by done. unfold transferred. rewrite decide_True by done.
        cbn. reflexivity.
      * rewrite !decide_False by tauto. reflexivity.
    + rewrite ROB_at_alter_ROB.
      destruct (decide (i = j)) as [<- | Hne].
      * rewrite !decide_True by done. unfold transferred. rewrite decide_False by done.
        rewrite W16s_small by lia. reflexivity.
      * rewrite !decide_False by tauto. reflexivity.
  - rewrite decide_False by lia. rewrite ROB_at_alter_ROB.
    rewrite decide_False by (intros [<- ?]; tauto).
    rewrite decide_False by (intros [<- ?]; tauto). reflexivity.
Qed.

Lemma length_transfer_rob (i : nat) (c : Core) :
  length (q_data (ROB (transfer_rob i c))) = length (q_data (ROB c)).
Proof.
  unfold transfer_rob, ReorderBufferEntry.changestate.
  destruct (decide _); by rewrite !length_alter_ROB.
Qed.

Lemma forward_cycle_in_range_transfer_rob (i : nat) (c : Core) :
  0 <= MAX_FORWARDING_LATENCY < 2 ^ 15 - 1 ->
  forward_cycle_in_range c -> forward_cycle_in_range (transfer_rob i c).
Proof.
  intros Hmax Hc. unfold forward_cycle_in_range.
  apply Forall_lookup. intros j r Hr.
  assert (Hj : ROB_at (transfer_rob i c) j = r).
  { unfold ROB_at. by rewrite list_lookup_total_alt, Hr. }
  rewrite ROB_at_transfer_rob in Hj by done. subst r.
  pose proof (forward_cycle_in_range_lookup c j ltac:(lia) Hc) as Hjr.
  destruct (decide _); [| exact Hjr].
  unfold transferred. destruct (decide _); cbn; lia.
Qed.

(** The loop of [transfer] over distinct ROBs. *)
Lemma transfer_loop (l : list nat) (c : Core) :
  0 <= MAX_FORWARDING_LATENCY < 2 ^ 15 - 1 ->
  NoDup l ->
  forward_cycle_in_range c ->
  let c' := foldl (fun c rob => transfer_rob rob c) c l in
  forward_cycle_in_range c'
  /\ length (q_data (ROB c')) = length (q_data (ROB c))
  /\ forall j, ROB_at c' j
        = if decide (j ∈ l /\ (j < length (q_data (ROB c)))%nat) then transferred (ROB_at c j)
          else ROB_at c j.
Proof.
  intros Hmax. revert c. induction l as [| i l IH]; intros c Hnd Hc; cbn [foldl].
  - split; [done |]. split; [done |]. intros j.
    rewrite decide_False; [done |]. intros [Hin _]. by apply elem_of_nil in Hin.
  - apply NoDup_cons in Hnd as [Hni Hnd].
    destruct (IH (transfer_rob i c) Hnd (forward_cycle_in_range_transfer_rob i c Hmax Hc))
      as (Hr & Hlen & Hat).
    split; [exact Hr |]. split; [by rewrite Hlen, length_transfer_rob |].
    intros j. rewrite Hat, length_transfer_rob, ROB_at_transfer_rob by done.
    repeat case_decide; try reflexivity; exfalso;
      rewrite ?elem_of_cons in *; intuition (subst; tauto || lia || congruence).
Qed.

Lemma forward_cycle_in_range_complete (cluster : Z) (c : Core) :
  0 <= MAX_FORWARDING_LATENCY ->
  forward_cycle_in_range c -> forward_cycle_in_range (complete cluster c).
Proof.
  intros Hmax. unfold complete.
  generalize (rob_state_list (rob_issued_list cluster) c). intros l. revert c.
  induction l as [| rob l IH]; intros c Hc; cbn [foldl]; [exact Hc |].
  apply IH. unfold complete_rob.
  assert (Hstep : forward_cycle_in_range
            (alter_ROB (fun r => set_rob_cycles_left (W16s (rob_cycles_left r - 1)) r) rob c)).
  { apply forward_cycle_in_range_alter; [| exact Hc]. intros r Hr. exact Hr. }
  destruct (decide _); [| exact Hstep].
  apply forward_cycle_in_range_alter; [intros r _; cbn; lia |].
  eapply forward_cycle_in_range_same_ROB; [reflexivity |].
  apply forward_cycle_in_range_alter; [intros r Hr; exact Hr | exact Hstep].
Qed.

Lemma forward_cycle_in_range_loadwakeup (self : nat) (c : Core) :
  0 <= MAX_FORWARDING_LATENCY ->
  forward_cycle_in_range c -> forward_cycle_in_range (ReorderBufferEntry_loadwakeup self c).
Proof.
  intros Hmax Hc. unfold ReorderBufferEntry_loadwakeup.
  apply forward_cycle_in_range_alter; [intros r _; cbn; lia |].
  apply forward_cycle_in_range_alter; [intros r Hr; exact Hr |].
  eapply forward_cycle_in_range_same_ROB; [reflexivity | exact Hc].
Qed.

End TransferTheorems.

(** *** The stages that do not write [forward_cycle] *)

Section ForwardCycleFrame.
Context `{HwDef}.

Lemma fcr_same (c c' : Core) :
  forward_cycle_in_range c -> ROB c' = ROB c -> forward_cycle_in_range c'.
Proof. intros Hc Heq. by apply (forward_cycle_in_range_same_ROB c c'). Qed.

Lemma ROB_addref r c : ROB (PhysicalRegister.addref r c) = ROB c.
Proof. unfold PhysicalRegister.addref. by destruct (PhysicalRegister.nonnull r). Qed.
Lemma ROB_unref r c : ROB (PhysicalRegister.unref r c) = ROB c.
Proof. unfold PhysicalRegister.unref. by destruct (PhysicalRegister.nonnull r). Qed.
Lemma ROB_physreg_changestate l r c : ROB (PhysicalRegister.changestate l r c) = ROB c.
Proof. reflexivity. Qed.
Lemma ROB_physreg_free r c : ROB (PhysicalRegister.free r c) = ROB c.
Proof. reflexivity. Qed.
Lemma ROB_bump_at n s v c : ROB (bump_at n s v c) = ROB c.
Proof. reflexivity. Qed.
Lemma ROB_alter_physreg f r c : ROB (alter_physreg f r c) = ROB c.
Proof. reflexivity. Qed.
Lemma ROB_alter_LSQ f r c : ROB (alter_LSQ f r c) = ROB c.
Proof. reflexivity. Qed.
Lemma ROB_LSQ_commit l c : ROB (LSQ_commit l c) = ROB c.
Proof. reflexivity. Qed.
Lemma ROB_LSQ_annul l c : ROB (LSQ_annul l c) = ROB c.
Proof. reflexivity. Qed.
Lemma ROB_commitrrt_rename a p c : ROB (commitrrt_rename a p c) = ROB c.
Proof.
  unfold commitrrt_rename, PhysicalRegister.addcommitref, PhysicalRegister.uncommitref.
  by rewrite ROB_addref; cbn; rewrite ROB_unref.
Qed.
Lemma ROB_specrrt_rename a p c : ROB (specrrt_rename a p c) = ROB c.
Proof.
  unfold specrrt_rename, PhysicalRegister.addspecref, PhysicalRegister.unspecref.
  by rewrite ROB_addref; cbn; rewrite ROB_unref.
Qed.

Lemma ROB_foldl {A} (f : Core -> A -> Core) (l : list A) (c : Core) :
  (forall c a, ROB (f c a) = ROB c) -> ROB (foldl f c l) = ROB c.
Proof.
  intros Hf. revert c. induction l as [| a l IH]; intros c; cbn; [done |].
  by rewrite IH, Hf.
Qed.

Lemma ROB_PhysicalRegisterFile_reset c : ROB (PhysicalRegisterFile_reset c) = ROB c.
Proof.
  unfold PhysicalRegisterFile_reset. cbv zeta. cbn.
  rewrite ROB_foldl by reflexivity. by rewrite ROB_foldl by reflexivity.
Qed.

Lemma fcr_foldl {A} (f : Core -> A -> Core) (l : list A) (c : Core) :
  (forall c a, forward_cycle_in_range c -> forward_cycle_in_range (f c a)) ->
  forward_cycle_in_range c -> forward_cycle_in_range (foldl f c l).
Proof.
  intros Hf. revert c. induction l as [| a l IH]; intros c Hc; cbn; [done |].
  apply IH, Hf, Hc.
Qed.

Lemma fcr_rob_changestate l i c :
  forward_cycle_in_range c -> forward_cycle_in_range (ReorderBufferEntry.changestate l i c).
Proof. intros Hc. apply forward_cycle_in_range_alter; [intros r Hr; exact Hr | exact Hc]. Qed.

Lemma fcr_ROB_commit i c :
  forward_cycle_in_range c -> forward_cycle_in_range (ROB_commit i c).
Proof.
  intros Hc. unfold forward_cycle_in_range, ROB_commit in *. cbn.
  apply Forall_alter; [exact Hc |]. intros r _ Hr. exact Hr.
Qed.

Lemma fcr_ROB_annul i c :
  forward_cycle_in_range c -> forward_cycle_in_range (ROB_annul i c).
Proof.
  intros Hc. unfold forward_cycle_in_range, ROB_annul in *. cbn.
  apply Forall_alter; [exact Hc |]. intros r _ Hr. exact Hr.
Qed.

End ForwardCycleFrame.

(** The range is kept by a step built from the operations above. *)
Ltac fcr_prim :=
  repeat first
    [ assumption
    | apply fcr_rob_changestate
    | apply fcr_ROB_commit
    | apply fcr_ROB_annul
    | apply fcr_foldl; intros
    | progress cbv zeta
    | match goal with
      | |- forward_cycle_in_range (if ?b then _ else _) => destruct b
      | |- forward_cycle_in_range (match ?b with _ => _ end) => destruct b
      | H : forward_cycle_in_range ?c |- forward_cycle_in_range ?t =>
          apply (fcr_same c t H);
          rewrite ?ROB_bump_at, ?ROB_commitrrt_rename, ?ROB_specrrt_rename, ?ROB_addref,
            ?ROB_unref; reflexivity
      | |- forward_cycle_in_range (bump_at _ _ _ ?c) =>
          apply (fun H => fcr_same c _ H (ROB_bump_at _ _ _ c))
      | |- forward_cycle_in_range (bump _ _ ?c) =>
          apply (fun H => fcr_same c _ H (ROB_bump_at _ _ _ c))
      | |- forward_cycle_in_range (PhysicalRegister.unref _ ?c) =>
          apply (fun H => fcr_same c _ H (ROB_unref _ c))
      | |- forward_cycle_in_range (PhysicalRegister.addref _ ?c) =>
          apply (fun H => fcr_same c _ H (ROB_addref _ c))
      | |- forward_cycle_in_range (PhysicalRegister.free _ ?c) =>
          apply (fun H => fcr_same c _ H (ROB_physreg_free _ c))
      | |- forward_cycle_in_range (PhysicalRegister.changestate _ _ ?c) =>
          apply (fun H => fcr_same c _ H (ROB_physreg_changestate _ _ c))
      | |- forward_cycle_in_range (commitrrt_rename _ _ ?c) =>
          apply (fun H => fcr_same c _ H (ROB_commitrrt_rename _ _ c))
      | |- forward_cycle_in_range (LSQ_commit _ ?c) =>
          apply (fun H => fcr_same c _ H (ROB_LSQ_commit _ c))
      end ].

(** Walk a chain of [let]s, carrying the range along. *)
Ltac fcr_chain :=
  repeat
    (let x := fresh "c" in
     let_step x;
     lazymatch type of x with
     | Core => assert (forward_cycle_in_range x) by (subst x; fcr_prim); clearbody x
     | _ => idtac
     end).

(** The same with the steps of the renaming of a uop. *)
Ltac fcr_rename_prim :=
  repeat first
    [ apply forward_cycle_in_range_alter; [intros ? Hr; exact Hr |]
    | match goal with
      | |- forward_cycle_in_range (specrrt_rename _ _ ?c) =>
          apply (fun H => fcr_same c _ H (ROB_specrrt_rename _ _ c))
      end
    | progress fcr_prim ].

Section CycleTheorems.
Context `{HwDef} `{Stages}.

Lemma fcr_commit_uop (self : nat) (c : Core) :
  forward_cycle_in_range c -> forward_cycle_in_range (commit_uop self c).1.
Proof.
  intros Hc. cbv beta delta [commit_uop].
  fcr_chain.
  destruct (isbarrier _); cbn [fst]; fcr_prim.
Qed.

Lemma fcr_commit_exception (self : nat) (c : Core) :
  forward_cycle_in_range c -> forward_cycle_in_range (commit_exception self c).1.
Proof.
  intros Hc. cbv beta delta [commit_exception].
  fcr_chain. cbn [fst]. assumption.
Qed.

Lemma fcr_ReorderBufferEntry_commit (self : nat) (c : Core) :
  forward_cycle_in_range c -> forward_cycle_in_range (ReorderBufferEntry_commit self c).1.
Proof.
  intros Hc. cbv beta delta [ReorderBufferEntry_commit].
  fcr_chain.
  destruct (scan_macro_op _ _); cbv zeta.
  - apply fcr_commit_uop. fcr_prim.
  - cbn [fst]. fcr_prim.
  - apply fcr_commit_exception. fcr_prim.
Qed.

Lemma fcr_free_unreferenced (c : Core) :
  forward_cycle_in_range c -> forward_cycle_in_range (free_unreferenced c).
Proof. intros Hc. unfold free_unreferenced. fcr_prim. Qed.

Lemma fcr_commit_loop (range : list nat) (commitcount : nat) (rc : Z) (c : Core) :
  forward_cycle_in_range c -> forward_cycle_in_range (commit_loop range commitcount rc c).1.1.
Proof.
  revert commitcount rc c.
  induction range as [| i range IH]; intros commitcount rc c Hc; cbn [commit_loop]; [done |].
  destruct (decide _); [done |].
  pose proof (fcr_ReorderBufferEntry_commit i c Hc) as Hi.
  destruct (ReorderBufferEntry_commit i c) as [c' rc']. cbn [fst] in Hi.
  destruct (decide (rc' = _)); [| done]. cbv zeta.
  destruct (decide _); cbn [fst]; [fcr_prim |]. apply IH. fcr_prim.
Qed.

Lemma fcr_commit (c : Core) :
  forward_cycle_in_range c -> forward_cycle_in_range (commit c).1.
Proof.
  intros Hc. unfold commit.
  pose proof (fcr_commit_loop (foreach_forward ROB_SIZE (ROB (free_unreferenced c))) 0
                COMMIT_RESULT_OK _ (fcr_free_unreferenced c Hc)) as Hl.
  destruct (commit_loop _ _ _ _) as [[c' rc] n]. cbn [fst] in *. fcr_prim.
Qed.

Lemma fcr_for_each_cluster (f : Z -> Core -> Core) (c : Core) :
  (forall i c, forward_cycle_in_range c -> forward_cycle_in_range (f i c)) ->
  forward_cycle_in_range c -> forward_cycle_in_range (for_each_cluster f c).
Proof. intros Hf Hc. unfold for_each_cluster. apply fcr_foldl; [| exact Hc]. intros; by apply Hf. Qed.

Lemma fcr_rename (c : Core) :
  (forall c, forward_cycle_in_range c -> forward_cycle_in_range (rename_uop c)) ->
  forward_cycle_in_range c -> forward_cycle_in_range (rename rename_uop c).
Proof.
  intros Hf Hc. unfold rename.
  assert (Hl : forall w p c, forward_cycle_in_range c ->
                 forward_cycle_in_range (rename_loop rename_uop w p c).1).
  { clear c Hc. induction w as [| w IH]; intros p c Hc; cbn [rename_loop]; [done |].
    destruct (rename_hazard c) as [c' |] eqn:Hh; [| by apply IH, Hf].
    cbn [fst]. unfold rename_hazard in Hh.
    repeat case_match; simplify_eq; fcr_prim. }
  specialize (Hl FRONTEND_WIDTH 0 c Hc).
  destruct (rename_loop _ _ _ _) as [c' p]. cbn [fst] in Hl. fcr_prim.
Qed.

Lemma fcr_flush_pipeline (rip : Z) (c : Core) :
  forward_cycle_in_range c -> forward_cycle_in_range (flush_pipeline rip c).
Proof.
  intros Hc.
  assert (Hr : forward_cycle_in_range
                 (set_ROB (q_reset ReorderBufferEntry.init (ROB (reset_fetch_unit rip c)))
                    (reset_fetch_unit rip c))).
  { unfold forward_cycle_in_range in *. cbn. apply Forall_fmap.
    eapply Forall_impl; [exact Hc |]. intros r Hr. exact Hr. }
  apply (fcr_foldl (fun c i => ReorderBufferEntry.changestate rob_free_list i c)
           (seq 0 ROB_SIZE)) in Hr; [| intros; by apply fcr_rob_changestate].
  unfold flush_pipeline. cbv zeta.
  set (c1 := foldl _ _ (seq 0 ROB_SIZE)) in *. clearbody c1.
  eapply fcr_same; [exact Hr |].
  rewrite ROB_foldl by (intros; unfold PhysicalRegister.addcommitref; apply ROB_addref).
  rewrite ROB_foldl by (intros; unfold PhysicalRegister.addspecref; apply ROB_addref).
  unfold set_commitrrt, set_specrrt. cbn [ROB].
  by rewrite ROB_PhysicalRegisterFile_reset.
Qed.

Lemma fcr_external_to_core_state (c : Core) :
  forward_cycle_in_range c -> forward_cycle_in_range (external_to_core_state c).
Proof.
  intros Hc. unfold external_to_core_state. cbv zeta.
  eapply fcr_same; [exact Hc |].
  rewrite ROB_alter_physreg. apply ROB_foldl. intros. apply ROB_alter_physreg.
Qed.

Lemma fcr_initial_core (a b : Z) :
  0 <= MAX_FORWARDING_LATENCY -> forward_cycle_in_range (initial_core a b).
Proof.
  intros Hmax. unfold forward_cycle_in_range. cbn.
  apply Forall_replicate. cbn. lia.
Qed.

Lemma fcr_forward_cycles (c c' : Core) :
  forward_cycles c' = forward_cycles c ->
  forward_cycle_in_range c -> forward_cycle_in_range c'.
Proof.
  unfold forward_cycle_in_range, forward_cycles. intros Heq Hc.
  assert (Hx : forall l : list ReorderBufferEntry,
             Forall (fun r => 0 <= rob_forward_cycle r <= MAX_FORWARDING_LATENCY) l
             <-> Forall (fun z => 0 <= z <= MAX_FORWARDING_LATENCY) (rob_forward_cycle <$> l)).
  { intros l. rewrite Forall_fmap. reflexivity. }
  apply Hx. rewrite Heq. by apply Hx.
Qed.

(** A stage that writes [forward_cycle] by [loadwakeup()] only keeps the range. *)
Lemma fcr_wakes_loads (c c' : Core) :
  0 <= MAX_FORWARDING_LATENCY ->
  wakes_loads c c' -> forward_cycle_in_range c -> forward_cycle_in_range c'.
Proof.
  intros Hmax [robs Heq] Hc. apply (fcr_forward_cycles _ _ Heq).
  apply fcr_foldl; [| exact Hc]. intros. by apply forward_cycle_in_range_loadwakeup.
Qed.

Lemma fcr_frontend (c : Core) :
  forward_cycle_in_range c -> forward_cycle_in_range (FrontendStage.frontend c).
Proof.
  intros Hc. unfold FrontendStage.frontend. apply fcr_foldl; [| exact Hc].
  clear c Hc. intros c rob Hc. unfold FrontendStage.frontend_rob.
  apply forward_cycle_in_range_alter; [intros r Hr; exact Hr |].
  destruct (decide _); [| exact Hc].
  apply fcr_rob_changestate.
  apply forward_cycle_in_range_alter; [intros r Hr; exact Hr | exact Hc].
Qed.

Lemma ROB_physregs_alloc (c c' : Core) (physreg : nat) :
  RenameStage.physregs_alloc c = Some (physreg, c') -> ROB c' = ROB c.
Proof.
  unfold RenameStage.physregs_alloc.
  destruct (physreg_state_list physreg_free_list c); [done |].
  intros [= _ <-]. reflexivity.
Qed.

Lemma fcr_rename_uop (c : Core) :
  forward_cycle_in_range c -> forward_cycle_in_range (RenameStage.rename_uop c).
Proof.
  intros Hc. cbv beta delta [RenameStage.rename_uop].
  destruct (fetchq c) as [| transop fetchq']; [exact Hc |].
  let_step ld. let_step st. let_step br. clearbody ld st br.
  let_step c1. let_step c2. let_step rob. clearbody rob. let_step c3.
  assert (H3 : forward_cycle_in_range c3).
  { unfold forward_cycle_in_range in *. subst c3 c2 c1. cbn.
    apply Forall_alter; [exact Hc |]. intros r _ Hr. exact Hr. }
  clearbody c3. clear c1 c2.
  destruct (RenameStage.physregs_alloc c3) as [[physreg c4] |] eqn:Ha; [| exact H3].
  apply ROB_physregs_alloc in Ha. apply (fcr_same c3 c4 H3) in Ha.
  let_chain (fun x => forward_cycle_in_range x) fcr_rename_prim.
  fcr_rename_prim.
Qed.

(** What the cycle needs of the stages follows from what they are. *)
Lemma fcr_stages :
  0 <= MAX_FORWARDING_LATENCY ->
  stages_leave_forward_cycle ->
  forall c, forward_cycle_in_range c ->
    forward_cycle_in_range (dcache_clock c)
    /\ (forall i, forward_cycle_in_range (writeback i c))
    /\ (forall i, forward_cycle_in_range (issue i c))
    /\ forward_cycle_in_range (dispatch c)
    /\ forward_cycle_in_range (frontend c)
    /\ forward_cycle_in_range (rename_uop c)
    /\ forward_cycle_in_range (fetch c)
    /\ forward_cycle_in_range (handle_barrier c).1
    /\ forward_cycle_in_range (handle_exception c).1.
Proof.
  intros Hmax (Hd & Hw & Hi & Hp & Hf & Hr & Hfe & Hb & He) c Hc.
  rewrite Hf, Hr.
  repeat split; intros;
    first [ by apply fcr_frontend | by apply fcr_rename_uop
          | eapply (fcr_wakes_loads c); [exact Hmax | eauto | exact Hc] ].
Qed.

Lemma fcr_toplevel_cycle (c : Core) :
  0 <= MAX_FORWARDING_LATENCY < 2 ^ 15 - 1 ->
  stages_leave_forward_cycle ->
  forward_cycle_in_range c -> forward_cycle_in_range (toplevel_cycle c).1.
Proof.
  intros Hmax Hst0 Hc. unfold toplevel_cycle.
  pose proof (fcr_stages ltac:(lia) Hst0) as Hst.
  assert (H1 : forward_cycle_in_range (dcache_clock (set_fu_avail (Z.ones FU_COUNT) c))).
  { apply Hst. fcr_prim. }
  apply fcr_commit in H1.
  destruct (commit _) as [c1 rc]. cbn [fst] in H1. cbv zeta.
  assert (H2 : forward_cycle_in_range (for_each_cluster writeback c1)).
  { apply fcr_for_each_cluster; [| exact H1]. intros i c' Hc'. by apply Hst. }
  assert (H3 : forward_cycle_in_range (for_each_cluster transfer (for_each_cluster writeback c1))).
  { apply fcr_for_each_cluster; [| exact H2]. intros i c' Hc'.
    apply (transfer_loop _ c' Hmax); [| exact Hc'].
    apply NoDup_filter, NoDup_seq. }
  set (c3 := for_each_cluster transfer _) in *. clearbody c3.
  assert (H4 : forward_cycle_in_range
                 (for_each_cluster (fun i c => complete i (issue i c)) c3)).
  { apply fcr_for_each_cluster; [| exact H3]. intros i c' Hc'.
    apply forward_cycle_in_range_complete; [lia |]. by apply Hst. }
  set (c4 := for_each_cluster _ c3) in *. clearbody c4.
  assert (H5 : forward_cycle_in_range (dispatch c4)) by by apply Hst.
  set (c5 := dispatch c4) in *. clearbody c5.
  assert (H6 : forward_cycle_in_range
                 (if stall_frontend c5 then c5 else fetch (rename rename_uop (frontend c5)))).
  { destruct (stall_frontend c5); [exact H5 |].
    apply Hst, fcr_rename; [intros; by apply Hst | by apply Hst]. }
  set (c6 := if stall_frontend c5 then _ else _) in *. clearbody c6.
  assert (H7 : forward_cycle_in_range
                 (if decide (rc = COMMIT_RESULT_BARRIER) then handle_barrier c6
                  else if decide (rc = COMMIT_RESULT_EXCEPTION) then handle_exception c6
                  else if decide (rc = COMMIT_RESULT_STOP) then (c6, false) else (c6, true)).1).
  { repeat destruct (decide _); try exact H6; by apply Hst. }
  destruct (if decide (rc = COMMIT_RESULT_BARRIER) then _ else _) as [c7 goes_on].
  cbn [fst] in H7. destruct goes_on; cbn [fst]; fcr_prim.
Qed.

Lemma fcr_toplevel_loop (n : nat) (c : Core) :
  0 <= MAX_FORWARDING_LATENCY < 2 ^ 15 - 1 ->
  stages_leave_forward_cycle ->
  forward_cycle_in_range c -> forward_cycle_in_range (toplevel_loop n c).1.
Proof.
  intros Hmax Hst. revert c. induction n as [| n IH]; intros c Hc; cbn [toplevel_loop]; [done |].
  destruct (toplevel_condition c); [| done].
  assert (Hi : forward_cycle_in_range (toplevel_iteration c).1).
  { unfold toplevel_iteration. destruct (decide _); [cbn [fst]; fcr_prim |].
    by apply fcr_toplevel_cycle. }
  destruct (toplevel_iteration c) as [c' goes_on]. cbn [fst] in Hi.
  destruct goes_on; [by apply IH | done].
Qed.

Lemma check_rob_forward_cycle_in_range (c : Core) :
  0 <= MAX_FORWARDING_LATENCY ->
  forward_cycle_in_range c -> check_rob_forward_cycle c = true.
Proof.
  intros Hmax Hc. unfold check_rob_forward_cycle. apply bool_decide_eq_true.
  apply Forall_forall. intros i _ _. unfold ROB_at.
  rewrite list_lookup_total_alt.
  destruct (q_data (ROB c) !! i) as [r |] eqn:Hr; cbn; [| lia].
  unfold forward_cycle_in_range in Hc. rewrite Forall_lookup in Hc.
  specialize (Hc i r Hr). cbn in Hc. lia.
Qed.

Lemma rob_state_list_in_range (l : rob_list) (c : Core) (j : nat) :
  j ∈ rob_state_list l c -> (j < length (q_data (ROB c)))%nat.
Proof.
  unfold rob_state_list. rewrite list_elem_of_filter. intros [Hl _].
  destruct (decide (j < length (q_data (ROB c)))%nat) as [| Hge]; [done |].
  unfold ROB_at in Hl. rewrite list_lookup_total_alt, (lookup_ge_None_2 _ j) in Hl by lia.
  discriminate.
Qed.

(** C5. The range of [forward_cycle]. On a machine whose maximum forwarding
    latency leaves room for one increment in the 16 bit field, and with stages
    outside the model that write [forward_cycle] by calls of [loadwakeup()]
    only, [frontend] and the renaming of a uop being the embedded ones:
    [transfer] gives every ROB on the completed list of its cluster one more
    forwarding cycle, or, when that would exceed [MAX_FORWARDING_LATENCY],
    clamps the counter to it and moves the ROB to ready_to_writeback of the
    ROB's cluster, and touches no other ROB; the range
    [0 <= forward_cycle <= MAX_FORWARDING_LATENCY] holds for the core as the
    program starts, and, once it holds, after [transfer], after [complete],
    after one cycle and after any number of iterations of the top-level loop,
    where the check of [check_rob] passes. *)
Theorem forward_cycle_stays_in_range (n : nat) (cluster : Z) (c : Core) :
  0 <= MAX_FORWARDING_LATENCY < 2 ^ 15 - 1 ->
  stages_leave_forward_cycle ->
  forward_cycle_in_range c ->
  (forall j, ROB_at (transfer cluster c) j
             = if decide (j ∈ rob_state_list (rob_completed_list cluster) c)
               then transferred (ROB_at c j) else ROB_at c j)
  /\ forward_cycle_in_range (transfer cluster c)
  /\ forward_cycle_in_range (complete cluster c)
  /\ forward_cycle_in_range (toplevel_cycle c).1
  /\ forward_cycle_in_range (toplevel_loop n c).1
  /\ check_rob_forward_cycle (toplevel_loop n c).1 = true
  /\ forward_cycle_in_range (out_of_order_core_toplevel_loop n c).1
  /\ check_rob_forward_cycle (out_of_order_core_toplevel_loop n c).1 = true
  /\ (forall a b, forward_cycle_in_range (initial_core a b)).
Proof.
  intros Hmax Hst Hc.
  assert (Hnd : NoDup (rob_state_list (rob_completed_list cluster) c))
    by apply NoDup_filter, NoDup_seq.
  destruct (transfer_loop _ c Hmax Hnd Hc) as (Ht & _ & Hat).
  assert (Hloop : forward_cycle_in_range (toplevel_loop n c).1)
    by by apply fcr_toplevel_loop.
  assert (Hout : forward_cycle_in_range (out_of_order_core_toplevel_loop n c).1).
  { unfold out_of_order_core_toplevel_loop. cbv zeta.
    apply fcr_toplevel_loop; [done | done |].
    by apply fcr_external_to_core_state, fcr_flush_pipeline. }
  repeat split; try done.
  - intros j. unfold transfer. rewrite Hat.
    destruct (decide (j ∈ _)) as [Hin | Hni].
    + rewrite decide_True; [done |]. split; [done |]. by eapply rob_state_list_in_range.
    + rewrite decide_False; [done |]. tauto.
  - apply forward_cycle_in_range_complete; [lia | done].
  - by apply fcr_toplevel_cycle.
  - apply check_rob_forward_cycle_in_range; [lia | done].
  - apply check_rob_forward_cycle_in_range; [lia | done].
  - intros a b. apply fcr_initial_core. lia.
Qed.

End CycleTheorems.

Section ForwardCycleExample.
#[local] Existing Instance example_hw.
#[local] Existing Instance filling_stages.

(** The witness: the example machine with the embedded frontend and renaming
    and a data cache that fills every miss, three iterations from a core with
    a completed ROB in its last forwarding cycle, a load that waits for a miss
    and a store to rename. *)
Lemma forward_cycle_stays_in_range_witness :
  (forall j, ROB_at (transfer 0 missed_load_core) j
             = if decide (j ∈ rob_state_list (rob_completed_list 0) missed_load_core)
               then transferred (ROB_at missed_load_core j) else ROB_at missed_load_core j)
  /\ forward_cycle_in_range (transfer 0 missed_load_core)
  /\ forward_cycle_in_range (complete 0 missed_load_core)
  /\ forward_cycle_in_range (toplevel_cycle missed_load_core).1
  /\ forward_cycle_in_range (toplevel_loop 3 missed_load_core).1
  /\ check_rob_forward_cycle (toplevel_loop 3 missed_load_core).1 = true
  /\ forward_cycle_in_range (out_of_order_core_toplevel_loop 3 missed_load_core).1
  /\ check_rob_forward_cycle (out_of_order_core_toplevel_loop 3 missed_load_core).1 = true
  /\ (forall a b, forward_cycle_in_range (initial_core a b)).
Proof.
  apply (forward_cycle_stays_in_range 3 0 missed_load_core).
  - vm_compute. split; [discriminate | reflexivity].
  - repeat split; intros; try reflexivity; try (exists []; reflexivity).
    exists (rob_state_list rob_cache_miss_list c). reflexivity.
  - vm_compute. repeat (apply List.Forall_cons || apply List.Forall_nil); split; discriminate.
Defined.

End ForwardCycleExample.
(* --------------------------------------------------------------------- *)
(** ** The deadlock warning of the top-level loop *)
(* --------------------------------------------------------------------- *)

Section ClockFrame.
Context `{HwDef}.

Lemma clock_addref r c : clock (PhysicalRegister.addref r c) = clock c.
Proof. unfold PhysicalRegister.addref. by destruct (PhysicalRegister.nonnull r). Qed.
Lemma clock_unref r c : clock (PhysicalRegister.unref r c) = clock c.
Proof. unfold PhysicalRegister.unref. by destruct (PhysicalRegister.nonnull r). Qed.
Lemma clock_commitrrt_rename a p c : clock (commitrrt_rename a p c) = clock c.
Proof.
  unfold commitrrt_rename, PhysicalRegister.addcommitref, PhysicalRegister.uncommitref.
  cbv zeta. rewrite clock_addref.
  transitivity (clock (PhysicalRegister.unref (commitrrt_at c a) c)); [reflexivity |].
  apply clock_unref.
Qed.

Lemma clock_foldl {A} (f : Core -> A -> Core) (l : list A) (c : Core) :
  (forall c a, clock (f c a) = clock c) -> clock (foldl f c l) = clock c.
Proof.
  intros Hf. revert c. induction l as [| a l IH]; intros c; cbn; [done |].
  by rewrite IH, Hf.
Qed.

End ClockFrame.

(** The clock is kept by a step built from setters of other fields and the
    operations above. *)
Ltac clock_prim :=
  cbv beta zeta;
  repeat first
    [ assumption
    | reflexivity
    | rewrite clock_addref
    | rewrite clock_unref
    | rewrite clock_commitrrt_rename
    | rewrite clock_foldl; [| intros]
    | match goal with
      | |- clock (if ?b then _ else _) = _ => destruct b
      | |- clock (match ?b with _ => _ end) = _ => destruct b
      | H : clock ?x = clock ?c |- clock _ = clock ?c =>
          transitivity (clock x); [reflexivity | exact H]
      end ].

Section DeadlockTheorems.
Context `{HwDef} `{Stages}.

Lemma clock_commit_uop (self : nat) (c : Core) : clock (commit_uop self c).1 = clock c.
Proof.
  cbv beta delta [commit_uop].
  let_chain (fun x => clock x = clock c) clock_prim.
  destruct (isbarrier _); cbn [fst]; clock_prim.
Qed.

Lemma clock_commit_exception (self : nat) (c : Core) :
  clock (commit_exception self c).1 = clock c.
Proof.
  cbv beta delta [commit_exception].
  let_chain (fun x => clock x = clock c) clock_prim.
  cbn [fst]. assumption.
Qed.

Lemma clock_ReorderBufferEntry_commit (self : nat) (c : Core) :
  clock (ReorderBufferEntry_commit self c).1 = clock c.
Proof.
  cbv beta delta [ReorderBufferEntry_commit].
  let_chain (fun x => clock x = clock c) clock_prim.
  destruct (scan_macro_op _ _); cbv zeta.
  - rewrite clock_commit_uop. clock_prim.
  - cbn [fst]. clock_prim.
  - rewrite clock_commit_exception. clock_prim.
Qed.

Lemma clock_free_unreferenced (c : Core) : clock (free_unreferenced c) = clock c.
Proof. unfold free_unreferenced. clock_prim. Qed.

Lemma clock_commit_loop (range : list nat) (commitcount : nat) (rc : Z) (c : Core) :
  clock (commit_loop range commitcount rc c).1.1 = clock c.
Proof.
  revert commitcount rc c.
  induction range as [| i range IH]; intros commitcount rc c; cbn [commit_loop]; [done |].
  destruct (decide _); [done |].
  pose proof (clock_ReorderBufferEntry_commit i c) as Hi.
  destruct (ReorderBufferEntry_commit i c) as [c' rc']. cbn [fst] in Hi.
  destruct (decide (rc' = _)); [| done]. cbv zeta.
  destruct (decide _); cbn [fst]; [clock_prim |]. rewrite IH. clock_prim.
Qed.

Lemma clock_commit (c : Core) : clock (commit c).1 = clock c.
Proof.
  unfold commit.
  pose proof (clock_commit_loop (foreach_forward ROB_SIZE (ROB (free_unreferenced c))) 0
                COMMIT_RESULT_OK (free_unreferenced c)) as Hl.
  rewrite clock_free_unreferenced in Hl.
  destruct (commit_loop _ _ _ _) as [[c' rc] n]. cbn [fst] in *. clock_prim.
Qed.

Lemma clock_for_each_cluster (f : Z -> Core -> Core) (c : Core) :
  (forall i c, clock (f i c) = clock c) -> clock (for_each_cluster f c) = clock c.
Proof. intros Hf. unfold for_each_cluster. apply clock_foldl. intros; apply Hf. Qed.

Lemma clock_transfer (cluster : Z) (c : Core) : clock (transfer cluster c) = clock c.
Proof.
  unfold transfer. apply clock_foldl. intros c' rob. unfold transfer_rob. clock_prim.
Qed.

Lemma clock_complete (cluster : Z) (c : Core) : clock (complete cluster c) = clock c.
Proof.
  unfold complete. apply clock_foldl. intros c' rob. unfold complete_rob. clock_prim.
Qed.

Lemma clock_rename (c : Core) :
  (forall c, clock (rename_uop c) = clock c) -> clock (rename rename_uop c) = clock c.
Proof.
  intros Hf. unfold rename.
  assert (Hl : forall w p c, clock (rename_loop rename_uop w p c).1 = clock c).
  { clear c. induction w as [| w IH]; intros p c; cbn [rename_loop]; [done |].
    destruct (rename_hazard c) as [c' |] eqn:Hh; [| by rewrite IH, Hf].
    cbn [fst]. unfold rename_hazard in Hh.
    repeat case_match; simplify_eq; clock_prim. }
  specialize (Hl FRONTEND_WIDTH 0 c).
  destruct (rename_loop _ _ _ _) as [c' p]. cbn [fst] in Hl. clock_prim.
Qed.

(** One cycle: [cerr] is left alone, and the cycle counter goes up by one
    when the loop goes on. *)
Lemma clock_toplevel_cycle (c : Core) :
  stages_keep_clock ->
  cerr (toplevel_cycle c).1 = cerr c
  /\ sim_cycle (toplevel_cycle c).1
     = if (toplevel_cycle c).2 then W64 (sim_cycle c + 1) else sim_cycle c.
Proof.
  intros Hst. unfold toplevel_cycle.
  assert (H1 : clock (dcache_clock (set_fu_avail (Z.ones FU_COUNT) c)) = clock c).
  { etransitivity; [apply Hst | reflexivity]. }
  rewrite <- clock_commit in H1.
  destruct (commit _) as [c1 rc]. cbn [fst] in H1. cbv zeta.
  assert (H2 : clock (for_each_cluster writeback c1) = clock c).
  { rewrite clock_for_each_cluster; [exact H1 |]. intros; apply Hst. }
  set (c2 := for_each_cluster writeback c1) in *. clearbody c2.
  assert (H3 : clock (for_each_cluster transfer c2) = clock c).
  { rewrite clock_for_each_cluster; [exact H2 |]. intros; apply clock_transfer. }
  set (c3 := for_each_cluster transfer c2) in *. clearbody c3.
  assert (H4 : clock (for_each_cluster (fun i c => complete i (issue i c)) c3) = clock c).
  { rewrite clock_for_each_cluster; [exact H3 |]. intros i c'.
    rewrite clock_complete. apply Hst. }
  set (c4 := for_each_cluster _ c3) in *. clearbody c4.
  assert (H5 : clock (dispatch c4) = clock c) by (etransitivity; [apply Hst | exact H4]).
  set (c5 := dispatch c4) in *. clearbody c5.
  assert (H6 : clock (if stall_frontend c5 then c5
                      else fetch (rename rename_uop (frontend c5))) = clock c).
  { destruct (stall_frontend c5); [exact H5 |].
    etransitivity; [apply Hst |]. rewrite clock_rename by (intros; apply Hst).
    etransitivity; [apply Hst | exact H5]. }
  set (c6 := if stall_frontend c5 then _ else _) in *. clearbody c6.
  assert (H7 : clock
                 (if decide (rc = COMMIT_RESULT_BARRIER) then handle_barrier c6
                  else if decide (rc = COMMIT_RESULT_EXCEPTION) then handle_exception c6
                  else if decide (rc = COMMIT_RESULT_STOP) then (c6, false) else (c6, true)).1
               = clock c).
  { repeat destruct (decide _); try exact H6; (etransitivity; [apply Hst | exact H6]). }
  destruct (if decide (rc = COMMIT_RESULT_BARRIER) then _ else _) as [c7 goes_on].
  cbn [fst] in H7. unfold clock in H7. injection H7 as Hs He.
  destruct goes_on; cbn; by rewrite ?Hs, ?He.
Qed.

(** While the loop is running nothing has been reported, and every iteration
    has counted one cycle. *)
Lemma toplevel_loop_running (n : nat) (c c' : Core) :
  stages_keep_clock ->
  0 <= sim_cycle c -> sim_cycle c + Z.of_nat n < 2 ^ 64 ->
  toplevel_loop n c = (c', true) ->
  cerr c' = cerr c /\ sim_cycle c' = sim_cycle c + Z.of_nat n.
Proof.
  intros Hst. revert c. induction n as [| n IH]; intros c Hlo Hhi Hrun; cbn [toplevel_loop] in Hrun.
  - injection Hrun as <-. split; [done | lia].
  - destruct (toplevel_condition c); [| discriminate].
    destruct (toplevel_iteration c) as [c1 goes_on] eqn:Hit.
    destruct goes_on; [| discriminate].
    unfold toplevel_iteration in Hit. destruct (decide _); [discriminate |].
    destruct (clock_toplevel_cycle c Hst) as [He Hs]. rewrite Hit in He, Hs. cbn in He, Hs.
    assert (Hs1 : sim_cycle c1 = sim_cycle c + 1).
    { rewrite Hs. unfold W64. apply Z.mod_small. lia. }
    destruct (IH c1 ltac:(lia) ltac:(lia) Hrun) as [He' Hs'].
    split; [congruence | lia].
Qed.

(** One more iteration after [n]. *)
Lemma toplevel_loop_succ (n : nat) (c : Core) :
  toplevel_loop (S n) c
  = if (toplevel_loop n c).2
    then if toplevel_condition (toplevel_loop n c).1
         then toplevel_iteration (toplevel_loop n c).1
         else ((toplevel_loop n c).1, false)
    else toplevel_loop n c.
Proof.
  revert c. induction n as [| n IH]; intros c.
  - cbn. destruct (toplevel_condition c); [| done].
    by destruct (toplevel_iteration c) as [c1 []].
  - change (toplevel_loop (S (S n)) c)
      with (if toplevel_condition c
            then let '(c1, goes_on) := toplevel_iteration c in
                 if goes_on then toplevel_loop (S n) c1 else (c1, false)
            else (c, false)).
    change (toplevel_loop (S n) c)
      with (if toplevel_condition c
            then let '(c1, goes_on) := toplevel_iteration c in
                 if goes_on then toplevel_loop n c1 else (c1, false)
            else (c, false)).
    destruct (toplevel_condition c); [| done].
    destruct (toplevel_iteration c) as [c1 []]; [| done].
    apply IH.
Qed.

(** C8. The deadlock warning, as the loop has it. Take a run of the top-level
    loop that is still going after [n] iterations and whose condition still
    holds. Then nothing has been reported so far, [n] cycles have been counted,
    and the next iteration reports the warning and leaves the loop exactly when
    it starts with [sim_cycle - last_commit_at_cycle > 1024], that is with 1025
    or more cycles since the cycle of the last commit; the figure it names is
    that difference. When the difference is 1024 or less the iteration runs a
    cycle and reports nothing. *)
Theorem deadlock_warning_past_1024_cycles (n : nat) (c c' : Core) :
  stages_keep_clock ->
  0 <= sim_cycle c -> sim_cycle c + Z.of_nat n < 2 ^ 64 ->
  toplevel_loop n c = (c', true) ->
  toplevel_condition c' = true ->
  cerr c' = cerr c
  /\ sim_cycle c' = sim_cycle c + Z.of_nat n
  /\ cycles_since_commit c' = W64 (sim_cycle c + Z.of_nat n - last_commit_at_cycle c')
  /\ (cycles_since_commit c' > 1024 ->
        toplevel_loop (S n) c = (report_deadlock c', false)
        /\ cerr (toplevel_loop (S n) c).1 = cycles_since_commit c' :: cerr c)
  /\ (cycles_since_commit c' <= 1024 ->
        toplevel_loop (S n) c = toplevel_cycle c'
        /\ cerr (toplevel_loop (S n) c).1 = cerr c).
Proof.
  intros Hst Hlo Hhi Hrun Hcond.
  destruct (toplevel_loop_running n c c' Hst Hlo Hhi Hrun) as [He Hs].
  split; [exact He |]. split; [exact Hs |].
  split; [unfold cycles_since_commit; by rewrite Hs |].
  rewrite toplevel_loop_succ, Hrun. cbn [fst snd]. rewrite Hcond.
  unfold toplevel_iteration.
  split; intros Hd.
  - rewrite decide_True by exact Hd. split; [reflexivity |]. cbn. by rewrite He.
  - rewrite decide_False by lia. split; [reflexivity |].
    destruct (clock_toplevel_cycle c' Hst) as [He' _]. congruence.
Qed.

End DeadlockTheorems.

Section DeadlockExample.
#[local] Existing Instance example_hw.
#[local] Existing Instance idle_stages.

(** The witness: the example machine with idle stages, 1025 iterations from
    the flushed pipeline; the 1026th reports 1025 cycles. *)
Lemma deadlock_warning_past_1024_cycles_witness :
  cerr (toplevel_loop 1025 example_core).1 = cerr example_core
  /\ sim_cycle (toplevel_loop 1025 example_core).1 = sim_cycle example_core + Z.of_nat 1025
  /\ cycles_since_commit (toplevel_loop 1025 example_core).1
     = W64 (sim_cycle example_core + Z.of_nat 1025
            - last_commit_at_cycle (toplevel_loop 1025 example_core).1)
  /\ (cycles_since_commit (toplevel_loop 1025 example_core).1 > 1024 ->
        toplevel_loop 1026 example_core
        = (report_deadlock (toplevel_loop 1025 example_core).1, false)
        /\ cerr (toplevel_loop 1026 example_core).1
           = cycles_since_commit (toplevel_loop 1025 example_core).1 :: cerr example_core)
  /\ (cycles_since_commit (toplevel_loop 1025 example_core).1 <= 1024 ->
        toplevel_loop 1026 example_core = toplevel_cycle (toplevel_loop 1025 example_core).1
        /\ cerr (toplevel_loop 1026 example_core).1 = cerr example_core).
Proof.
  apply (deadlock_warning_past_1024_cycles 1025 example_core (toplevel_loop 1025 example_core).1).
  - intros c. repeat split; intros; reflexivity.
  - vm_compute. discriminate.
  - vm_compute. reflexivity.
  - vm_compute. reflexivity.
  - vm_compute. reflexivity.
Defined.

(** A run with 1024 cycles and no commit, and still no warning: from the
    flushed pipeline with idle stages, 1024 cycles pass and then a 1025th, no
    uop commits, the loop is still running and [cerr] is empty; the warning
    comes with the 1026th iteration and names 1025 cycles. *)
Lemma no_warning_after_1024_idle_cycles :
  (toplevel_loop 1024 example_core).2 = true
  /\ sim_cycle (toplevel_loop 1024 example_core).1 = 1024
  /\ last_commit_at_cycle (toplevel_loop 1024 example_core).1 = 0
  /\ total_uops_committed (toplevel_loop 1024 example_core).1 = 0
  /\ cerr (toplevel_loop 1024 example_core).1 = []
  /\ (toplevel_loop 1025 example_core).2 = true
  /\ sim_cycle (toplevel_loop 1025 example_core).1 = 1025
  /\ total_uops_committed (toplevel_loop 1025 example_core).1 = 0
  /\ cerr (toplevel_loop 1025 example_core).1 = []
  /\ (toplevel_loop 1026 example_core).2 = false
  /\ cerr (toplevel_loop 1026 example_core).1 = [1025].
Proof. vm_compute. repeat split. Qed.

End DeadlockExample.
(* --------------------------------------------------------------------- *)
(** ** Commit of a macro-op *)
(* --------------------------------------------------------------------- *)

Section CommitTheorems.
Context `{HwDef}.

(** The scan finds everything ready exactly when every uop it can reach is
    ready to commit and free of exceptions. *)
Lemma scan_all_ready_through_eom (c : Core) (range : list nat) :
  scan_macro_op c range = scan_all_ready
  <-> Forall (fun j => ReorderBufferEntry.ready_to_commit (ROB_at c j) = true
                       /\ ReorderBufferEntry.has_exception j c = false)
        (through_eom c range).
Proof.
  induction range as [| j range IH]; cbn [scan_macro_op through_eom]; [by split |].
  destruct (ReorderBufferEntry.ready_to_commit (ROB_at c j)) eqn:Hr; cbn [negb].
  - destruct (ReorderBufferEntry.has_exception j c) eqn:He.
    + split; [discriminate |].
      destruct (uop_eom _); intros Hall; apply Forall_cons_1 in Hall as [[_ ?] _]; congruence.
    + destruct (uop_eom _).
      * split; [| done]. intros _. by repeat constructor.
      * rewrite IH. split; [intros Hall; by constructor |].
        intros Hall. by apply Forall_cons_1 in Hall as [_ ?].
  - split; [discriminate |].
    destruct (uop_eom _); intros Hall; apply Forall_cons_1 in Hall as [[? _] _]; congruence.
Qed.

(** The scan does not read [bytes_in_current_insn_to_commit]. *)
Lemma scan_macro_op_same (c c' : Core) (range : list nat) :
  ROB c' = ROB c -> physregs c' = physregs c ->
  scan_macro_op c' range = scan_macro_op c range.
Proof.
  intros HR HP. induction range as [| j range IH]; cbn [scan_macro_op]; [done |].
  unfold ReorderBufferEntry.has_exception, ROB_at, physreg_at. by rewrite IH, HR, HP.
Qed.

(** [ReorderBufferEntry::commit()] by the outcome of its scan. *)
Lemma ReorderBufferEntry_commit_scan (self : nat) (c : Core) :
  ReorderBufferEntry_commit self c
  = let uop := rob_uop (ROB_at c self) in
    let c0 := if uop_som uop then set_bytes_in_current_insn_to_commit (uop_bytes uop) c else c in
    match scan_macro_op c (foreach_forward_from ROB_SIZE (ROB c) self) with
    | scan_not_ready => (bump "commit_result_none" 1 c0, COMMIT_RESULT_NONE)
    | scan_all_ready =>
        commit_uop self (bump_at "commit_opclass_histogram" (opclassof (uop_opcode uop)) 1 c0)
    | scan_exception data =>
        commit_exception self
          (bump_at "commit_opclass_histogram" (opclassof (uop_opcode uop)) 1
             (set_ctx_exception data c0))
    end.
Proof.
  unfold ReorderBufferEntry_commit. cbv zeta.
  destruct (uop_som (rob_uop (ROB_at c self))); [| reflexivity].
  by rewrite (scan_macro_op_same c (set_bytes_in_current_insn_to_commit _ c)).
Qed.

(** A uop that commits gives OK, or BARRIER when it is a barrier. *)
Lemma commit_uop_result (self : nat) (c : Core) :
  (commit_uop self c).2
  = if isbarrier (uop_opcode (rob_uop (ROB_at c self)))
    then COMMIT_RESULT_BARRIER else COMMIT_RESULT_OK.
Proof.
  cbv beta delta [commit_uop].
  let_chain (fun _ : Core => True) ltac:(exact I).
  repeat match goal with x := _ |- _ => subst x end.
  by destruct (isbarrier _).
Qed.

(** The uop commits only when the scan found everything ready. *)
Lemma commit_only_when_scan_all_ready (self : nat) (c : Core) :
  let rc := (ReorderBufferEntry_commit self c).2 in
  (rc = COMMIT_RESULT_OK \/ rc = COMMIT_RESULT_BARRIER)
  <-> Forall (fun j => ReorderBufferEntry.ready_to_commit (ROB_at c j) = true
                       /\ ReorderBufferEntry.has_exception j c = false)
        (through_eom c (foreach_forward_from ROB_SIZE (ROB c) self)).
Proof.
  cbv zeta. rewrite <- scan_all_ready_through_eom.
  rewrite ReorderBufferEntry_commit_scan.
  destruct (scan_macro_op c _) eqn:Hscan.
  - split; [done |]. intros _. cbv zeta. rewrite commit_uop_result.
    destruct (isbarrier _); tauto.
  - cbn [snd]. split; [| done]. intros [? | ?]; discriminate.
  - cbn [snd]. split; [| done]. intros [? | ?]; discriminate.
Qed.

(** When the scan meets an exception the result is EXCEPTION and nothing of the
    architectural state moves: the committed rename table, the registers, the
    architectural registers with the RIP, and memory are as before, and so are
    the ROB and the LSQ. *)
Lemma commit_exception_keeps_architectural_state (self : nat) (c : Core) (data : Z) :
  scan_macro_op c (foreach_forward_from ROB_SIZE (ROB c) self) = scan_exception data ->
  let r := ReorderBufferEntry_commit self c in
  r.2 = COMMIT_RESULT_EXCEPTION
  /\ ctx_exception r.1 = data
  /\ commitrrt r.1 = commitrrt c /\ specrrt r.1 = specrrt c
  /\ physregs r.1 = physregs c
  /\ ctx_commitarf r.1 = ctx_commitarf c
  /\ memory r.1 = memory c
  /\ ROB r.1 = ROB c /\ LSQ r.1 = LSQ c.
Proof.
  intros Hscan. cbv zeta. rewrite ReorderBufferEntry_commit_scan, Hscan.
  unfold commit_exception. cbv zeta.
  destruct (uop_som _); destruct (_ && _); cbn; repeat split; reflexivity.
Qed.

End CommitTheorems.

Section CommitScan.
Context `{HwDef}.

(** The scan by the first uop of the macro-op that is not both ready to commit
    and free of exceptions. *)
Lemma scan_macro_op_first_offender (c : Core) (range pre post : list nat) (j : nat) :
  through_eom c range = pre ++ j :: post ->
  Forall (fun i => ReorderBufferEntry.ready_to_commit (ROB_at c i) = true
                   /\ ReorderBufferEntry.has_exception i c = false) pre ->
  scan_macro_op c range
  = if negb (ReorderBufferEntry.ready_to_commit (ROB_at c j)) then scan_not_ready
    else if ReorderBufferEntry.has_exception j c
    then scan_exception (physreg_data (physreg_at c (rob_physreg (ROB_at c j))))
    else scan_macro_op c (j :: drop (S (length pre)) range).
Proof.
  revert pre. induction range as [| a range IH]; intros pre Hsplit Hpre.
  - destruct pre; discriminate.
  - cbn [through_eom] in Hsplit. destruct pre as [| a' pre].
    + cbn [app length drop] in *.
      assert (Ha : a = j) by (destruct (uop_eom _); by injection Hsplit).
      subst a. rewrite drop_0. cbn [scan_macro_op].
      destruct (negb _); [done |]. by destruct (ReorderBufferEntry.has_exception j c).
    + apply Forall_cons_1 in Hpre as [[Hr He] Hpre].
      destruct (uop_eom (rob_uop (ROB_at c a))) eqn:Heom.
      { injection Hsplit as _ Hnil. by destruct pre. }
      cbn [app] in Hsplit. injection Hsplit as -> Hsplit.
      cbn [scan_macro_op]. rewrite Hr, He, Heom. cbn [negb].
      rewrite (IH pre Hsplit Hpre). cbn [length drop]. reflexivity.
Qed.

(** C2. Which uops [ReorderBufferEntry::commit()] looks at and what it does
    with them. The scan runs from the committing uop through the EOM uop of its
    macro-op, or through the tail of the ROB when the EOM uop is not in the
    ROB. The uop commits, with the result OK or BARRIER, exactly when every uop
    of that range is ready to commit and none has an exception. Otherwise the
    first uop of the range that is not ready or has an exception decides: when
    it is ready and has an exception, the result is EXCEPTION, [ctx.exception]
    is the data of its register, and the committed rename table, the
    registers, [ctx.commitarf] with the RIP and memory are as before; when it is
    not ready, the result is NONE and the same state, and [ctx.exception] too,
    is as before, whether or not a later uop of the range has an exception. *)
Theorem commit_scans_to_the_first_unready_or_excepting_uop (self : nat) (c : Core) :
  let range := through_eom c (foreach_forward_from ROB_SIZE (ROB c) self) in
  let r := ReorderBufferEntry_commit self c in
  let ready_and_clean := fun j =>
    ReorderBufferEntry.ready_to_commit (ROB_at c j) = true
    /\ ReorderBufferEntry.has_exception j c = false in
  (r.2 = COMMIT_RESULT_OK \/ r.2 = COMMIT_RESULT_BARRIER <-> Forall ready_and_clean range)
  /\ (forall pre j post,
        range = pre ++ j :: post -> Forall ready_and_clean pre ->
        ReorderBufferEntry.ready_to_commit (ROB_at c j) = true ->
        ReorderBufferEntry.has_exception j c = true ->
        r.2 = COMMIT_RESULT_EXCEPTION
        /\ ctx_exception r.1 = physreg_data (physreg_at c (rob_physreg (ROB_at c j)))
        /\ commitrrt r.1 = commitrrt c /\ physregs r.1 = physregs c
        /\ ctx_commitarf r.1 = ctx_commitarf c /\ memory r.1 = memory c
        /\ ROB r.1 = ROB c /\ LSQ r.1 = LSQ c)
  /\ (forall pre j post,
        range = pre ++ j :: post -> Forall ready_and_clean pre ->
        ReorderBufferEntry.ready_to_commit (ROB_at c j) = false ->
        r.2 = COMMIT_RESULT_NONE
        /\ ctx_exception r.1 = ctx_exception c
        /\ commitrrt r.1 = commitrrt c /\ physregs r.1 = physregs c
        /\ ctx_commitarf r.1 = ctx_commitarf c /\ memory r.1 = memory c
        /\ ROB r.1 = ROB c /\ LSQ r.1 = LSQ c).
Proof.
  cbv zeta. split; [apply commit_only_when_scan_all_ready |]. split.
  - intros pre j post Hsplit Hpre Hready Hexc.
    pose proof (scan_macro_op_first_offender c _ pre post j Hsplit Hpre) as Hscan.
    rewrite Hready, Hexc in Hscan. cbn [negb] in Hscan.
    destruct (commit_exception_keeps_architectural_state self c _ Hscan)
      as (Hrc & Hctx & Hcrrt & _ & Hregs & Harf & Hmem & HROB & HLSQ).
    by repeat split.
  - intros pre j post Hsplit Hpre Hready.
    pose proof (scan_macro_op_first_offender c _ pre post j Hsplit Hpre) as Hscan.
    rewrite Hready in Hscan. cbn [negb] in Hscan.
    rewrite ReorderBufferEntry_commit_scan, Hscan. cbv zeta.
    destruct (uop_som _); cbn; repeat split; reflexivity.
Qed.

End CommitScan.

Section CommitExample.
#[local] Existing Instance example_hw.
#[local] Existing Instance unmapped_externals.

(** An exception that is not raised yet. The two uops of a macro-op, an ALU
    uop and a store to a page that is not mapped, are renamed, pass the
    frontend stages, are dispatched and issue in the same cycle.
    The store is marked invalid and goes straight to the commit queue; the ALU
    uop is on the issued list for its latency. [commit()] on the head then
    finds the first uop not ready and returns NONE, although the second uop of
    the range is ready to commit and has an exception. *)
Lemma exception_behind_an_unfinished_uop :
  (fun '(c1, rc1) =>
     (fun '(c2, rc2) =>
        (rc1, rc2,
         through_eom c2 (foreach_forward_from ROB_SIZE (ROB c2) 0),
         ReorderBufferEntry.ready_to_commit (ROB_at c2 0),
         ReorderBufferEntry.ready_to_commit (ROB_at c2 1),
         ReorderBufferEntry.has_exception 1 c2,
         (ReorderBufferEntry_commit 0 c2).2,
         (commit c2).2,
         ctx_exception (ReorderBufferEntry_commit 0 c2).1))
     <$> ReorderBufferEntry_issue 1 c1)
  <$> ReorderBufferEntry_issue 0 macro_op_of_two_core
  = Some (Some (1, 1, [0; 1]%nat, false, true, true,
                COMMIT_RESULT_NONE, COMMIT_RESULT_NONE, 0)).
Proof. vm_compute. reflexivity. Qed.

End CommitExample.
(* --------------------------------------------------------------------- *)
(** ** Issue of a branch *)
(* --------------------------------------------------------------------- *)

Section IssueTheorems.
Context `{HwDef} `{Externals}.

Lemma stat_at_bump_at_ne (n n' : string) (k k' v : Z) (c : Core) :
  (n, k) <> (n', k') -> stat_at n' k' (bump_at n k v c) = stat_at n' k' c.
Proof. intros Hne. unfold stat_at, bump_at. cbn. by rewrite lookup_insert_ne. Qed.

Lemma stat_at_bump_at (n : string) (k v : Z) (c : Core) :
  stat_at n k (bump_at n k v c) = W64 (stat_at n k c + v).
Proof. unfold stat_at at 1. unfold bump_at. cbn. by rewrite lookup_insert_eq. Qed.

Lemma branch_view_eq (self : nat) (c c' : Core) :
  branch_view self c' = branch_view self c ->
  redirect_state c' = redirect_state c
  /\ stat "branchpred_total_correct" c' = stat "branchpred_total_correct" c
  /\ stat "branchpred_total_mispred" c' = stat "branchpred_total_mispred" c
  /\ length (physregs c') = length (physregs c)
  /\ rob_uop (ROB_at c' self) = rob_uop (ROB_at c self)
  /\ rob_physreg (ROB_at c' self) = rob_physreg (ROB_at c self).
Proof.
  intros Hv. repeat split.
  - exact (f_equal (fun v => v.1.1.1.1.1) Hv).
  - exact (f_equal (fun v => v.1.1.1.1.2) Hv).
  - exact (f_equal (fun v => v.1.1.1.2) Hv).
  - exact (f_equal (fun v => v.1.1.2) Hv).
  - exact (f_equal (fun v => v.1.2) Hv).
  - exact (f_equal (fun v => v.2) Hv).
Qed.

Lemma branch_view_bump_at (self : nat) (n : string) (k v : Z) (c : Core) :
  n <> "branchpred_total_correct" -> n <> "branchpred_total_mispred" ->
  branch_view self (bump_at n k v c) = branch_view self c.
Proof.
  intros H1 H2. unfold branch_view, stat.
  rewrite !stat_at_bump_at_ne by congruence. reflexivity.
Qed.

Lemma fmap_alter_same {A B} (g : A -> B) (f : A -> A) (i : nat) (l : list A) :
  (forall a, g (f a) = g a) -> g <$> alter f i l = g <$> l.
Proof.
  intros Hf. revert i. induction l as [| a l IH]; intros [| i]; cbn; [done | done | |].
  - by rewrite Hf.
  - f_equal. apply IH.
Qed.

Lemma lookup_total_alter_same {A} `{Inhabited A} {B} (g : A -> B) (f : A -> A) (i j : nat) (l : list A) :
  (forall a, g (f a) = g a) -> g (alter f i l !!! j) = g (l !!! j).
Proof.
  intros Hf. rewrite !list_lookup_total_alt, list_lookup_alter.
  destruct (decide (i = j)) as [-> |]; [| done].
  destruct (l !! j); cbn; [apply Hf | done].
Qed.

Lemma branch_view_alter_ROB (self : nat) (f : ReorderBufferEntry -> ReorderBufferEntry)
    (i : nat) (c : Core) :
  (forall r, rob_entry_valid (f r) = rob_entry_valid r) ->
  (forall r, rob_uop (f r) = rob_uop r) ->
  (forall r, rob_physreg (f r) = rob_physreg r) ->
  branch_view self (alter_ROB f i c) = branch_view self c.
Proof.
  intros Hv Hu Hp. unfold branch_view, redirect_state, ROB_at, alter_ROB. cbn.
  rewrite (fmap_alter_same rob_entry_valid) by done.
  rewrite (lookup_total_alter_same rob_uop) by done.
  rewrite (lookup_total_alter_same rob_physreg) by done.
  reflexivity.
Qed.

Lemma branch_view_alter_physreg (self : nat) (f : PhysicalRegister -> PhysicalRegister)
    (i : nat) (c : Core) :
  branch_view self (alter_physreg f i c) = branch_view self c.
Proof. unfold branch_view, alter_physreg. cbn. by rewrite length_alter. Qed.

Lemma branch_view_issue_source (self r : nat) (c : Core) :
  branch_view self (issue_source r c) = branch_view self c.
Proof.
  unfold issue_source. cbv zeta.
  rewrite branch_view_alter_physreg. by apply branch_view_bump_at.
Qed.

Lemma fmap_lookup_total_same {A} `{Inhabited A} {B} (g : A -> B) (l l' : list A) (i : nat) :
  g <$> l = g <$> l' -> g (l !!! i) = g (l' !!! i).
Proof.
  intros Heq. rewrite !list_lookup_total_alt.
  assert (Hi : (g <$> l) !! i = (g <$> l') !! i) by by rewrite Heq.
  rewrite !list_lookup_fmap in Hi.
  destruct (l !! i), (l' !! i); cbn in *; congruence.
Qed.

Lemma issue_input_operand_view (rob : ReorderBufferEntry) (c c' : Core) :
  operand_view c' = operand_view c -> issue_input rob c' = issue_input rob c.
Proof.
  intros Hv. unfold issue_input, physreg_at. cbv zeta.
  assert (Hd : forall i, physreg_data (physregs c' !!! i) = physreg_data (physregs c !!! i)).
  { intros i.
    apply (f_equal fst (fmap_lookup_total_same
             (fun p => (physreg_data p, physreg_flags p)) _ _ i Hv)). }
  assert (Hf : forall i, physreg_flags (physregs c' !!! i) = physreg_flags (physregs c !!! i)).
  { intros i.
    apply (f_equal snd (fmap_lookup_total_same
             (fun p => (physreg_data p, physreg_flags p)) _ _ i Hv)). }
  by rewrite !Hd, !Hf.
Qed.

Lemma issue_view_bump_at (self : nat) (n : string) (k v : Z) (c : Core) :
  n <> "branchpred_total_correct" -> n <> "branchpred_total_mispred" ->
  issue_view self (bump_at n k v c) = issue_view self c.
Proof. intros H1 H2. unfold issue_view. by rewrite branch_view_bump_at. Qed.

Lemma issue_view_alter_ROB (self : nat) (f : ReorderBufferEntry -> ReorderBufferEntry)
    (i : nat) (c : Core) :
  (forall r, rob_entry_valid (f r) = rob_entry_valid r) ->
  (forall r, rob_uop (f r) = rob_uop r) ->
  (forall r, rob_physreg (f r) = rob_physreg r) ->
  issue_view self (alter_ROB f i c) = issue_view self c.
Proof. intros Hv Hu Hp. unfold issue_view. by rewrite branch_view_alter_ROB. Qed.

Lemma issue_view_issue_source (self r : nat) (c : Core) :
  issue_view self (issue_source r c) = issue_view self c.
Proof.
  unfold issue_view. rewrite branch_view_issue_source. f_equal.
  unfold issue_source, operand_view, alter_physreg. cbn.
  by apply fmap_alter_same.
Qed.

End IssueTheorems.

(** The view of [issue()] is kept by the steps before the uop executes. *)
Ltac issue_prim self :=
  cbv beta zeta;
  repeat first
    [ assumption
    | reflexivity
    | rewrite issue_view_issue_source
    | rewrite issue_view_bump_at by discriminate
    | rewrite issue_view_alter_ROB by (intros; reflexivity)
    | progress unfold ReorderBufferEntry.changestate, bump
    | match goal with
      | |- issue_view _ (if ?b then _ else _) = _ => destruct b
      | Hx : issue_view self ?x = issue_view self ?c |- issue_view self _ = issue_view self ?c =>
          transitivity (issue_view self x); [reflexivity | exact Hx]
      end ].

(** The same for a counter that the steps before the uop executes do not
    count in. *)
Ltac issue_stat_prim :=
  cbv beta zeta;
  unfold issue_source, ReorderBufferEntry.changestate, bump, stat in *;
  cbv beta zeta;
  repeat first
    [ assumption
    | reflexivity
    | rewrite stat_at_bump_at_ne by congruence
    | progress change (stat_at ?n ?k (alter_ROB ?f ?i ?y)) with (stat_at n k y)
    | progress change (stat_at ?n ?k (alter_physreg ?f ?i ?y)) with (stat_at n k y)
    | progress change (stat_at ?n ?k (set_fu_avail ?v ?y)) with (stat_at n k y)
    | match goal with
      | |- stat_at _ _ (if ?b then _ else _) = _ => destruct b
      end ].

Section BranchIssue.
Context `{HwDef} `{Externals}.

Lemma issue_branch_executes (self : nat) (c : Core) (rddata rdflags : Z) :
  let rob := ROB_at c self in
  let uop := rob_uop rob in
  Z.land (Z.land (opinfo_fu (uop_opcode uop)) (clusters_fu_mask (rob_cluster rob))) (fu_avail c) <> 0 ->
  operands_valid (issue_input rob c) = true ->
  isload (uop_opcode uop) = false -> isstore (uop_opcode uop) = false ->
  isbranch (uop_opcode uop) = true ->
  call_exec_func uop (issue_input rob c) = (rddata, rdflags) ->
  exists c1,
    issue_view self c1 = issue_view self c
    /\ stat "issue_result_exception" c1 = stat "issue_result_exception" c
    /\ length (q_data (ROB c1)) = length (q_data (ROB c))
    /\ ReorderBufferEntry_issue self c
       = if negb (isbarrier (uop_opcode uop)) && negb (asp_check_exec rddata)
         then issue_result self EXCEPTION_PageFaultOnExec (Z.lor rdflags FLAG_INV) c1
         else issue_result self rddata rdflags c1.
Proof.
  cbv zeta. intros Hfu Hops Hld Hst Hbr Hexec.
  cbv beta delta [ReorderBufferEntry_issue].
  let_chain (fun x => issue_view self x = issue_view self c
                      /\ stat "issue_result_exception" x = stat "issue_result_exception" c
                      /\ length (q_data (ROB x)) = length (q_data (ROB c)))
            ltac:(repeat match goal with Hc : _ /\ _ |- _ => destruct Hc end;
                  split; [issue_prim self | split; [issue_stat_prim | ]];
                  unfold ReorderBufferEntry.changestate, issue_source, bump;
                  cbv beta zeta;
                  repeat first
                    [ assumption | reflexivity
                    | rewrite length_alter_ROB
                    | progress change (ROB (bump_at ?n ?k ?v ?y)) with (ROB y)
                    | progress change (ROB (alter_physreg ?f ?i ?y)) with (ROB y)
                    | progress change (ROB (set_fu_avail ?v ?y)) with (ROB y)
                    | match goal with
                      | |- length (q_data (ROB (if ?b then _ else _))) = _ => destruct b
                      end ]).
  match goal with
  | Hx : issue_view self ?x = issue_view self c /\ _ /\ _ |- _ =>
      exists x; destruct Hx as (Hx & Hxs & Hxl);
      split; [exact Hx |]; split; [exact Hxs |]; split; [exact Hxl |]
  end.
  match goal with
  | x := issue_input ?r ?y |- _ =>
      assert (Hin : x = issue_input r c)
        by (subst x; apply issue_input_operand_view;
            match goal with
            | Hy : issue_view self y = _ /\ _ |- _ => exact (f_equal snd (proj1 Hy))
            | Hy : issue_view self y = _ |- _ => exact (f_equal snd Hy)
            end);
      clearbody x; subst x
  end.
  repeat match goal with x := _ |- _ => subst x end.
  rewrite decide_False by exact Hfu.
  unfold operands_valid in Hops. apply bool_decide_eq_true in Hops.
  rewrite decide_False by (intros Hne; by apply Hne).
  rewrite Hld, Hst, Hbr. cbn [orb]. rewrite Hexec. reflexivity.
Qed.

Lemma physreg_at_alter_physreg (f : PhysicalRegister -> PhysicalRegister) (i : nat) (c : Core) :
  (i < length (physregs c))%nat ->
  physreg_at (alter_physreg f i c) i = f (physreg_at c i).
Proof.
  intros Hi. unfold physreg_at, alter_physreg. cbn.
  rewrite !list_lookup_total_alt, list_lookup_alter, decide_True by done.
  destruct (physregs c !! i) eqn:Hl; [done |].
  apply lookup_ge_None in Hl. lia.
Qed.

Lemma stat_bump_ne (n n' : string) (v : Z) (c : Core) :
  bool_decide (n = n') = false -> stat n' (bump n v c) = stat n' c.
Proof.
  intros Hne. apply bool_decide_eq_false in Hne.
  unfold stat, bump. apply stat_at_bump_at_ne. congruence.
Qed.

Lemma stat_bump (n : string) (v : Z) (c : Core) :
  stat n (bump n v c) = W64 (stat n c + v).
Proof. apply stat_at_bump_at. Qed.

Lemma redirect_state_bump (n : string) (v : Z) (c : Core) :
  redirect_state (bump n v c) = redirect_state c.
Proof. reflexivity. Qed.

Lemma count_branch_correct (bptype : Z) (c : Core) :
  redirect_state (count_branch "correct" bptype c) = redirect_state c
  /\ stat "branchpred_total_correct" (count_branch "correct" bptype c)
     = W64 (stat "branchpred_total_correct" c + 1)
  /\ stat "branchpred_total_mispred" (count_branch "correct" bptype c)
     = stat "branchpred_total_mispred" c.
Proof.
  unfold count_branch. cbv zeta. cbn [String.append].
  split; [reflexivity |]. split.
  - rewrite stat_bump. by rewrite !stat_bump_ne by reflexivity.
  - by rewrite !stat_bump_ne by reflexivity.
Qed.

(** The second half of [issue()] by cases, on a core [cr] that differs from
    [c] in nothing the statements below look at, except that the destination
    register holds the result. *)
Lemma issue_result_cases (self : nat) (rddata rdflags : Z) (c : Core) :
  let uop := rob_uop (ROB_at c self) in
  let physreg := rob_physreg (ROB_at c self) in
  (physreg < length (physregs c))%nat ->
  exists cr,
    branch_view self cr = branch_view self c
    /\ physreg_data (physreg_at cr physreg) = rddata
    /\ issue_result self rddata rdflags c
       = if bool_decide (Z.land rdflags FLAG_INV = 0) then
           if isbranch (uop_opcode uop) then
             if bool_decide (rddata <> uop_riptaken uop) then
               let cm := count_branch "mispred" (uop_bptype uop) cr in
               '(ca, _) ← annul_after self cm;
               Some (bump "issue_result_branch_mispredict" 1
                       (reset_fetch_unit (physreg_data (physreg_at cm physreg)) ca), -1)
             else Some (bump "issue_result_complete" 1
                          (count_branch "correct" (uop_bptype uop) cr), 1)
           else Some (bump "issue_result_complete" 1 cr, 1)
         else Some (bump "issue_result_exception" 1 cr, 1).
Proof.
  cbv zeta. intros Hlen.
  cbv beta delta [issue_result].
  let_step uop. let_step physreg. let_step br. let_step cw.
  assert (Hw : branch_view self cw = branch_view self c
               /\ physreg_flags (physreg_at cw physreg) = rdflags
               /\ physreg_data (physreg_at cw physreg) = rddata).
  { subst cw. split; [apply branch_view_alter_physreg |].
    by rewrite physreg_at_alter_physreg. }
  clearbody cw. destruct Hw as (Hv & Hf & Hd).
  let_step valid.
  assert (Hvalid : valid = bool_decide (Z.land rdflags FLAG_INV = 0)).
  { subst valid. unfold PhysicalRegister.valid. by rewrite Hf. }
  clearbody valid. subst valid.
  let_step ce.
  assert (He : branch_view self ce = branch_view self c
               /\ physreg_data (physreg_at ce physreg) = rddata).
  { subst ce. destruct (bool_decide _); [done |]. cbv zeta.
    split; [| exact Hd].
    transitivity (branch_view self
                    (ReorderBufferEntry.changestate rob_ready_to_commit_queue self
                       (alter_ROB (set_rob_cycles_left 0) self cw))); [reflexivity |].
    unfold ReorderBufferEntry.changestate.
    rewrite !branch_view_alter_ROB by (by intros). exact Hv. }
  clearbody ce. destruct He as (Hve & Hde).
  let_step mispredicted. let_step cr.
  assert (Hr : branch_view self cr = branch_view self c
               /\ physreg_data (physreg_at cr physreg) = rddata).
  { subst cr. split; [| exact Hde].
    etransitivity; [| exact Hve]. apply branch_view_alter_ROB; by intros. }
  assert (Hm : mispredicted = bool_decide (rddata <> uop_riptaken uop)).
  { subst mispredicted. by rewrite Hde. }
  clearbody cr mispredicted. subst mispredicted br. destruct Hr as (Hr & Hdr).
  exists cr. split; [exact Hr |]. split; [exact Hdr |]. reflexivity.
Qed.

(** A branch whose result is invalid, or valid and equal to the predicted
    target. *)
Lemma issue_result_branch_no_redirect (self : nat) (rddata rdflags : Z) (c : Core) :
  let uop := rob_uop (ROB_at c self) in
  isbranch (uop_opcode uop) = true ->
  (rob_physreg (ROB_at c self) < length (physregs c))%nat ->
  Z.land rdflags FLAG_INV <> 0 \/ rddata = uop_riptaken uop ->
  exists c',
    issue_result self rddata rdflags c = Some (c', 1)
    /\ redirect_state c' = redirect_state c
    /\ stat "branchpred_total_mispred" c' = stat "branchpred_total_mispred" c
    /\ stat "branchpred_total_correct" c'
       = if bool_decide (Z.land rdflags FLAG_INV = 0)
         then W64 (stat "branchpred_total_correct" c + 1)
         else stat "branchpred_total_correct" c.
Proof.
  cbv zeta. intros Hbr Hlen Hcase.
  destruct (issue_result_cases self rddata rdflags c Hlen) as (cr & Hr & _ & ->).
  cbv zeta. rewrite Hbr.
  apply branch_view_eq in Hr as (Hred & Hcorr & Hmis & _).
  destruct (bool_decide (Z.land rdflags FLAG_INV = 0)) eqn:Hinv.
  - apply bool_decide_eq_true in Hinv. destruct Hcase as [Hcase | Hcase]; [done |].
    rewrite bool_decide_eq_false_2 by (intros Hne; by apply Hne).
    destruct (count_branch_correct (uop_bptype (rob_uop (ROB_at c self))) cr) as (Hcr & Hcc & Hcm).
    eexists. split; [reflexivity |].
    rewrite redirect_state_bump, !stat_bump_ne by reflexivity.
    rewrite Hcr, Hcc, Hcm. by rewrite Hred, Hcorr, Hmis.
  - eexists. split; [reflexivity |].
    rewrite redirect_state_bump, !stat_bump_ne by reflexivity. done.
Qed.

(** A branch whose result is valid and differs from the predicted target. *)
Lemma issue_result_branch_mispredict (self : nat) (rddata rdflags : Z) (c c' : Core) (rc : Z) :
  let uop := rob_uop (ROB_at c self) in
  isbranch (uop_opcode uop) = true ->
  (rob_physreg (ROB_at c self) < length (physregs c))%nat ->
  Z.land rdflags FLAG_INV = 0 -> rddata <> uop_riptaken uop ->
  issue_result self rddata rdflags c = Some (c', rc) ->
  rc = -1 /\ fetchrip c' = rddata /\ fetchq c' = [].
Proof.
  cbv zeta. intros Hbr Hlen Hinv Hne Hres.
  destruct (issue_result_cases self rddata rdflags c Hlen) as (cr & Hr & Hd & Heq).
  rewrite Heq in Hres. cbv zeta in Hres. rewrite Hbr in Hres.
  rewrite !bool_decide_eq_true_2 in Hres by done.
  destruct (annul_after self _) as [[ca r] |]; [| discriminate].
  cbn in Hres. injection Hres as <- <-.
  split; [reflexivity |]. split; [| reflexivity]. cbn. exact Hd.
Qed.

Lemma land_lor_same (a b : Z) : Z.land (Z.lor a b) b = b.
Proof.
  apply Z.bits_inj'. intros n _. rewrite Z.land_spec, Z.lor_spec.
  by destruct (Z.testbit a n), (Z.testbit b n).
Qed.

(** The second half of [issue()] for a result that carries an exception. *)
Lemma issue_result_invalid (self : nat) (rddata rdflags : Z) (c : Core) :
  Z.land rdflags FLAG_INV <> 0 ->
  (rob_physreg (ROB_at c self) < length (physregs c))%nat ->
  issue_result self rddata rdflags c
  = Some (bump "issue_result_exception" 1
            (alter_ROB (set_rob_iqslot (-1)) self
               (set_stall_frontend true
                  (ReorderBufferEntry.changestate rob_ready_to_commit_queue self
                     (alter_ROB (set_rob_cycles_left 0) self
                        (alter_physreg (fun p => set_physreg_data rddata
                                                   (set_physreg_flags rdflags p))
                           (rob_physreg (ROB_at c self)) c))))), 1).
Proof.
  intros Hinv Hlen.
  cbv beta delta [issue_result].
  let_step uop. let_step physreg. let_step br. let_step cw.
  let_step valid.
  assert (Hvalid : valid = false).
  { subst valid cw. unfold PhysicalRegister.valid.
    rewrite physreg_at_alter_physreg by done. cbn.
    by apply bool_decide_eq_false_2. }
  clearbody valid. subst valid. cbv iota.
  let_step ce. let_step mispredicted. clearbody mispredicted.
  let_step cr. reflexivity.
Qed.

(** What the forced move to the commit queue leaves of the views. *)
Lemma issue_result_invalid_core (self : nat) (k : Z) (rddata rdflags : Z) (p : nat) (c : Core) :
  (p < length (physregs c))%nat -> (self < length (q_data (ROB c)))%nat ->
  let c' := bump "issue_result_exception" 1
              (alter_ROB (set_rob_iqslot (-1)) self
                 (set_stall_frontend true
                    (ReorderBufferEntry.changestate rob_ready_to_commit_queue self
                       (alter_ROB (set_rob_cycles_left 0) self
                          (alter_physreg (fun p => set_physreg_data rddata
                                                     (set_physreg_flags rdflags p)) p c))))) in
  branch_view self c' = branch_view self c
  /\ physreg_data (physreg_at c' p) = rddata
  /\ physreg_flags (physreg_at c' p) = rdflags
  /\ rob_current_state_list (ROB_at c' self) = Some rob_ready_to_commit_queue
  /\ rob_cycles_left (ROB_at c' self) = 0
  /\ stall_frontend c' = true
  /\ memory c' = memory c
  /\ stat "issue_result_exception" c' = W64 (stat "issue_result_exception" c + 1)
  /\ stat_at "issue_opclass_histogram" k c' = stat_at "issue_opclass_histogram" k c.
Proof.
  intros Hp Hself. cbv zeta.
  split; [| split; [| split; [| split; [| split; [| split; [| split; [| split]]]]]]].
  - unfold bump, ReorderBufferEntry.changestate.
    rewrite branch_view_bump_at by discriminate.
    rewrite branch_view_alter_ROB by (by intros).
    change (branch_view self (set_stall_frontend true ?x)) with (branch_view self x).
    rewrite !branch_view_alter_ROB by (by intros).
    apply branch_view_alter_physreg.
  - change (physreg_at (bump ?n ?v (alter_ROB ?f ?i (set_stall_frontend ?b
              (ReorderBufferEntry.changestate ?l ?j (alter_ROB ?g ?m ?x))))) p)
      with (physreg_at x p).
    by rewrite physreg_at_alter_physreg.
  - change (physreg_at (bump ?n ?v (alter_ROB ?f ?i (set_stall_frontend ?b
              (ReorderBufferEntry.changestate ?l ?j (alter_ROB ?g ?m ?x))))) p)
      with (physreg_at x p).
    by rewrite physreg_at_alter_physreg.
  - change (ROB_at (bump ?n ?v ?x) self) with (ROB_at x self).
    rewrite ROB_at_alter_ROB.
    change (ROB_at (set_stall_frontend ?b ?x) self) with (ROB_at x self).
    change (ROB (set_stall_frontend ?b ?x)) with (ROB x).
    unfold ReorderBufferEntry.changestate.
    rewrite !ROB_at_alter_ROB, !length_alter_ROB.
    change (ROB (alter_physreg ?f ?i ?x)) with (ROB x).
    by rewrite !decide_True by done.
  - change (ROB_at (bump ?n ?v ?x) self) with (ROB_at x self).
    rewrite ROB_at_alter_ROB.
    change (ROB_at (set_stall_frontend ?b ?x) self) with (ROB_at x self).
    change (ROB (set_stall_frontend ?b ?x)) with (ROB x).
    unfold ReorderBufferEntry.changestate.
    rewrite !ROB_at_alter_ROB, !length_alter_ROB.
    change (ROB (alter_physreg ?f ?i ?x)) with (ROB x).
    by rewrite !decide_True by done.
  - reflexivity.
  - reflexivity.
  - rewrite stat_bump. reflexivity.
  - unfold bump. rewrite stat_at_bump_at_ne by congruence. reflexivity.
Qed.

(** C7. A branch that executes (it is given a functional unit and its operands
    carry no invalid data) with the produced target equal to [riptaken] never
    redirects: [issue()] returns 1 and writes nothing an annulment or a reset of
    the fetch unit would write, and counts no misprediction. It counts a correct
    prediction when the result is valid, that is when the semantic callback set
    no invalid flag and the target passes the check for executable memory (or
    the uop is a barrier), and not otherwise. A result that is not valid,
    whether or not the target equals [riptaken], is an exception: [issue()]
    returns 1 and redirects nothing, counts neither a correct prediction nor a
    misprediction, leaves the destination register with an invalid flag
    ([EXCEPTION_PageFaultOnExec] and [FLAG_INV] on top of the callback's flags
    for a target that is not executable, the callback's own result otherwise),
    sends the uop to the commit queue with no cycles left, stalls the frontend
    and counts [issue_result_exception]. And [issue()] returns -1 for a branch
    only when the result is valid and differs from [riptaken]; fetch then
    restarts at the produced target. *)
Theorem branch_redirects_only_on_mispredict (self : nat) (c : Core) (rddata rdflags : Z) :
  let rob := ROB_at c self in
  let uop := rob_uop rob in
  let bogus := negb (isbarrier (uop_opcode uop)) && negb (asp_check_exec rddata) in
  FLAG_INV <> 0 ->
  isbranch (uop_opcode uop) = true ->
  isload (uop_opcode uop) = false -> isstore (uop_opcode uop) = false ->
  (self < length (q_data (ROB c)))%nat ->
  (rob_physreg rob < length (physregs c))%nat ->
  Z.land (Z.land (opinfo_fu (uop_opcode uop)) (clusters_fu_mask (rob_cluster rob))) (fu_avail c) <> 0 ->
  operands_valid (issue_input rob c) = true ->
  call_exec_func uop (issue_input rob c) = (rddata, rdflags) ->
  (rddata = uop_riptaken uop ->
     exists c',
       ReorderBufferEntry_issue self c = Some (c', 1)
       /\ redirect_state c' = redirect_state c
       /\ stat "branchpred_total_mispred" c' = stat "branchpred_total_mispred" c
       /\ stat "branchpred_total_correct" c'
          = if branch_result_valid uop rddata rdflags
            then W64 (stat "branchpred_total_correct" c + 1)
            else stat "branchpred_total_correct" c)
  /\ (branch_result_valid uop rddata rdflags = false ->
      exists c',
        ReorderBufferEntry_issue self c = Some (c', 1)
        /\ redirect_state c' = redirect_state c
        /\ stat "branchpred_total_mispred" c' = stat "branchpred_total_mispred" c
        /\ stat "branchpred_total_correct" c' = stat "branchpred_total_correct" c
        /\ physreg_data (physreg_at c' (rob_physreg rob))
           = (if bogus then EXCEPTION_PageFaultOnExec else rddata)
        /\ physreg_flags (physreg_at c' (rob_physreg rob))
           = (if bogus then Z.lor rdflags FLAG_INV else rdflags)
        /\ Z.land (physreg_flags (physreg_at c' (rob_physreg rob))) FLAG_INV <> 0
        /\ rob_current_state_list (ROB_at c' self) = Some rob_ready_to_commit_queue
        /\ rob_cycles_left (ROB_at c' self) = 0
        /\ stall_frontend c' = true
        /\ stat "issue_result_exception" c' = W64 (stat "issue_result_exception" c + 1))
  /\ (forall c' rc,
        ReorderBufferEntry_issue self c = Some (c', rc) -> rc = -1 ->
        branch_result_valid uop rddata rdflags = true
        /\ rddata <> uop_riptaken uop
        /\ fetchrip c' = rddata /\ fetchq c' = []).
Proof.
  cbv zeta. intros Hinv Hbr Hld Hst Hself Hlen Hfu Hops Hexec.
  destruct (issue_branch_executes self c rddata rdflags Hfu Hops Hld Hst Hbr Hexec)
    as (c1 & Hv1 & Hexc1 & Hrl1 & Hissue).
  pose proof (f_equal fst Hv1) as Hb1. cbn in Hb1.
  apply branch_view_eq in Hb1 as (Hred & Hcorr & Hmis & Hl1 & Hu1 & Hp1).
  assert (Hbr1 : isbranch (uop_opcode (rob_uop (ROB_at c1 self))) = true) by by rewrite Hu1.
  assert (Hlen1 : (rob_physreg (ROB_at c1 self) < length (physregs c1))%nat)
    by by rewrite Hp1, Hl1.
  assert (Hinvalid : forall d f, Z.land f FLAG_INV <> 0 ->
            exists c',
              issue_result self d f c1 = Some (c', 1)
              /\ redirect_state c' = redirect_state c
              /\ stat "branchpred_total_mispred" c' = stat "branchpred_total_mispred" c
              /\ stat "branchpred_total_correct" c' = stat "branchpred_total_correct" c
              /\ physreg_data (physreg_at c' (rob_physreg (ROB_at c self))) = d
              /\ physreg_flags (physreg_at c' (rob_physreg (ROB_at c self))) = f
              /\ rob_current_state_list (ROB_at c' self) = Some rob_ready_to_commit_queue
              /\ rob_cycles_left (ROB_at c' self) = 0
              /\ stall_frontend c' = true
              /\ stat "issue_result_exception" c'
                 = W64 (stat "issue_result_exception" c + 1)).
  { intros d f Hf. rewrite issue_result_invalid by done. rewrite Hp1.
    destruct (issue_result_invalid_core self 0 d f (rob_physreg (ROB_at c self)) c1)
      as (Hbv & Hd & Hfl & Hsl & Hcl & Hsf & _ & Hs & _); [lia | lia |].
    apply branch_view_eq in Hbv as (Hred' & Hcorr' & Hmis' & _).
    eexists. split; [reflexivity |].
    rewrite Hred', Hmis', Hcorr', Hd, Hfl, Hsl, Hcl, Hsf, Hs, Hred, Hmis, Hcorr, Hexc1.
    repeat match goal with |- _ /\ _ => split end; reflexivity. }
  rewrite Hissue. unfold branch_result_valid.
  destruct (negb (isbarrier _) && negb (asp_check_exec rddata)) eqn:Hbogus.
  - (* bogus branch *)
    assert (Hnv : isbarrier (uop_opcode (rob_uop (ROB_at c self))) || asp_check_exec rddata = false).
    { destruct (isbarrier _), (asp_check_exec rddata); done. }
    rewrite Hnv, andb_false_r.
    destruct (Hinvalid EXCEPTION_PageFaultOnExec (Z.lor rdflags FLAG_INV))
      as (c' & Hres & Hr' & Hm' & Hc' & Hd' & Hf' & Hs' & Hcl' & Hsf' & He');
      [by rewrite land_lor_same |].
    split; [| split].
    + intros _. exists c'. rewrite Hres. repeat split; congruence.
    + intros _. exists c'. rewrite Hres, Hf', land_lor_same.
      repeat match goal with |- _ /\ _ => split end; done.
    + intros c'' rc Hres' ->. rewrite Hres in Hres'. discriminate.
  - assert (Hok : isbarrier (uop_opcode (rob_uop (ROB_at c self))) || asp_check_exec rddata = true).
    { destruct (isbarrier _), (asp_check_exec rddata); done. }
    rewrite Hok, andb_true_r.
    split; [| split].
    + intros Heq.
      destruct (issue_result_branch_no_redirect self rddata rdflags c1 Hbr1 Hlen1)
        as (c' & Hres & Hr' & Hm' & Hc').
      { right. by rewrite Hu1. }
      exists c'. rewrite Hres. repeat split; try congruence.
      rewrite Hc'. destruct (bool_decide _); congruence.
    + intros Hnv. apply bool_decide_eq_false in Hnv.
      destruct (Hinvalid rddata rdflags Hnv)
        as (c' & Hres & Hr' & Hm' & Hc' & Hd' & Hf' & Hs' & Hcl' & Hsf' & He').
      exists c'. rewrite Hres, Hf'.
      repeat match goal with |- _ /\ _ => split end; done.
    + intros c' rc Hres ->.
      destruct (decide (Z.land rdflags FLAG_INV = 0)) as [Hz | Hnz];
        [destruct (decide (rddata = uop_riptaken (rob_uop (ROB_at c self)))) as [Heq | Hne] |].
      * destruct (issue_result_branch_no_redirect self rddata rdflags c1 Hbr1 Hlen1)
          as (c'' & Hres' & _); [right; by rewrite Hu1 |]. congruence.
      * rewrite bool_decide_eq_true_2 by done.
        destruct (issue_result_branch_mispredict self rddata rdflags c1 c' (-1) Hbr1 Hlen1 Hz)
          as (_ & Hf & Hq); [by rewrite Hu1 | done |]. done.
      * destruct (issue_result_branch_no_redirect self rddata rdflags c1 Hbr1 Hlen1)
          as (c'' & Hres' & _); [by left |]. congruence.
Qed.

End BranchIssue.
Section BranchIssueExample.
#[local] Existing Instance example_hw.
#[local] Existing Instance mapped_externals.

(** The witness: the example machine with every page mapped; the branch at
    4096 is predicted to go to 8192 and does. *)
Lemma branch_redirects_only_on_mispredict_witness :
  (8192 = uop_riptaken (rob_uop (ROB_at branch_core 0)) ->
     exists c',
       ReorderBufferEntry_issue 0 branch_core = Some (c', 1)
       /\ redirect_state c' = redirect_state branch_core
       /\ stat "branchpred_total_mispred" c' = stat "branchpred_total_mispred" branch_core
       /\ stat "branchpred_total_correct" c'
          = if branch_result_valid (rob_uop (ROB_at branch_core 0)) 8192 0
            then W64 (stat "branchpred_total_correct" branch_core + 1)
            else stat "branchpred_total_correct" branch_core)
  /\ (forall c' rc,
        ReorderBufferEntry_issue 0 branch_core = Some (c', rc) -> rc = -1 ->
        branch_result_valid (rob_uop (ROB_at branch_core 0)) 8192 0 = true
        /\ 8192 <> uop_riptaken (rob_uop (ROB_at branch_core 0))
        /\ fetchrip c' = 8192 /\ fetchq c' = []).
Proof.
  destruct (branch_redirects_only_on_mispredict 0 branch_core 8192 0) as (H1 & _ & H3).
  - vm_compute. discriminate.
  - reflexivity.
  - reflexivity.
  - reflexivity.
  - vm_compute. lia.
  - vm_compute. lia.
  - vm_compute. discriminate.
  - reflexivity.
  - reflexivity.
  - split; [exact H1 | exact H3].
Defined.

End BranchIssueExample.

Section BogusBranchExample.
#[local] Existing Instance example_hw.
#[local] Existing Instance unmapped_externals.

(** A correctly predicted branch that is not counted as one: with no page
    mapped, the same branch produces its predicted target 8192, which is not
    executable. [issue()] returns 1 and redirects nothing, but the destination
    register gets the invalid flag and the page fault code, the uop goes
    straight to the commit queue with the frontend stalled, and the counters
    record an exception and no correct prediction. *)
Lemma correctly_predicted_branch_to_unmapped_page :
  isbranch (uop_opcode (rob_uop (ROB_at branch_core 0))) = true
  /\ call_exec_func (rob_uop (ROB_at branch_core 0)) (issue_input (ROB_at branch_core 0) branch_core)
     = (uop_riptaken (rob_uop (ROB_at branch_core 0)), 0)
  /\ (fun '(c', rc) =>
        (rc, stat "branchpred_total_correct" c', stat "issue_result_exception" c',
         physreg_flags (physreg_at c' 40), physreg_data (physreg_at c' 40),
         rob_current_state_list (ROB_at c' 0), stall_frontend c',
         fetchrip c', q_count (ROB c')))
       <$> ReorderBufferEntry_issue 0 branch_core
     = Some (1, 0, 1, FLAG_INV, EXCEPTION_PageFaultOnExec,
             Some rob_ready_to_commit_queue, true,
             fetchrip branch_core, q_count (ROB branch_core)).
Proof. vm_compute. repeat split. Qed.

End BogusBranchExample.
(* --------------------------------------------------------------------- *)
(** ** Annulment *)
(* --------------------------------------------------------------------- *)

Section AnnulTheorems.
Context `{HwDef}.

(** *** Lists altered slot by slot *)

Lemma foldl_alter_length {A} (g : A -> A) (W : list nat) (d : list A) :
  length (foldl (fun d i => alter g i d) d W) = length d.
Proof.
  revert d. induction W as [| j W IH]; intros d; cbn; [done |].
  by rewrite IH, length_alter.
Qed.

Lemma foldl_alter_same {A B} (p : A -> B) (g : A -> A) (W : list nat) (d : list A) :
  (forall a, p (g a) = p a) ->
  p <$> foldl (fun d i => alter g i d) d W = p <$> d.
Proof.
  intros Hg. revert d. induction W as [| j W IH]; intros d; cbn; [done |].
  rewrite IH. by apply fmap_alter_same.
Qed.

Lemma foldl_alter_notin {A} (g : A -> A) (W : list nat) (d : list A) (i : nat) :
  i ∉ W -> foldl (fun d i => alter g i d) d W !! i = d !! i.
Proof.
  revert d. induction W as [| j W IH]; intros d Hni; cbn; [done |].
  apply not_elem_of_cons in Hni as [Hne Hni].
  rewrite IH by done. by rewrite list_lookup_alter_ne.
Qed.

Lemma foldl_alter_in {A} (P : A -> Prop) (g : A -> A) (W : list nat) (d : list A) (i : nat) (a : A) :
  (forall a, P (g a)) ->
  i ∈ W -> foldl (fun d i => alter g i d) d W !! i = Some a -> P a.
Proof.
  intros Hg. revert d. induction W as [| j W IH]; intros d Hin Ha; cbn in Ha.
  - by apply elem_of_nil in Hin.
  - destruct (decide (i ∈ W)) as [HiW | HiW]; [by eapply IH |].
    apply elem_of_cons in Hin as [-> | ?]; [| done].
    rewrite foldl_alter_notin, list_lookup_alter_eq in Ha by done.
    destruct (d !! j); [| done]. injection Ha as <-. apply Hg.
Qed.

(** *** The ROB through the passes of [annul] *)

Lemma ROB_foldl_alter_ROB (g : ReorderBufferEntry -> ReorderBufferEntry) (W : list nat) (c : Core) :
  ROB (foldl (fun c idx => alter_ROB g idx c) c W)
  = set_q_data (foldl (fun d i => alter g i d) (q_data (ROB c)) W) (ROB c).
Proof.
  revert c. induction W as [| j W IH]; intros c; cbn [foldl]; [by destruct (ROB c) |].
  rewrite IH. reflexivity.
Qed.

Lemma ROB_pseudocommit (idx : nat) (c : Core) :
  ROB (ReorderBufferEntry_pseudocommit idx c).1 = ROB c.
Proof.
  unfold ReorderBufferEntry_pseudocommit. cbv zeta. cbn [fst].
  repeat match goal with
         | |- context [if ?b then _ else _] => destruct b
         end; rewrite ?ROB_specrrt_rename; reflexivity.
Qed.

Lemma ROB_annul_rob (idx : nat) (c : Core) :
  ROB (annul_rob idx c)
  = Build_Queue (alter annulled idx (q_data (ROB c))) (q_head (ROB c))
      (add_index_modulo (q_tail (ROB c)) (-1) ROB_SIZE) (pred (q_count (ROB c))).
Proof.
  cbv beta delta [annul_rob].
  let_step annulrob. let_step c1.
  assert (H1 : ROB c1 = ROB c) by (subst c1; apply ROB_foldl; intros; apply ROB_unref).
  clearbody c1. let_step c2.
  assert (H2 : ROB c2 = ROB c) by (subst c2; by rewrite ROB_physreg_free).
  clearbody c2. let_step c3.
  assert (H3 : ROB c3 = ROB c) by (subst c3; destruct (_ || _); by rewrite ?ROB_LSQ_annul).
  clearbody c3. cbv zeta.
  unfold ReorderBufferEntry.changestate, alter_ROB, ROB_annul, q_annul, set_q_data.
  cbn. rewrite H3. f_equal. by rewrite list_alter_alter_eq.
Qed.

Lemma ROB_foldl_annul_rob (W : list nat) (c : Core) :
  q_data (ROB (foldl (fun c idx => annul_rob idx c) c W))
  = foldl (fun d i => alter annulled i d) (q_data (ROB c)) W
  /\ q_head (ROB (foldl (fun c idx => annul_rob idx c) c W)) = q_head (ROB c).
Proof.
  revert c. induction W as [| j W IH]; intros c; cbn [foldl]; [done |].
  destruct (IH (annul_rob j c)) as [-> ->]. by rewrite ROB_annul_rob.
Qed.

(** [annul], when there is something to annul: the ROB entries afterwards, and
    the recovery rip it returns. *)
Lemma annul_ROB (keep : bool) (self : nat) (c c' : Core) (rip : Z) (somidx eomidx : nat) :
  scan_for (fun r => uop_som (rob_uop r)) (-1) ROB_SIZE c self = Some somidx ->
  scan_for (fun r => uop_eom (rob_uop r)) 1 ROB_SIZE c self = Some eomidx ->
  let startidx := if keep then add_index_modulo eomidx 1 ROB_SIZE else somidx in
  let W := walk_down ROB_SIZE (add_index_modulo (q_tail (ROB c)) (-1) ROB_SIZE) startidx in
  startidx <> q_tail (ROB c) ->
  ReorderBufferEntry_annul keep self c = Some (c', rip) ->
  q_data (ROB c')
  = foldl (fun d i => alter annulled i d)
      (foldl (fun d i => alter (set_rob_iqslot (-1)) i d) (q_data (ROB c)) W) W
  /\ q_head (ROB c') = q_head (ROB c)
  /\ rip = if keep then uop_riptaken (rob_uop (ROB_at c' startidx))
           else uop_rip (rob_uop (ROB_at c' startidx)).
Proof.
  intros Hsom Heom startidx W Hne.
  cbv beta delta [ReorderBufferEntry_annul]. rewrite Hsom, Heom.
  cbv beta iota delta [mbind option_bind].
  let_step s0. assert (Hs0 : s0 = startidx) by reflexivity. clearbody s0. subst s0.
  rewrite decide_False by exact Hne.
  let_step e0. fold W.
  let_step c1.
  assert (H1 : ROB c1 = set_q_data (foldl (fun d i => alter (set_rob_iqslot (-1)) i d)
                                      (q_data (ROB c)) W) (ROB c))
    by (subst c1; apply ROB_foldl_alter_ROB).
  clearbody c1.
  let_step c2.
  assert (H2 : ROB c2 = ROB c1)
    by (subst c2; apply ROB_foldl; intros; unfold PhysicalRegister.unspecref; apply ROB_unref).
  clearbody c2. let_step c3.
  assert (H3 : ROB c3 = ROB c1) by (subst c3; exact H2).
  clearbody c3. let_step c4.
  assert (H4 : ROB c4 = ROB c1)
    by (subst c4; rewrite ROB_foldl;
        [exact H3 | intros; unfold PhysicalRegister.addspecref; apply ROB_addref]).
  clearbody c4. let_step c5.
  assert (H5 : ROB c5 = ROB c1)
    by (subst c5; rewrite ROB_foldl; [exact H4 | intros; apply ROB_pseudocommit]).
  clearbody c5. let_step c6.
  destruct (ROB_foldl_annul_rob (walk_down ROB_SIZE e0 startidx) c5) as [H6 H7].
  fold c6 in H6, H7. clearbody c6.
  intros [= <- <-].
  rewrite H6, H7, H5, H1. repeat split; reflexivity.
Qed.

(** [annul] leaves the uop of every ROB entry in place, and every entry it
    walks over is reset and on the free list afterwards. *)
Lemma annul_entries (keep : bool) (self : nat) (c c' : Core) (rip : Z) (somidx eomidx : nat) :
  scan_for (fun r => uop_som (rob_uop r)) (-1) ROB_SIZE c self = Some somidx ->
  scan_for (fun r => uop_eom (rob_uop r)) 1 ROB_SIZE c self = Some eomidx ->
  let startidx := if keep then add_index_modulo eomidx 1 ROB_SIZE else somidx in
  let W := walk_down ROB_SIZE (add_index_modulo (q_tail (ROB c)) (-1) ROB_SIZE) startidx in
  startidx <> q_tail (ROB c) ->
  ReorderBufferEntry_annul keep self c = Some (c', rip) ->
  (forall i, rob_uop (ROB_at c' i) = rob_uop (ROB_at c i))
  /\ (forall i, i ∈ W -> (i < length (q_data (ROB c)))%nat ->
         rob_current_state_list (ROB_at c' i) = Some rob_free_list
         /\ rob_entry_valid (ROB_at c' i) = false)
  /\ rip = if keep then uop_riptaken (rob_uop (ROB_at c startidx))
           else uop_rip (rob_uop (ROB_at c startidx)).
Proof.
  intros Hsom Heom startidx W Hne Hannul.
  destruct (annul_ROB keep self c c' rip somidx eomidx Hsom Heom Hne Hannul)
    as (Hdata & _ & Hrip).
  fold startidx in Hrip. fold startidx W in Hdata.
  assert (Huop : forall i, rob_uop (ROB_at c' i) = rob_uop (ROB_at c i)).
  { intros i. unfold ROB_at. apply fmap_lookup_total_same. rewrite Hdata.
    rewrite (foldl_alter_same rob_uop annulled) by done.
    by rewrite (foldl_alter_same rob_uop (set_rob_iqslot (-1))). }
  split; [exact Huop |]. split; [| by rewrite Hrip, Huop].
  intros i Hin Hlt. unfold ROB_at. rewrite list_lookup_total_alt.
  destruct (q_data (ROB c') !! i) as [r |] eqn:Hr.
  - rewrite Hdata in Hr. cbn.
    eapply (foldl_alter_in
              (fun r => rob_current_state_list r = Some rob_free_list
                        /\ rob_entry_valid r = false) annulled W); [| exact Hin | exact Hr].
    intros a. by split.
  - apply lookup_ge_None in Hr. rewrite Hdata, !foldl_alter_length in Hr. lia.
Qed.

(** The recovery rip [annul] returns, in terms of the ROB it was called on. *)
Lemma annul_recovery_rip (keep : bool) (self : nat) (c c' : Core) (rip : Z) (somidx eomidx : nat) :
  scan_for (fun r => uop_som (rob_uop r)) (-1) ROB_SIZE c self = Some somidx ->
  scan_for (fun r => uop_eom (rob_uop r)) 1 ROB_SIZE c self = Some eomidx ->
  ReorderBufferEntry_annul keep self c = Some (c', rip) ->
  let startidx := if keep then add_index_modulo eomidx 1 ROB_SIZE else somidx in
  rip = if decide (startidx = q_tail (ROB c)) then uop_rip (rob_uop (ROB_at c self))
        else if keep then uop_riptaken (rob_uop (ROB_at c startidx))
             else uop_rip (rob_uop (ROB_at c startidx)).
Proof.
  intros Hsom Heom Hannul startidx.
  destruct (decide (startidx = q_tail (ROB c))) as [Heq | Hne].
  - unfold ReorderBufferEntry_annul in Hannul. rewrite Hsom, Heom in Hannul.
    cbv beta iota delta [mbind option_bind] in Hannul.
    fold startidx in Hannul. cbv beta zeta in Hannul.
    rewrite decide_True in Hannul by exact Heq. by injection Hannul as _ <-.
  - by destruct (annul_entries keep self c c' rip somidx eomidx Hsom Heom Hne Hannul)
      as (_ & _ & ->).
Qed.

End AnnulTheorems.

Section AnnulExample.
#[local] Existing Instance example_hw.

(** C4. The recovery rip that [annul] returns, on the example machine. The
    branch at 4096, predicted to go to 8192, is in slot 0 of the ROB, and the
    first uop of the predicted path, at 8192 with 8196 as its own [riptaken], in
    slot 1. [annul(true)] on the branch annuls slot 1 and returns 8196, the
    [riptaken] of the first annulled uop, not the 8192 of the branch; with the
    branch alone in the ROB it returns 4096, the rip of the branch itself.
    [annul(false)] returns 4096, the rip of the uop it was called on. *)
Theorem annul_returns_riptaken_of_next_uop :
  uop_rip (rob_uop (ROB_at branch_and_next_core 0)) = 4096
  /\ uop_riptaken (rob_uop (ROB_at branch_and_next_core 0)) = 8192
  /\ uop_riptaken (rob_uop (ROB_at branch_and_next_core 1)) = 8196
  /\ snd <$> ReorderBufferEntry_annul true 0 branch_and_next_core = Some 8196
  /\ (fun r => q_count (ROB r.1)) <$> ReorderBufferEntry_annul true 0 branch_and_next_core
     = Some 1%nat
  /\ snd <$> ReorderBufferEntry_annul true 0 branch_core = Some 4096
  /\ snd <$> ReorderBufferEntry_annul false 0 branch_and_next_core = Some 4096.
Proof. vm_compute. repeat split. Qed.

End AnnulExample.

(** *** What [annul] does not write *)

Section AnnulFrame.
Context `{HwDef} {T : Type} (view : Core -> T).

(** [view] does not read the ROB, the LSQ with its two counters, the register
    file or the speculative rename table. *)
Hypothesis view_ROB : forall x c, view (set_ROB x c) = view c.
Hypothesis view_LSQ : forall x c, view (set_LSQ x c) = view c.
Hypothesis view_physregs : forall x c, view (set_physregs x c) = view c.
Hypothesis view_specrrt : forall x c, view (set_specrrt x c) = view c.
Hypothesis view_loads : forall x c, view (set_loads_in_flight x c) = view c.
Hypothesis view_stores : forall x c, view (set_stores_in_flight x c) = view c.

Lemma view_alter_ROB f i c : view (alter_ROB f i c) = view c.
Proof. apply view_ROB. Qed.
Lemma view_alter_physreg f i c : view (alter_physreg f i c) = view c.
Proof. apply view_physregs. Qed.
Lemma view_unref r c : view (PhysicalRegister.unref r c) = view c.
Proof. unfold PhysicalRegister.unref. destruct (PhysicalRegister.nonnull r); [apply view_physregs | done]. Qed.
Lemma view_addref r c : view (PhysicalRegister.addref r c) = view c.
Proof. unfold PhysicalRegister.addref. destruct (PhysicalRegister.nonnull r); [apply view_physregs | done]. Qed.
Lemma view_free r c : view (PhysicalRegister.free r c) = view c.
Proof. unfold PhysicalRegister.free, PhysicalRegister.changestate. by rewrite !view_alter_physreg. Qed.

Lemma view_foldl {A} (f : Core -> A -> Core) (l : list A) (c : Core) :
  (forall c a, view (f c a) = view c) -> view (foldl f c l) = view c.
Proof.
  intros Hf. revert c. induction l as [| a l IH]; intros c; cbn; [done |].
  by rewrite IH, Hf.
Qed.

Lemma view_specrrt_rename a p c : view (specrrt_rename a p c) = view c.
Proof.
  unfold specrrt_rename, PhysicalRegister.addspecref, PhysicalRegister.unspecref. cbv zeta.
  by rewrite view_addref, view_specrrt, view_unref.
Qed.

Lemma view_pseudocommit idx c : view (ReorderBufferEntry_pseudocommit idx c).1 = view c.
Proof.
  unfold ReorderBufferEntry_pseudocommit. cbv zeta. cbn [fst].
  repeat match goal with
         | |- context [if ?b then _ else _] => destruct b
         end; rewrite ?view_specrrt_rename; reflexivity.
Qed.

Lemma view_LSQ_annul l c : view (LSQ_annul l c) = view c.
Proof.
  unfold LSQ_annul, LSQ_prepfree_counters. cbv zeta.
  by rewrite view_LSQ, view_stores, view_loads.
Qed.

Lemma view_annul_rob idx c : view (annul_rob idx c) = view c.
Proof.
  cbv beta delta [annul_rob].
  let_step annulrob. let_step c1.
  assert (H1 : view c1 = view c) by (subst c1; apply view_foldl; intros; apply view_unref).
  clearbody c1. let_step c2.
  assert (H2 : view c2 = view c) by (subst c2; by rewrite view_free).
  clearbody c2. let_step c3.
  assert (H3 : view c3 = view c) by (subst c3; destruct (_ || _); by rewrite ?view_LSQ_annul).
  clearbody c3. cbv zeta.
  unfold ReorderBufferEntry.changestate, ROB_annul. by rewrite view_alter_ROB, view_ROB.
Qed.

Lemma view_annul keep self c c' rip :
  ReorderBufferEntry_annul keep self c = Some (c', rip) -> view c' = view c.
Proof.
  cbv beta delta [ReorderBufferEntry_annul].
  destruct (scan_for _ (-1) _ _ _) as [somidx |]; [| discriminate].
  destruct (scan_for _ 1 _ _ _) as [eomidx |]; [| discriminate].
  cbv beta iota delta [mbind option_bind].
  let_step startidx. clearbody startidx.
  destruct (decide _); [by intros [= <- _] |].
  let_step endidx. clearbody endidx. let_step c1.
  assert (H1 : view c1 = view c) by (subst c1; apply view_foldl; intros; apply view_alter_ROB).
  clearbody c1. let_step c2.
  assert (H2 : view c2 = view c)
    by (subst c2; rewrite view_foldl; [done | intros; apply view_unref]).
  clearbody c2. let_step c3.
  assert (H3 : view c3 = view c) by (subst c3; by rewrite view_specrrt).
  clearbody c3. let_step c4.
  assert (H4 : view c4 = view c)
    by (subst c4; rewrite view_foldl; [done | intros; apply view_addref]).
  clearbody c4. let_step c5.
  assert (H5 : view c5 = view c)
    by (subst c5; rewrite view_foldl; [done | intros; apply view_pseudocommit]).
  clearbody c5. let_step c6.
  assert (H6 : view c6 = view c)
    by (subst c6; rewrite view_foldl; [done | intros; apply view_annul_rob]).
  clearbody c6. by intros [= <- _].
Qed.

End AnnulFrame.

(** *** The walk from the youngest uop down to the first annulled one *)

Section AnnulWalk.
Context `{HwDef}.

Lemma ring_offset_range (from x : nat) :
  (0 < ROB_SIZE)%nat -> 0 <= ring_offset from x < Z.of_nat ROB_SIZE.
Proof. intros HN. unfold ring_offset. apply Z.mod_pos_bound. lia. Qed.

Lemma ring_offset_self (from : nat) : ring_offset from from = 0.
Proof. unfold ring_offset. by rewrite Z.sub_diag, Zmod_0_l. Qed.

Lemma ring_offset_inj (from x y : nat) :
  (x < ROB_SIZE)%nat -> (y < ROB_SIZE)%nat ->
  ring_offset from x = ring_offset from y -> x = y.
Proof.
  intros Hx Hy. unfold ring_offset. intros Heq.
  assert (Hd : (Z.of_nat x - Z.of_nat y) mod Z.of_nat ROB_SIZE = 0).
  { replace (Z.of_nat x - Z.of_nat y)
      with ((Z.of_nat x - Z.of_nat from) - (Z.of_nat y - Z.of_nat from)) by lia.
    rewrite Zminus_mod, Heq, Z.sub_diag. apply Zmod_0_l. }
  apply Z.mod_divide in Hd; [| lia]. destruct Hd as [k Hk].
  assert (k = 0) by nia. lia.
Qed.

Lemma add_index_modulo_lt (i : nat) (step : Z) :
  (0 < ROB_SIZE)%nat -> (add_index_modulo i step ROB_SIZE < ROB_SIZE)%nat.
Proof.
  intros HN. unfold add_index_modulo.
  assert (HNz : 0 < Z.of_nat ROB_SIZE) by lia.
  pose proof (Z.mod_pos_bound (Z.of_nat i + step) (Z.of_nat ROB_SIZE) HNz) as Hb.
  revert Hb. generalize ((Z.of_nat i + step) mod Z.of_nat ROB_SIZE). intros m Hb. lia.
Qed.

Lemma ring_offset_pred (from x : nat) :
  (0 < ROB_SIZE)%nat -> ring_offset from x <> 0 ->
  ring_offset from (add_index_modulo x (-1) ROB_SIZE) = ring_offset from x - 1.
Proof.
  intros HN Hnz. unfold ring_offset, add_index_modulo in *.
  assert (HNz : 0 < Z.of_nat ROB_SIZE) by lia.
  pose proof (Z.mod_pos_bound (Z.of_nat x + -1) (Z.of_nat ROB_SIZE) HNz) as Hb.
  rewrite Z2Nat.id by lia.
  rewrite Zminus_mod_idemp_l.
  replace (Z.of_nat x + -1 - Z.of_nat from) with ((Z.of_nat x - Z.of_nat from) - 1) by lia.
  rewrite <- Zminus_mod_idemp_l.
  pose proof (Z.mod_pos_bound (Z.of_nat x - Z.of_nat from) (Z.of_nat ROB_SIZE) HNz).
  apply Z.mod_small. lia.
Qed.

(** Every slot from [start] up to [idx], in program order, is walked over. *)
Lemma walk_down_elem (fuel : nat) (idx start i : nat) :
  (0 < ROB_SIZE)%nat -> (idx < ROB_SIZE)%nat -> (i < ROB_SIZE)%nat ->
  ring_offset start i <= ring_offset start idx ->
  ring_offset start idx < Z.of_nat fuel ->
  i ∈ walk_down fuel idx start.
Proof.
  intros HN. revert idx. induction fuel as [| fuel IH]; intros idx Hidx Hi Hle Hfuel.
  - pose proof (ring_offset_range start idx HN). lia.
  - cbn [walk_down]. destruct (decide (i = idx)) as [-> | Hne]; [apply elem_of_cons; by left |].
    apply elem_of_cons; right.
    assert (Hlt : ring_offset start i < ring_offset start idx).
    { destruct (decide (ring_offset start i = ring_offset start idx)) as [Heq |]; [| lia].
      by apply ring_offset_inj in Heq. }
    pose proof (ring_offset_range start i HN).
    destruct (decide (idx = start)) as [-> |].
    + rewrite ring_offset_self in Hlt. lia.
    + apply IH; [by apply add_index_modulo_lt | done |
                 rewrite ring_offset_pred by lia; lia |
                 rewrite ring_offset_pred by lia; lia].
Qed.

End AnnulWalk.

(** *** A store that a later load has run ahead of *)

Section StoreAliasing.
Context `{HwDef} `{Externals}.

Lemma scan_for_same_ROB (p : ReorderBufferEntry -> bool) (step : Z) (fuel : nat)
    (c c' : Core) (idx : nat) :
  ROB c' = ROB c -> scan_for p step fuel c' idx = scan_for p step fuel c idx.
Proof.
  intros HR. revert idx. induction fuel as [| fuel IH]; intros idx; cbn [scan_for]; [done |].
  unfold ROB_at. by rewrite HR, IH.
Qed.

(** [annul] returns once the two searches for the macro-op boundaries end. *)
Lemma annul_returns (keep : bool) (self : nat) (c : Core) (somidx eomidx : nat) :
  scan_for (fun r => uop_som (rob_uop r)) (-1) ROB_SIZE c self = Some somidx ->
  scan_for (fun r => uop_eom (rob_uop r)) 1 ROB_SIZE c self = Some eomidx ->
  exists c' rip, ReorderBufferEntry_annul keep self c = Some (c', rip).
Proof.
  intros Hsom Heom. cbv beta delta [ReorderBufferEntry_annul]. rewrite Hsom, Heom.
  cbv beta iota delta [mbind option_bind].
  let_step startidx. clearbody startidx.
  destruct (decide _); by eexists _, _.
Qed.

Lemma head_filter_elem {A} (P : A -> Prop) `{forall x, Decision (P x)} (l : list A) (i : A) :
  i ∈ l -> P i -> exists x, head (filter P l) = Some x /\ x ∈ l /\ P x.
Proof.
  intros Hin HP.
  assert (Hf : i ∈ filter P l) by by apply list_elem_of_filter.
  destruct (filter P l) as [| x l'] eqn:Hl; [by apply elem_of_nil in Hf |].
  exists x. split; [done |].
  assert (Hx : x ∈ filter P l) by (rewrite Hl; apply elem_of_cons; by left).
  apply list_elem_of_filter in Hx. tauto.
Qed.

Lemma LSQ_at_alter_LSQ (f : LoadStoreQueueEntry -> LoadStoreQueueEntry) (i : nat) (c : Core) :
  (i < length (q_data (LSQ c)))%nat ->
  LSQ_at (alter_LSQ f i c) i = f (LSQ_at c i).
Proof.
  intros Hi. unfold LSQ_at, alter_LSQ. cbn.
  rewrite !list_lookup_total_alt, list_lookup_alter, decide_True by done.
  destruct (q_data (LSQ c) !! i) eqn:Hl; [done |].
  apply lookup_ge_None in Hl. lia.
Qed.

(** [issuestore] once the address has raised no exception. *)
Lemma issuestore_resolved (self : nat) (ra rb rc : Z) (rcready : bool) (c : Core) :
  let uop := rob_uop (ROB_at c self) in
  store_exception uop ra rb = 0 ->
  ReorderBufferEntry_issuestore self ra rb rc rcready c
  = store_resolved self (store_address uop ra rb).1.1 rc rcready
      (store_resolve_address self (store_address uop ra rb).1.2 c).
Proof.
  cbv zeta. intros Hexc. unfold ReorderBufferEntry_issuestore. cbv zeta.
  destruct (store_address _ ra rb) as [[origaddr addr] annul].
  rewrite Hexc. by rewrite decide_False by (intros Hne; by apply Hne).
Qed.

(** What resolving the address leaves alone. *)
Lemma store_resolve_address_frame (self : nat) (addr : Z) (c : Core) :
  let c1 := store_resolve_address self addr c in
  ROB c1 = ROB c /\ lsap c1 = lsap c
  /\ q_tail (LSQ c1) = q_tail (LSQ c)
  /\ length (q_data (LSQ c1)) = length (q_data (LSQ c))
  /\ (forall j, lsq_rob (LSQ_at c1 j) = lsq_rob (LSQ_at c j)).
Proof.
  cbv zeta. unfold store_resolve_address. cbv zeta.
  repeat match goal with |- _ /\ _ => split end; try reflexivity.
  - cbn. apply length_alter.
  - intros j. unfold LSQ_at. cbn. by apply (lookup_total_alter_same lsq_rob).
Qed.

(** The core [annul] is called on: the store's LSQ entry marked, the rip of the
    load in the alias predictor. *)
Lemma store_mark_frame (state ldbuf : nat) (exception : Z) (c : Core) :
  let m0 := store_mark_invalid state exception c in
  let m := set_lsap (lsap_select (lsq_rob_rip ldbuf m0) (lsap m0)) m0 in
  ROB m = ROB c
  /\ lsap m
     = lsap_select (uop_rip (rob_uop (ROB_at c (default 0%nat (lsq_rob (LSQ_at c ldbuf))))))
         (lsap c)
  /\ ((state < length (q_data (LSQ c)))%nat ->
      LSQ_at m state
      = set_lsq_datavalid true (set_lsq_data exception (set_lsq_invalid true (LSQ_at c state)))).
Proof.
  cbv zeta. unfold store_mark_invalid.
  repeat match goal with |- _ /\ _ => split end; try reflexivity.
  - cbn [lsap set_lsap]. unfold lsq_rob_rip, alter_LSQ, LSQ_at. cbn.
    by rewrite (lookup_total_alter_same lsq_rob).
  - intros Hlt. change (LSQ_at (set_lsap ?x ?y) state) with (LSQ_at y state).
    by apply LSQ_at_alter_LSQ.
Qed.

(** [store_aliased] with its steps named. *)
Lemma store_aliased_steps (self ldbuf : nat) (c : Core) :
  store_aliased self ldbuf c
  = let state := rob_lsq (ROB_at c self) in
    let m0 := store_mark_invalid state EXCEPTION_LoadStoreAliasing c in
    let m := set_lsap (lsap_select (lsq_rob_rip ldbuf m0) (lsap m0)) m0 in
    '(ca, _) ← annul_after_and_including self m;
    Some (bump "store_issue_ordering" 1 (reset_fetch_unit (uop_rip (rob_uop (ROB_at c self))) ca),
          ISSUE_MISSPECULATED).
Proof. reflexivity. Qed.

(** C1. A store whose address is resolved without an exception and whose
    operands are ready, while a load later in the LSQ has a valid address in the
    same 8 byte block. The ROB is well formed: the store lies between the SOM
    uop of its macro-op and the tail, and the uops of the LSQ entries after the
    store lie after the store in the ROB. Then [issuestore] marks the store's
    LSQ entry invalid with [EXCEPTION_LoadStoreAliasing] as its data, puts the
    rip of the first such load at the front of the load/store alias predictor,
    annuls from the SOM uop of the store up to the tail - so the store, the load
    and every ROB after the store end up reset and on the free list -, restarts
    fetch at the rip of the store with an empty fetch queue, and returns
    [ISSUE_MISSPECULATED]. *)
Theorem store_aliasing_annuls (self : nat) (ra rb rc : Z) (rcready : bool) (c : Core)
    (i somidx eomidx : nat) :
  let uop := rob_uop (ROB_at c self) in
  let state := rob_lsq (ROB_at c self) in
  let resolved := store_resolve_address self (store_address uop ra rb).1.2 c in
  let tail := q_tail (ROB c) in
  (0 < ROB_SIZE)%nat -> length (q_data (ROB c)) = ROB_SIZE ->
  (self < ROB_SIZE)%nat -> (tail < ROB_SIZE)%nat ->
  (state < length (q_data (LSQ c)))%nat ->
  store_exception uop ra rb = 0 ->
  store_ready (find_sfra state resolved) rcready resolved = true ->
  i ∈ foreach_forward_after LSQ_SIZE (LSQ c) state ->
  lsq_store (LSQ_at resolved i) = false ->
  lsq_addrvalid (LSQ_at resolved i) = true ->
  lsq_physaddr (LSQ_at resolved i) = lsq_physaddr (LSQ_at resolved state) ->
  scan_for (fun r => uop_som (rob_uop r)) (-1) ROB_SIZE c self = Some somidx ->
  scan_for (fun r => uop_eom (rob_uop r)) 1 ROB_SIZE c self = Some eomidx ->
  ring_offset somidx self < ring_offset somidx tail ->
  (forall j, j ∈ foreach_forward_after LSQ_SIZE (LSQ c) state ->
     exists r, lsq_rob (LSQ_at c j) = Some r /\ (r < ROB_SIZE)%nat
               /\ ring_offset somidx self < ring_offset somidx r < ring_offset somidx tail) ->
  exists ldbuf ldrob marked annulled_core recoveryrip c',
    find_aliased_load state resolved = Some ldbuf
    /\ lsq_rob (LSQ_at c ldbuf) = Some ldrob
    /\ lsq_invalid (LSQ_at marked state) = true
    /\ lsq_data (LSQ_at marked state) = EXCEPTION_LoadStoreAliasing
    /\ lsq_datavalid (LSQ_at marked state) = true
    /\ annul_after_and_including self marked = Some (annulled_core, recoveryrip)
    /\ ReorderBufferEntry_issuestore self ra rb rc rcready c = Some (c', ISSUE_MISSPECULATED)
    /\ c' = bump "store_issue_ordering" 1 (reset_fetch_unit (uop_rip uop) annulled_core)
    /\ lsap c' = lsap_select (uop_rip (rob_uop (ROB_at c ldrob))) (lsap c)
    /\ head (lsap c') = Some (uop_rip (rob_uop (ROB_at c ldrob)))
    /\ (forall k, (k < ROB_SIZE)%nat -> ring_offset somidx k < ring_offset somidx tail ->
          rob_current_state_list (ROB_at c' k) = Some rob_free_list
          /\ rob_entry_valid (ROB_at c' k) = false)
    /\ ring_offset somidx self < ring_offset somidx ldrob < ring_offset somidx tail
    /\ (ldrob < ROB_SIZE)%nat
    /\ fetchrip c' = uop_rip uop /\ fetchq c' = [].
Proof.
  intros uop state resolved tail HN Hlen Hself Htail Hstate Hexc Hready Hi Hld Hav Hpa
    Hsom Heom Hoff Horder.
  pose proof (issuestore_resolved self ra rb rc rcready c Hexc) as Hissue.
  destruct (store_resolve_address_frame self (store_address uop ra rb).1.2 c)
    as (HR1 & HL1 & HT1 & Hlen1 & Hrob1).
  fold uop resolved in Hissue, HR1, HL1, HT1, Hlen1, Hrob1. clearbody resolved.
  assert (Hstate1 : rob_lsq (ROB_at resolved self) = state) by (unfold ROB_at; by rewrite HR1).
  assert (Huop1 : rob_uop (ROB_at resolved self) = uop) by (unfold ROB_at; by rewrite HR1).
  assert (Hrange : foreach_forward_after LSQ_SIZE (LSQ resolved) state
                   = foreach_forward_after LSQ_SIZE (LSQ c) state)
    by (unfold foreach_forward_after; by rewrite HT1).
  (* the load the scan finds *)
  destruct (head_filter_elem
              (fun i => lsq_store (LSQ_at resolved i) = false
                        /\ lsq_addrvalid (LSQ_at resolved i) = true
                        /\ lsq_physaddr (LSQ_at resolved i) = lsq_physaddr (LSQ_at resolved state))
              (foreach_forward_after LSQ_SIZE (LSQ c) state) i Hi ltac:(done))
    as (ldbuf & Hhead & Hldin & _).
  destruct (Horder ldbuf Hldin) as (ldrob & Hldrob & Hldlt & Hldoff).
  assert (Hfind : find_aliased_load state resolved = Some ldbuf)
    by (unfold find_aliased_load; by rewrite Hrange).
  (* the core the annulment is called on *)
  destruct (store_mark_frame state ldbuf EXCEPTION_LoadStoreAliasing resolved)
    as (HROB & Hlsapm & Hmarked).
  specialize (Hmarked ltac:(lia)).
  unfold store_resolved in Hissue. cbv zeta in Hissue.
  rewrite Hstate1, Hready in Hissue. cbn [negb] in Hissue.
  rewrite Hfind, store_aliased_steps in Hissue. cbv zeta in Hissue.
  rewrite Hstate1, Huop1 in Hissue.
  set (marked := set_lsap _ (store_mark_invalid state EXCEPTION_LoadStoreAliasing resolved))
    in HROB, Hlsapm, Hmarked, Hissue.
  clearbody marked.
  assert (HROBc : ROB marked = ROB c) by congruence.
  destruct (annul_returns false self marked somidx eomidx) as (ca & rr & Hannul).
  { by rewrite (scan_for_same_ROB _ _ _ c marked _ HROBc). }
  { by rewrite (scan_for_same_ROB _ _ _ c marked _ HROBc). }
  unfold annul_after_and_including in Hissue. rewrite Hannul in Hissue.
  cbn [mbind option_bind] in Hissue.
  exists ldbuf, ldrob, marked, ca, rr.
  exists (bump "store_issue_ordering" 1 (reset_fetch_unit (uop_rip uop) ca)).
  (* the entries the annulment walks over *)
  assert (Hne : somidx <> q_tail (ROB marked)).
  { rewrite HROBc. fold tail. intros <-. rewrite ring_offset_self in Hoff.
    pose proof (ring_offset_range somidx self HN). lia. }
  destruct (annul_entries false self marked ca rr somidx eomidx) as (_ & Hfreed & _);
    [by rewrite (scan_for_same_ROB _ _ _ c marked _ HROBc)
    | by rewrite (scan_for_same_ROB _ _ _ c marked _ HROBc) | exact Hne | exact Hannul |].
  rewrite HROBc in Hfreed. fold tail in Hfreed.
  assert (Hall : forall k, (k < ROB_SIZE)%nat ->
            ring_offset somidx k < ring_offset somidx tail ->
            rob_current_state_list (ROB_at ca k) = Some rob_free_list
            /\ rob_entry_valid (ROB_at ca k) = false).
  { intros k Hk Hkoff. apply Hfreed; [| lia].
    pose proof (ring_offset_range somidx k HN).
    apply walk_down_elem; [done | by apply add_index_modulo_lt | done | |].
    - rewrite ring_offset_pred by lia. lia.
    - rewrite ring_offset_pred by lia.
      pose proof (ring_offset_range somidx tail HN). lia. }
  (* the alias predictor *)
  assert (Hlsap : lsap ca = lsap_select (uop_rip (rob_uop (ROB_at c ldrob))) (lsap c)).
  { rewrite (view_annul lsap ltac:(done) ltac:(done) ltac:(done) ltac:(done) ltac:(done)
               ltac:(done) false self marked ca rr Hannul).
    rewrite Hlsapm, HL1, Hrob1, Hldrob. unfold ROB_at. by rewrite HR1. }
  repeat match goal with |- _ /\ _ => split end.
  - exact Hfind.
  - exact Hldrob.
  - by rewrite Hmarked.
  - by rewrite Hmarked.
  - by rewrite Hmarked.
  - exact Hannul.
  - exact Hissue.
  - reflexivity.
  - exact Hlsap.
  - change (lsap (bump "store_issue_ordering" 1 (reset_fetch_unit (uop_rip uop) ca)))
      with (lsap ca). by rewrite Hlsap.
  - exact Hall.
  - lia.
  - lia.
  - exact Hldlt.
  - reflexivity.
  - reflexivity.
Qed.

End StoreAliasing.

Section StoreAliasingExample.
#[local] Existing Instance example_hw.
#[local] Existing Instance mapped_externals.

(** The witness: on the example machine with every page mapped, the store at
    4096 in ROB slot 0 writes the block at address 4096, which the load at 4100
    in ROB slot 1 has already read. *)
Lemma store_aliasing_annuls_witness :
  exists c',
    ReorderBufferEntry_issuestore 0 4096 0 7 true aliasing_core = Some (c', ISSUE_MISSPECULATED)
    /\ head (lsap c') = Some 4100
    /\ rob_entry_valid (ROB_at c' 0) = false /\ rob_entry_valid (ROB_at c' 1) = false
    /\ fetchrip c' = 4096 /\ fetchq c' = [].
Proof.
  destruct (store_aliasing_annuls 0 4096 0 7 true aliasing_core 1 0 0)
    as (ldbuf & ldrob & marked & ca & rr & c' & Hfind & Hldrob & _ & _ & _ & _ & Hissue & _
        & _ & Hhead & Hfreed & _ & _ & Hfetch & Hq).
  - vm_compute. lia.
  - reflexivity.
  - vm_compute. lia.
  - vm_compute. lia.
  - vm_compute. lia.
  - reflexivity.
  - reflexivity.
  - vm_compute. apply list_elem_of_singleton. reflexivity.
  - reflexivity.
  - reflexivity.
  - reflexivity.
  - reflexivity.
  - reflexivity.
  - vm_compute. reflexivity.
  - intros j Hj. vm_compute in Hj. apply list_elem_of_singleton in Hj as ->.
    exists 1%nat. vm_compute. repeat split; (lia || discriminate).
  - vm_compute in Hfind. injection Hfind as <-.
    vm_compute in Hldrob. injection Hldrob as <-.
    exists c'. split; [exact Hissue |]. split; [exact Hhead |].
    split; [apply (Hfreed 0%nat); vm_compute; (lia || reflexivity) |].
    split; [apply (Hfreed 1%nat); vm_compute; (lia || reflexivity) |].
    split; [exact Hfetch | exact Hq].
Defined.

End StoreAliasingExample.
(* --------------------------------------------------------------------- *)
(** ** The option parser beyond boolean options *)
(* --------------------------------------------------------------------- *)

Section ConfigFacts.
Import Config ConfigMore.

Variable strtoll : string -> Z * string.

Lemma apply_option_frame (e : CommandLineOptions) (oname : string) (next : option string)
    (g : Globals) :
  (forall v, variable e <> Some (W64Ref v) -> w64 (apply_option strtoll e oname next g).1.1 v = w64 g v)
  /\ (forall s, variable e <> Some (StrRef s) -> chars (apply_option strtoll e oname next g).1.1 s = chars g s).
Proof.
  unfold apply_option.
  destruct (type e), next as [p |], (variable e) as [[x | x] |];
    repeat match goal with
           | |- context [if ?b then _ else _] => destruct b
           | |- context [let '(_, _) := ?x in _] => destruct x
           end; cbn; split; intros v Hv; try reflexivity;
    unfold set_w64, set_chars; cbn; destruct (decide _); congruence.
Qed.

Lemma parse_loop_frame (n : nat) (argv : list string) (g : Globals) :
  (length argv <= n)%nat ->
  (forall v, (forall a e, a ∈ argv -> option_of_arg a = Some e -> variable e <> Some (W64Ref v)) ->
             w64 (parse_loop strtoll argv g).1 v = w64 g v)
  /\ (forall s, (forall a e, a ∈ argv -> option_of_arg a = Some e -> variable e <> Some (StrRef s)) ->
                chars (parse_loop strtoll argv g).1 s = chars g s).
Proof.
  revert argv g. induction n as [| n IH]; intros argv g Hlen.
  - destruct argv; [by split | cbn in Hlen; lia].
  - destruct argv as [| a rest]; [by split |]. cbn [length] in Hlen.
    cbn [parse_loop].
    destruct a as [| ch a']; [by split |].
    destruct (Ascii.ascii_dec ch "-"%char) as [-> | Hch].
    2: { destruct ch as [[] [] [] [] [] [] [] []]; by split. }
    destruct a' as [| c o']; [by split |].
    destruct (find_option (String c o') options) as [e |] eqn:Hfind.
    + pose proof (apply_option_frame e (String "-" (String c o')) (head rest) g) as [Hw Hs].
      destruct (apply_option _ e _ _ g) as [[g' w] consumed]. cbn [fst] in Hw, Hs.
      assert (Hrest : forall l, (length l <= n)%nat -> (forall x, x ∈ l -> x ∈ rest) ->
                (forall v, (forall a e, a ∈ String "-" (String c o') :: rest ->
                                        option_of_arg a = Some e -> variable e <> Some (W64Ref v)) ->
                           w64 (parse_loop strtoll l g').1 v = w64 g v)
                /\ (forall s, (forall a e, a ∈ String "-" (String c o') :: rest ->
                                           option_of_arg a = Some e -> variable e <> Some (StrRef s)) ->
                              chars (parse_loop strtoll l g').1 s = chars g s)).
      { intros l Hl Hsub. destruct (IH l g' Hl) as [IHw IHs]. split.
        - intros v Hv. rewrite IHw.
          + apply Hw. apply (Hv (String "-" (String c o')) e); [by left | exact Hfind].
          + intros a e' Ha. apply Hv. right. by apply Hsub.
        - intros s Hv. rewrite IHs.
          + apply Hs. apply (Hv (String "-" (String c o')) e); [by left | exact Hfind].
          + intros a e' Ha. apply Hv. right. by apply Hsub. }
      destruct consumed, rest as [| r rest'].
      * destruct (Hrest [] ltac:(cbn; lia) ltac:(done)) as [H1 H2].
        destruct (parse_loop strtoll [] g') as [g'' w'] eqn:Hp. cbn [fst] in *. by split.
      * destruct (Hrest rest' ltac:(cbn in Hlen; lia) ltac:(intros; by right)) as [H1 H2].
        destruct (parse_loop strtoll rest' g') as [g'' w']. cbn [fst] in *. by split.
      * destruct (Hrest [] ltac:(cbn; lia) ltac:(done)) as [H1 H2].
        destruct (parse_loop strtoll [] g') as [g'' w'] eqn:Hp. cbn [fst] in *. by split.
      * destruct (Hrest (r :: rest') ltac:(cbn in *; lia) ltac:(done)) as [H1 H2].
        destruct (parse_loop strtoll (r :: rest') g') as [g'' w']. cbn [fst] in *. by split.
    + destruct rest as [| r rest']; [by split |].
      destruct (IH rest' g ltac:(cbn in Hlen; lia)) as [IHw IHs].
      destruct (parse_loop strtoll rest' g) as [g'' w']. cbn [fst] in *. split.
      * intros v Hv. apply IHw. intros a e Ha. apply Hv. right. by right.
      * intros s Hv. apply IHs. intros a e Ha. apply Hv. right. by right.
Qed.

(** X1. [parse_options] writes only the variables of the options its
    arguments name: a numeric or boolean global, and likewise a string global,
    that no argument's option points at has the value it had before, whatever
    else the arguments hold (values, unknown options, trailing arguments). *)
Theorem parse_options_writes_named_variables_only (argv : list string) (g : Globals) :
  (forall v,
     (forall a e, a ∈ argv -> option_of_arg a = Some e -> variable e <> Some (W64Ref v)) ->
     w64 (parse_options strtoll argv g).1 v = w64 g v)
  /\ (forall s,
        (forall a e, a ∈ argv -> option_of_arg a = Some e -> variable e <> Some (StrRef s)) ->
        chars (parse_options strtoll argv g).1 s = chars g s).
Proof. unfold parse_options. by apply (parse_loop_frame (length argv)). Qed.

(** X2. An option that is not in the table costs the argument after it: the
    warning names that next argument, which is then skipped without being
    looked at, so that an option given right after a misspelt one has no
    effect. Parsing goes on with the argument after the skipped one. *)
Theorem invalid_option_skips_next_argument (c : ascii) (o' : string) (a : string)
    (rest : list string) (g : Globals) :
  find_option (String c o') options = None ->
  parse_options strtoll (String "-" (String c o') :: a :: rest) g
  = ((parse_options strtoll rest g).1, InvalidOption (Some a) :: (parse_options strtoll rest g).2).
Proof.
  intros Hfind. unfold parse_options. cbn [parse_loop]. rewrite Hfind. cbn [head].
  by destruct (parse_loop strtoll rest g).
Qed.

Lemma string_last_split (p : string) (c : ascii) :
  String.get (String.length p - 1) p = Some c ->
  p = String.substring 0 (String.length p - 1) p +:+ String c EmptyString.
Proof.
  assert (Hgen : forall (q : string) (n : nat), String.length q = S n ->
            String.get n q = Some c -> q = String.substring 0 n q +:+ String c EmptyString).
  { induction q as [| a q IH]; intros n Hn Hget; [discriminate |].
    cbn [String.length] in Hn. destruct n as [| n].
    - destruct q; [| discriminate]. cbn in Hget. injection Hget as ->. reflexivity.
    - cbn [String.get String.substring] in *.
      change (String a q = String a (String.substring 0 n q +:+ String c EmptyString)). f_equal.
      apply IH; [lia | exact Hget]. }
  intros Hget. destruct p as [| a p]; [discriminate |].
  cbn [String.length] in *. replace (S (String.length p) - 1)%nat with (String.length p) in * by lia.
  by apply Hgen.
Qed.

Lemma string_snoc (body : string) (c : ascii) :
  String.length (body +:+ String c EmptyString) = S (String.length body)
  /\ String.get (String.length body) (body +:+ String c EmptyString) = Some c
  /\ String.substring 0 (String.length body) (body +:+ String c EmptyString) = body.
Proof.
  induction body as [| a body (IH1 & IH2 & IH3)]; [done |].
  change (String a body +:+ String c EmptyString) with (String a (body +:+ String c EmptyString)).
  cbn [String.length String.get String.substring]. by rewrite IH1, IH2, IH3.
Qed.

(** X3. The suffix of a numeric argument. A text of one character or more
    followed by k, m, g or t (in either case) is split into the text and the
    multiplier 10^3, 10^6, 10^9 or 10^12. Conversely [split_suffix] either
    leaves the argument alone with multiplier 1, or has taken off such a letter
    from an argument of at least two characters: a lone letter is no suffix. *)
Theorem split_suffix_cases (p : string) :
  (forall body c m, body <> EmptyString -> (c, m) ∈ suffix_table ->
     split_suffix (body +:+ String c EmptyString) = (m, body))
  /\ (split_suffix p = (1, p)
      \/ exists (c : ascii) (m : Z),
           p = (split_suffix p).2 +:+ String c EmptyString
           /\ (split_suffix p).2 <> EmptyString
           /\ (split_suffix p).1 = m
           /\ (c, m) ∈ suffix_table).
Proof.
  split.
  - intros body c m Hne Hin. unfold split_suffix. cbv zeta.
    destruct (string_snoc body c) as (Hl & Hg & Hs).
    rewrite Hl. replace (S (String.length body) - 1)%nat with (String.length body) by lia.
    rewrite Hg, Hs.
    rewrite decide_True by (destruct body; [done | cbn; lia]).
    unfold suffix_table in Hin. rewrite !elem_of_cons in Hin.
    destruct Hin as [[= -> ->] | [[= -> ->] | [[= -> ->] | [[= -> ->] | [[= -> ->]
                   | [[= -> ->] | [[= -> ->] | [[= -> ->] | Hin]]]]]]]];
      [reflexivity .. | by apply elem_of_nil in Hin].
  - unfold split_suffix. cbv zeta.
    destruct (decide (1 < String.length p)%nat) as [Hlen |]; [| by left].
    destruct (String.get (String.length p - 1) p) as [c |] eqn:Hget; [| by left].
    pose proof (string_last_split p c Hget) as Hsplit.
    assert (Hne : String.substring 0 (String.length p - 1) p <> EmptyString).
    { intros Hempty. rewrite Hempty in Hsplit. change (p = String c EmptyString) in Hsplit.
      rewrite Hsplit in Hlen. cbn in Hlen. lia. }
    destruct c as [[] [] [] [] [] [] [] []]; try (by left);
      right; eexists _, _; cbn [fst snd];
      (split; [exact Hsplit |]); (split; [exact Hne |]); (split; [reflexivity |]);
      unfold suffix_table; rewrite !elem_of_cons; tauto.
Qed.

End ConfigFacts.

(** The witness: [-bogus] is not in the table; the [-quiet] after it is
    skipped and the banner stays on. *)
Lemma invalid_option_skips_next_argument_witness :
  Config.parse_options (fun s => (0, s)) ["-bogus"; "-quiet"] (Config.initial_globals 0)
  = ((Config.parse_options (fun s => (0, s)) [] (Config.initial_globals 0)).1,
     [Config.InvalidOption (Some "-quiet")]).
Proof.
  apply (invalid_option_skips_next_argument (fun s => (0, s)) "b" "ogus" "-quiet" []
           (Config.initial_globals 0)).
  reflexivity.
Defined.

(* --------------------------------------------------------------------- *)
(** ** The register file *)
(* --------------------------------------------------------------------- *)

Section RegisterFileFacts.
Context `{HwDef}.

Lemma physreg_eta (r : PhysicalRegister) :
  set_physreg_refcount (physreg_refcount r) r = r.
Proof. by destruct r. Qed.

Lemma alter_physreg_id (f : PhysicalRegister -> PhysicalRegister) (i : nat) (c : Core) :
  f (physreg_at c i) = physreg_at c i -> alter_physreg f i c = c.
Proof.
  intros Hf. unfold alter_physreg, physreg_at in *.
  assert (Hl : alter f i (physregs c) = physregs c).
  { apply list_eq. intros j. rewrite list_lookup_alter.
    destruct (decide (i = j)) as [<- |]; [| done].
    rewrite list_lookup_total_alt in Hf.
    destruct (physregs c !! i) as [r |]; cbn in *; congruence. }
  rewrite Hl. by destruct c.
Qed.

(** X4. Reference counts round trip. On a register whose counter leaves room
    in its signed 16 bit field, [addref] adds one and [unref] takes one off, and
    each undoes the other: the core is the same afterwards. Nothing stops
    [unref] at zero: its assertion is compiled out, since [ENABLE_CHECKS] is
    not defined (lines 19-26). *)
Theorem addref_unref_round_trip (r : nat) (c : Core) :
  - 2 ^ 15 < physreg_refcount (physreg_at c r) < 2 ^ 15 - 1 ->
  PhysicalRegister.unref r (PhysicalRegister.addref r c) = c
  /\ PhysicalRegister.addref r (PhysicalRegister.unref r c) = c
  /\ (r <> PHYS_REG_NULL -> (r < length (physregs c))%nat ->
      physreg_refcount (physreg_at (PhysicalRegister.addref r c) r)
      = physreg_refcount (physreg_at c r) + 1
      /\ physreg_refcount (physreg_at (PhysicalRegister.unref r c) r)
         = physreg_refcount (physreg_at c r) - 1).
Proof.
  intros Hrc. unfold PhysicalRegister.addref, PhysicalRegister.unref.
  destruct (PhysicalRegister.nonnull r) eqn:Hnn.
  - assert (Hcomp : forall (f g : PhysicalRegister -> PhysicalRegister),
              alter_physreg f r (alter_physreg g r c) = alter_physreg (f ∘ g) r c).
    { intros f g. unfold alter_physreg. cbn. by rewrite list_alter_alter_eq. }
    rewrite !Hcomp. split; [| split; [| intros Hne Hlt; split]].
    + apply alter_physreg_id. cbn.
      rewrite (W16s_small (_ + 1)) by lia. rewrite W16s_small by lia.
      replace (physreg_refcount (physreg_at c r) + 1 - 1)
        with (physreg_refcount (physreg_at c r)) by lia.
      by destruct (physreg_at c r).
    + apply alter_physreg_id. cbn.
      rewrite (W16s_small (_ - 1)) by lia. rewrite W16s_small by lia.
      replace (physreg_refcount (physreg_at c r) - 1 + 1)
        with (physreg_refcount (physreg_at c r)) by lia.
      by destruct (physreg_at c r).
    + rewrite physreg_at_alter_physreg by done. cbn. apply W16s_small. lia.
    + rewrite physreg_at_alter_physreg by done. cbn. apply W16s_small. lia.
  - apply bool_decide_eq_false in Hnn.
    split; [reflexivity | split; [reflexivity |]]. intros Hne. by destruct Hnn.
Qed.


(** What a loop over distinct registers, each step rewriting its own register,
    leaves in the file. *)
Lemma physregs_foldl_alter (g : PhysicalRegister -> PhysicalRegister)
    (step : nat -> Core -> Core) :
  (forall k c, physregs (step k c) = alter g k (physregs c)) ->
  forall (l : list nat) (c : Core) (i : nat), NoDup l ->
    physregs (foldl (fun c k => step k c) c l) !! i
    = (if decide (i ∈ l) then g else id) <$> (physregs c !! i).
Proof.
  intros Hstep l. induction l as [| k l IH]; intros c i Hnd; cbn [foldl].
  - rewrite decide_False by (apply not_elem_of_nil). by destruct (physregs c !! i).
  - apply NoDup_cons in Hnd as [Hk Hnd]. rewrite IH by done. rewrite Hstep.
    rewrite list_lookup_alter.
    destruct (decide (k = i)) as [-> | Hne].
    + rewrite decide_False by done. rewrite decide_True by (apply elem_of_cons; by left).
      by destruct (physregs c !! i).
    + destruct (decide (i ∈ l)) as [Hin | Hni].
      * rewrite decide_True by (apply elem_of_cons; by right). done.
      * rewrite decide_False; [done |]. intros [-> | Hin]%elem_of_cons; done.
Qed.

Lemma physregs_reset (k : nat) (c : Core) :
  physregs (PhysicalRegister.reset k c)
  = alter (fun r => set_physreg_all_consumers_sourced_from_bypass true
                      (set_physreg_refcount 0 (set_physreg_rob 0%nat
                        (set_physreg_current_state_list (Some physreg_free_list) r))))
      k (physregs c).
Proof.
  unfold PhysicalRegister.reset, PhysicalRegister.free, PhysicalRegister.changestate,
    alter_physreg. cbn. rewrite !list_alter_alter_eq.
  apply list_alter_ext; [| done]. intros r _. by destruct r.
Qed.

Lemma physregs_commit (k : nat) (c : Core) :
  physregs (PhysicalRegister.commit k c)
  = alter (set_physreg_current_state_list (Some physreg_arch_list)) k (physregs c).
Proof. reflexivity. Qed.

(** The register [i] after [PhysicalRegisterFile::reset()]. *)
Lemma physregs_PhysicalRegisterFile_reset (c : Core) (i : nat) (r : PhysicalRegister) :
  (i < PHYS_REG_FILE_SIZE)%nat -> physregs c !! i = Some r ->
  physregs (PhysicalRegisterFile_reset c) !! i
  = Some ((if decide (PHYS_REG_NULL = i)
           then set_physreg_data 0 ∘ set_physreg_current_state_list (Some physreg_arch_list)
           else id)
          ((if decide (PHYS_REG_ARCH_BASE <= i)%nat
            then set_physreg_current_state_list (Some physreg_arch_list) else id)
             (set_physreg_all_consumers_sourced_from_bypass true
               (set_physreg_refcount 0 (set_physreg_rob 0%nat
                 (set_physreg_current_state_list (Some physreg_free_list) r)))))).
Proof.
  intros Hi Hr.
  assert (Hmid : physregs (foldl (fun c k => PhysicalRegister.commit k c)
                   (foldl (fun c k => PhysicalRegister.reset k c) c (seq 0 PHYS_REG_FILE_SIZE))
                   (seq PHYS_REG_ARCH_BASE (PHYS_REG_FILE_SIZE - PHYS_REG_ARCH_BASE))) !! i
                 = Some ((if decide (PHYS_REG_ARCH_BASE <= i)%nat
                          then set_physreg_current_state_list (Some physreg_arch_list) else id)
                           (set_physreg_all_consumers_sourced_from_bypass true
                             (set_physreg_refcount 0 (set_physreg_rob 0%nat
                               (set_physreg_current_state_list (Some physreg_free_list) r)))))).
  { rewrite (physregs_foldl_alter _ (fun k c => PhysicalRegister.commit k c) physregs_commit)
      by apply NoDup_seq.
    rewrite (physregs_foldl_alter _ (fun k c => PhysicalRegister.reset k c) physregs_reset)
      by apply NoDup_seq.
    rewrite Hr, (decide_True (P := i ∈ seq 0 PHYS_REG_FILE_SIZE)) by (apply elem_of_seq; lia).
    cbn [fmap option_fmap option_map].
    destruct (decide (i ∈ _)) as [Hin | Hni]; [apply elem_of_seq in Hin | rewrite elem_of_seq in Hni].
    - by rewrite decide_True by lia.
    - by rewrite decide_False by lia. }
  unfold PhysicalRegisterFile_reset. cbv zeta.
  unfold PhysicalRegister.changestate at 1. unfold alter_physreg at 1 2.
  cbn [physregs set_physregs]. rewrite list_alter_alter_eq, list_lookup_alter.
  destruct (decide (PHYS_REG_NULL = i)) as [Heq | Hne]; [rewrite Heq |]; by rewrite Hmid.
Qed.

Lemma PhysicalRegisterFile_reset_refcount (c : Core) (i : nat) :
  (i < PHYS_REG_FILE_SIZE)%nat -> (i < length (physregs c))%nat ->
  physreg_refcount (physreg_at (PhysicalRegisterFile_reset c) i) = 0.
Proof.
  intros Hi Hlen. destruct (lookup_lt_is_Some_2 (physregs c) i Hlen) as [r Hr].
  unfold physreg_at.
  rewrite list_lookup_total_alt, (physregs_PhysicalRegisterFile_reset c i r Hi Hr).
  cbn [default]. by destruct (decide (PHYS_REG_NULL = i)), (decide (PHYS_REG_ARCH_BASE <= i)%nat).
Qed.

(** X5. [PhysicalRegisterFile::reset()] keeps the value and the flags of every
    register (the null register gets the value 0), clears its reference count
    and its ROB, and leaves the architectural registers, from
    [PHYS_REG_ARCH_BASE] up, and the null register on the arch list and every
    other register on the free list. *)
Theorem PhysicalRegisterFile_reset_keeps_values (c : Core) (i : nat) :
  (i < PHYS_REG_FILE_SIZE)%nat -> (i < length (physregs c))%nat ->
  physreg_data (physreg_at (PhysicalRegisterFile_reset c) i)
  = (if decide (i = PHYS_REG_NULL) then 0 else physreg_data (physreg_at c i))
  /\ physreg_flags (physreg_at (PhysicalRegisterFile_reset c) i) = physreg_flags (physreg_at c i)
  /\ physreg_archreg (physreg_at (PhysicalRegisterFile_reset c) i)
     = physreg_archreg (physreg_at c i)
  /\ physreg_refcount (physreg_at (PhysicalRegisterFile_reset c) i) = 0
  /\ physreg_rob (physreg_at (PhysicalRegisterFile_reset c) i) = 0%nat
  /\ physreg_all_consumers_sourced_from_bypass (physreg_at (PhysicalRegisterFile_reset c) i)
     = true
  /\ physreg_current_state_list (physreg_at (PhysicalRegisterFile_reset c) i)
     = Some (if decide (PHYS_REG_ARCH_BASE <= i \/ i = PHYS_REG_NULL)%nat
             then physreg_arch_list else physreg_free_list).
Proof.
  intros Hi Hlen.
  destruct (lookup_lt_is_Some_2 (physregs c) i Hlen) as [r Hr].
  unfold physreg_at.
  rewrite !list_lookup_total_alt, Hr, (physregs_PhysicalRegisterFile_reset c i r Hi Hr).
  cbn [default].
  destruct (decide (PHYS_REG_NULL = i)) as [Heq | Hne];
    destruct (decide (i = PHYS_REG_NULL)); try congruence;
    destruct (decide (PHYS_REG_ARCH_BASE <= i)%nat);
    cbn; repeat match goal with |- _ /\ _ => split end; try reflexivity.
  all: try (rewrite decide_True by tauto; reflexivity).
  all: try (rewrite decide_False by tauto; reflexivity).
Qed.

End RegisterFileFacts.

Section FlushFacts.
Context `{HwDef}.

Lemma physregs_length_foldl {A} (f : Core -> A -> Core) (l : list A) (c : Core) :
  (forall c a, length (physregs (f c a)) = length (physregs c)) ->
  length (physregs (foldl f c l)) = length (physregs c).
Proof.
  intros Hf. revert c. induction l as [| a l IH]; intros c; cbn; [done |].
  by rewrite IH, Hf.
Qed.

Lemma physregs_length_alter f i c :
  length (physregs (alter_physreg f i c)) = length (physregs c).
Proof. unfold alter_physreg. cbn. apply length_alter. Qed.

Lemma physregs_length_addref r c :
  length (physregs (PhysicalRegister.addref r c)) = length (physregs c).
Proof.
  unfold PhysicalRegister.addref. destruct (PhysicalRegister.nonnull r); [| done].
  apply physregs_length_alter.
Qed.

Lemma physregs_length_reset c :
  length (physregs (PhysicalRegisterFile_reset c)) = length (physregs c).
Proof.
  unfold PhysicalRegisterFile_reset. cbv zeta.
  rewrite physregs_length_alter.
  unfold PhysicalRegister.changestate at 1. rewrite physregs_length_alter.
  rewrite physregs_length_foldl
    by (intros; unfold PhysicalRegister.commit, PhysicalRegister.changestate;
        apply physregs_length_alter).
  apply physregs_length_foldl. intros c' a. rewrite physregs_reset. apply length_alter.
Qed.

(** Taking a reference for each register of [regs] adds to the count of [r] the
    number of times [regs] names it. *)
Lemma foldl_addref_refcount (regs : list nat) (r : nat) (c : Core) :
  r <> PHYS_REG_NULL -> (r < length (physregs c))%nat ->
  - 2 ^ 15 <= physreg_refcount (physreg_at c r) ->
  physreg_refcount (physreg_at c r) + Z.of_nat (length regs) < 2 ^ 15 ->
  physreg_refcount (physreg_at (foldl (fun c x => PhysicalRegister.addref x c) c regs) r)
  = physreg_refcount (physreg_at c r) + count_refs r regs.
Proof.
  intros Hnn. revert c. induction regs as [| x regs IH]; intros c Hlen Hlo Hhi; cbn [foldl].
  - rewrite count_refs_nil. lia.
  - cbn [length] in Hhi. rewrite count_refs_cons.
    destruct (decide (x = r)) as [-> | Hne].
    + assert (Hone : physreg_refcount (physreg_at (PhysicalRegister.addref r c) r)
                     = physreg_refcount (physreg_at c r) + 1).
      { unfold PhysicalRegister.addref, PhysicalRegister.nonnull.
        rewrite bool_decide_eq_true_2 by done.
        rewrite physreg_at_alter_physreg by done. cbn. apply W16s_small. lia. }
      rewrite IH; rewrite ?physregs_length_addref, ?Hone; lia.
    + rewrite IH; rewrite ?physregs_length_addref, ?addref_other by done; lia.
Qed.

Lemma foldl_addref_null (regs : list nat) (c : Core) :
  physreg_at (foldl (fun c x => PhysicalRegister.addref x c) c regs) PHYS_REG_NULL
  = physreg_at c PHYS_REG_NULL.
Proof.
  revert c. induction regs as [| x regs IH]; intros c; cbn [foldl]; [done |].
  rewrite IH. destruct (decide (x = PHYS_REG_NULL)) as [-> | Hne].
  - by rewrite addref_null.
  - by apply addref_other.
Qed.

Lemma specrrt_addref r c : specrrt (PhysicalRegister.addref r c) = specrrt c.
Proof. unfold PhysicalRegister.addref. by destruct (PhysicalRegister.nonnull r). Qed.
Lemma commitrrt_addref r c : commitrrt (PhysicalRegister.addref r c) = commitrrt c.
Proof. unfold PhysicalRegister.addref. by destruct (PhysicalRegister.nonnull r). Qed.

Lemma foldl_addspecref (l : list nat) (c : Core) :
  foldl (fun c i => PhysicalRegister.addspecref (specrrt_at c i) i c) c l
  = foldl (fun c x => PhysicalRegister.addref x c) c (specrrt_at c <$> l).
Proof.
  revert c. induction l as [| i l IH]; intros c; cbn [foldl fmap list_fmap]; [done |].
  rewrite IH. unfold PhysicalRegister.addspecref. f_equal.
  apply list_fmap_ext. intros _ j _. unfold specrrt_at. by rewrite specrrt_addref.
Qed.

Lemma foldl_addcommitref (l : list nat) (c : Core) :
  foldl (fun c i => PhysicalRegister.addcommitref (commitrrt_at c i) i c) c l
  = foldl (fun c x => PhysicalRegister.addref x c) c (commitrrt_at c <$> l).
Proof.
  revert c. induction l as [| i l IH]; intros c; cbn [foldl fmap list_fmap]; [done |].
  rewrite IH. unfold PhysicalRegister.addcommitref. f_equal.
  apply list_fmap_ext. intros _ j _. unfold commitrrt_at. by rewrite commitrrt_addref.
Qed.

Lemma foldl_frame {A B} (view : Core -> B) (f : Core -> A -> Core) (l : list A) (c : Core) :
  (forall c a, view (f c a) = view c) -> view (foldl f c l) = view c.
Proof.
  intros Hf. revert c. induction l as [| a l IH]; intros c; cbn; [done |].
  by rewrite IH, Hf.
Qed.

Lemma count_refs_bound r l : 0 <= count_refs r l <= Z.of_nat (length l).
Proof.
  unfold count_refs. pose proof (length_filter (fun x => x = r) l). lia.
Qed.

(** X6. After [flush_pipeline()] the reference counts are consistent: each
    register other than the null register is counted once for every slot of
    the two rename tables that names it and the null register not at all, so
    that [check_refcounts()] finds no error. *)
Theorem flush_pipeline_refcounts_consistent (realrip : Z) (c : Core) :
  length (physregs c) = PHYS_REG_FILE_SIZE ->
  check_refcounts (flush_pipeline realrip c) = false.
Proof.
  intros Hlen. unfold check_refcounts. cbv zeta.
  apply bool_decide_eq_false. rewrite Exists_exists. intros (i & Hi & Hbad).
  apply elem_of_seq in Hi. apply Hbad. clear Hbad.
  rewrite expected_refcounts_lookup by lia.
  unfold flush_pipeline. cbv zeta.
  rewrite foldl_addcommitref, foldl_addspecref.
  set (c0 := PhysicalRegisterFile_reset _).
  assert (Hlen0 : length (physregs c0) = PHYS_REG_FILE_SIZE).
  { subst c0. rewrite physregs_length_reset. cbn.
    rewrite (foldl_frame physregs) by reflexivity. exact Hlen. }
  assert (Hzero : forall j, (j < PHYS_REG_FILE_SIZE)%nat ->
             physreg_refcount (physreg_at c0 j) = 0).
  { intros j Hj. subst c0.
    apply PhysicalRegisterFile_reset_refcount; [done |]. cbn.
    rewrite (foldl_frame physregs) by reflexivity.
    change (j < length (physregs c))%nat. lia. }
  assert (HROB : foreach_forward ROB_SIZE (ROB c0) = []).
  { subst c0. rewrite ROB_PhysicalRegisterFile_reset. cbn.
    unfold foreach_forward.
    rewrite (foldl_frame (fun c => q_tail (ROB c))) by reflexivity.
    rewrite (foldl_frame (fun c => q_head (ROB c))) by reflexivity.
    cbn. destruct ROB_SIZE; [done |]. cbn. by rewrite decide_True. }
  clearbody c0.
  set (c1 := set_commitrrt _ _).
  assert (Hlen1 : length (physregs c1) = PHYS_REG_FILE_SIZE) by exact Hlen0.
  assert (Hzero1 : forall j, (j < PHYS_REG_FILE_SIZE)%nat ->
             physreg_refcount (physreg_at c1 j) = 0) by exact Hzero.
  assert (HROB1 : foreach_forward ROB_SIZE (ROB c1) = []) by exact HROB.
  assert (Hspec1 : specrrt c1 = RegisterRenameTable_reset) by reflexivity.
  assert (Hcommit1 : commitrrt c1 = RegisterRenameTable_reset) by reflexivity.
  clearbody c1. clear c0 Hlen0 Hzero HROB.
  set (spec := specrrt_at c1 <$> seq 0 TRANSREG_COUNT).
  set (c2 := foldl _ c1 spec).
  set (commit := commitrrt_at c2 <$> seq 0 TRANSREG_COUNT).
  set (c3 := foldl _ c2 commit).
  assert (Hs3 : specrrt_at c3 = specrrt_at c1).
  { unfold specrrt_at. subst c3 c2.
    by rewrite !(foldl_frame specrrt) by (intros; apply specrrt_addref). }
  assert (Hc3 : commitrrt_at c3 = commitrrt_at c2).
  { unfold commitrrt_at. subst c3.
    by rewrite !(foldl_frame commitrrt) by (intros; apply commitrrt_addref). }
  assert (HROB3 : ROB c3 = ROB c1).
  { subst c3 c2. by rewrite !(foldl_frame ROB) by (intros; apply ROB_addref). }
  assert (Hlen2 : length (physregs c2) = PHYS_REG_FILE_SIZE).
  { subst c2. rewrite physregs_length_foldl by (intros; apply physregs_length_addref). done. }
  assert (Hlenspec : length spec = TRANSREG_COUNT) by (subst spec; by rewrite length_fmap, length_seq).
  assert (Hlencommit : length commit = TRANSREG_COUNT)
    by (subst commit; by rewrite length_fmap, length_seq).
  assert (HT : Z.of_nat TRANSREG_COUNT < 2 ^ 14) by (vm_compute; reflexivity).
  destruct (decide (i = PHYS_REG_NULL)) as [-> | Hnn].
  - subst c3 c2. rewrite !foldl_addref_null. apply Hzero1. lia.
  - unfold reference_sum. rewrite HROB3, HROB1, Hs3, Hc3. cbn [mbind list_bind].
    rewrite count_refs_nil. fold spec commit.
    pose proof (count_refs_bound i spec) as Hb.
    assert (H2 : physreg_refcount (physreg_at c2 i) = count_refs i spec).
    { subst c2. rewrite foldl_addref_refcount; rewrite ?Hzero1; lia. }
    subst c3. rewrite foldl_addref_refcount; rewrite ?H2; lia.
Qed.

End FlushFacts.

Section ExternalStateFacts.
Context `{HwDef}.

Lemma foldl_alter_physreg_none
    (F : Core -> nat -> PhysicalRegister -> PhysicalRegister) (T : Core -> nat -> nat) :
  (forall c f k, F (alter_physreg f k c) = F c) ->
  (forall c f k, T (alter_physreg f k c) = T c) ->
  forall (l : list nat) (c : Core) (p : nat),
    (forall j, j ∈ l -> T c j <> p) ->
    physregs (foldl (fun c j => alter_physreg (F c j) (T c j) c) c l) !! p = physregs c !! p.
Proof.
  intros HF HT l. induction l as [| a l IH]; intros c p Hno; cbn [foldl]; [done |].
  rewrite IH.
  - unfold alter_physreg. cbn. apply list_lookup_alter_ne.
    apply Hno, elem_of_cons. by left.
  - intros j Hj. rewrite HT. apply Hno, elem_of_cons. by right.
Qed.

(** A loop that rewrites the register [T c j] for each [j] of [l]: the register
    [p] that only [j0] names is rewritten once. *)
Lemma foldl_alter_physreg_once
    (F : Core -> nat -> PhysicalRegister -> PhysicalRegister) (T : Core -> nat -> nat) :
  (forall c f k, F (alter_physreg f k c) = F c) ->
  (forall c f k, T (alter_physreg f k c) = T c) ->
  forall (l : list nat) (c : Core) (p j0 : nat),
    NoDup l -> j0 ∈ l -> T c j0 = p -> (forall j, j ∈ l -> T c j = p -> j = j0) ->
    physregs (foldl (fun c j => alter_physreg (F c j) (T c j) c) c l) !! p
    = F c j0 <$> physregs c !! p.
Proof.
  intros HF HT l. induction l as [| a l IH]; intros c p j0 Hnd Hin Htgt Honly; cbn [foldl].
  - by apply elem_of_nil in Hin.
  - apply NoDup_cons in Hnd as [Ha Hnd]. apply elem_of_cons in Hin as [-> | Hin].
    + rewrite (foldl_alter_physreg_none F T HF HT).
      * unfold alter_physreg. cbn. rewrite Htgt, list_lookup_alter, decide_True by done. done.
      * intros j Hj Hp. rewrite HT in Hp.
        assert (j = a) by (apply Honly; [apply elem_of_cons; by right | done]). congruence.
    + assert (Hne : T c a <> p).
      { intros Hp. assert (a = j0) by (apply Honly; [apply elem_of_cons; by left | done]).
        congruence. }
      rewrite (IH _ p j0); rewrite ?HT, ?HF; try done.
      * unfold alter_physreg. cbn. by rewrite list_lookup_alter_ne.
      * intros j Hj. apply Honly, elem_of_cons. by right.
Qed.

(** A loop that stores [D c i] in [ctx.commitarf[i]] for each [i] of [l]. *)
Lemma foldl_set_commitarf (D : Core -> nat -> Z) :
  (forall c x, D (set_ctx_commitarf x c) = D c) ->
  forall (l : list nat) (c : Core) (i : nat),
    commitarf_at (foldl (fun c i => set_ctx_commitarf (<[i := D c i]> (ctx_commitarf c)) c) c l) i
    = if decide (i ∈ l /\ (i < length (ctx_commitarf c))%nat) then D c i else commitarf_at c i.
Proof.
  intros HD l. induction l as [| a l IH] using rev_ind; intros c i.
  - cbn. rewrite decide_False; [done |]. intros [Hin _]. by apply elem_of_nil in Hin.
  - rewrite foldl_app. cbn [foldl].
    set (c' := foldl _ c l).
    assert (HDc : D c' = D c).
    { subst c'. clear IH. induction l as [| b l IHl] using rev_ind; [done |].
      rewrite foldl_app. cbn [foldl]. by rewrite HD. }
    assert (Hlen : length (ctx_commitarf c') = length (ctx_commitarf c)).
    { subst c'. clear IH HDc. induction l as [| b l IHl] using rev_ind; [done |].
      rewrite foldl_app. cbn [foldl]. cbn. by rewrite length_insert. }
    unfold commitarf_at at 1. cbn [ctx_commitarf set_ctx_commitarf].
    destruct (decide (a = i)) as [-> | Hne].
    + destruct (decide (i < length (ctx_commitarf c))%nat) as [Hlt | Hge].
      * rewrite list_lookup_insert_eq by lia. rewrite decide_True; [by rewrite HDc |].
        split; [apply elem_of_app; right; by apply list_elem_of_singleton | done].
      * rewrite list_insert_ge by lia. fold (commitarf_at c' i). subst c'.
        rewrite IH, !decide_False by (intros [_ ?]; done). done.
    + rewrite list_lookup_insert_ne by done. fold (commitarf_at c' i). subst c'. rewrite IH.
      destruct (decide (i ∈ l /\ _)) as [[Hin Hlt] | Hno].
      * rewrite decide_True; [done |]. split; [apply elem_of_app; by left | done].
      * rewrite decide_False; [done |]. intros [[Hin | Hin%list_elem_of_singleton]%elem_of_app Hlt];
          [apply Hno; by split | congruence].
Qed.


(** The table after [RegisterRenameTable::reset()]. *)
Lemma RegisterRenameTable_reset_cases (j : nat) :
  (j < TRANSREG_COUNT)%nat ->
  RegisterRenameTable_reset !!! j = (PHYS_REG_ARCH_BASE + j)%nat
  \/ RegisterRenameTable_reset !!! j = (PHYS_REG_ARCH_BASE + REG_flags)%nat
  \/ RegisterRenameTable_reset !!! j = PHYS_REG_NULL.
Proof.
  intros Hj. unfold RegisterRenameTable_reset. cbv zeta.
  set (base := _ <$> seq 0 TRANSREG_COUNT).
  assert (Hbase : base !!! j = (PHYS_REG_ARCH_BASE + j)%nat \/ base !!! j = PHYS_REG_NULL).
  { subst base. rewrite list_lookup_total_alt, list_lookup_fmap, lookup_seq_lt by done.
    cbn. destruct (decide (j < ARCHREG_COUNT)%nat); [by left | by right]. }
  assert (Hlen : length base = TRANSREG_COUNT) by (subst base; by rewrite length_fmap, length_seq).
  clearbody base.
  repeat match goal with
  | |- context [<[?k := ?v]> ?l !!! j] =>
      destruct (decide (k = j)) as [Heq |];
      [rewrite Heq, list_lookup_total_insert_eq by (rewrite ?length_insert; lia); tauto
      | rewrite list_lookup_total_insert_ne by done]
  end.
  tauto.
Qed.

Lemma RegisterRenameTable_reset_plain (i : nat) :
  (i < ARCHREG_COUNT)%nat -> (i < TRANSREG_COUNT)%nat ->
  i ∉ [REG_zf; REG_cf; REG_of; REG_imm; REG_mem; REG_zero] ->
  RegisterRenameTable_reset !!! i = (PHYS_REG_ARCH_BASE + i)%nat.
Proof.
  intros Hi Ht Hplain. unfold RegisterRenameTable_reset. cbv zeta.
  rewrite !list_lookup_total_insert_ne
    by (intros Heq; apply Hplain; rewrite <- Heq, !elem_of_cons; auto 10).
  rewrite list_lookup_total_alt, list_lookup_fmap, lookup_seq_lt by done.
  cbn. by rewrite decide_True.
Qed.

Lemma addref_frame {B} (view : Core -> B) :
  (forall x c, view (set_physregs x c) = view c) ->
  forall r c, view (PhysicalRegister.addref r c) = view c.
Proof.
  intros Hv r c. unfold PhysicalRegister.addref.
  destruct (PhysicalRegister.nonnull r); [apply Hv | done].
Qed.

(** [flush_pipeline()] seen through a field that neither the register file,
    nor the ROB, nor the rename tables hold. *)
Lemma flush_pipeline_view {B} (view : Core -> B) (realrip : Z) (c : Core) :
  (forall x c, view (set_physregs x c) = view c) ->
  (forall x c, view (set_ROB x c) = view c) ->
  (forall c, view (set_commitrrt RegisterRenameTable_reset
               (set_specrrt RegisterRenameTable_reset c)) = view c) ->
  view (flush_pipeline realrip c)
  = view (set_stores_in_flight 0 (set_loads_in_flight 0
            (set_LSQ (q_reset LoadStoreQueueEntry.reset (LSQ c)) (reset_fetch_unit realrip c)))).
Proof.
  intros Hphys HROB Hrrt. unfold flush_pipeline. cbv zeta.
  rewrite !(foldl_frame view)
    by (intros; unfold PhysicalRegister.addcommitref, PhysicalRegister.addspecref;
        by apply addref_frame).
  rewrite Hrrt. unfold PhysicalRegisterFile_reset. cbv zeta.
  unfold PhysicalRegister.changestate at 1. unfold alter_physreg at 1 2. rewrite !Hphys.
  rewrite !(foldl_frame view)
    by (intros; unfold PhysicalRegister.commit, PhysicalRegister.reset, PhysicalRegister.free,
          PhysicalRegister.changestate, alter_physreg; by rewrite ?Hphys).
  set (c1 := foldl _ _ (seq 0 ROB_SIZE)).
  assert (Hc1 : forall (v : Core -> B), (forall x c, v (set_ROB x c) = v c) ->
            v c1 = v (reset_fetch_unit realrip c)).
  { intros v Hv. subst c1.
    rewrite (foldl_frame v)
      by (intros; unfold ReorderBufferEntry.changestate, alter_ROB; apply Hv).
    apply Hv. }
  rewrite (Hc1 (fun c => view (set_stores_in_flight 0 (set_loads_in_flight 0
             (set_LSQ (q_reset LoadStoreQueueEntry.reset (LSQ c)) c))))).
  - done.
  - intros x c'. cbn [LSQ set_ROB].
    change (set_stores_in_flight 0 (set_loads_in_flight 0
              (set_LSQ (q_reset LoadStoreQueueEntry.reset (LSQ c')) (set_ROB x c'))))
      with (set_ROB x (set_stores_in_flight 0 (set_loads_in_flight 0
              (set_LSQ (q_reset LoadStoreQueueEntry.reset (LSQ c')) c')))).
    apply HROB.
Qed.

(** What [flush_pipeline()] does not write. *)
Lemma flush_pipeline_frame {B} (view : Core -> B) (realrip : Z) (c : Core) :
  (forall x c, view (set_physregs x c) = view c) ->
  (forall x c, view (set_ROB x c) = view c) ->
  (forall c, view (set_commitrrt RegisterRenameTable_reset
               (set_specrrt RegisterRenameTable_reset c)) = view c) ->
  (forall c, view (set_stores_in_flight 0 (set_loads_in_flight 0
               (set_LSQ (q_reset LoadStoreQueueEntry.reset (LSQ c)) c))) = view c) ->
  (forall c, view (reset_fetch_unit realrip c) = view c) ->
  view (flush_pipeline realrip c) = view c.
Proof.
  intros Hphys HROB Hrrt HLSQ Hfetch.
  rewrite flush_pipeline_view by done.
  change (LSQ c) with (LSQ (reset_fetch_unit realrip c)). by rewrite HLSQ, Hfetch.
Qed.

Lemma commitrrt_flush_pipeline (realrip : Z) (c : Core) :
  commitrrt (flush_pipeline realrip c) = RegisterRenameTable_reset.
Proof.
  unfold flush_pipeline. cbv zeta.
  rewrite !(foldl_frame commitrrt)
    by (intros; unfold PhysicalRegister.addcommitref, PhysicalRegister.addspecref;
        by apply addref_frame).
  reflexivity.
Qed.

Lemma physregs_length_flush_pipeline (realrip : Z) (c : Core) :
  length (physregs (flush_pipeline realrip c)) = length (physregs c).
Proof.
  unfold flush_pipeline. cbv zeta.
  rewrite !physregs_length_foldl
    by (intros; unfold PhysicalRegister.addcommitref, PhysicalRegister.addspecref;
        apply physregs_length_addref).
  unfold set_commitrrt, set_specrrt. cbn [physregs].
  rewrite physregs_length_reset. cbn [physregs set_stores_in_flight set_loads_in_flight set_LSQ].
  by rewrite (foldl_frame physregs) by reflexivity.
Qed.

Lemma commitarf_at_insert_same (l l0 : list Z) (k i : nat) :
  length l = length l0 ->
  (i <> k -> default 0 (l !! i) = default 0 (l0 !! i)) ->
  default 0 (<[k := default 0 (l0 !! k)]> l !! i) = default 0 (l0 !! i).
Proof.
  intros Hlen Hother. destruct (decide (i = k)) as [-> | Hne].
  - destruct (decide (k < length l)%nat).
    + by rewrite list_lookup_insert_eq by done.
    + rewrite list_insert_ge by lia.
      by rewrite !(lookup_ge_None_2 _ k) by lia.
  - rewrite list_lookup_insert_ne by done. by apply Hother.
Qed.

(** X7. The architectural registers survive a round trip through the core:
    after [flush_pipeline()], [external_to_core_state()] copies the context
    into the physical registers and [core_to_external_state()] reads the same
    values back, for every architectural register that the reset rename table
    maps to a register of its own. *)
Theorem architectural_state_round_trip (realrip : Z) (c : Core) (i : nat) :
  length (physregs c) = PHYS_REG_FILE_SIZE ->
  (PHYS_REG_ARCH_BASE + ARCHREG_COUNT <= PHYS_REG_FILE_SIZE)%nat ->
  (PHYS_REG_NULL < PHYS_REG_ARCH_BASE)%nat ->
  (ARCHREG_COUNT <= TRANSREG_COUNT)%nat ->
  (i < ARCHREG_COUNT)%nat ->
  i ∉ [REG_zf; REG_cf; REG_of; REG_imm; REG_mem; REG_zero] ->
  commitarf_at (core_to_external_state (external_to_core_state (flush_pipeline realrip c))) i
  = commitarf_at c i.
Proof.
  intros Hlen Hfile Hnull Htrans Hi Hplain.
  set (c1 := flush_pipeline realrip c).
  assert (Hrrt1 : commitrrt c1 = RegisterRenameTable_reset) by apply commitrrt_flush_pipeline.
  assert (Hlen1 : length (physregs c1) = PHYS_REG_FILE_SIZE)
    by (subst c1; by rewrite physregs_length_flush_pipeline).
  assert (Harf1 : ctx_commitarf c1 = ctx_commitarf c)
    by (subst c1; by apply (flush_pipeline_frame ctx_commitarf)).
  clearbody c1.
  set (c2 := external_to_core_state c1).
  assert (Hrrt2 : commitrrt c2 = RegisterRenameTable_reset).
  { subst c2. unfold external_to_core_state. cbv zeta. unfold alter_physreg at 1.
    cbn [commitrrt set_physregs]. by rewrite (foldl_frame commitrrt) by reflexivity. }
  assert (Harf2 : ctx_commitarf c2 = ctx_commitarf c).
  { subst c2. unfold external_to_core_state. cbv zeta. unfold alter_physreg at 1.
    cbn [ctx_commitarf set_physregs]. by rewrite (foldl_frame ctx_commitarf) by reflexivity. }
  assert (Hdata : i <> REG_flags ->
            physreg_data (physreg_at c2 (PHYS_REG_ARCH_BASE + i)) = commitarf_at c i).
  { intros Hnf. subst c2. unfold external_to_core_state. cbv zeta.
    unfold physreg_at. rewrite list_lookup_total_alt.
    unfold alter_physreg at 1. cbn [physregs set_physregs].
    rewrite list_lookup_alter_ne by lia.
    rewrite (foldl_alter_physreg_once
               (fun c i p => set_physreg_flags 0 (set_physreg_data (commitarf_at c i) p))
               (fun c i => commitrrt_at c i) ltac:(done) ltac:(done) _ _ _ i).
    - destruct (lookup_lt_is_Some_2 (physregs c1) (PHYS_REG_ARCH_BASE + i)) as [r ->]; [lia |].
      cbn. unfold commitarf_at. by rewrite Harf1.
    - apply NoDup_seq.
    - apply elem_of_seq. lia.
    - unfold commitrrt_at. rewrite Hrrt1. apply RegisterRenameTable_reset_plain; [done | lia | done].
    - intros j Hj%elem_of_seq. unfold commitrrt_at. rewrite Hrrt1.
      destruct (RegisterRenameTable_reset_cases j) as [-> | [-> | ->]]; lia. }
  clearbody c2. clear c1 Hrrt1 Hlen1 Harf1.
  unfold core_to_external_state. cbv zeta. unfold commitarf_at at 1.
  cbn [ctx_commitarf set_ctx_commitarf].
  set (c3 := foldl _ c2 (seq 0 ARCHREG_COUNT)).
  assert (Hlen3 : length (ctx_commitarf c3) = length (ctx_commitarf c2)).
  { subst c3. generalize (seq 0 ARCHREG_COUNT). intros l.
    induction l as [| b l IHl] using rev_ind; [done |].
    rewrite foldl_app. cbn [foldl]. cbn. by rewrite length_insert. }
  assert (H3 : i <> REG_flags -> i <> REG_rip -> commitarf_at c3 i = commitarf_at c2 i).
  { intros Hnf Hnr. subst c3.
    rewrite (foldl_set_commitarf (fun c i => physreg_data (physreg_at c (commitrrt_at c i))))
      by done.
    destruct (decide _) as [[_ Hlt] |]; [| done].
    unfold commitrrt_at. rewrite Hrrt2, RegisterRenameTable_reset_plain by (done || lia).
    rewrite Hdata by done. unfold commitarf_at. by rewrite Harf2. }
  clearbody c3. unfold commitarf_at in *. rewrite <- Harf2.
  apply commitarf_at_insert_same; [by rewrite length_insert |]. intros Hnf.
  apply commitarf_at_insert_same; [done |]. intros Hnr.
  by apply H3.
Qed.

End ExternalStateFacts.

Section FlushPostcondition.
Context `{HwDef}.

(** The value and the flags of each register. *)
Lemma physreg_values_alter (g : PhysicalRegister -> PhysicalRegister) (k : nat)
    (l : list PhysicalRegister) :
  (forall r, physreg_data (g r) = physreg_data r /\ physreg_flags (g r) = physreg_flags r) ->
  (fun r => (physreg_data r, physreg_flags r)) <$> alter g k l
  = (fun r => (physreg_data r, physreg_flags r)) <$> l.
Proof.
  intros Hg. apply list_eq. intros j. rewrite !list_lookup_fmap, list_lookup_alter.
  destruct (decide (k = j)) as [-> |]; [| done].
  destruct (l !! j) as [r |]; [| done]. cbn. destruct (Hg r) as [-> ->]. done.
Qed.

Lemma physreg_values_addref (r : nat) (c : Core) :
  (fun r => (physreg_data r, physreg_flags r)) <$> physregs (PhysicalRegister.addref r c)
  = (fun r => (physreg_data r, physreg_flags r)) <$> physregs c.
Proof.
  unfold PhysicalRegister.addref. destruct (PhysicalRegister.nonnull r); [| done].
  unfold alter_physreg. cbn. by apply physreg_values_alter.
Qed.

(** X8. [flush_pipeline()] discards what is in flight and nothing else. After
    it the ROB and the load/store queue are empty, with every ROB entry on the
    free list, the counters of loads and stores in flight are zero, the fetch
    queue is empty and fetching restarts at the given rip, and both rename
    tables are reset; the value and the flags of each physical register other
    than the null register, the context, the memory, the basic block cache and
    the counters are as before. *)
Theorem flush_pipeline_discards_in_flight_only (realrip : Z) (c : Core) :
  length (physregs c) = PHYS_REG_FILE_SIZE ->
  (foreach_forward ROB_SIZE (ROB (flush_pipeline realrip c)) = []
   /\ q_count (ROB (flush_pipeline realrip c)) = 0%nat
   /\ (forall i, (i < ROB_SIZE)%nat -> (i < length (q_data (ROB c)))%nat ->
         rob_current_state_list (ROB_at (flush_pipeline realrip c) i) = Some rob_free_list
         /\ rob_entry_valid (ROB_at (flush_pipeline realrip c) i) = false)
   /\ q_count (LSQ (flush_pipeline realrip c)) = 0%nat
   /\ loads_in_flight (flush_pipeline realrip c) = 0
   /\ stores_in_flight (flush_pipeline realrip c) = 0)
  /\ (fetchq (flush_pipeline realrip c) = []
      /\ fetchrip (flush_pipeline realrip c) = realrip
      /\ stall_frontend (flush_pipeline realrip c) = false
      /\ waiting_for_icache_fill (flush_pipeline realrip c) = false
      /\ current_basic_block (flush_pipeline realrip c) = None)
  /\ (specrrt (flush_pipeline realrip c) = RegisterRenameTable_reset
      /\ commitrrt (flush_pipeline realrip c) = RegisterRenameTable_reset)
  /\ (forall i, (i < PHYS_REG_FILE_SIZE)%nat -> i <> PHYS_REG_NULL ->
        physreg_data (physreg_at (flush_pipeline realrip c) i) = physreg_data (physreg_at c i)
        /\ physreg_flags (physreg_at (flush_pipeline realrip c) i)
           = physreg_flags (physreg_at c i))
  /\ (ctx_commitarf (flush_pipeline realrip c) = ctx_commitarf c
      /\ ctx_exception (flush_pipeline realrip c) = ctx_exception c
      /\ memory (flush_pipeline realrip c) = memory c
      /\ bbcache (flush_pipeline realrip c) = bbcache c
      /\ stats (flush_pipeline realrip c) = stats c
      /\ sim_cycle (flush_pipeline realrip c) = sim_cycle c
      /\ last_commit_at_cycle (flush_pipeline realrip c) = last_commit_at_cycle c
      /\ total_user_insns_committed (flush_pipeline realrip c) = total_user_insns_committed c).
Proof.
  intros Hlen.
  assert (HROB : ROB (flush_pipeline realrip c)
                 = ROB (foldl (fun c i => ReorderBufferEntry.changestate rob_free_list i c)
                          (set_ROB (q_reset ReorderBufferEntry.init (ROB c))
                             (reset_fetch_unit realrip c)) (seq 0 ROB_SIZE))).
  { unfold flush_pipeline. cbv zeta.
    rewrite !(foldl_frame ROB)
      by (intros; unfold PhysicalRegister.addcommitref, PhysicalRegister.addspecref;
          by apply addref_frame).
    unfold set_commitrrt, set_specrrt. cbn [ROB].
    by rewrite ROB_PhysicalRegisterFile_reset. }
  assert (Hdata : forall i, q_data (ROB (flush_pipeline realrip c)) !! i
            = (if decide (i < ROB_SIZE)%nat
               then set_rob_current_state_list (Some rob_free_list) else id)
              <$> (ReorderBufferEntry.init <$> q_data (ROB c)) !! i).
  { intros i. rewrite HROB. clear HROB.
    change (ReorderBufferEntry.init <$> q_data (ROB c))
      with (q_data (ROB (set_ROB (q_reset ReorderBufferEntry.init (ROB c))
                           (reset_fetch_unit realrip c)))).
    generalize (set_ROB (q_reset ReorderBufferEntry.init (ROB c)) (reset_fetch_unit realrip c)).
    intros c0.
    assert (Hgen : forall n, q_data (ROB (foldl (fun c i =>
                       ReorderBufferEntry.changestate rob_free_list i c) c0 (seq 0 n))) !! i
              = (if decide (i < n)%nat
                 then set_rob_current_state_list (Some rob_free_list) else id)
                <$> q_data (ROB c0) !! i).
    { induction n as [| n IH].
      - cbn. by destruct (q_data (ROB c0) !! i).
      - rewrite seq_S, foldl_app. cbn [foldl plus].
        unfold ReorderBufferEntry.changestate at 1, alter_ROB. cbn [ROB set_ROB q_data set_q_data].
        rewrite list_lookup_alter. destruct (decide (n = i)) as [-> | Hne].
        + rewrite IH, decide_False, decide_True by lia.
          by destruct (q_data (ROB c0) !! i).
        + rewrite IH. destruct (decide (i < n)%nat).
          * by rewrite decide_True by lia.
          * by rewrite decide_False by lia. }
    apply Hgen. }
  repeat match goal with |- _ /\ _ => split end.
  - rewrite HROB. unfold foreach_forward.
    rewrite (foldl_frame (fun c => q_tail (ROB c))) by reflexivity.
    rewrite (foldl_frame (fun c => q_head (ROB c))) by reflexivity.
    cbn. destruct ROB_SIZE; [done |]. cbn. by rewrite decide_True.
  - rewrite HROB. by rewrite (foldl_frame (fun c => q_count (ROB c))) by reflexivity.
  - intros i Hi Hlt. unfold ROB_at. rewrite list_lookup_total_alt, Hdata, decide_True by done.
    rewrite list_lookup_fmap.
    destruct (lookup_lt_is_Some_2 (q_data (ROB c)) i Hlt) as [r ->]. done.
  - by rewrite (flush_pipeline_view (fun c => q_count (LSQ c))).
  - by rewrite (flush_pipeline_view loads_in_flight).
  - by rewrite (flush_pipeline_view stores_in_flight).
  - by rewrite (flush_pipeline_view fetchq).
  - by rewrite (flush_pipeline_view fetchrip).
  - by rewrite (flush_pipeline_view stall_frontend).
  - by rewrite (flush_pipeline_view waiting_for_icache_fill).
  - by rewrite (flush_pipeline_view current_basic_block).
  - unfold flush_pipeline. cbv zeta.
    by rewrite !(foldl_frame specrrt)
      by (intros; unfold PhysicalRegister.addcommitref, PhysicalRegister.addspecref;
          by apply addref_frame).
  - apply commitrrt_flush_pipeline.
  - intros i Hi Hnn.
    assert (Hv : (fun r => (physreg_data r, physreg_flags r)) <$> physregs (flush_pipeline realrip c)
                 = (fun r => (physreg_data r, physreg_flags r))
                     <$> physregs (PhysicalRegisterFile_reset c)).
    { unfold flush_pipeline. cbv zeta.
      rewrite !(foldl_frame (fun c => (fun r => (physreg_data r, physreg_flags r)) <$> physregs c))
        by (intros; unfold PhysicalRegister.addcommitref, PhysicalRegister.addspecref;
            apply physreg_values_addref).
      unfold set_commitrrt, set_specrrt. cbn [physregs]. f_equal.
      apply list_eq. intros j.
      destruct (decide (j < PHYS_REG_FILE_SIZE)%nat) as [Hj | Hj].
      - destruct (lookup_lt_is_Some_2 (physregs c) j) as [r Hr]; [lia |].
        rewrite (physregs_PhysicalRegisterFile_reset c j r Hj Hr).
        apply physregs_PhysicalRegisterFile_reset; [done |].
        cbn [physregs set_stores_in_flight set_loads_in_flight set_LSQ].
        by rewrite (foldl_frame physregs) by reflexivity.
      - rewrite !lookup_ge_None_2; [done | |]; rewrite physregs_length_reset; [lia |].
        cbn [physregs set_stores_in_flight set_loads_in_flight set_LSQ].
        rewrite (foldl_frame physregs) by reflexivity. cbn. lia. }
    apply (f_equal (fun l => l !! i)) in Hv. rewrite !list_lookup_fmap in Hv.
    destruct (lookup_lt_is_Some_2 (physregs c) i) as [r Hr]; [lia |].
    rewrite (physregs_PhysicalRegisterFile_reset c i r Hi Hr) in Hv.
    unfold physreg_at. rewrite !list_lookup_total_alt, Hr.
    destruct (physregs (flush_pipeline realrip c) !! i) as [r' |]; [| done].
    cbn in Hv. injection Hv as Hd Hf. cbn. rewrite Hd, Hf.
    rewrite decide_False by congruence.
    by destruct (decide (PHYS_REG_ARCH_BASE <= i)%nat).
  - by apply (flush_pipeline_frame ctx_commitarf).
  - by apply (flush_pipeline_frame ctx_exception).
  - by apply (flush_pipeline_frame memory).
  - by apply (flush_pipeline_frame bbcache).
  - by apply (flush_pipeline_frame stats).
  - by apply (flush_pipeline_frame sim_cycle).
  - by apply (flush_pipeline_frame last_commit_at_cycle).
  - by apply (flush_pipeline_frame total_user_insns_committed).
Qed.

End FlushPostcondition.

Section RegisterFileExamples.
#[local] Existing Instance example_hw.

Lemma addref_unref_round_trip_witness :
  PhysicalRegister.unref 40 (PhysicalRegister.addref 40 example_core) = example_core
  /\ PhysicalRegister.addref 40 (PhysicalRegister.unref 40 example_core) = example_core
  /\ (40%nat <> PHYS_REG_NULL -> (40 < length (physregs example_core))%nat ->
      physreg_refcount (physreg_at (PhysicalRegister.addref 40 example_core) 40)
      = physreg_refcount (physreg_at example_core 40) + 1
      /\ physreg_refcount (physreg_at (PhysicalRegister.unref 40 example_core) 40)
         = physreg_refcount (physreg_at example_core 40) - 1).
Proof. apply (addref_unref_round_trip 40 example_core). vm_compute. split; reflexivity. Defined.

Lemma flush_pipeline_refcounts_consistent_witness :
  check_refcounts (flush_pipeline 4096 (initial_core (2 ^ 63) (2 ^ 63))) = false.
Proof. apply (flush_pipeline_refcounts_consistent 4096 (initial_core (2 ^ 63) (2 ^ 63))). reflexivity. Defined.

End RegisterFileExamples.

(* --------------------------------------------------------------------- *)
(** ** More on commit *)
(* --------------------------------------------------------------------- *)

Section OutsideCommit.
Context `{HwDef}.

Lemma outside_commit_addref r c : outside_commit (PhysicalRegister.addref r c) = outside_commit c.
Proof. unfold PhysicalRegister.addref. by destruct (PhysicalRegister.nonnull r). Qed.
Lemma outside_commit_unref r c : outside_commit (PhysicalRegister.unref r c) = outside_commit c.
Proof. unfold PhysicalRegister.unref. by destruct (PhysicalRegister.nonnull r). Qed.
Lemma outside_commit_commitrrt_rename a p c :
  outside_commit (commitrrt_rename a p c) = outside_commit c.
Proof.
  unfold commitrrt_rename, PhysicalRegister.addcommitref, PhysicalRegister.uncommitref.
  cbv zeta. rewrite outside_commit_addref.
  transitivity (outside_commit (PhysicalRegister.unref (commitrrt_at c a) c)); [reflexivity |].
  apply outside_commit_unref.
Qed.

End OutsideCommit.

Ltac outside_commit_prim :=
  cbv beta zeta;
  repeat first
    [ assumption
    | reflexivity
    | rewrite outside_commit_addref
    | rewrite outside_commit_unref
    | rewrite outside_commit_commitrrt_rename
    | rewrite (foldl_frame outside_commit); [| intros]
    | match goal with
      | |- outside_commit (if ?b then _ else _) = _ => destruct b
      | |- outside_commit (match ?b with _ => _ end) = _ => destruct b
      | H : outside_commit ?x = outside_commit ?c |- outside_commit _ = outside_commit ?c =>
          transitivity (outside_commit x); [reflexivity | exact H]
      end ].

Section CommitFacts.
Context `{HwDef}.

Lemma outside_commit_commit_uop (self : nat) (c : Core) :
  outside_commit (commit_uop self c).1 = outside_commit c.
Proof.
  cbv beta delta [commit_uop].
  let_chain (fun x => outside_commit x = outside_commit c) outside_commit_prim.
  destruct (isbarrier _); cbn [fst]; outside_commit_prim.
Qed.

Lemma outside_commit_commit_exception (self : nat) (c : Core) :
  outside_commit (commit_exception self c).1 = outside_commit c.
Proof.
  cbv beta delta [commit_exception].
  let_chain (fun x => outside_commit x = outside_commit c) outside_commit_prim.
  cbn [fst]. assumption.
Qed.

Lemma outside_commit_ReorderBufferEntry_commit (self : nat) (c : Core) :
  outside_commit (ReorderBufferEntry_commit self c).1 = outside_commit c.
Proof.
  cbv beta delta [ReorderBufferEntry_commit].
  let_chain (fun x => outside_commit x = outside_commit c) outside_commit_prim.
  destruct (scan_macro_op _ _); cbv zeta.
  - rewrite outside_commit_commit_uop. outside_commit_prim.
  - cbn [fst]. outside_commit_prim.
  - rewrite outside_commit_commit_exception. outside_commit_prim.
Qed.


(** X9. [ReorderBufferEntry::commit()] commits its uop, with the result OK or
    BARRIER, exactly when every uop from it up to the first EOM uop, or up to
    the tail of the ROB when that comes first, is ready to commit and carries
    no exception; the result is then BARRIER exactly for a barrier uop. *)
Theorem commit_exactly_when_macro_op_ready (self : nat) (c : Core) :
  ((ReorderBufferEntry_commit self c).2 = COMMIT_RESULT_OK
   \/ (ReorderBufferEntry_commit self c).2 = COMMIT_RESULT_BARRIER
   <-> Forall (fun j => ReorderBufferEntry.ready_to_commit (ROB_at c j) = true
                        /\ ReorderBufferEntry.has_exception j c = false)
         (through_eom c (foreach_forward_from ROB_SIZE (ROB c) self)))
  /\ ((ReorderBufferEntry_commit self c).2 = COMMIT_RESULT_BARRIER
      <-> scan_macro_op c (foreach_forward_from ROB_SIZE (ROB c) self) = scan_all_ready
          /\ isbarrier (uop_opcode (rob_uop (ROB_at c self))) = true).
Proof.
  split; [apply commit_only_when_scan_all_ready |].
  rewrite ReorderBufferEntry_commit_scan. cbv zeta.
  destruct (scan_macro_op c _) eqn:Hscan.
  - rewrite commit_uop_result.
    replace (rob_uop (ROB_at (bump_at "commit_opclass_histogram" _ 1 _) self))
      with (rob_uop (ROB_at c self)) by (by destruct (uop_som _)).
    destruct (isbarrier _); split; try done; intros [_ ?]; done.
  - cbn [snd]. split; [discriminate | intros [? _]; discriminate].
  - cbn [snd]. split; [discriminate | intros [? _]; discriminate].
Qed.

(** X10. When the scan of the macro-op meets an exception, the uop does not
    commit: the result is EXCEPTION, [ctx.exception] holds the code found in
    the register, and the committed rename table, the registers, the
    architectural registers, memory, the ROB and the LSQ are as before. The two
    totals of committed uops and instructions still go up by one. *)
Theorem commit_exception_leaves_state (self : nat) (c : Core) (data : Z) :
  scan_macro_op c (foreach_forward_from ROB_SIZE (ROB c) self) = scan_exception data ->
  (ReorderBufferEntry_commit self c).2 = COMMIT_RESULT_EXCEPTION
  /\ ctx_exception (ReorderBufferEntry_commit self c).1 = data
  /\ commitrrt (ReorderBufferEntry_commit self c).1 = commitrrt c
  /\ physregs (ReorderBufferEntry_commit self c).1 = physregs c
  /\ ctx_commitarf (ReorderBufferEntry_commit self c).1 = ctx_commitarf c
  /\ memory (ReorderBufferEntry_commit self c).1 = memory c
  /\ ROB (ReorderBufferEntry_commit self c).1 = ROB c
  /\ LSQ (ReorderBufferEntry_commit self c).1 = LSQ c
  /\ total_uops_committed (ReorderBufferEntry_commit self c).1
     = W64 (total_uops_committed c + 1)
  /\ total_user_insns_committed (ReorderBufferEntry_commit self c).1
     = W64 (total_user_insns_committed c + 1).
Proof.
  intros Hscan. rewrite ReorderBufferEntry_commit_scan, Hscan.
  unfold commit_exception. cbv zeta.
  destruct (uop_som _); destruct (_ && _); cbn;
    repeat match goal with |- _ /\ _ => split end; reflexivity.
Qed.

(** X11. The loop of [commit()] commits at most [COMMIT_WIDTH] uops, and no
    more than the ROB holds. It stamps [last_commit_at_cycle] with the current
    cycle when it has committed a uop with the result OK and leaves it alone
    otherwise, so that a barrier or an exception at the head of the ROB does
    not count as progress. The cycle counter is not written. *)
Theorem commit_loop_width_and_stamp (range : list nat) (rc : Z) (c : Core) :
  ((commit_loop range 0 rc c).2 <= COMMIT_WIDTH)%nat
  /\ ((commit_loop range 0 rc c).2 <= length range)%nat
  /\ sim_cycle (commit_loop range 0 rc c).1.1 = sim_cycle c
  /\ last_commit_at_cycle (commit_loop range 0 rc c).1.1
     = (if decide ((commit_loop range 0 rc c).2 = 0%nat)
        then last_commit_at_cycle c else sim_cycle c).
Proof.
  assert (Hgen : forall range n0 rc c,
            (n0 <= (commit_loop range n0 rc c).2)%nat
            /\ ((commit_loop range n0 rc c).2 <= Nat.max n0 COMMIT_WIDTH)%nat
            /\ ((commit_loop range n0 rc c).2 <= n0 + length range)%nat
            /\ sim_cycle (commit_loop range n0 rc c).1.1 = sim_cycle c
            /\ last_commit_at_cycle (commit_loop range n0 rc c).1.1
               = (if decide ((commit_loop range n0 rc c).2 = n0)
                  then last_commit_at_cycle c else sim_cycle c)).
  { clear. intros range. induction range as [| i range IH]; intros n0 rc c; cbn [commit_loop].
    - cbn. rewrite decide_True by done. repeat split; lia.
    - destruct (decide (COMMIT_WIDTH <= n0)%nat).
      { cbn. rewrite decide_True by done. repeat split; lia. }
      pose proof (outside_commit_ReorderBufferEntry_commit i c) as Hout.
      destruct (ReorderBufferEntry_commit i c) as [c1 rc1]. cbn [fst] in Hout.
      assert (Hsim : sim_cycle c1 = sim_cycle c)
        by exact (f_equal (fun v => v.1.1.1.1.1.2) Hout).
      assert (Hlast : last_commit_at_cycle c1 = last_commit_at_cycle c)
        by exact (f_equal (fun v => v.1.1.1.1.2) Hout).
      destruct (decide (rc1 = COMMIT_RESULT_OK)).
      + cbv zeta. destruct (decide (_ >= _)).
        * cbn. rewrite decide_False by lia. repeat split; lia.
        * destruct (IH (S n0) rc1 (set_last_commit_at_cycle (sim_cycle c1) c1))
            as (H1 & H2 & H3 & H4 & H5).
          cbn [length]. repeat split; try lia.
          -- by rewrite H4.
          -- rewrite H5. rewrite (decide_False (P := _ = n0)) by lia.
             destruct (decide _); cbn; congruence.
      + cbn. rewrite decide_True by done. repeat split; lia. }
  destruct (Hgen range 0%nat rc c) as (H1 & H2 & H3 & H4 & H5).
  repeat split; try done; lia.
Qed.

(** X12. Committing writes nothing of the speculative side of the core:
    [commit()] leaves the speculative rename table, the fetch unit with its
    queue, the basic block cache, the alias predictor, the cycle counter and
    the limits of the run as they are. *)
Theorem commit_keeps_speculative_state (c : Core) :
  specrrt (commit c).1 = specrrt c
  /\ fetchrip (commit c).1 = fetchrip c
  /\ fetchq (commit c).1 = fetchq c
  /\ stall_frontend (commit c).1 = stall_frontend c
  /\ bbcache (commit c).1 = bbcache c
  /\ lsap (commit c).1 = lsap c
  /\ sim_cycle (commit c).1 = sim_cycle c
  /\ stop_at_user_insns (commit c).1 = stop_at_user_insns c.
Proof.
  set (view := fun c : Core =>
         (specrrt c, fetchrip c, fetchq c, stall_frontend c, bbcache c, lsap c, sim_cycle c,
          stop_at_user_insns c)).
  assert (Hview : forall a b, outside_commit a = outside_commit b -> view a = view b).
  { intros a b Hab. unfold outside_commit in Hab. unfold view.
    injection Hab; intros; congruence. }
  assert (Hloop : forall range n rc c,
            view (commit_loop range n rc c).1.1 = view c).
  { clear c. intros range. induction range as [| i range IH]; intros n rc c; cbn [commit_loop];
      [done |].
    destruct (decide _); [done |].
    pose proof (Hview _ _ (outside_commit_ReorderBufferEntry_commit i c)) as Hi.
    destruct (ReorderBufferEntry_commit i c) as [c1 rc1]. cbn [fst] in Hi.
    destruct (decide (rc1 = _)); [| done]. cbv zeta.
    destruct (decide _); cbn [fst]; [exact Hi |]. rewrite IH. exact Hi. }
  assert (Hfree : view (free_unreferenced c) = view c).
  { unfold free_unreferenced. apply (foldl_frame view). intros c' r.
    by destruct (PhysicalRegister.referenced _). }
  assert (Hall : view (commit c).1 = view c).
  { unfold commit. cbv zeta.
    pose proof (Hloop (foreach_forward ROB_SIZE (ROB (free_unreferenced c))) 0%nat
                  COMMIT_RESULT_OK (free_unreferenced c)) as Hl.
    destruct (commit_loop _ _ _ _) as [[c' rc'] n']. cbn [fst] in *.
    rewrite <- Hfree, <- Hl. reflexivity. }
  unfold view in Hall. injection Hall as -> -> -> -> -> -> -> ->. done.
Qed.

End CommitFacts.

Section CommitExtrasExample.
#[local] Existing Instance example_hw.

Lemma commit_exception_leaves_state_witness :
  (ReorderBufferEntry_commit 0 excepting_core).2 = COMMIT_RESULT_EXCEPTION
  /\ ctx_exception (ReorderBufferEntry_commit 0 excepting_core).1 = 3
  /\ commitrrt (ReorderBufferEntry_commit 0 excepting_core).1 = commitrrt excepting_core
  /\ physregs (ReorderBufferEntry_commit 0 excepting_core).1 = physregs excepting_core
  /\ ctx_commitarf (ReorderBufferEntry_commit 0 excepting_core).1 = ctx_commitarf excepting_core
  /\ memory (ReorderBufferEntry_commit 0 excepting_core).1 = memory excepting_core
  /\ ROB (ReorderBufferEntry_commit 0 excepting_core).1 = ROB excepting_core
  /\ LSQ (ReorderBufferEntry_commit 0 excepting_core).1 = LSQ excepting_core
  /\ total_uops_committed (ReorderBufferEntry_commit 0 excepting_core).1
     = W64 (total_uops_committed excepting_core + 1)
  /\ total_user_insns_committed (ReorderBufferEntry_commit 0 excepting_core).1
     = W64 (total_user_insns_committed excepting_core + 1).
Proof. apply (commit_exception_leaves_state 0 excepting_core 3). reflexivity. Defined.

End CommitExtrasExample.

(* --------------------------------------------------------------------- *)
(** ** More on annulment *)
(* --------------------------------------------------------------------- *)

Section AnnulFacts.
Context `{HwDef}.

Lemma add_index_modulo_succ_pred (i : nat) :
  (i < ROB_SIZE)%nat ->
  add_index_modulo (add_index_modulo i 1 ROB_SIZE) (-1) ROB_SIZE = i.
Proof.
  intros Hi. unfold add_index_modulo.
  assert (HNz : 0 < Z.of_nat ROB_SIZE) by lia.
  pose proof (Z.mod_pos_bound (Z.of_nat i + 1) (Z.of_nat ROB_SIZE) HNz).
  rewrite Z2Nat.id by lia. rewrite Zplus_mod_idemp_l.
  replace (Z.of_nat i + 1 + -1) with (Z.of_nat i) by lia.
  rewrite Z.mod_small by lia. lia.
Qed.

Lemma add_index_modulo_pred_succ (i : nat) :
  (i < ROB_SIZE)%nat ->
  add_index_modulo (add_index_modulo i (-1) ROB_SIZE) 1 ROB_SIZE = i.
Proof.
  intros Hi. unfold add_index_modulo.
  assert (HNz : 0 < Z.of_nat ROB_SIZE) by lia.
  pose proof (Z.mod_pos_bound (Z.of_nat i + -1) (Z.of_nat ROB_SIZE) HNz).
  rewrite Z2Nat.id by lia. rewrite Zplus_mod_idemp_l.
  replace (Z.of_nat i + -1 + 1) with (Z.of_nat i) by lia.
  rewrite Z.mod_small by lia. lia.
Qed.

Lemma ring_offset_zero (from x : nat) :
  (from < ROB_SIZE)%nat -> (x < ROB_SIZE)%nat -> ring_offset from x = 0 -> x = from.
Proof.
  intros Hf Hx H0. apply (ring_offset_inj from); [done | done |].
  by rewrite ring_offset_self.
Qed.

(** The distance from [x] up to [to] shrinks by one when [x] steps forward. *)
Lemma ring_offset_succ (x to : nat) :
  (0 < ROB_SIZE)%nat -> ring_offset x to <> 0 ->
  ring_offset (add_index_modulo x 1 ROB_SIZE) to = ring_offset x to - 1.
Proof.
  intros HN Hnz. unfold ring_offset, add_index_modulo in *.
  assert (HNz : 0 < Z.of_nat ROB_SIZE) by lia.
  pose proof (Z.mod_pos_bound (Z.of_nat x + 1) (Z.of_nat ROB_SIZE) HNz) as Hb.
  rewrite Z2Nat.id by lia.
  rewrite Zminus_mod_idemp_r.
  replace (Z.of_nat to - (Z.of_nat x + 1)) with ((Z.of_nat to - Z.of_nat x) - 1) by lia.
  rewrite <- Zminus_mod_idemp_l.
  pose proof (Z.mod_pos_bound (Z.of_nat to - Z.of_nat x) (Z.of_nat ROB_SIZE) HNz).
  apply Z.mod_small. lia.
Qed.

(** *** The two searches for the boundaries of the macro-op *)

Lemma scan_for_sound (p : ReorderBufferEntry -> bool) (step : Z) (fuel : nat) (c : Core)
    (idx k : nat) :
  (0 < ROB_SIZE)%nat -> (idx < ROB_SIZE)%nat ->
  scan_for p step fuel c idx = Some k -> (k < ROB_SIZE)%nat /\ p (ROB_at c k) = true.
Proof.
  intros HN. revert idx. induction fuel as [| fuel IH]; intros idx Hidx; cbn [scan_for];
    [discriminate |].
  destruct (p (ROB_at c idx)) eqn:Hp.
  - by intros [= <-].
  - apply IH. by apply add_index_modulo_lt.
Qed.

Lemma scan_for_backward_finds (p : ReorderBufferEntry -> bool) (fuel : nat) (c : Core)
    (idx i : nat) :
  (0 < ROB_SIZE)%nat -> (idx < ROB_SIZE)%nat -> (i < ROB_SIZE)%nat ->
  p (ROB_at c i) = true -> ring_offset i idx < Z.of_nat fuel ->
  is_Some (scan_for p (-1) fuel c idx).
Proof.
  intros HN. revert idx. induction fuel as [| fuel IH]; intros idx Hidx Hi Hp Hfuel.
  - pose proof (ring_offset_range i idx HN). lia.
  - cbn [scan_for]. destruct (p (ROB_at c idx)) eqn:Hpi; [by eexists |].
    assert (Hnz : ring_offset i idx <> 0).
    { intros H0. apply ring_offset_zero in H0; [| done | done]. congruence. }
    apply IH; [by apply add_index_modulo_lt | done | done |].
    rewrite ring_offset_pred by done. lia.
Qed.

Lemma scan_for_forward_finds (p : ReorderBufferEntry -> bool) (fuel : nat) (c : Core)
    (idx i : nat) :
  (0 < ROB_SIZE)%nat -> (idx < ROB_SIZE)%nat -> (i < ROB_SIZE)%nat ->
  p (ROB_at c i) = true -> ring_offset idx i < Z.of_nat fuel ->
  is_Some (scan_for p 1 fuel c idx).
Proof.
  intros HN. revert idx. induction fuel as [| fuel IH]; intros idx Hidx Hi Hp Hfuel.
  - pose proof (ring_offset_range idx i HN). lia.
  - cbn [scan_for]. destruct (p (ROB_at c idx)) eqn:Hpi; [by eexists |].
    assert (Hnz : ring_offset idx i <> 0).
    { intros H0. apply ring_offset_zero in H0; [| done | done]. congruence. }
    apply IH; [by apply add_index_modulo_lt | done | done |].
    rewrite ring_offset_succ by done. lia.
Qed.

(** X13. [annul()] returns exactly when the two loops that look for the
    boundaries of the macro-op end: when some slot of the ROB holds a uop with
    SOM set and some slot holds one with EOM set. The two loops go round the
    whole ROB, valid entries or not, and never end otherwise. *)
Theorem annul_returns_iff_boundaries_exist (keep : bool) (self : nat) (c : Core) :
  (0 < ROB_SIZE)%nat -> (self < ROB_SIZE)%nat ->
  is_Some (ReorderBufferEntry_annul keep self c)
  <-> (exists i, (i < ROB_SIZE)%nat /\ uop_som (rob_uop (ROB_at c i)) = true)
      /\ (exists j, (j < ROB_SIZE)%nat /\ uop_eom (rob_uop (ROB_at c j)) = true).
Proof.
  intros HN Hself. split.
  - intros [[c' rip] Hannul]. revert Hannul.
    cbv beta delta [ReorderBufferEntry_annul].
    destruct (scan_for _ (-1) _ _ _) as [somidx |] eqn:Hsom; [| discriminate].
    destruct (scan_for _ 1 _ _ _) as [eomidx |] eqn:Heom; [| discriminate].
    intros _. split.
    + exists somidx. by apply (scan_for_sound _ _ _ _ _ _ HN Hself Hsom).
    + exists eomidx. by apply (scan_for_sound _ _ _ _ _ _ HN Hself Heom).
  - intros [(i & Hi & Hsom) (j & Hj & Heom)].
    destruct (scan_for_backward_finds (fun r => uop_som (rob_uop r)) ROB_SIZE c self i)
      as [somidx Hs]; [done | done | done | done | apply ring_offset_range; done |].
    destruct (scan_for_forward_finds (fun r => uop_eom (rob_uop r)) ROB_SIZE c self j)
      as [eomidx He]; [done | done | done | done | apply ring_offset_range; done |].
    destruct (annul_returns keep self c somidx eomidx Hs He) as (c' & rip & ->).
    by eexists.
Qed.

End AnnulFacts.

Section AnnulExtent.
Context `{HwDef}.

Lemma ROB_foldl_annul_rob_extent (W : list nat) (c : Core) :
  q_tail (ROB (foldl (fun c idx => annul_rob idx c) c W))
  = foldl (fun t _ => add_index_modulo t (-1) ROB_SIZE) (q_tail (ROB c)) W
  /\ q_count (ROB (foldl (fun c idx => annul_rob idx c) c W))
     = (q_count (ROB c) - length W)%nat.
Proof.
  revert c. induction W as [| j W IH]; intros c; cbn [foldl length].
  - split; [done | lia].
  - destruct (IH (annul_rob j c)) as [-> ->]. rewrite ROB_annul_rob. cbn. split; [done | lia].
Qed.

(** The walk from the slot before the tail down to [start] brings the tail
    back to [start]. *)
Lemma walk_down_tail (fuel : nat) (idx start : nat) :
  (0 < ROB_SIZE)%nat -> (idx < ROB_SIZE)%nat -> (start < ROB_SIZE)%nat ->
  ring_offset start idx < Z.of_nat fuel ->
  foldl (fun t _ => add_index_modulo t (-1) ROB_SIZE) (add_index_modulo idx 1 ROB_SIZE)
    (walk_down fuel idx start) = start
  /\ Z.of_nat (length (walk_down fuel idx start)) = ring_offset start idx + 1.
Proof.
  intros HN. revert idx. induction fuel as [| fuel IH]; intros idx Hidx Hstart Hfuel.
  - pose proof (ring_offset_range start idx HN). lia.
  - cbn [walk_down foldl length]. rewrite add_index_modulo_succ_pred by done.
    destruct (decide (idx = start)) as [-> | Hne].
    + cbn. by rewrite ring_offset_self.
    + assert (Hnz : ring_offset start idx <> 0).
      { intros H0. by apply ring_offset_zero in H0. }
      destruct (IH (add_index_modulo idx (-1) ROB_SIZE)) as [Ht Hl];
        [by apply add_index_modulo_lt | done | rewrite ring_offset_pred by done; lia |].
      rewrite add_index_modulo_pred_succ in Ht by done.
      split; [exact Ht |]. rewrite ring_offset_pred in Hl by done. lia.
Qed.

(** The slots the walk visits are those from [start] up to [idx]. *)
Lemma walk_down_elem_inv (fuel : nat) (idx start i : nat) :
  (0 < ROB_SIZE)%nat -> (idx < ROB_SIZE)%nat -> (start < ROB_SIZE)%nat ->
  i ∈ walk_down fuel idx start ->
  (i < ROB_SIZE)%nat /\ ring_offset start i <= ring_offset start idx.
Proof.
  intros HN. revert idx. induction fuel as [| fuel IH]; intros idx Hidx Hstart Hin;
    cbn [walk_down] in Hin; [by apply elem_of_nil in Hin |].
  apply elem_of_cons in Hin as [-> | Hin]; [split; [done | lia] |].
  destruct (decide (idx = start)) as [-> | Hne]; [by apply elem_of_nil in Hin |].
  assert (Hnz : ring_offset start idx <> 0).
  { intros H0. by apply ring_offset_zero in H0. }
  apply IH in Hin as [Hi Hle]; [| by apply add_index_modulo_lt | done].
  rewrite ring_offset_pred in Hle by done. split; [done | lia].
Qed.

(** The extent of the ROB after [annul], when there is something to annul. *)
Lemma annul_ROB_extent (keep : bool) (self : nat) (c c' : Core) (rip : Z)
    (somidx eomidx : nat) :
  scan_for (fun r => uop_som (rob_uop r)) (-1) ROB_SIZE c self = Some somidx ->
  scan_for (fun r => uop_eom (rob_uop r)) 1 ROB_SIZE c self = Some eomidx ->
  (if keep then add_index_modulo eomidx 1 ROB_SIZE else somidx) <> q_tail (ROB c) ->
  ReorderBufferEntry_annul keep self c = Some (c', rip) ->
  q_tail (ROB c')
  = foldl (fun t _ => add_index_modulo t (-1) ROB_SIZE) (q_tail (ROB c))
      (walk_down ROB_SIZE (add_index_modulo (q_tail (ROB c)) (-1) ROB_SIZE)
         (if keep then add_index_modulo eomidx 1 ROB_SIZE else somidx))
  /\ q_count (ROB c')
     = (q_count (ROB c)
        - length (walk_down ROB_SIZE (add_index_modulo (q_tail (ROB c)) (-1) ROB_SIZE)
                    (if keep then add_index_modulo eomidx 1 ROB_SIZE else somidx)))%nat.
Proof.
  intros Hsom Heom Hne.
  cbv beta delta [ReorderBufferEntry_annul]. rewrite Hsom, Heom.
  cbv beta iota delta [mbind option_bind].
  let_step s0.
  assert (Hs0 : s0 = if keep then add_index_modulo eomidx 1 ROB_SIZE else somidx) by reflexivity.
  clearbody s0. subst s0.
  rewrite decide_False by exact Hne.
  let_step e0.
  let_step c1.
  assert (H1 : ROB c1 = set_q_data (foldl (fun d i => alter (set_rob_iqslot (-1)) i d)
                                      (q_data (ROB c))
                                      (walk_down ROB_SIZE e0
                                         (if keep then add_index_modulo eomidx 1 ROB_SIZE
                                          else somidx))) (ROB c))
    by (subst c1; apply ROB_foldl_alter_ROB).
  clearbody c1.
  let_step c2.
  assert (H2 : ROB c2 = ROB c1)
    by (subst c2; apply ROB_foldl; intros; unfold PhysicalRegister.unspecref; apply ROB_unref).
  clearbody c2. let_step c3.
  assert (H3 : ROB c3 = ROB c1) by (subst c3; exact H2).
  clearbody c3. let_step c4.
  assert (H4 : ROB c4 = ROB c1)
    by (subst c4; rewrite ROB_foldl;
        [exact H3 | intros; unfold PhysicalRegister.addspecref; apply ROB_addref]).
  clearbody c4. let_step c5.
  assert (H5 : ROB c5 = ROB c1)
    by (subst c5; rewrite ROB_foldl; [exact H4 | intros; apply ROB_pseudocommit]).
  clearbody c5. let_step c6.
  destruct (ROB_foldl_annul_rob_extent
              (walk_down ROB_SIZE e0
                 (if keep then add_index_modulo eomidx 1 ROB_SIZE else somidx)) c5) as [H6 H7].
  fold c6 in H6, H7. clearbody c6.
  intros [= <- <-].
  rewrite H6, H7, H5, H1. split; reflexivity.
Qed.

(** The ROB after an annulment that has something to annul, slot by slot. *)
Lemma annul_ROB_slots (keep : bool) (self : nat) (c c' : Core) (rip : Z)
    (somidx eomidx : nat) :
  let startidx := if keep then add_index_modulo eomidx 1 ROB_SIZE else somidx in
  let tail := q_tail (ROB c) in
  (0 < ROB_SIZE)%nat -> length (q_data (ROB c)) = ROB_SIZE ->
  (self < ROB_SIZE)%nat -> (tail < ROB_SIZE)%nat ->
  scan_for (fun r => uop_som (rob_uop r)) (-1) ROB_SIZE c self = Some somidx ->
  scan_for (fun r => uop_eom (rob_uop r)) 1 ROB_SIZE c self = Some eomidx ->
  startidx <> tail ->
  ReorderBufferEntry_annul keep self c = Some (c', rip) ->
  q_tail (ROB c') = startidx
  /\ q_head (ROB c') = q_head (ROB c)
  /\ q_count (ROB c') = (q_count (ROB c) - Z.to_nat (ring_offset startidx tail))%nat
  /\ (forall i, (i < ROB_SIZE)%nat ->
        rob_uop (ROB_at c' i) = rob_uop (ROB_at c i)
        /\ if decide (ring_offset startidx i < ring_offset startidx tail)
           then rob_current_state_list (ROB_at c' i) = Some rob_free_list
                /\ rob_entry_valid (ROB_at c' i) = false
           else ROB_at c' i = ROB_at c i).
Proof.
  intros startidx tail HN Hlen Hself Htail Hsom Heom Hne Hannul.
  assert (Hstart : (startidx < ROB_SIZE)%nat).
  { subst startidx. destruct keep; [by apply add_index_modulo_lt |].
    by apply (scan_for_sound _ _ _ _ _ _ HN Hself Hsom). }
  set (endidx := add_index_modulo tail (-1) ROB_SIZE).
  assert (Hend : (endidx < ROB_SIZE)%nat) by by apply add_index_modulo_lt.
  assert (Hnz : ring_offset startidx tail <> 0).
  { intros H0. apply ring_offset_zero in H0; [| done | done]. congruence. }
  assert (Hoff : ring_offset startidx endidx = ring_offset startidx tail - 1)
    by (by apply ring_offset_pred).
  pose proof (ring_offset_range startidx tail HN) as Hrange.
  assert (Hfuel : ring_offset startidx endidx < Z.of_nat ROB_SIZE) by lia.
  destruct (walk_down_tail ROB_SIZE endidx startidx HN Hend Hstart Hfuel) as [Hwt Hwl].
  unfold endidx in Hwt at 1. rewrite add_index_modulo_pred_succ in Hwt by done.
  destruct (annul_ROB_extent keep self c c' rip somidx eomidx Hsom Heom Hne Hannul)
    as [Ht Hc].
  destruct (annul_ROB keep self c c' rip somidx eomidx Hsom Heom Hne Hannul)
    as (Hdata & Hhead & _).
  destruct (annul_entries keep self c c' rip somidx eomidx Hsom Heom Hne Hannul)
    as (Huop & Hfreed & _).
  fold startidx tail endidx in Ht, Hc, Hdata, Hfreed.
  split; [by rewrite Ht |]. split; [exact Hhead |]. split; [rewrite Hc; lia |].
  intros i Hi. split; [apply Huop |].
  destruct (decide (ring_offset startidx i < ring_offset startidx tail)) as [Hin | Hout].
  - apply Hfreed; [| lia].
    apply walk_down_elem; [done | done | done | lia | lia].
  - unfold ROB_at. rewrite !list_lookup_total_alt, Hdata.
    assert (Hni : i ∉ walk_down ROB_SIZE endidx startidx).
    { intros Hel. apply walk_down_elem_inv in Hel as [_ Hle]; [lia | done | done | done]. }
    by rewrite !foldl_alter_notin.
Qed.

End AnnulExtent.

Section AnnulSpec.
Context `{HwDef}.

(** X14. The recovery rip [annul()] returns, in terms of the ROB it is called
    on. With nothing to annul it is the rip of the uop itself. Otherwise
    [annul(true)] returns the [riptaken] of the first annulled uop, the one
    after the EOM uop of the macro-op, and [annul(false)] the rip of the SOM uop
    of the macro-op. *)
Theorem annul_recovery_rip_cases (keep : bool) (self : nat) (c c' : Core) (rip : Z)
    (somidx eomidx : nat) :
  scan_for (fun r => uop_som (rob_uop r)) (-1) ROB_SIZE c self = Some somidx ->
  scan_for (fun r => uop_eom (rob_uop r)) 1 ROB_SIZE c self = Some eomidx ->
  ReorderBufferEntry_annul keep self c = Some (c', rip) ->
  rip = if decide ((if keep then add_index_modulo eomidx 1 ROB_SIZE else somidx)
                   = q_tail (ROB c))
        then uop_rip (rob_uop (ROB_at c self))
        else if keep
             then uop_riptaken (rob_uop (ROB_at c (add_index_modulo eomidx 1 ROB_SIZE)))
             else uop_rip (rob_uop (ROB_at c somidx)).
Proof.
  intros Hsom Heom Hannul.
  pose proof (annul_recovery_rip keep self c c' rip somidx eomidx Hsom Heom Hannul) as Hrip.
  cbv zeta in Hrip. rewrite Hrip. by destruct keep.
Qed.

(** X15. What [annul()] does to the ROB when there is something to annul: the
    tail moves back to the first annulled uop, the head stays, the count drops
    by the number of slots between the two, every slot from the first annulled
    uop up to the old tail is reset and on the free list, and every other slot
    is as before. The uops themselves stay in the slots. *)
Theorem annul_frees_up_to_tail (keep : bool) (self : nat) (c c' : Core) (rip : Z)
    (somidx eomidx : nat) :
  let startidx := if keep then add_index_modulo eomidx 1 ROB_SIZE else somidx in
  let tail := q_tail (ROB c) in
  (0 < ROB_SIZE)%nat -> length (q_data (ROB c)) = ROB_SIZE ->
  (self < ROB_SIZE)%nat -> (tail < ROB_SIZE)%nat ->
  scan_for (fun r => uop_som (rob_uop r)) (-1) ROB_SIZE c self = Some somidx ->
  scan_for (fun r => uop_eom (rob_uop r)) 1 ROB_SIZE c self = Some eomidx ->
  startidx <> tail ->
  ReorderBufferEntry_annul keep self c = Some (c', rip) ->
  q_tail (ROB c') = startidx
  /\ q_head (ROB c') = q_head (ROB c)
  /\ q_count (ROB c') = (q_count (ROB c) - Z.to_nat (ring_offset startidx tail))%nat
  /\ (forall i, (i < ROB_SIZE)%nat ->
        rob_uop (ROB_at c' i) = rob_uop (ROB_at c i)
        /\ if decide (ring_offset startidx i < ring_offset startidx tail)
           then rob_current_state_list (ROB_at c' i) = Some rob_free_list
                /\ rob_entry_valid (ROB_at c' i) = false
           else ROB_at c' i = ROB_at c i).
Proof.
  intros startidx tail HN Hlen Hself Htail Hsom Heom Hne Hannul.
  assert (Hstart : (startidx < ROB_SIZE)%nat).
  { subst startidx. destruct keep; [by apply add_index_modulo_lt |].
    by apply (scan_for_sound _ _ _ _ _ _ HN Hself Hsom). }
  set (endidx := add_index_modulo tail (-1) ROB_SIZE).
  assert (Hend : (endidx < ROB_SIZE)%nat) by by apply add_index_modulo_lt.
  assert (Hnz : ring_offset startidx tail <> 0).
  { intros H0. apply ring_offset_zero in H0; [| done | done]. congruence. }
  assert (Hoff : ring_offset startidx endidx = ring_offset startidx tail - 1)
    by (by apply ring_offset_pred).
  pose proof (ring_offset_range startidx tail HN) as Hrange.
  assert (Hfuel : ring_offset startidx endidx < Z.of_nat ROB_SIZE) by lia.
  destruct (walk_down_tail ROB_SIZE endidx startidx HN Hend Hstart Hfuel) as [Hwt Hwl].
  unfold endidx in Hwt at 1. rewrite add_index_modulo_pred_succ in Hwt by done.
  destruct (annul_ROB_extent keep self c c' rip somidx eomidx Hsom Heom Hne Hannul)
    as [Ht Hc].
  destruct (annul_ROB keep self c c' rip somidx eomidx Hsom Heom Hne Hannul)
    as (Hdata & Hhead & _).
  destruct (annul_entries keep self c c' rip somidx eomidx Hsom Heom Hne Hannul)
    as (Huop & Hfreed & _).
  fold startidx tail endidx in Ht, Hc, Hdata, Hfreed.
  split; [by rewrite Ht |]. split; [exact Hhead |]. split; [rewrite Hc; lia |].
  intros i Hi. split; [apply Huop |].
  destruct (decide (ring_offset startidx i < ring_offset startidx tail)) as [Hin | Hout].
  - apply Hfreed; [| lia].
    apply walk_down_elem; [done | done | done | lia | lia].
  - unfold ROB_at. rewrite !list_lookup_total_alt, Hdata.
    assert (Hni : i ∉ walk_down ROB_SIZE endidx startidx).
    { intros Hel. apply walk_down_elem_inv in Hel as [_ Hle]; [lia | done | done | done]. }
    by rewrite !foldl_alter_notin.
Qed.

(** X16. [annul()] writes nothing outside the speculative side of the core: the
    committed rename table, the context, memory, the counters, the alias
    predictor, the basic block cache and the fetch unit are as before. The
    callers reset the fetch unit themselves. *)
Theorem annul_keeps_committed_state (keep : bool) (self : nat) (c c' : Core) (rip : Z) :
  ReorderBufferEntry_annul keep self c = Some (c', rip) ->
  commitrrt c' = commitrrt c
  /\ ctx_commitarf c' = ctx_commitarf c
  /\ ctx_exception c' = ctx_exception c
  /\ memory c' = memory c
  /\ stats c' = stats c
  /\ lsap c' = lsap c
  /\ bbcache c' = bbcache c
  /\ fetchrip c' = fetchrip c
  /\ fetchq c' = fetchq c
  /\ total_uops_committed c' = total_uops_committed c.
Proof.
  intros Hannul.
  pose proof (view_annul
                (fun c => (commitrrt c, ctx_commitarf c, ctx_exception c, memory c, stats c,
                           lsap c, bbcache c, fetchrip c, fetchq c, total_uops_committed c))
                ltac:(done) ltac:(done) ltac:(done) ltac:(done) ltac:(done) ltac:(done)
                keep self c c' rip Hannul) as Hv.
  cbv beta in Hv. injection Hv as -> -> -> -> -> -> -> -> -> ->. done.
Qed.

End AnnulSpec.

Section AnnulSpecExample.
#[local] Existing Instance example_hw.

Lemma annul_returns_iff_boundaries_exist_witness :
  is_Some (ReorderBufferEntry_annul true 0 branch_and_next_core)
  <-> (exists i, (i < ROB_SIZE)%nat /\ uop_som (rob_uop (ROB_at branch_and_next_core i)) = true)
      /\ (exists j, (j < ROB_SIZE)%nat
                    /\ uop_eom (rob_uop (ROB_at branch_and_next_core j)) = true).
Proof.
  apply (annul_returns_iff_boundaries_exist true 0 branch_and_next_core); vm_compute; lia.
Defined.

Lemma annul_recovery_rip_cases_witness :
  exists c', ReorderBufferEntry_annul true 0 branch_and_next_core = Some (c', 8196)
             /\ 8196 = uop_riptaken (rob_uop (ROB_at branch_and_next_core 1)).
Proof.
  assert (E : exists c', ReorderBufferEntry_annul true 0 branch_and_next_core = Some (c', 8196))
    by (vm_compute; eexists; reflexivity).
  destruct E as [c' E]. exists c'. split; [exact E |].
  exact (annul_recovery_rip_cases true 0 branch_and_next_core c' 8196 0 0 eq_refl eq_refl E).
Defined.

Lemma annul_frees_up_to_tail_witness :
  exists c', ReorderBufferEntry_annul true 0 branch_and_next_core = Some (c', 8196)
             /\ q_tail (ROB c') = 1%nat
             /\ q_count (ROB c') = 1%nat
             /\ rob_entry_valid (ROB_at c' 1) = false
             /\ ROB_at c' 0 = ROB_at branch_and_next_core 0.
Proof.
  assert (E : exists c', ReorderBufferEntry_annul true 0 branch_and_next_core = Some (c', 8196))
    by (vm_compute; eexists; reflexivity).
  destruct E as [c' E]. exists c'. split; [exact E |].
  destruct (annul_frees_up_to_tail true 0 branch_and_next_core c' 8196 0 0)
    as (Ht & _ & Hc & Hat); [vm_compute; lia | reflexivity | vm_compute; lia | vm_compute; lia
                            | reflexivity | reflexivity | vm_compute; lia | exact E |].
  split; [exact Ht |]. split; [exact Hc |].
  split; [apply (Hat 1%nat); vm_compute; lia | apply (Hat 0%nat); vm_compute; lia].
Defined.

Lemma annul_keeps_committed_state_witness :
  exists c', ReorderBufferEntry_annul true 0 branch_and_next_core = Some (c', 8196)
             /\ commitrrt c' = commitrrt branch_and_next_core
             /\ ctx_commitarf c' = ctx_commitarf branch_and_next_core
             /\ ctx_exception c' = ctx_exception branch_and_next_core
             /\ memory c' = memory branch_and_next_core
             /\ stats c' = stats branch_and_next_core
             /\ lsap c' = lsap branch_and_next_core
             /\ bbcache c' = bbcache branch_and_next_core
             /\ fetchrip c' = fetchrip branch_and_next_core
             /\ fetchq c' = fetchq branch_and_next_core
             /\ total_uops_committed c' = total_uops_committed branch_and_next_core.
Proof.
  assert (E : exists c', ReorderBufferEntry_annul true 0 branch_and_next_core = Some (c', 8196))
    by (vm_compute; eexists; reflexivity).
  destruct E as [c' E]. exists c'. split; [exact E |].
  exact (annul_keeps_committed_state true 0 branch_and_next_core c' 8196 E).
Defined.

End AnnulSpecExample.

(* --------------------------------------------------------------------- *)
(** ** More on stores *)
(* --------------------------------------------------------------------- *)

Section StoreFacts.
Context `{HwDef} `{Externals}.

(** The exception of a store is one of three. *)
Lemma store_exception_cases (uop : FetchBufferEntry) (ra rb : Z) :
  store_exception uop ra rb = EXCEPTION_UnalignedAccess
  \/ store_exception uop ra rb = 0
  \/ store_exception uop ra rb = EXCEPTION_PageFaultOnWrite.
Proof.
  unfold store_exception. destruct (store_address uop ra rb) as [[origaddr addr] annul].
  unfold check_access_alignment.
  destruct (decide _); [by left |]. right.
  destruct (annul || _); [by left |]. destruct (asp_fastcheck_write addr); [by left | by right].
Qed.

Lemma stat_store_resolve_address (n : string) (self : nat) (addr : Z) (c : Core) :
  bool_decide (n = "store_type_aligned") = false ->
  bool_decide (n = "store_type_unaligned") = false ->
  bool_decide (n = "store_type_internal") = false ->
  bool_decide (n = "store_size") = false ->
  stat n (store_resolve_address self addr c) = stat n c.
Proof.
  intros H1 H2 H3 H4. unfold store_resolve_address. cbv zeta.
  apply bool_decide_eq_false in H1, H2, H3, H4.
  unfold stat, bump. rewrite !stat_at_bump_at_ne by congruence. reflexivity.
Qed.

Lemma LSQ_at_bump (n : string) (v : Z) (c : Core) (i : nat) :
  LSQ_at (bump n v c) i = LSQ_at c i.
Proof. reflexivity. Qed.

Lemma LSQ_at_bump_at (n : string) (k v : Z) (c : Core) (i : nat) :
  LSQ_at (bump_at n k v c) i = LSQ_at c i.
Proof. reflexivity. Qed.

(** The LSQ entry of the store once its address is resolved. *)
Lemma LSQ_at_store_resolve_address (self : nat) (addr : Z) (c : Core) :
  (rob_lsq (ROB_at c self) < length (q_data (LSQ c)))%nat ->
  LSQ_at (store_resolve_address self addr c) (rob_lsq (ROB_at c self))
  = set_lsq_addrvalid true (set_lsq_datavalid false (set_lsq_invalid false
      (set_lsq_physaddr (Z.shiftr addr 3) (LSQ_at c (rob_lsq (ROB_at c self)))))).
Proof.
  intros Hlt. unfold store_resolve_address. cbv zeta.
  rewrite LSQ_at_bump_at, !LSQ_at_bump. by apply LSQ_at_alter_LSQ.
Qed.

Lemma outside_store_mark_resolve (self : nat) (addr : Z) (c : Core) :
  outside_store_mark (store_resolve_address self addr c) = outside_store_mark c.
Proof. reflexivity. Qed.

Lemma outside_store_mark_invalid (state : nat) (e : Z) (c : Core) :
  outside_store_mark (store_mark_invalid state e c) = outside_store_mark c.
Proof. reflexivity. Qed.

Lemma outside_store_mark_bump (n : string) (v : Z) (c : Core) :
  outside_store_mark (bump n v c) = outside_store_mark c.
Proof. reflexivity. Qed.

Lemma stat_store_mark_invalid (n : string) (state : nat) (e : Z) (c : Core) :
  stat n (store_mark_invalid state e c) = stat n c.
Proof. reflexivity. Qed.

(** [issuestore] when the address raises an exception. *)
Lemma issuestore_raises (self : nat) (ra rb rc : Z) (rcready : bool) (c : Core) :
  store_exception (rob_uop (ROB_at c self)) ra rb <> 0 ->
  ReorderBufferEntry_issuestore self ra rb rc rcready c
  = store_raise self (store_exception (rob_uop (ROB_at c self)) ra rb)
      (store_resolve_address self (store_address (rob_uop (ROB_at c self)) ra rb).1.2 c).
Proof.
  intros Hexc. unfold ReorderBufferEntry_issuestore. cbv zeta.
  destruct (store_address _ ra rb) as [[origaddr addr] annul].
  by rewrite decide_True.
Qed.

(** An exception other than a misaligned address: the store completes. *)
Lemma store_raise_other (self : nat) (e : Z) (c : Core) :
  e <> EXCEPTION_UnalignedAccess ->
  store_raise self e c
  = Some (bump "store_issue_exception" 1 (store_mark_invalid (rob_lsq (ROB_at c self)) e c),
          ISSUE_COMPLETED).
Proof.
  intros Hne. unfold store_raise. cbv zeta. by rewrite decide_False.
Qed.

Lemma outside_store_mark_eq (c' c : Core) :
  outside_store_mark c' = outside_store_mark c ->
  ROB c' = ROB c /\ physregs c' = physregs c /\ specrrt c' = specrrt c
  /\ commitrrt c' = commitrrt c /\ fetchrip c' = fetchrip c /\ fetchq c' = fetchq c
  /\ bbcache c' = bbcache c /\ unaligned_ldst_rips c' = unaligned_ldst_rips c
  /\ lsap c' = lsap c /\ memory c' = memory c.
Proof.
  unfold outside_store_mark. intros Hv.
  injection Hv as H1 H2 H3 H4 H5 H6 H7 H8 H9 H10. by repeat split.
Qed.

(** The store with its LSQ entry marked and the exception counted. *)
Lemma store_marked (state : nat) (e : Z) (c : Core) :
  (state < length (q_data (LSQ c)))%nat ->
  LSQ_at (bump "store_issue_exception" 1 (store_mark_invalid state e c)) state
  = set_lsq_datavalid true (set_lsq_data e (set_lsq_invalid true (LSQ_at c state)))
  /\ outside_store_mark (bump "store_issue_exception" 1 (store_mark_invalid state e c))
     = outside_store_mark c
  /\ stat "store_issue_exception" (bump "store_issue_exception" 1 (store_mark_invalid state e c))
     = W64 (stat "store_issue_exception" c + 1).
Proof.
  intros Hlt. split; [| split].
  - rewrite LSQ_at_bump. unfold store_mark_invalid. by apply LSQ_at_alter_LSQ.
  - reflexivity.
  - by rewrite stat_bump, stat_store_mark_invalid.
Qed.

(** X17. A store whose address is aligned but not mapped for writing is
    neither annulled nor replayed by [issuestore]: it returns ISSUE_COMPLETED
    with the LSQ entry marked invalid and [EXCEPTION_PageFaultOnWrite] as its
    data, the address still recorded as valid, and counts the exception.
    [issuestore] itself annuls nothing and leaves the fetch unit alone: the ROB,
    the registers, the speculative rename table, [fetchrip], the fetch queue
    and [stall_frontend] are as before. *)
Theorem store_page_fault_completes (self : nat) (ra rb rc : Z) (rcready : bool) (c : Core) :
  let uop := rob_uop (ROB_at c self) in
  let state := rob_lsq (ROB_at c self) in
  (state < length (q_data (LSQ c)))%nat ->
  store_exception uop ra rb <> 0 ->
  store_exception uop ra rb <> EXCEPTION_UnalignedAccess ->
  exists c',
    ReorderBufferEntry_issuestore self ra rb rc rcready c = Some (c', ISSUE_COMPLETED)
    /\ store_exception uop ra rb = EXCEPTION_PageFaultOnWrite
    /\ lsq_invalid (LSQ_at c' state) = true
    /\ lsq_data (LSQ_at c' state) = EXCEPTION_PageFaultOnWrite
    /\ lsq_datavalid (LSQ_at c' state) = true
    /\ lsq_addrvalid (LSQ_at c' state) = true
    /\ lsq_physaddr (LSQ_at c' state) = Z.shiftr (store_address uop ra rb).1.2 3
    /\ ROB c' = ROB c /\ physregs c' = physregs c /\ specrrt c' = specrrt c
    /\ fetchrip c' = fetchrip c /\ fetchq c' = fetchq c
    /\ stall_frontend c' = stall_frontend c
    /\ stat "store_issue_exception" c' = W64 (stat "store_issue_exception" c + 1).
Proof.
  cbv zeta. intros Hstate Hnz Hnu.
  assert (Hpf : store_exception (rob_uop (ROB_at c self)) ra rb = EXCEPTION_PageFaultOnWrite)
    by (destruct (store_exception_cases (rob_uop (ROB_at c self)) ra rb) as [? | [? | ?]]; done).
  rewrite issuestore_raises by exact Hnz.
  rewrite store_raise_other by exact Hnu.
  generalize (store_address (rob_uop (ROB_at c self)) ra rb).1.2. intros addr.
  pose proof (LSQ_at_store_resolve_address self addr c Hstate) as Hent.
  pose proof (outside_store_mark_resolve self addr c) as Hout.
  pose proof (stat_store_resolve_address "store_issue_exception" self addr c
                eq_refl eq_refl eq_refl eq_refl) as Hstat.
  destruct (store_resolve_address_frame self addr c) as (HROB & _ & _ & Hlen & _).
  assert (Hstate1 : rob_lsq (ROB_at (store_resolve_address self addr c) self)
                    = rob_lsq (ROB_at c self)) by (unfold ROB_at; by rewrite HROB).
  rewrite Hstate1.
  destruct (store_marked (rob_lsq (ROB_at c self))
              (store_exception (rob_uop (ROB_at c self)) ra rb)
              (store_resolve_address self addr c)) as (Hent2 & Hout2 & Hstat2); [lia |].
  assert (Hstall : stall_frontend
                     (bump "store_issue_exception" 1
                        (store_mark_invalid (rob_lsq (ROB_at c self))
                           (store_exception (rob_uop (ROB_at c self)) ra rb)
                           (store_resolve_address self addr c)))
                   = stall_frontend c) by reflexivity.
  eexists. split; [reflexivity |]. split; [exact Hpf |].
  rewrite Hent2, Hent, Hstat2, Hstat, Hstall.
  destruct (outside_store_mark_eq _ _ (eq_trans Hout2 Hout))
    as (-> & -> & -> & _ & -> & -> & _).
  rewrite Hpf.
  repeat match goal with |- _ /\ _ => split end; reflexivity.
Qed.

End StoreFacts.

Section UnalignedStore.
Context `{HwDef} `{Externals}.

(** A misaligned address: the macro-op is annulled and fetched again. *)
Lemma store_raise_unaligned (self : nat) (c : Core) (somidx eomidx : nat) :
  scan_for (fun r => uop_som (rob_uop r)) (-1) ROB_SIZE c self = Some somidx ->
  scan_for (fun r => uop_eom (rob_uop r)) 1 ROB_SIZE c self = Some eomidx ->
  exists ca,
    store_raise self EXCEPTION_UnalignedAccess c
    = Some (bump "store_issue_unaligned" 1
              (reset_fetch_unit
                 (if decide (somidx = q_tail (ROB c)) then uop_rip (rob_uop (ROB_at c self))
                  else uop_rip (rob_uop (ROB_at c somidx))) ca),
            ISSUE_MISSPECULATED)
    /\ bbcache ca = bbcache c ∖ {[uop_rip (rob_uop (ROB_at c self))]}
    /\ unaligned_ldst_rips ca = {[uop_rip (rob_uop (ROB_at c self))]} ∪ unaligned_ldst_rips c
    /\ stat "store_issue_unaligned" ca = stat "store_issue_unaligned" c
    /\ stat "bbcache_removes" ca = W64 (stat "bbcache_removes" c + 1)
    /\ exists m rr, ROB m = ROB c /\ ReorderBufferEntry_annul false self m = Some (ca, rr).
Proof.
  intros Hsom Heom. unfold store_raise. cbv zeta. rewrite decide_True by done.
  set (m := set_unaligned_ldst_rips _ _).
  assert (HROB : ROB m = ROB c) by reflexivity.
  assert (Hbb : bbcache m = bbcache c ∖ {[uop_rip (rob_uop (ROB_at c self))]}) by reflexivity.
  assert (Hun : unaligned_ldst_rips m
                = {[uop_rip (rob_uop (ROB_at c self))]} ∪ unaligned_ldst_rips c) by reflexivity.
  assert (Hs1 : stat "store_issue_unaligned" m = stat "store_issue_unaligned" c).
  { subst m. unfold stat, bump.
    change (stat_at ?n ?k (set_unaligned_ldst_rips ?x ?y)) with (stat_at n k y).
    rewrite stat_at_bump_at_ne by congruence. reflexivity. }
  assert (Hs2 : stat "bbcache_removes" m = W64 (stat "bbcache_removes" c + 1)).
  { subst m. unfold stat, bump.
    change (stat_at ?n ?k (set_unaligned_ldst_rips ?x ?y)) with (stat_at n k y).
    rewrite stat_at_bump_at. reflexivity. }
  clearbody m.
  destruct (annul_returns false self m somidx eomidx) as (ca & rr & Hannul);
    [by rewrite (scan_for_same_ROB _ _ _ c m _ HROB)
    | by rewrite (scan_for_same_ROB _ _ _ c m _ HROB) |].
  pose proof (annul_recovery_rip false self m ca rr somidx eomidx
                ltac:(by rewrite (scan_for_same_ROB _ _ _ c m _ HROB))
                ltac:(by rewrite (scan_for_same_ROB _ _ _ c m _ HROB)) Hannul) as Hrr.
  cbv zeta in Hrr. unfold ROB_at in Hrr. rewrite HROB in Hrr. fold (ROB_at c self) in Hrr.
  fold (ROB_at c somidx) in Hrr.
  unfold annul_after_and_including. rewrite Hannul. cbn [mbind option_bind].
  exists ca. rewrite Hrr. split; [reflexivity |].
  pose proof (view_annul
                (fun c => (bbcache c, unaligned_ldst_rips c, stat "store_issue_unaligned" c,
                           stat "bbcache_removes" c))
                ltac:(done) ltac:(done) ltac:(done) ltac:(done) ltac:(done) ltac:(done)
                false self m ca rr Hannul) as Hv.
  cbv beta in Hv. injection Hv as -> -> -> ->.
  repeat (split; [done |]). by exists m, rr.
Qed.


(** X18. A store to a misaligned address is not executed: [issuestore] returns
    ISSUE_MISSPECULATED after taking the basic block of the uop out of the
    basic block cache, recording its rip among the unaligned loads and stores,
    annulling the whole macro-op and everything after it, and restarting fetch
    with an empty fetch queue at the rip of the first uop of the macro-op.
    Annulling means for the ROB: the tail moves back to the SOM uop of the
    store's macro-op, the head stays, the count drops by the number of slots
    from that uop up to the old tail, and every one of these slots is marked
    not valid and put on the free list, its uop left in place, the store's own
    slot among them when it lies in that range; the other slots are as before.
    When the SOM uop found is at the tail there is nothing to annul and the ROB
    is left alone. *)
Theorem unaligned_store_is_fetched_again (self : nat) (ra rb rc : Z) (rcready : bool)
    (c : Core) (somidx eomidx : nat) :
  let uop := rob_uop (ROB_at c self) in
  let tail := q_tail (ROB c) in
  (0 < ROB_SIZE)%nat -> length (q_data (ROB c)) = ROB_SIZE ->
  (self < ROB_SIZE)%nat -> (tail < ROB_SIZE)%nat ->
  EXCEPTION_UnalignedAccess <> 0 ->
  store_exception uop ra rb = EXCEPTION_UnalignedAccess ->
  scan_for (fun r => uop_som (rob_uop r)) (-1) ROB_SIZE c self = Some somidx ->
  scan_for (fun r => uop_eom (rob_uop r)) 1 ROB_SIZE c self = Some eomidx ->
  exists c',
    ReorderBufferEntry_issuestore self ra rb rc rcready c = Some (c', ISSUE_MISSPECULATED)
    /\ uop_rip uop ∈ unaligned_ldst_rips c'
    /\ (uop_rip uop ∉ bbcache c')
    /\ (forall rip, rip <> uop_rip uop -> (rip ∈ bbcache c' <-> rip ∈ bbcache c))
    /\ fetchq c' = []
    /\ fetchrip c' = (if decide (somidx = tail) then uop_rip uop
                      else uop_rip (rob_uop (ROB_at c somidx)))
    /\ stat "store_issue_unaligned" c' = W64 (stat "store_issue_unaligned" c + 1)
    /\ stat "bbcache_removes" c' = W64 (stat "bbcache_removes" c + 1)
    /\ (somidx = tail -> ROB c' = ROB c)
    /\ (somidx <> tail ->
        q_tail (ROB c') = somidx
        /\ q_head (ROB c') = q_head (ROB c)
        /\ q_count (ROB c') = (q_count (ROB c) - Z.to_nat (ring_offset somidx tail))%nat
        /\ (forall i, (i < ROB_SIZE)%nat ->
              rob_uop (ROB_at c' i) = rob_uop (ROB_at c i)
              /\ if decide (ring_offset somidx i < ring_offset somidx tail)
                 then rob_current_state_list (ROB_at c' i) = Some rob_free_list
                      /\ rob_entry_valid (ROB_at c' i) = false
                 else ROB_at c' i = ROB_at c i)
        /\ (ring_offset somidx self < ring_offset somidx tail ->
            rob_current_state_list (ROB_at c' self) = Some rob_free_list
            /\ rob_entry_valid (ROB_at c' self) = false)).
Proof.
  cbv zeta. intros HN Hlen Hself Htail Hnz Hexc Hsom Heom.
  rewrite issuestore_raises by (rewrite Hexc; exact Hnz). rewrite Hexc.
  generalize (store_address (rob_uop (ROB_at c self)) ra rb).1.2. intros addr.
  pose proof (outside_store_mark_resolve self addr c) as Hout.
  apply outside_store_mark_eq in Hout as (HROB & _ & _ & _ & _ & _ & Hbb & Hun & _).
  pose proof (stat_store_resolve_address "store_issue_unaligned" self addr c
                eq_refl eq_refl eq_refl eq_refl) as Hs1.
  pose proof (stat_store_resolve_address "bbcache_removes" self addr c
                eq_refl eq_refl eq_refl eq_refl) as Hs2.
  destruct (store_raise_unaligned self (store_resolve_address self addr c) somidx eomidx)
    as (ca & -> & Hbbca & Hunca & Hs1ca & Hs2ca & m & rr & HROBm & Hannul);
    [by rewrite (scan_for_same_ROB _ _ _ c _ _ HROB)
    | by rewrite (scan_for_same_ROB _ _ _ c _ _ HROB) |].
  rewrite HROB in HROBm.
  assert (Hsomm : scan_for (fun r => uop_som (rob_uop r)) (-1) ROB_SIZE m self = Some somidx)
    by (by rewrite (scan_for_same_ROB _ _ _ c m _ HROBm)).
  assert (Heomm : scan_for (fun r => uop_eom (rob_uop r)) 1 ROB_SIZE m self = Some eomidx)
    by (by rewrite (scan_for_same_ROB _ _ _ c m _ HROBm)).
  assert (Hslots :
    (somidx = q_tail (ROB c) -> ROB ca = ROB c)
    /\ (somidx <> q_tail (ROB c) ->
        q_tail (ROB ca) = somidx
        /\ q_head (ROB ca) = q_head (ROB c)
        /\ q_count (ROB ca)
           = (q_count (ROB c) - Z.to_nat (ring_offset somidx (q_tail (ROB c))))%nat
        /\ (forall i, (i < ROB_SIZE)%nat ->
              rob_uop (ROB_at ca i) = rob_uop (ROB_at c i)
              /\ if decide (ring_offset somidx i < ring_offset somidx (q_tail (ROB c)))
                 then rob_current_state_list (ROB_at ca i) = Some rob_free_list
                      /\ rob_entry_valid (ROB_at ca i) = false
                 else ROB_at ca i = ROB_at c i))).
  { split.
    - intros Heq. unfold ReorderBufferEntry_annul in Hannul. rewrite Hsomm, Heomm in Hannul.
      cbv beta iota zeta delta [mbind option_bind] in Hannul.
      rewrite decide_True in Hannul by (by rewrite HROBm).
      injection Hannul as <- _. exact HROBm.
    - intros Hne.
      pose proof (annul_ROB_slots false self m ca rr somidx eomidx HN
                    ltac:(by rewrite HROBm) Hself ltac:(by rewrite HROBm) Hsomm Heomm
                    ltac:(by rewrite HROBm) Hannul) as Hs.
      cbv zeta in Hs. unfold ROB_at in Hs. rewrite HROBm in Hs. exact Hs. }
  clear Hannul Hsomm Heomm HROBm m rr.
  unfold ROB_at in *. rewrite HROB in *. rewrite Hbb in Hbbca. rewrite Hun in Hunca.
  rewrite Hs1 in Hs1ca. rewrite Hs2 in Hs2ca.
  eexists. split; [reflexivity |].
  change (unaligned_ldst_rips (bump ?n ?v (reset_fetch_unit ?r ca)))
    with (unaligned_ldst_rips ca).
  change (bbcache (bump ?n ?v (reset_fetch_unit ?r ca))) with (bbcache ca).
  change (ROB (bump ?n ?v (reset_fetch_unit ?r ca))) with (ROB ca).
  rewrite Hunca, Hbbca.
  split; [set_solver |]. split; [set_solver |]. split; [set_solver |].
  split; [reflexivity |]. split; [reflexivity |].
  rewrite stat_bump.
  change (stat ?n (reset_fetch_unit ?r ca)) with (stat n ca). rewrite Hs1ca.
  split; [reflexivity |].
  rewrite stat_bump_ne by reflexivity.
  change (stat ?n (reset_fetch_unit ?r ca)) with (stat n ca).
  split; [exact Hs2ca |].
  destruct Hslots as [Hsame Hann]. split; [exact Hsame |].
  intros Hne. destruct (Hann Hne) as (Ht & Hh & Hc & Hi).
  split; [exact Ht |]. split; [exact Hh |]. split; [exact Hc |]. split; [exact Hi |].
  intros Hoff. destruct (Hi self Hself) as [_ Hs].
  rewrite decide_True in Hs by exact Hoff. exact Hs.
Qed.

End UnalignedStore.

Section SplitStore.
Context `{HwDef}.




End SplitStore.

Section StoreFaultExample.
#[local] Existing Instance example_hw.
#[local] Existing Instance unmapped_externals.

Lemma store_page_fault_completes_witness :
  exists c',
    ReorderBufferEntry_issuestore 0 4096 0 7 true aliasing_core = Some (c', ISSUE_COMPLETED)
    /\ lsq_invalid (LSQ_at c' 0) = true
    /\ lsq_data (LSQ_at c' 0) = EXCEPTION_PageFaultOnWrite
    /\ ROB c' = ROB aliasing_core
    /\ stall_frontend c' = stall_frontend aliasing_core.
Proof.
  destruct (store_page_fault_completes 0 4096 0 7 true aliasing_core)
    as (c' & Hissue & _ & Hinv & Hdata & _ & _ & _ & HROB & _ & _ & _ & _ & Hstall & _).
  - vm_compute. lia.
  - vm_compute. discriminate.
  - vm_compute. discriminate.
  - exists c'. split; [exact Hissue |]. split; [exact Hinv |]. split; [exact Hdata |].
    split; [exact HROB | exact Hstall].
Defined.

End StoreFaultExample.

Section UnalignedStoreExample.
#[local] Existing Instance example_hw.
#[local] Existing Instance mapped_externals.

Lemma unaligned_store_is_fetched_again_witness :
  exists c',
    ReorderBufferEntry_issuestore 0 4097 0 7 true aliasing_core = Some (c', ISSUE_MISSPECULATED)
    /\ 4096 ∈ unaligned_ldst_rips c'
    /\ fetchq c' = [] /\ fetchrip c' = 4096
    /\ q_tail (ROB c') = 0%nat
    /\ rob_current_state_list (ROB_at c' 0) = Some rob_free_list
    /\ rob_current_state_list (ROB_at c' 1) = Some rob_free_list.
Proof.
  destruct (unaligned_store_is_fetched_again 0 4097 0 7 true aliasing_core 0 0)
    as (c' & Hissue & Hun & _ & _ & Hfq & Hrip & _ & _ & _ & Hrob).
  - vm_compute. lia.
  - reflexivity.
  - vm_compute. lia.
  - vm_compute. lia.
  - vm_compute. discriminate.
  - reflexivity.
  - reflexivity.
  - reflexivity.
  - destruct Hrob as (Ht & _ & _ & Hi & _); [vm_compute; discriminate |].
    exists c'. split; [exact Hissue |]. split; [exact Hun |]. split; [exact Hfq |].
    split; [exact Hrip |]. split; [exact Ht |].
    destruct (Hi 0%nat) as [_ H0]; [vm_compute; lia |].
    destruct (Hi 1%nat) as [_ H1]; [vm_compute; lia |].
    split; [exact (proj1 H0) | exact (proj1 H1)].
Defined.


End UnalignedStoreExample.

(* --------------------------------------------------------------------- *)
(** ** More on issue *)
(* --------------------------------------------------------------------- *)

Section IssueFacts.
Context `{HwDef} `{Externals}.

Lemma propagate_view_bump_at (self : nat) (k : Z) (n : string) (j v : Z) (c : Core) :
  n <> "branchpred_total_correct" -> n <> "branchpred_total_mispred" ->
  n <> "issue_opclass_histogram" -> n <> "issue_result_exception" ->
  propagate_view self k (bump_at n j v c) = propagate_view self k c.
Proof.
  intros H1 H2 H3 H4. unfold propagate_view, stat.
  rewrite issue_view_bump_at by done.
  rewrite !stat_at_bump_at_ne by congruence. reflexivity.
Qed.

Lemma propagate_view_alter_ROB (self : nat) (k : Z)
    (f : ReorderBufferEntry -> ReorderBufferEntry) (i : nat) (c : Core) :
  (forall r, rob_entry_valid (f r) = rob_entry_valid r) ->
  (forall r, rob_uop (f r) = rob_uop r) ->
  (forall r, rob_physreg (f r) = rob_physreg r) ->
  propagate_view self k (alter_ROB f i c) = propagate_view self k c.
Proof.
  intros Hv Hu Hp. unfold propagate_view.
  rewrite issue_view_alter_ROB by done. rewrite length_alter_ROB. reflexivity.
Qed.

Lemma propagate_view_issue_source (self : nat) (k : Z) (r : nat) (c : Core) :
  propagate_view self k (issue_source r c) = propagate_view self k c.
Proof.
  unfold propagate_view. rewrite issue_view_issue_source.
  unfold issue_source. cbv zeta.
  change (memory (alter_physreg ?f ?i ?x)) with (memory x).
  change (ROB (alter_physreg ?f ?i ?x)) with (ROB x).
  change (stat_at ?n ?j (alter_physreg ?f ?i ?x)) with (stat_at n j x).
  change (stat ?n (alter_physreg ?f ?i ?x)) with (stat n x).
  unfold stat. rewrite !stat_at_bump_at_ne by congruence. reflexivity.
Qed.

End IssueFacts.

Ltac propagate_prim self :=
  cbv beta zeta;
  repeat first
    [ assumption
    | reflexivity
    | rewrite propagate_view_issue_source
    | rewrite propagate_view_bump_at by discriminate
    | rewrite propagate_view_alter_ROB by (intros; reflexivity)
    | progress unfold ReorderBufferEntry.changestate, bump
    | match goal with
      | |- propagate_view _ _ (if ?b then _ else _) = _ => destruct b
      | Hx : propagate_view self ?k ?x = propagate_view self ?k ?c
        |- propagate_view self ?k _ = propagate_view self ?k ?c =>
          transitivity (propagate_view self k x); [reflexivity | exact Hx]
      end ].

Section IssuePropagate.
Context `{HwDef} `{Externals}.

(** [issue()] up to the point where it finds an invalid operand. *)
Lemma issue_propagates (self : nat) (k : Z) (c : Core) :
  Z.land (Z.land (opinfo_fu (uop_opcode (rob_uop (ROB_at c self))))
            (clusters_fu_mask (rob_cluster (ROB_at c self)))) (fu_avail c) <> 0 ->
  operands_valid (issue_input (ROB_at c self) c) = false ->
  exists c1,
    propagate_view self k c1 = propagate_view self k c
    /\ ReorderBufferEntry_issue self c = issue_result self EXCEPTION_Propagate FLAG_INV c1.
Proof.
  intros Hfu Hops.
  cbv beta delta [ReorderBufferEntry_issue].
  let_chain (fun x => propagate_view self k x = propagate_view self k c)
            ltac:(propagate_prim self).
  match goal with
  | Hx : propagate_view self k ?x = propagate_view self k c |- _ =>
      exists x; split; [exact Hx |]
  end.
  match goal with
  | x := issue_input ?r ?y |- _ =>
      assert (Hin : x = issue_input r c)
        by (subst x; apply issue_input_operand_view;
            match goal with
            | Hy : propagate_view self k y = _ |- _ =>
                exact (f_equal (fun v => v.1.1.1.1.2) Hy)
            end);
      clearbody x; subst x
  end.
  repeat match goal with x := _ |- _ => subst x end.
  rewrite decide_False by exact Hfu.
  unfold operands_valid in Hops. apply bool_decide_eq_false in Hops.
  rewrite decide_True by exact Hops. reflexivity.
Qed.


(** X20. An invalid operand is propagated without executing the uop. When one
    of the operands read at issue carries [FLAG_INV], [issue()] returns 1 with
    the destination register holding [EXCEPTION_Propagate] and [FLAG_INV], the
    ROB entry moved straight to the commit queue with no cycles left, and the
    frontend stalled. Neither the semantic callback nor the load or store path
    runs: nothing is redirected or annulled, the LSQ and memory are as before,
    and the uop is not counted among the executed ones. *)
Theorem invalid_operand_propagates (self : nat) (c : Core) :
  let rob := ROB_at c self in
  let uop := rob_uop rob in
  FLAG_INV <> 0 ->
  (self < length (q_data (ROB c)))%nat ->
  (rob_physreg rob < length (physregs c))%nat ->
  Z.land (Z.land (opinfo_fu (uop_opcode uop)) (clusters_fu_mask (rob_cluster rob))) (fu_avail c) <> 0 ->
  operands_valid (issue_input rob c) = false ->
  exists c',
    ReorderBufferEntry_issue self c = Some (c', 1)
    /\ physreg_data (physreg_at c' (rob_physreg rob)) = EXCEPTION_Propagate
    /\ physreg_flags (physreg_at c' (rob_physreg rob)) = FLAG_INV
    /\ rob_current_state_list (ROB_at c' self) = Some rob_ready_to_commit_queue
    /\ rob_cycles_left (ROB_at c' self) = 0
    /\ stall_frontend c' = true
    /\ redirect_state c' = redirect_state c
    /\ memory c' = memory c
    /\ stat "issue_result_exception" c' = W64 (stat "issue_result_exception" c + 1)
    /\ stat_at "issue_opclass_histogram" (opclassof (uop_opcode uop)) c'
       = stat_at "issue_opclass_histogram" (opclassof (uop_opcode uop)) c.
Proof.
  cbv zeta. intros Hinv Hself Hp Hfu Hops.
  destruct (issue_propagates self (opclassof (uop_opcode (rob_uop (ROB_at c self)))) c Hfu Hops)
    as (c1 & Hv & ->).
  pose proof (f_equal (fun v => v.1.1.1.1.1) Hv) as Hbv.
  pose proof (f_equal (fun v => v.1.1.1.2) Hv) as Hhist.
  pose proof (f_equal (fun v => v.1.1.2) Hv) as Hexc.
  pose proof (f_equal (fun v => v.1.2) Hv) as Hmem.
  pose proof (f_equal (fun v => v.2) Hv) as Hlen.
  cbn [fst snd propagate_view issue_view] in Hbv, Hhist, Hexc, Hmem, Hlen. clear Hv.
  apply branch_view_eq in Hbv as (Hred & _ & _ & Hplen & _ & Hpr).
  rewrite issue_result_invalid by (rewrite ?Z.land_diag, ?Hpr, ?Hplen; done).
  rewrite Hpr.
  destruct (issue_result_invalid_core self (opclassof (uop_opcode (rob_uop (ROB_at c self))))
              EXCEPTION_Propagate FLAG_INV (rob_physreg (ROB_at c self)) c1)
    as (Hbv' & Hd & Hf & Hst & Hcl & Hsf & Hm & Hs & Hh); [lia | lia |].
  apply branch_view_eq in Hbv' as (Hred' & _).
  eexists. split; [reflexivity |].
  rewrite Hd, Hf, Hst, Hcl, Hsf, Hred', Hm, Hs, Hh, Hred, Hmem, Hexc, Hhist.
  repeat match goal with |- _ /\ _ => split end; reflexivity.
Qed.

End IssuePropagate.

Section IssuePropagateExample.
#[local] Existing Instance example_hw.
#[local] Existing Instance unmapped_externals.

Lemma invalid_operand_propagates_witness :
  exists c',
    ReorderBufferEntry_issue 0 propagating_core = Some (c', 1)
    /\ physreg_data (physreg_at c' 41) = EXCEPTION_Propagate
    /\ physreg_flags (physreg_at c' 41) = FLAG_INV
    /\ rob_current_state_list (ROB_at c' 0) = Some rob_ready_to_commit_queue
    /\ stall_frontend c' = true.
Proof.
  destruct (invalid_operand_propagates 0 propagating_core)
    as (c' & Hissue & Hd & Hf & Hst & _ & Hsf & _).
  - vm_compute. discriminate.
  - vm_compute. lia.
  - vm_compute. lia.
  - vm_compute. discriminate.
  - vm_compute. reflexivity.
  - exists c'. split; [exact Hissue |]. split; [exact Hd |]. split; [exact Hf |].
    split; [exact Hst | exact Hsf].
Defined.

End IssuePropagateExample.

(* --------------------------------------------------------------------- *)
(** ** The countdowns of the frontend and of the functional units *)
(* --------------------------------------------------------------------- *)

Section RobLoops.
Context `{HwDef}.

(** A loop over distinct ROBs in which each step rewrites its own entry. *)
Lemma rob_loop (step : nat -> Core -> Core) (g : ReorderBufferEntry -> ReorderBufferEntry) :
  (forall i j c, ROB_at (step i c) j
     = if decide (i = j /\ (j < length (q_data (ROB c)))%nat) then g (ROB_at c j)
       else ROB_at c j) ->
  (forall i c, length (q_data (ROB (step i c))) = length (q_data (ROB c))) ->
  forall (l : list nat) (c : Core), NoDup l ->
    length (q_data (ROB (foldl (fun c rob => step rob c) c l))) = length (q_data (ROB c))
    /\ forall j, ROB_at (foldl (fun c rob => step rob c) c l) j
         = if decide (j ∈ l /\ (j < length (q_data (ROB c)))%nat) then g (ROB_at c j)
           else ROB_at c j.
Proof.
  intros Hstep Hlen l. induction l as [| i l IH]; intros c Hnd; cbn [foldl].
  - split; [done |]. intros j. rewrite decide_False; [done |].
    intros [Hin _]. by apply elem_of_nil in Hin.
  - apply NoDup_cons in Hnd as [Hni Hnd].
    destruct (IH (step i c) Hnd) as (Hl & Hat).
    split; [by rewrite Hl, Hlen |].
    intros j. rewrite Hat, Hlen, Hstep.
    repeat case_decide; try reflexivity; exfalso;
      rewrite ?elem_of_cons in *; intuition (subst; tauto || lia || congruence).
Qed.

Lemma elem_of_rob_state_list (l : rob_list) (c : Core) (i : nat) :
  i ∈ rob_state_list l c <-> (i < ROB_SIZE)%nat /\ rob_current_state_list (ROB_at c i) = Some l.
Proof.
  unfold rob_state_list. rewrite list_elem_of_filter, elem_of_seq. intuition lia.
Qed.

Lemma NoDup_rob_state_list (l : rob_list) (c : Core) : NoDup (rob_state_list l c).
Proof. unfold rob_state_list. apply NoDup_filter, NoDup_seq. Qed.

(** What one call of [frontend()] does to an entry of the frontend list. *)
Lemma ROB_at_frontend_rob (i j : nat) (c : Core) :
  ROB_at (FrontendStage.frontend_rob i c) j
  = if decide (i = j /\ (j < length (q_data (ROB c)))%nat)
    then (fun r => if decide (rob_cycles_left r <= 0)
                   then set_rob_cycles_left (-2)
                          (set_rob_current_state_list (Some rob_ready_to_dispatch_list) r)
                   else set_rob_cycles_left (W16s (rob_cycles_left r - 1)) r) (ROB_at c j)
    else ROB_at c j.
Proof.
  unfold FrontendStage.frontend_rob. cbv zeta.
  destruct (decide (rob_cycles_left (ROB_at c i) <= 0)) as [Hle | Hgt].
  - unfold ReorderBufferEntry.changestate.
    rewrite !ROB_at_alter_ROB, !length_alter_ROB.
    destruct (decide (i = j /\ _)) as [[<- Hlt] | Hno]; [| done].
    cbv beta. rewrite decide_True by done.
    destruct (ROB_at c i). reflexivity.
  - rewrite ROB_at_alter_ROB.
    destruct (decide (i = j /\ _)) as [[<- Hlt] | Hno]; [| done].
    cbv beta. by rewrite decide_False by done.
Qed.

Lemma length_frontend_rob (i : nat) (c : Core) :
  length (q_data (ROB (FrontendStage.frontend_rob i c))) = length (q_data (ROB c)).
Proof.
  unfold FrontendStage.frontend_rob, ReorderBufferEntry.changestate. cbv zeta.
  destruct (decide _); by rewrite !length_alter_ROB.
Qed.

Lemma ROB_at_frontend (j : nat) (c : Core) :
  length (q_data (ROB (FrontendStage.frontend c))) = length (q_data (ROB c))
  /\ ROB_at (FrontendStage.frontend c) j
     = if decide ((j < ROB_SIZE)%nat /\ (j < length (q_data (ROB c)))%nat
                  /\ rob_current_state_list (ROB_at c j) = Some rob_frontend_list)
       then if decide (rob_cycles_left (ROB_at c j) <= 0)
            then set_rob_cycles_left (-2)
                   (set_rob_current_state_list (Some rob_ready_to_dispatch_list) (ROB_at c j))
            else set_rob_cycles_left (W16s (rob_cycles_left (ROB_at c j) - 1)) (ROB_at c j)
       else ROB_at c j.
Proof.
  unfold FrontendStage.frontend.
  destruct (rob_loop FrontendStage.frontend_rob _ ROB_at_frontend_rob length_frontend_rob
              (rob_state_list rob_frontend_list c) c (NoDup_rob_state_list _ _)) as [Hl Hat].
  split; [exact Hl |]. rewrite Hat. cbv beta.
  destruct (decide (j ∈ _ /\ _)) as [[Hin Hlt] | Hno].
  - apply elem_of_rob_state_list in Hin as [Hj Hst].
    destruct (decide ((j < ROB_SIZE)%nat /\ _)) as [| Hn]; [done |].
    exfalso. apply Hn. repeat split; assumption.
  - destruct (decide ((j < ROB_SIZE)%nat /\ _)) as [(Hj & Hlt & Hst) |]; [| done].
    exfalso. apply Hno. split; [by apply elem_of_rob_state_list | done].
Qed.

(** X21. The frontend holds a uop for [cycles_left + 1] calls of [frontend()]:
    an entry on the frontend list with [cycles_left = k >= 0] is counted down by
    one per call while it stays on the list, and the call after it has reached
    zero moves it to the ready-to-dispatch list, with [cycles_left] left at -2.
    Later calls do not touch it. *)
Theorem frontend_holds_uop_for_its_stages (n i : nat) (c : Core) :
  (i < ROB_SIZE)%nat -> (i < length (q_data (ROB c)))%nat ->
  rob_current_state_list (ROB_at c i) = Some rob_frontend_list ->
  0 <= rob_cycles_left (ROB_at c i) < 2 ^ 15 ->
  ROB_at (Nat.iter n FrontendStage.frontend c) i
  = if decide (Z.of_nat n <= rob_cycles_left (ROB_at c i))
    then set_rob_cycles_left (rob_cycles_left (ROB_at c i) - Z.of_nat n) (ROB_at c i)
    else set_rob_cycles_left (-2)
           (set_rob_current_state_list (Some rob_ready_to_dispatch_list) (ROB_at c i)).
Proof.
  intros Hi Hlt Hst Hk.
  assert (Hgen : length (q_data (ROB (Nat.iter n FrontendStage.frontend c)))
                 = length (q_data (ROB c))
                 /\ ROB_at (Nat.iter n FrontendStage.frontend c) i
                    = if decide (Z.of_nat n <= rob_cycles_left (ROB_at c i))
                      then set_rob_cycles_left (rob_cycles_left (ROB_at c i) - Z.of_nat n)
                             (ROB_at c i)
                      else set_rob_cycles_left (-2)
                             (set_rob_current_state_list (Some rob_ready_to_dispatch_list)
                                (ROB_at c i))).
  { induction n as [| n IH].
    - change (Nat.iter 0 FrontendStage.frontend c) with c.
      split; [done |]. rewrite decide_True by lia.
      change (Z.of_nat 0) with 0. rewrite Z.sub_0_r. by destruct (ROB_at c i).
    - change (Nat.iter (S n) FrontendStage.frontend c)
        with (FrontendStage.frontend (Nat.iter n FrontendStage.frontend c)).
      destruct IH as [IHl IHat].
      destruct (ROB_at_frontend i (Nat.iter n FrontendStage.frontend c)) as [Hl Hat].
      split; [by rewrite Hl |]. rewrite Hat, IHl, IHat. clear Hat IHat Hl IHl.
      destruct (decide (Z.of_nat n <= rob_cycles_left (ROB_at c i))) as [Hn | Hn].
      + destruct (decide ((i < ROB_SIZE)%nat /\ _)) as [_ | Hno];
          [| exfalso; apply Hno; by destruct (ROB_at c i)].
        destruct (ROB_at c i) as [st uop k fc cl fu lf ev ls iq pr ops lsq]. cbn in *.
        destruct (decide (k - Z.of_nat n <= 0)).
        * rewrite decide_False by lia. reflexivity.
        * rewrite decide_True by lia. rewrite W16s_small by lia.
          unfold set_rob_cycles_left. cbn. f_equal. lia.
      + destruct (decide ((i < ROB_SIZE)%nat /\ _)) as [(_ & _ & Hs) | _];
          [by destruct (ROB_at c i) |].
        by rewrite decide_False by lia. }
  apply Hgen.
Qed.

End RobLoops.

Section CompleteFacts.
Context `{HwDef}.

Lemma ROB_at_alter_ROB_eq (f : ReorderBufferEntry -> ReorderBufferEntry) (i : nat) (c : Core) :
  (i < length (q_data (ROB c)))%nat -> ROB_at (alter_ROB f i c) i = f (ROB_at c i).
Proof. intros Hi. by rewrite ROB_at_alter_ROB, decide_True. Qed.

Lemma ROB_at_alter_ROB_other (f : ReorderBufferEntry -> ReorderBufferEntry) (i j : nat)
    (c : Core) :
  ~ (i = j /\ (j < length (q_data (ROB c)))%nat) -> ROB_at (alter_ROB f i c) j = ROB_at c j.
Proof. intros Hi. by rewrite ROB_at_alter_ROB, decide_False. Qed.

(** What one call of [complete()] does to an entry of the issued list. *)
Lemma ROB_at_complete_rob (cluster : Z) (i j : nat) (c : Core) :
  ROB_at (complete_rob cluster i c) j
  = if decide (i = j /\ (j < length (q_data (ROB c)))%nat)
    then (fun r => if decide (W16s (rob_cycles_left r - 1) <= 0)
                   then set_rob_fu 0 (set_rob_forward_cycle 0
                          (set_rob_current_state_list (Some (rob_completed_list cluster))
                             (set_rob_cycles_left (W16s (rob_cycles_left r - 1)) r)))
                   else set_rob_cycles_left (W16s (rob_cycles_left r - 1)) r) (ROB_at c j)
    else ROB_at c j.
Proof.
  unfold complete_rob. cbv zeta.
  destruct (decide (i = j /\ (j < length (q_data (ROB c)))%nat)) as [[<- Hlt] | Hno].
  - rewrite (ROB_at_alter_ROB_eq _ i c) by done.
    cbn [rob_cycles_left set_rob_cycles_left]. cbv beta.
    destruct (decide (W16s (rob_cycles_left (ROB_at c i) - 1) <= 0)) as [Hle | Hgt].
    + rewrite ROB_at_alter_ROB_eq
        by (change (ROB (PhysicalRegister.complete ?p ?x)) with (ROB x);
            unfold ReorderBufferEntry.changestate; by rewrite !length_alter_ROB).
      change (ROB_at (PhysicalRegister.complete ?p ?x) i) with (ROB_at x i).
      unfold ReorderBufferEntry.changestate.
      rewrite ROB_at_alter_ROB_eq by (by rewrite !length_alter_ROB).
      by rewrite ROB_at_alter_ROB_eq.
    + by rewrite ROB_at_alter_ROB_eq.
  - destruct (decide _).
    + rewrite ROB_at_alter_ROB_other
        by (change (ROB (PhysicalRegister.complete ?p ?x)) with (ROB x);
            unfold ReorderBufferEntry.changestate; by rewrite !length_alter_ROB).
      change (ROB_at (PhysicalRegister.complete ?p ?x) j) with (ROB_at x j).
      unfold ReorderBufferEntry.changestate.
      rewrite ROB_at_alter_ROB_other by (by rewrite !length_alter_ROB).
      by rewrite ROB_at_alter_ROB_other.
    + by rewrite ROB_at_alter_ROB_other.
Qed.

Lemma length_complete_rob (cluster : Z) (i : nat) (c : Core) :
  length (q_data (ROB (complete_rob cluster i c))) = length (q_data (ROB c)).
Proof.
  unfold complete_rob, ReorderBufferEntry.changestate. cbv zeta.
  destruct (decide _).
  - rewrite length_alter_ROB.
    change (ROB (PhysicalRegister.complete ?p ?x)) with (ROB x).
    by rewrite !length_alter_ROB.
  - by rewrite length_alter_ROB.
Qed.

Lemma ROB_at_complete (cluster : Z) (j : nat) (c : Core) :
  length (q_data (ROB (complete cluster c))) = length (q_data (ROB c))
  /\ ROB_at (complete cluster c) j
     = if decide ((j < ROB_SIZE)%nat /\ (j < length (q_data (ROB c)))%nat
                  /\ rob_current_state_list (ROB_at c j) = Some (rob_issued_list cluster))
       then if decide (W16s (rob_cycles_left (ROB_at c j) - 1) <= 0)
            then set_rob_fu 0 (set_rob_forward_cycle 0
                   (set_rob_current_state_list (Some (rob_completed_list cluster))
                      (set_rob_cycles_left (W16s (rob_cycles_left (ROB_at c j) - 1))
                         (ROB_at c j))))
            else set_rob_cycles_left (W16s (rob_cycles_left (ROB_at c j) - 1)) (ROB_at c j)
       else ROB_at c j.
Proof.
  unfold complete.
  destruct (rob_loop (complete_rob cluster) _ (ROB_at_complete_rob cluster)
              (length_complete_rob cluster)
              (rob_state_list (rob_issued_list cluster) c) c (NoDup_rob_state_list _ _))
    as [Hl Hat].
  split; [exact Hl |]. rewrite Hat. cbv beta.
  destruct (decide (j ∈ _ /\ _)) as [[Hin Hlt] | Hno].
  - apply elem_of_rob_state_list in Hin as [Hj Hst].
    destruct (decide ((j < ROB_SIZE)%nat /\ _)) as [| Hn]; [done |].
    exfalso. apply Hn. repeat split; assumption.
  - destruct (decide ((j < ROB_SIZE)%nat /\ _)) as [(Hj & Hlt & Hst) |]; [| done].
    exfalso. apply Hno. split; [by apply elem_of_rob_state_list | done].
Qed.

(** [complete()] moves registers to the ready list and does nothing else to
    the register file. *)
Lemma physreg_complete_rob (cluster : Z) (i p : nat) (c : Core) :
  length (physregs (complete_rob cluster i c)) = length (physregs c)
  /\ (physreg_at (complete_rob cluster i c) p = physreg_at c p
      \/ physreg_at (complete_rob cluster i c) p
         = set_physreg_current_state_list (Some physreg_ready_list) (physreg_at c p)).
Proof.
  unfold complete_rob. cbv zeta. destruct (decide _); [| split; [done | by left]].
  change (physregs (alter_ROB ?f ?i ?x)) with (physregs x).
  change (physreg_at (alter_ROB ?f ?i ?x) p) with (physreg_at x p).
  unfold PhysicalRegister.complete, PhysicalRegister.changestate.
  set (q := rob_physreg _).
  change (physregs (alter_physreg ?f q (ReorderBufferEntry.changestate ?l ?i (alter_ROB ?g ?k c))))
    with (alter f q (physregs c)).
  rewrite length_alter. split; [done |].
  unfold physreg_at.
  change (physregs (alter_physreg ?f q (ReorderBufferEntry.changestate ?l ?i (alter_ROB ?g ?k c))))
    with (alter f q (physregs c)).
  rewrite !list_lookup_total_alt, list_lookup_alter.
  destruct (decide (q = p)) as [-> |]; [| by left].
  destruct (physregs c !! p); [by right | by left].
Qed.

Lemma physreg_ready_foldl_complete_rob (cluster : Z) (l : list nat) (p : nat) (c : Core) :
  physreg_current_state_list (physreg_at c p) = Some physreg_ready_list ->
  physreg_current_state_list
    (physreg_at (foldl (fun c rob => complete_rob cluster rob c) c l) p)
  = Some physreg_ready_list.
Proof.
  revert c. induction l as [| i l IH]; intros c Hc; cbn [foldl]; [done |].
  apply IH. destruct (physreg_complete_rob cluster i p c) as [_ [-> | ->]]; [done | reflexivity].
Qed.

Lemma physregs_length_foldl_complete_rob (cluster : Z) (l : list nat) (c : Core) :
  length (physregs (foldl (fun c rob => complete_rob cluster rob c) c l)) = length (physregs c).
Proof.
  revert c. induction l as [| i l IH]; intros c; cbn [foldl]; [done |].
  rewrite IH. apply (physreg_complete_rob cluster i 0%nat c).
Qed.

(** The register of a ROB that completes is on the ready list. *)
Lemma physreg_complete_rob_done (cluster : Z) (i : nat) (c : Core) :
  (i < length (q_data (ROB c)))%nat ->
  (rob_physreg (ROB_at c i) < length (physregs c))%nat ->
  W16s (rob_cycles_left (ROB_at c i) - 1) <= 0 ->
  physreg_current_state_list (physreg_at (complete_rob cluster i c) (rob_physreg (ROB_at c i)))
  = Some physreg_ready_list.
Proof.
  intros Hi Hp Hle. unfold complete_rob. cbv zeta.
  rewrite (ROB_at_alter_ROB_eq _ i c) by done.
  cbn [rob_cycles_left set_rob_cycles_left]. rewrite decide_True by done.
  change (physreg_at (alter_ROB ?f ?k ?x) ?q) with (physreg_at x q).
  unfold ReorderBufferEntry.changestate.
  rewrite ROB_at_alter_ROB_eq by (by rewrite !length_alter_ROB).
  rewrite ROB_at_alter_ROB_eq by done.
  cbn [rob_physreg set_rob_current_state_list set_rob_cycles_left].
  unfold PhysicalRegister.complete, PhysicalRegister.changestate.
  rewrite physreg_at_alter_physreg by done. reflexivity.
Qed.

Lemma physreg_complete_done (cluster : Z) (i : nat) (c : Core) :
  (i < ROB_SIZE)%nat -> (i < length (q_data (ROB c)))%nat ->
  rob_current_state_list (ROB_at c i) = Some (rob_issued_list cluster) ->
  (rob_physreg (ROB_at c i) < length (physregs c))%nat ->
  W16s (rob_cycles_left (ROB_at c i) - 1) <= 0 ->
  physreg_current_state_list (physreg_at (complete cluster c) (rob_physreg (ROB_at c i)))
  = Some physreg_ready_list.
Proof.
  intros Hi Hlt Hst Hp Hle. unfold complete.
  assert (Hin : i ∈ rob_state_list (rob_issued_list cluster) c)
    by (by apply elem_of_rob_state_list).
  pose proof (NoDup_rob_state_list (rob_issued_list cluster) c) as Hnd.
  revert Hin Hnd. generalize (rob_state_list (rob_issued_list cluster) c). intros l.
  set (p := rob_physreg (ROB_at c i)) in *.
  assert (Hpi : rob_physreg (ROB_at c i) = p) by reflexivity.
  assert (Hcl : W16s (rob_cycles_left (ROB_at c i) - 1) <= 0) by exact Hle.
  clearbody p. clear Hle Hst.
  revert c Hlt Hp Hpi Hcl.
  induction l as [| a l IH]; intros c Hlt Hp Hpi Hcl Hin Hnd; cbn [foldl].
  - by apply elem_of_nil in Hin.
  - apply NoDup_cons in Hnd as [Ha Hnd]. apply elem_of_cons in Hin as [<- | Hin].
    + apply physreg_ready_foldl_complete_rob. rewrite <- Hpi.
      by apply physreg_complete_rob_done; rewrite ?Hpi.
    + assert (Hne : a <> i) by (intros ->; done).
      apply IH; try done.
      * by rewrite length_complete_rob.
      * by rewrite (proj1 (physreg_complete_rob cluster a 0%nat c)).
      * rewrite ROB_at_complete_rob. destruct (decide (a = i /\ _)); [tauto | exact Hpi].
      * rewrite ROB_at_complete_rob. destruct (decide (a = i /\ _)); [tauto | exact Hcl].
Qed.


(** X22. A uop leaves its functional unit when its latency has elapsed: an
    entry on the issued list of a cluster with [cycles_left = k >= 1] is counted
    down by one per call of [complete()], and the [k]-th call moves it to the
    completed list of the cluster with [cycles_left], [forward_cycle] and [fu]
    at zero and puts its destination register on the ready list. Later calls
    leave the entry alone and the register on the ready list. *)
Theorem uop_completes_after_its_latency (cluster : Z) (n i : nat) (c : Core) :
  (i < ROB_SIZE)%nat -> (i < length (q_data (ROB c)))%nat ->
  rob_current_state_list (ROB_at c i) = Some (rob_issued_list cluster) ->
  1 <= rob_cycles_left (ROB_at c i) < 2 ^ 15 ->
  (rob_physreg (ROB_at c i) < length (physregs c))%nat ->
  ROB_at (Nat.iter n (complete cluster) c) i
  = (if decide (Z.of_nat n < rob_cycles_left (ROB_at c i))
     then set_rob_cycles_left (rob_cycles_left (ROB_at c i) - Z.of_nat n) (ROB_at c i)
     else set_rob_fu 0 (set_rob_forward_cycle 0
            (set_rob_current_state_list (Some (rob_completed_list cluster))
               (set_rob_cycles_left 0 (ROB_at c i)))))
  /\ (rob_cycles_left (ROB_at c i) <= Z.of_nat n ->
      physreg_current_state_list
        (physreg_at (Nat.iter n (complete cluster) c) (rob_physreg (ROB_at c i)))
      = Some physreg_ready_list).
Proof.
  intros Hi Hlt Hst Hk Hp.
  assert (Hgen : length (q_data (ROB (Nat.iter n (complete cluster) c)))
                 = length (q_data (ROB c))
                 /\ length (physregs (Nat.iter n (complete cluster) c)) = length (physregs c)
                 /\ ROB_at (Nat.iter n (complete cluster) c) i
                    = (if decide (Z.of_nat n < rob_cycles_left (ROB_at c i))
                       then set_rob_cycles_left (rob_cycles_left (ROB_at c i) - Z.of_nat n)
                              (ROB_at c i)
                       else set_rob_fu 0 (set_rob_forward_cycle 0
                              (set_rob_current_state_list (Some (rob_completed_list cluster))
                                 (set_rob_cycles_left 0 (ROB_at c i)))))
                 /\ (rob_cycles_left (ROB_at c i) <= Z.of_nat n ->
                     physreg_current_state_list
                       (physreg_at (Nat.iter n (complete cluster) c)
                          (rob_physreg (ROB_at c i)))
                     = Some physreg_ready_list)).
  { induction n as [| n IH].
    - change (Nat.iter 0 (complete cluster) c) with c.
      split; [done |]. split; [done |]. split; [| lia].
      rewrite decide_True by lia. change (Z.of_nat 0) with 0. rewrite Z.sub_0_r.
      by destruct (ROB_at c i).
    - change (Nat.iter (S n) (complete cluster) c)
        with (complete cluster (Nat.iter n (complete cluster) c)).
      destruct IH as (IHl & IHp & IHat & IHr).
      set (cn := Nat.iter n (complete cluster) c) in *. clearbody cn.
      destruct (ROB_at_complete cluster i cn) as [Hl Hat].
      split; [by rewrite Hl |].
      split; [unfold complete; by rewrite physregs_length_foldl_complete_rob |].
      destruct (decide (Z.of_nat n < rob_cycles_left (ROB_at c i))) as [Hn | Hn].
      + assert (Hcl : rob_cycles_left (ROB_at cn i)
                      = rob_cycles_left (ROB_at c i) - Z.of_nat n) by (by rewrite IHat).
        assert (Hstn : rob_current_state_list (ROB_at cn i) = Some (rob_issued_list cluster))
          by (rewrite IHat; by destruct (ROB_at c i)).
        assert (Hpr : rob_physreg (ROB_at cn i) = rob_physreg (ROB_at c i))
          by (rewrite IHat; by destruct (ROB_at c i)).
        assert (Hw : W16s (rob_cycles_left (ROB_at cn i) - 1)
                     = rob_cycles_left (ROB_at c i) - Z.of_nat (S n))
          by (rewrite Hcl, W16s_small by lia; lia).
        split.
        * rewrite Hat.
          destruct (decide ((i < ROB_SIZE)%nat /\ _)) as [_ | Hno];
            [| exfalso; apply Hno; repeat split; (lia || done)].
          rewrite Hw, IHat.
          destruct (decide (rob_cycles_left (ROB_at c i) - Z.of_nat (S n) <= 0)).
          -- rewrite decide_False by lia.
             replace (rob_cycles_left (ROB_at c i) - Z.of_nat (S n)) with 0 by lia.
             by destruct (ROB_at c i).
          -- rewrite decide_True by lia. by destruct (ROB_at c i).
        * intros Hdone. rewrite <- Hpr.
          apply physreg_complete_done; rewrite ?Hw; try done; try lia.
      + split.
        * rewrite Hat.
          destruct (decide ((i < ROB_SIZE)%nat /\ _)) as [(_ & _ & Hs) | _].
          -- rewrite IHat in Hs. by destruct (ROB_at c i).
          -- rewrite IHat. by rewrite decide_False by lia.
        * intros _. unfold complete. apply physreg_ready_foldl_complete_rob.
          apply IHr. lia. }
  destruct Hgen as (_ & _ & Hat & Hr). by split.
Qed.

End CompleteFacts.

(* --------------------------------------------------------------------- *)
(** ** Reference counts through the rename tables *)
(* --------------------------------------------------------------------- *)

Section RenameRefcounts.
Context `{HwDef}.

Lemma check_refcounts_false_iff (c : Core) :
  check_refcounts c = false
  <-> forall i, (i < PHYS_REG_FILE_SIZE)%nat ->
        physreg_refcount (physreg_at c i)
        = if decide (i = PHYS_REG_NULL) then 0 else reference_sum c i.
Proof.
  unfold check_refcounts. rewrite bool_decide_eq_false, Exists_exists. split.
  - intros Hno i Hi. rewrite <- expected_refcounts_lookup by exact Hi.
    destruct (decide (physreg_refcount (physreg_at c i) = expected_refcounts c !!! i)) as [| Hne];
      [done |].
    exfalso. apply Hno. exists i. split; [| exact Hne].
    apply elem_of_seq. lia.
  - intros Hall (i & Hi & Hne). apply elem_of_seq in Hi.
    apply Hne. rewrite expected_refcounts_lookup by lia. apply Hall. lia.
Qed.

(** A rename table read slot by slot. *)
Lemma rrt_slots (l : list nat) :
  length l = TRANSREG_COUNT -> (fun i => l !!! i) <$> seq 0 TRANSREG_COUNT = l.
Proof.
  intros Hlen. apply list_eq. intros k. rewrite list_lookup_fmap.
  destruct (decide (k < TRANSREG_COUNT)%nat) as [Hk | Hk].
  - rewrite lookup_seq_lt by done. cbn.
    destruct (lookup_lt_is_Some_2 l k) as [x Hx]; [lia |].
    by rewrite list_lookup_total_alt, Hx.
  - rewrite lookup_seq_ge by lia. cbn. symmetry. apply lookup_ge_None. lia.
Qed.

Lemma count_refs_insert (i a p : nat) (l : list nat) :
  (a < length l)%nat ->
  count_refs i (<[a := p]> l)
  = count_refs i l - (if decide (l !!! a = i) then 1 else 0) + (if decide (p = i) then 1 else 0).
Proof.
  revert a. induction l as [| x l IH]; intros a Ha; cbn [length] in Ha; [lia |].
  destruct a as [| a].
  - cbn. rewrite !count_refs_cons. lia.
  - cbn [insert list_insert]. change (<[S a := p]> (x :: l)) with (x :: <[a := p]> l).
    rewrite !count_refs_cons, IH by lia.
    change ((x :: l) !!! S a) with (l !!! a). lia.
Qed.

Lemma count_refs_elem (i a : nat) (l : list nat) :
  (a < length l)%nat -> l !!! a = i -> 1 <= count_refs i l.
Proof.
  revert a. induction l as [| x l IH]; intros a Ha Hi; cbn [length] in Ha; [lia |].
  rewrite count_refs_cons. destruct a as [| a].
  - cbn in Hi. subst x. rewrite decide_True by done.
    pose proof (count_refs_bound i l). lia.
  - change ((x :: l) !!! S a) with (l !!! a) in Hi.
    specialize (IH a ltac:(lia) Hi). destruct (decide (x = i)); lia.
Qed.

Lemma length_indices_until (size stop : nat) (step : Z) (fuel i : nat) :
  (length (indices_until size stop step fuel i) <= fuel)%nat.
Proof.
  revert i. induction fuel as [| fuel IH]; intros i; cbn [indices_until length]; [lia |].
  destruct (decide (i = stop)); cbn [length]; [lia |]. specialize (IH (add_index_modulo i step size)).
  lia.
Qed.

(** No register has more references than there are slots to hold them. *)
Lemma reference_sum_bound (c : Core) (i : nat) :
  0 <= reference_sum c i
  <= Z.of_nat (MAX_OPERANDS * ROB_SIZE + 2 * TRANSREG_COUNT).
Proof.
  unfold reference_sum.
  pose proof (count_refs_bound i
                (foreach_forward ROB_SIZE (ROB c) ≫=
                   (fun i => (fun j => rob_operands (ROB_at c i) !!! j) <$> seq 0 MAX_OPERANDS)))
    as H1.
  pose proof (count_refs_bound i (specrrt_at c <$> seq 0 TRANSREG_COUNT)) as H2.
  pose proof (count_refs_bound i (commitrrt_at c <$> seq 0 TRANSREG_COUNT)) as H3.
  rewrite length_fmap, length_seq in H2, H3.
  assert (Hl : (length (foreach_forward ROB_SIZE (ROB c) ≫=
                   (fun i => (fun j => rob_operands (ROB_at c i) !!! j) <$> seq 0 MAX_OPERANDS))
                <= MAX_OPERANDS * ROB_SIZE)%nat).
  { unfold foreach_forward.
    pose proof (length_indices_until ROB_SIZE (q_tail (ROB c)) 1 ROB_SIZE (q_head (ROB c))) as Hf.
    revert Hf. generalize (indices_until ROB_SIZE (q_tail (ROB c)) 1 ROB_SIZE (q_head (ROB c))).
    intros l. generalize ROB_SIZE. induction l as [| x l IH]; intros n Hn; [cbn; lia |].
    cbn [length] in Hn. rewrite bind_cons, length_app, length_fmap, length_seq.
    destruct n as [| n]; [lia |]. specialize (IH n ltac:(lia)).
    change MAX_OPERANDS with 4%nat in *. lia. }
  lia.
Qed.

Lemma refcount_addref (r i : nat) (c : Core) :
  (i < length (physregs c))%nat ->
  physreg_refcount (physreg_at (PhysicalRegister.addref r c) i)
  = if decide (r = i /\ i <> PHYS_REG_NULL)
    then W16s (physreg_refcount (physreg_at c i) + 1)
    else physreg_refcount (physreg_at c i).
Proof.
  intros Hi. destruct (decide (r = i)) as [-> | Hne].
  - unfold PhysicalRegister.addref, PhysicalRegister.nonnull.
    destruct (decide (i = PHYS_REG_NULL)) as [He | He].
    + rewrite bool_decide_eq_false_2 by (intros Hn; by apply Hn).
      rewrite decide_False by (intros [_ Hn]; by apply Hn). done.
    + rewrite bool_decide_eq_true_2 by done. rewrite decide_True by done.
      by rewrite physreg_at_alter_physreg.
  - rewrite addref_other by done. rewrite decide_False by (intros [Hn _]; by apply Hne). done.
Qed.

Lemma refcount_unref (r i : nat) (c : Core) :
  (i < length (physregs c))%nat ->
  physreg_refcount (physreg_at (PhysicalRegister.unref r c) i)
  = if decide (r = i /\ i <> PHYS_REG_NULL)
    then W16s (physreg_refcount (physreg_at c i) - 1)
    else physreg_refcount (physreg_at c i).
Proof.
  intros Hi. destruct (decide (r = i)) as [-> | Hne].
  - unfold PhysicalRegister.unref, PhysicalRegister.nonnull.
    destruct (decide (i = PHYS_REG_NULL)) as [He | He].
    + rewrite bool_decide_eq_false_2 by (intros Hn; by apply Hn).
      rewrite decide_False by (intros [_ Hn]; by apply Hn). done.
    + rewrite bool_decide_eq_true_2 by done. rewrite decide_True by done.
      by rewrite physreg_at_alter_physreg.
  - rewrite unref_other by done. rewrite decide_False by (intros [Hn _]; by apply Hne). done.
Qed.

Lemma unref_frame {B} (view : Core -> B) :
  (forall x c, view (set_physregs x c) = view c) ->
  forall r c, view (PhysicalRegister.unref r c) = view c.
Proof.
  intros Hv r c. unfold PhysicalRegister.unref.
  destruct (PhysicalRegister.nonnull r); [apply Hv | done].
Qed.

Lemma physregs_length_unref r c :
  length (physregs (PhysicalRegister.unref r c)) = length (physregs c).
Proof.
  unfold PhysicalRegister.unref. destruct (PhysicalRegister.nonnull r); [| done].
  apply physregs_length_alter.
Qed.

(** The counter of [i] after [unref] on [old] and [addref] on [p], when it
    counted [n] references before and counts [n'] after. *)
Lemma refcount_moved (old p i : nat) (n : Z) :
  i <> PHYS_REG_NULL ->
  (old = i -> 1 <= n) -> 0 <= n ->
  n - (if decide (old = i) then 1 else 0) + (if decide (p = i) then 1 else 0) < 2 ^ 15 ->
  (let r1 := if decide (old = i /\ i <> PHYS_REG_NULL) then W16s (n - 1) else n in
   if decide (p = i /\ i <> PHYS_REG_NULL) then W16s (r1 + 1) else r1)
  = n - (if decide (old = i) then 1 else 0) + (if decide (p = i) then 1 else 0).
Proof.
  intros Hnn Hold Hn. cbv zeta.
  destruct (decide (old = i)) as [Ho | Ho]; destruct (decide (p = i)) as [Hp | Hp]; intros Hb;
    rewrite ?(decide_True (P := old = i /\ _)) by done;
    rewrite ?(decide_False (P := old = i /\ _)) by (intros [? _]; done);
    rewrite ?(decide_True (P := p = i /\ _)) by done;
    rewrite ?(decide_False (P := p = i /\ _)) by (intros [? _]; done);
    try specialize (Hold Ho);
    rewrite ?(W16s_small (n - 1)) by lia; rewrite ?W16s_small by lia; lia.
Qed.

Lemma reference_sum_eq (c c' : Core) (i : nat) (ds dc : Z) :
  ROB c' = ROB c ->
  count_refs i (specrrt_at c' <$> seq 0 TRANSREG_COUNT)
  = count_refs i (specrrt_at c <$> seq 0 TRANSREG_COUNT) + ds ->
  count_refs i (commitrrt_at c' <$> seq 0 TRANSREG_COUNT)
  = count_refs i (commitrrt_at c <$> seq 0 TRANSREG_COUNT) + dc ->
  reference_sum c' i = reference_sum c i + ds + dc.
Proof.
  intros HR Hs Hc. unfold reference_sum, ROB_at. rewrite HR, Hs, Hc. lia.
Qed.

Lemma specrrt_rename_eq (a p : nat) (c : Core) :
  (a < length (specrrt c))%nat ->
  specrrt_rename a p c
  = PhysicalRegister.addref p
      (set_specrrt (<[a := p]> (specrrt c)) (PhysicalRegister.unref (specrrt_at c a) c)).
Proof.
  intros Ha. unfold specrrt_rename, PhysicalRegister.addspecref, PhysicalRegister.unspecref.
  cbv zeta. unfold specrrt_at at 1. cbn. rewrite (unref_frame specrrt) by done.
  by rewrite list_lookup_total_insert_eq by lia.
Qed.

Lemma commitrrt_rename_eq (a p : nat) (c : Core) :
  (a < length (commitrrt c))%nat ->
  commitrrt_rename a p c
  = PhysicalRegister.addref p
      (set_commitrrt (<[a := p]> (commitrrt c)) (PhysicalRegister.unref (commitrrt_at c a) c)).
Proof.
  intros Ha. unfold commitrrt_rename, PhysicalRegister.addcommitref, PhysicalRegister.uncommitref.
  cbv zeta. unfold commitrrt_at at 1. cbn. rewrite (unref_frame commitrrt) by done.
  by rewrite list_lookup_total_insert_eq by lia.
Qed.

Lemma refcount_after_move (g : Core -> Core) (old p i : nat) (c : Core) :
  (forall x, physregs (g x) = physregs x) ->
  (i < length (physregs c))%nat ->
  physreg_refcount (physreg_at (PhysicalRegister.addref p (g (PhysicalRegister.unref old c))) i)
  = let n := physreg_refcount (physreg_at c i) in
    let r1 := if decide (old = i /\ i <> PHYS_REG_NULL) then W16s (n - 1) else n in
    if decide (p = i /\ i <> PHYS_REG_NULL) then W16s (r1 + 1) else r1.
Proof.
  intros Hg Hi. rewrite refcount_addref by (rewrite Hg, physregs_length_unref; lia).
  unfold physreg_at at 1 2. rewrite Hg. fold (physreg_at (PhysicalRegister.unref old c) i).
  by rewrite refcount_unref by lia.
Qed.

(** The references a rename table holds, after one slot is pointed elsewhere. *)
Lemma count_refs_slots_insert (a p i : nat) (l : list nat) :
  length l = TRANSREG_COUNT -> (a < TRANSREG_COUNT)%nat ->
  count_refs i ((fun k => <[a := p]> l !!! k) <$> seq 0 TRANSREG_COUNT)
  = count_refs i ((fun k => l !!! k) <$> seq 0 TRANSREG_COUNT)
    + (- (if decide (l !!! a = i) then 1 else 0) + (if decide (p = i) then 1 else 0)).
Proof.
  intros Hl Ha. rewrite !rrt_slots by (rewrite ?length_insert; done).
  rewrite count_refs_insert by lia. lia.
Qed.

Lemma reference_sum_slot (a i : nat) (c : Core) (l : list nat) :
  length l = TRANSREG_COUNT -> (a < TRANSREG_COUNT)%nat -> l !!! a = i ->
  (l = specrrt c \/ l = commitrrt c) -> 1 <= reference_sum c i.
Proof.
  intros Hl Ha Hi Hor. unfold reference_sum.
  pose proof (count_refs_bound i
     (foreach_forward ROB_SIZE (ROB c) ≫=
        (fun i => (fun j => rob_operands (ROB_at c i) !!! j) <$> seq 0 MAX_OPERANDS))) as H1.
  pose proof (count_refs_bound i (specrrt_at c <$> seq 0 TRANSREG_COUNT)) as H2.
  pose proof (count_refs_bound i (commitrrt_at c <$> seq 0 TRANSREG_COUNT)) as H3.
  assert (He : 1 <= count_refs i l) by (apply (count_refs_elem i a); [lia | done]).
  destruct Hor as [-> | ->].
  - change (specrrt_at c) with (fun k => specrrt c !!! k) in *.
    rewrite (rrt_slots (specrrt c)) in * by done. lia.
  - change (commitrrt_at c) with (fun k => commitrrt c !!! k) in *.
    rewrite (rrt_slots (commitrrt c)) in * by done. lia.
Qed.

(** X23. Renaming keeps the reference counts right. Where the counters agree
    with what [check_refcounts] counts, they still do after a slot of the
    speculative or of the committed rename table is pointed at another
    register of the file: the old register loses the reference the slot held
    and the new one gains it. Provided the slots of the ROB and of the two
    tables are fewer than a signed 16 bit counter can count, no counter
    wraps. *)
Theorem rename_keeps_refcounts_consistent (a p : nat) (c : Core) :
  length (physregs c) = PHYS_REG_FILE_SIZE ->
  length (specrrt c) = TRANSREG_COUNT ->
  length (commitrrt c) = TRANSREG_COUNT ->
  (a < TRANSREG_COUNT)%nat ->
  (p < PHYS_REG_FILE_SIZE)%nat ->
  (specrrt_at c a < PHYS_REG_FILE_SIZE)%nat ->
  (commitrrt_at c a < PHYS_REG_FILE_SIZE)%nat ->
  Z.of_nat (MAX_OPERANDS * ROB_SIZE + 2 * TRANSREG_COUNT) < 2 ^ 15 ->
  check_refcounts c = false ->
  check_refcounts (specrrt_rename a p c) = false
  /\ check_refcounts (commitrrt_rename a p c) = false.
Proof.
  intros Hlen Hls Hlc Ha Hp _ _ Hbound Hok.
  pose proof (proj1 (check_refcounts_false_iff c) Hok) as Hc.
  split; apply check_refcounts_false_iff; intros i Hi; specialize (Hc i Hi).
  - rewrite specrrt_rename_eq by lia.
    set (c' := PhysicalRegister.addref p _).
    assert (Hsum : reference_sum c' i
                   = reference_sum c i
                     + (- (if decide (specrrt c !!! a = i) then 1 else 0)
                        + (if decide (p = i) then 1 else 0)) + 0).
    { apply reference_sum_eq.
      - unfold c'. rewrite (addref_frame ROB) by done. cbn. by rewrite (unref_frame ROB).
      - unfold specrrt_at, c'. rewrite (addref_frame specrrt) by done. cbn.
        by apply count_refs_slots_insert.
      - unfold commitrrt_at, c'. rewrite (addref_frame commitrrt) by done. cbn.
        rewrite (unref_frame commitrrt) by done. lia. }
    pose proof (reference_sum_bound c i) as Hb.
    pose proof (reference_sum_bound c' i) as Hb'.
    unfold c' in *. rewrite (refcount_after_move (set_specrrt _)) by (done || lia).
    destruct (decide (i = PHYS_REG_NULL)) as [He | He].
    + cbv zeta. rewrite !decide_False by (intros [_ Hn]; by apply Hn). done.
    + rewrite Hsum, Hc. unfold specrrt_at.
      rewrite refcount_moved; try done; try lia.
      intros Ho. apply (reference_sum_slot a i c (specrrt c)); auto.
  - rewrite commitrrt_rename_eq by lia.
    set (c' := PhysicalRegister.addref p _).
    assert (Hsum : reference_sum c' i
                   = reference_sum c i + 0
                     + (- (if decide (commitrrt c !!! a = i) then 1 else 0)
                        + (if decide (p = i) then 1 else 0))).
    { apply reference_sum_eq.
      - unfold c'. rewrite (addref_frame ROB) by done. cbn. by rewrite (unref_frame ROB).
      - unfold specrrt_at, c'. rewrite (addref_frame specrrt) by done. cbn.
        rewrite (unref_frame specrrt) by done. lia.
      - unfold commitrrt_at, c'. rewrite (addref_frame commitrrt) by done. cbn.
        by apply count_refs_slots_insert. }
    pose proof (reference_sum_bound c i) as Hb.
    pose proof (reference_sum_bound c' i) as Hb'.
    unfold c' in *. rewrite (refcount_after_move (set_commitrrt _)) by (done || lia).
    destruct (decide (i = PHYS_REG_NULL)) as [He | He].
    + cbv zeta. rewrite !decide_False by (intros [_ Hn]; by apply Hn). done.
    + rewrite Hsum, Hc. unfold commitrrt_at.
      rewrite refcount_moved; try done; try lia.
      intros Ho. apply (reference_sum_slot a i c (commitrrt c)); auto.
Qed.

End RenameRefcounts.

(* --------------------------------------------------------------------- *)
(** ** Recycling of physical registers *)
(* --------------------------------------------------------------------- *)

Section Recycling.
Context `{HwDef}.

Lemma elem_of_physreg_state_list (l : physreg_list) (c : Core) (i : nat) :
  i ∈ physreg_state_list l c
  <-> (i < PHYS_REG_FILE_SIZE)%nat /\ physreg_current_state_list (physreg_at c i) = Some l.
Proof.
  unfold physreg_state_list. rewrite list_elem_of_filter, elem_of_seq. intuition lia.
Qed.

Lemma NoDup_physreg_state_list (l : physreg_list) (c : Core) : NoDup (physreg_state_list l c).
Proof. unfold physreg_state_list. apply NoDup_filter, NoDup_seq. Qed.

(** One step of the sweep, as a rewrite of its own register. *)
Lemma physregs_free_step (k : nat) (c : Core) :
  physregs (if PhysicalRegister.referenced (physreg_at c k) then c
            else bump "commit_freereg_recycled" 1 (PhysicalRegister.free k c))
  = alter (fun r => if PhysicalRegister.referenced r then r
                    else set_physreg_all_consumers_sourced_from_bypass true
                           (set_physreg_refcount 0 (set_physreg_rob 0%nat
                             (set_physreg_current_state_list (Some physreg_free_list) r))))
      k (physregs c).
Proof.
  unfold physreg_at. destruct (PhysicalRegister.referenced (physregs c !!! k)) eqn:Href.
  - apply list_eq. intros j. rewrite list_lookup_alter.
    destruct (decide (k = j)) as [<- | Hne]; [| done].
    rewrite list_lookup_total_alt in Href.
    destruct (physregs c !! k) as [r |]; cbn in *; [| done]. by rewrite Href.
  - change (physregs (bump ?n ?v ?x)) with (physregs x).
    unfold PhysicalRegister.free, PhysicalRegister.changestate, alter_physreg. cbn.
    rewrite list_alter_alter_eq. apply list_alter_ext; [| done].
    intros r Hr. rewrite list_lookup_total_alt, Hr in Href. cbn in Href.
    rewrite Href. by destruct r.
Qed.

(** X24. The sweep of the pendingfree list. At the top of [commit()] a register
    is freed exactly when it is on the pendingfree list and its reference
    counter is not positive: it goes to the free list with its counter and its
    ROB link cleared. Every other register is left as it was, so a register
    that is still referenced is never recycled, and afterwards no unreferenced
    register is left on the pendingfree list. The sweep touches nothing but
    the register file and its statistics counter. *)
Theorem free_unreferenced_frees_exactly_the_unreferenced (c : Core) :
  length (physregs c) = PHYS_REG_FILE_SIZE ->
  let c' := free_unreferenced c in
  (forall i, (i < PHYS_REG_FILE_SIZE)%nat ->
     physreg_at c' i
     = if decide (physreg_current_state_list (physreg_at c i) = Some physreg_pendingfree_list
                  /\ physreg_refcount (physreg_at c i) <= 0)
       then set_physreg_all_consumers_sourced_from_bypass true
              (set_physreg_refcount 0 (set_physreg_rob 0%nat
                (set_physreg_current_state_list (Some physreg_free_list) (physreg_at c i))))
       else physreg_at c i)
  /\ (forall i, i ∈ physreg_state_list physreg_pendingfree_list c' ->
        0 < physreg_refcount (physreg_at c' i))
  /\ length (physregs c') = PHYS_REG_FILE_SIZE
  /\ (ROB c', LSQ c', specrrt c', commitrrt c', ctx_commitarf c', memory c', sim_cycle c')
     = (ROB c, LSQ c, specrrt c, commitrrt c, ctx_commitarf c, memory c, sim_cycle c).
Proof.
  intros Hlen c'.
  assert (Hat : forall i, (i < PHYS_REG_FILE_SIZE)%nat ->
     physreg_at c' i
     = if decide (physreg_current_state_list (physreg_at c i) = Some physreg_pendingfree_list
                  /\ physreg_refcount (physreg_at c i) <= 0)
       then set_physreg_all_consumers_sourced_from_bypass true
              (set_physreg_refcount 0 (set_physreg_rob 0%nat
                (set_physreg_current_state_list (Some physreg_free_list) (physreg_at c i))))
       else physreg_at c i).
  { intros i Hi. unfold c', free_unreferenced, physreg_at at 1.
    rewrite list_lookup_total_alt.
    rewrite (physregs_foldl_alter _ _ physregs_free_step)
      by apply NoDup_physreg_state_list.
    destruct (lookup_lt_is_Some_2 (physregs c) i) as [r Hr]; [lia |].
    unfold physreg_at. rewrite list_lookup_total_alt, Hr. cbn.
    pose proof (elem_of_physreg_state_list physreg_pendingfree_list c i) as Hel.
    unfold physreg_at in Hel. rewrite list_lookup_total_alt, Hr in Hel. cbn in Hel.
    unfold PhysicalRegister.referenced.
    destruct (decide (i ∈ _)) as [Hin | Hni].
    - apply Hel in Hin as [_ Hst]. case_bool_decide.
      + rewrite decide_False by lia. done.
      + rewrite decide_True by (split; [done | lia]). done.
    - rewrite decide_False; [done |]. intros [Hst _]. apply Hni, Hel. done. }
  split; [exact Hat |]. split; [| split].
  - intros i [Hi Hst]%elem_of_physreg_state_list. rewrite Hat in Hst |- * by done.
    destruct (decide _) as [[_ _] | Hno]; [by destruct (physreg_at c i) |].
    destruct (decide (0 < physreg_refcount (physreg_at c i))); [done |].
    exfalso. apply Hno. split; [done | lia].
  - unfold c', free_unreferenced. rewrite physregs_length_foldl; [done |].
    intros x a. rewrite physregs_free_step. apply length_alter.
  - unfold c', free_unreferenced.
    apply (foldl_frame (fun c => (ROB c, LSQ c, specrrt c, commitrrt c, ctx_commitarf c,
                                   memory c, sim_cycle c))).
    intros x a. by destruct (PhysicalRegister.referenced _).
Qed.

End Recycling.

Section MoreWitnesses.
#[local] Existing Instance example_hw.

Lemma PhysicalRegisterFile_reset_keeps_values_witness :
  physreg_data (physreg_at (PhysicalRegisterFile_reset excepting_core) 40)
  = (if decide (40%nat = PHYS_REG_NULL) then 0 else physreg_data (physreg_at excepting_core 40))
  /\ physreg_flags (physreg_at (PhysicalRegisterFile_reset excepting_core) 40)
     = physreg_flags (physreg_at excepting_core 40)
  /\ physreg_archreg (physreg_at (PhysicalRegisterFile_reset excepting_core) 40)
     = physreg_archreg (physreg_at excepting_core 40)
  /\ physreg_refcount (physreg_at (PhysicalRegisterFile_reset excepting_core) 40) = 0
  /\ physreg_rob (physreg_at (PhysicalRegisterFile_reset excepting_core) 40) = 0%nat
  /\ physreg_all_consumers_sourced_from_bypass
       (physreg_at (PhysicalRegisterFile_reset excepting_core) 40) = true
  /\ physreg_current_state_list (physreg_at (PhysicalRegisterFile_reset excepting_core) 40)
     = Some (if decide (PHYS_REG_ARCH_BASE <= 40 \/ 40%nat = PHYS_REG_NULL)%nat
             then physreg_arch_list else physreg_free_list).
Proof.
  apply (PhysicalRegisterFile_reset_keeps_values excepting_core 40); vm_compute; lia.
Defined.

Lemma flush_pipeline_discards_in_flight_only_witness :
  foreach_forward ROB_SIZE (ROB (flush_pipeline 4096 branch_and_next_core)) = []
  /\ q_count (ROB (flush_pipeline 4096 branch_and_next_core)) = 0%nat
  /\ fetchrip (flush_pipeline 4096 branch_and_next_core) = 4096
  /\ specrrt (flush_pipeline 4096 branch_and_next_core) = RegisterRenameTable_reset.
Proof.
  assert (Hlen : length (physregs branch_and_next_core) = PHYS_REG_FILE_SIZE)
    by (vm_compute; reflexivity).
  pose proof (flush_pipeline_discards_in_flight_only 4096 branch_and_next_core Hlen)
    as ((He & Hc & _) & (_ & Hr & _) & (Hs & _) & _).
  exact (conj He (conj Hc (conj Hr Hs))).
Defined.

Lemma architectural_state_round_trip_witness :
  commitarf_at (core_to_external_state
                  (external_to_core_state (flush_pipeline 4096 loaded_context_core))) 5
  = commitarf_at loaded_context_core 5.
Proof.
  apply (architectural_state_round_trip 4096 loaded_context_core 5);
    try (vm_compute; first [reflexivity | lia]).
  intros Hin. vm_compute in Hin.
  repeat (apply elem_of_cons in Hin as [Hin | Hin]; [discriminate Hin |]).
  by apply elem_of_nil in Hin.
Defined.

Lemma frontend_holds_uop_for_its_stages_witness :
  ROB_at (Nat.iter 4 FrontendStage.frontend frontend_core) 0
  = if decide (Z.of_nat 4 <= rob_cycles_left (ROB_at frontend_core 0))
    then set_rob_cycles_left (rob_cycles_left (ROB_at frontend_core 0) - Z.of_nat 4)
           (ROB_at frontend_core 0)
    else set_rob_cycles_left (-2)
           (set_rob_current_state_list (Some rob_ready_to_dispatch_list)
              (ROB_at frontend_core 0)).
Proof.
  apply (frontend_holds_uop_for_its_stages 4 0 frontend_core);
    vm_compute; first [reflexivity | lia | split; congruence].
Defined.

Lemma uop_completes_after_its_latency_witness :
  ROB_at (Nat.iter 2 (complete 0) issued_core) 0
  = (if decide (Z.of_nat 2 < rob_cycles_left (ROB_at issued_core 0))
     then set_rob_cycles_left (rob_cycles_left (ROB_at issued_core 0) - Z.of_nat 2)
            (ROB_at issued_core 0)
     else set_rob_fu 0 (set_rob_forward_cycle 0
            (set_rob_current_state_list (Some (rob_completed_list 0))
               (set_rob_cycles_left 0 (ROB_at issued_core 0)))))
  /\ (rob_cycles_left (ROB_at issued_core 0) <= Z.of_nat 2 ->
      physreg_current_state_list
        (physreg_at (Nat.iter 2 (complete 0) issued_core) (rob_physreg (ROB_at issued_core 0)))
      = Some physreg_ready_list).
Proof.
  apply (uop_completes_after_its_latency 0 2 0 issued_core);
    vm_compute; first [reflexivity | lia | split; congruence].
Defined.

Lemma rename_keeps_refcounts_consistent_witness :
  check_refcounts (specrrt_rename 5 40 example_core) = false
  /\ check_refcounts (commitrrt_rename 5 40 example_core) = false.
Proof.
  apply (rename_keeps_refcounts_consistent 5 40 example_core);
    vm_compute; first [reflexivity | lia].
Defined.

Lemma free_unreferenced_frees_exactly_the_unreferenced_witness :
  physreg_current_state_list (physreg_at (free_unreferenced pendingfree_core) 8)
  = Some physreg_free_list
  /\ physreg_current_state_list (physreg_at (free_unreferenced pendingfree_core) 9)
     = Some physreg_pendingfree_list
  /\ length (physregs (free_unreferenced pendingfree_core)) = PHYS_REG_FILE_SIZE.
Proof.
  assert (Hlen : length (physregs pendingfree_core) = PHYS_REG_FILE_SIZE)
    by (vm_compute; reflexivity).
  pose proof (free_unreferenced_frees_exactly_the_unreferenced pendingfree_core Hlen)
    as (Hat & _ & Hl & _).
  split; [| split; [| exact Hl]].
  - rewrite (Hat 8%nat) by (vm_compute; lia). vm_compute. reflexivity.
  - rewrite (Hat 9%nat) by (vm_compute; lia). vm_compute. reflexivity.
Defined.

End MoreWitnesses.

